(** * DuMMForceFieldSubsystem: a shallow embedding and its properties

    The definitions below follow
    [Molecular/src/DuMMForceFieldSubsystem.cpp].  Conventions:

    - the integer index types ([DuMM::AtomIndex], [DuMM::AtomClassIndex],
      [MobilizedBodyIndex], ...) are [Z], with [-1] the invalid index;
    - [Real] is the type [R] of real numbers; a [Real] field that the
      source can leave at NaN is an [option R], with [None] for NaN;
    - [std::vector] is [list], indexed through [vec_at]; [std::map] is
      [gmap], [std::set] is [gset];
    - a call that throws returns [Thrown]; an access outside a vector,
      which the source does not check, returns [OutOfRange];
    - the library functions [std::pow], [UnitVec3::perp] and [std::atan2]
      are variables of the sections that use them;
    - the function-local [static] object of topology realization is a
      cell passed from one turn of the loops to the next, empty until its
      declaration is first executed;
    - the force kernel is its loops with their [continue] tests; what is
      computed for a term is a parameter of the loops, instantiated by
      the recording of the term where terms are counted. *)

From Stdlib Require Import Reals Lra ZArith.
From stdpp Require Import base decidable option list gmap sorting.

#[local] Set Warnings "-clear-no-such-hyp".

Local Open Scope Z_scope.

(* ===================================================================== *)
(** * Part I: definitions                                                *)
(* ===================================================================== *)

(** ** Basic numeric helpers *)

#[global] Instance Real_eq_dec : EqDecision R := Req_dec_T.

Definition Rgeb (x y : R) : bool := if Rle_dec y x then true else false.
Definition Rleb (x y : R) : bool := if Rle_dec x y then true else false.

(** [v[i]] on a [std::vector] with an [int]-like index. *)
Definition vec_at {A : Type} (v : list A) (i : Z) : option A :=
  if i <? 0 then None else v !! Z.to_nat i.

Definition vec_size {A : Type} (v : list A) : Z := Z.of_nat (length v).

(** [v.resize(n)] with default-constructed new elements. *)
Definition vec_resize {A : Type} (dflt : A) (v : list A) (n : Z) : list A :=
  take (Z.to_nat n) v ++ replicate (Z.to_nat n - length v)%nat dflt.

(** The exceptions of the source: [SimTK_APIARGCHECK*_ALWAYS] throws the
    first, [SimTK_REALIZECHECK*_ALWAYS] the second, [throw Exception::Base]
    the third. *)
Inductive Exception : Type :=
| APIArgcheckFailed
| RealizeCheckFailed
| ExceptionBase.

(** Outcome of a call on a state of type [S]: normal return with the new
    state, an exception with the state as it is when thrown, or an
    unchecked access outside a vector. *)
Inductive Outcome (S : Type) : Type :=
| Ok (s : S)
| Thrown (e : Exception) (s : S)
| OutOfRange.
Arguments Ok {S} s.
Arguments Thrown {S} e s.
Arguments OutOfRange {S}.

(** [std::map::insert]: the map is left alone when the key is taken, and
    the flag tells whether the pair went in. *)
Definition std_map_insert `{Countable K} {V : Type}
    (m : gmap K V) (k : K) (v : V) : gmap K V * bool :=
  match m !! k with
  | Some _ => (m, false)
  | None => (<[k := v]> m, true)
  end.

(** ** Vec3, Mat33, Transform, SpatialVec (SimTK's small-matrix types) *)

Abbreviation Vec3 := (R * R * R)%type.
Abbreviation Mat33 := (Vec3 * Vec3 * Vec3)%type.
Abbreviation SpatialVec := (Vec3 * Vec3)%type.

Definition Vec3_zero : Vec3 := (0, 0, 0)%R.

Definition Vec3_add (a b : Vec3) : Vec3 :=
  let '(a0, a1, a2) := a in let '(b0, b1, b2) := b in
  (a0 + b0, a1 + b1, a2 + b2)%R.

Definition Vec3_sub (a b : Vec3) : Vec3 :=
  let '(a0, a1, a2) := a in let '(b0, b1, b2) := b in
  (a0 - b0, a1 - b1, a2 - b2)%R.

Definition Vec3_neg (a : Vec3) : Vec3 :=
  let '(a0, a1, a2) := a in (- a0, - a1, - a2)%R.

(** [s * v] and [v * s] *)
Definition Vec3_scale (s : R) (a : Vec3) : Vec3 :=
  let '(a0, a1, a2) := a in (s * a0, s * a1, s * a2)%R.

(** [~a * b] *)
Definition Vec3_dot (a b : Vec3) : R :=
  let '(a0, a1, a2) := a in let '(b0, b1, b2) := b in
  (a0 * b0 + a1 * b1 + a2 * b2)%R.

(** [a % b] *)
Definition Vec3_cross (a b : Vec3) : Vec3 :=
  let '(a0, a1, a2) := a in let '(b0, b1, b2) := b in
  (a1 * b2 - a2 * b1, a2 * b0 - a0 * b2, a0 * b1 - a1 * b0)%R.

Definition Vec3_normSqr (a : Vec3) : R := Vec3_dot a a.
Definition Vec3_norm (a : Vec3) : R := sqrt (Vec3_normSqr a).

(** [UnitVec3(v)]: [v] divided by its length. *)
Definition UnitVec3_normalize (v : Vec3) : Vec3 :=
  Vec3_scale (/ Vec3_norm v) v.

(** A matrix, given by its rows, times a column vector. *)
Definition Mat33_mul (m : Mat33) (v : Vec3) : Vec3 :=
  let '(r0, r1, r2) := m in (Vec3_dot r0 v, Vec3_dot r1 v, Vec3_dot r2 v).

Record Transform : Type := mkTransform {
  X_R : Mat33;
  X_T : Vec3
}.

Definition SpatialVec_add (a b : SpatialVec) : SpatialVec :=
  (Vec3_add (fst a) (fst b), Vec3_add (snd a) (snd b)).

Definition SpatialVec_sub (a b : SpatialVec) : SpatialVec :=
  (Vec3_sub (fst a) (fst b), Vec3_sub (snd a) (snd b)).

(** [v[ix] = f(v[ix])] on a [Vector_]; [None] outside the vector. *)
Definition Vector_update {A : Type} (v : list A) (ix : Z) (f : A -> A)
    : option (list A) :=
  match vec_at v ix with
  | Some x => Some (<[Z.to_nat ix := f x]> v)
  | None => None
  end.

(** ** Index tuples (lines 74-169) *)

Definition InvalidAtomIndex : Z := -1.
Definition InvalidAtomClassIndex : Z := -1.
Definition InvalidMobilizedBodyIndex : Z := -1.

Abbreviation IndexPair := (Z * Z)%type.
Abbreviation IndexTriple := (Z * Z * Z)%type.
Abbreviation IndexQuad := (Z * Z * Z * Z)%type.

Definition pair_canonicalize (p : IndexPair) : IndexPair :=
  let '(a, b) := p in if a >? b then (b, a) else p.

Definition mkIndexPair (i1 i2 : Z) (canon : bool) : IndexPair :=
  if canon then pair_canonicalize (i1, i2) else (i1, i2).

Definition pair_lt (x y : IndexPair) : bool :=
  let '(x0, x1) := x in
  let '(y0, y1) := y in
  if x0 <? y0 then true else if x0 >? y0 then false else x1 <? y1.

Definition triple_isValid (t : IndexTriple) : bool :=
  let '(a, b, c) := t in (a >=? 0) && (b >=? 0) && (c >=? 0).

Definition triple_invalid : IndexTriple :=
  (InvalidAtomIndex, InvalidAtomIndex, InvalidAtomIndex).

Definition triple_canonicalize (t : IndexTriple) : IndexTriple :=
  let '(a, b, c) := t in if a >? c then (c, b, a) else t.

Definition mkIndexTriple (i1 i2 i3 : Z) (canon : bool) : IndexTriple :=
  if canon then triple_canonicalize (i1, i2, i3) else (i1, i2, i3).

Definition triple_get (t : IndexTriple) (i : Z) : Z :=
  let '(a, b, c) := t in
  if i =? 0 then a else if i =? 1 then b else c.

Definition triple_lt (x y : IndexTriple) : bool :=
  let '(x0, x1, x2) := x in
  let '(y0, y1, y2) := y in
  if x0 <? y0 then true else if x0 >? y0 then false else
  if x1 <? y1 then true else if x1 >? y1 then false else x2 <? y2.

(** [std::swap(ixs[i],ixs[j])] on the four slots of a quad. *)
Definition quad_get (q : IndexQuad) (i : nat) : Z :=
  let '(a, b, c, d) := q in
  match i with O => a | 1%nat => b | 2%nat => c | _ => d end.

Definition quad_set (q : IndexQuad) (i : nat) (x : Z) : IndexQuad :=
  let '(a, b, c, d) := q in
  match i with
  | O => (x, b, c, d) | 1%nat => (a, x, c, d)
  | 2%nat => (a, b, x, d) | _ => (a, b, c, x)
  end.

Definition quad_swap (q : IndexQuad) (i j : nat) : IndexQuad :=
  quad_set (quad_set q i (quad_get q j)) j (quad_get q i).

(** [IndexQuad::canonicalize] (lines 142-150). *)
Definition quad_canonicalize (q : IndexQuad) : IndexQuad :=
  if (quad_get q 0 >? quad_get q 3)
     || ((quad_get q 0 =? quad_get q 3) && (quad_get q 1 >? quad_get q 2))
  then quad_swap (quad_swap q 0 3) 1 2
  else q.

Definition mkIndexQuad (i1 i2 i3 i4 : Z) (canon : bool) : IndexQuad :=
  if canon then quad_canonicalize (i1, i2, i3, i4) else (i1, i2, i3, i4).

Definition quad_lt (x y : IndexQuad) : bool :=
  let '(x0, x1, x2, x3) := x in
  let '(y0, y1, y2, y3) := y in
  if x0 <? y0 then true else if x0 >? y0 then false else
  if x1 <? y1 then true else if x1 >? y1 then false else
  if x2 <? y2 then true else if x2 >? y2 then false else x3 <? y3.

(** The quad written back to front. *)
Definition quad_reverse (q : IndexQuad) : IndexQuad :=
  let '(a, b, c, d) := q in (d, c, b, a).

(** ** Force-field description (lines 331-644) *)

Record AtomClass : Type := mkAtomClass {
  atomClassIx : Z;
  element : Z;
  valence : Z;
  vdwRadius : option R;
  vdwWellDepth : option R
}.

(** [AtomClass()] *)
Definition AtomClass_default : AtomClass :=
  mkAtomClass InvalidAtomClassIndex (-1) (-1) (Some (-1)%R) (Some (-1)%R).

Definition AtomClass_isValid (c : AtomClass) : bool :=
  (atomClassIx c >=? 0) && (element c >? 0) && (valence c >=? 0).

Definition Real_nonneg (x : option R) : bool :=
  match x with Some r => Rgeb r 0 | None => false end.

Definition AtomClass_isComplete (c : AtomClass) : bool :=
  AtomClass_isValid c && Real_nonneg (vdwRadius c) && Real_nonneg (vdwWellDepth c).

Record ChargedAtomType : Type := mkChargedAtomType {
  chargedAtomTypeIndex : Z;
  cat_atomClassIx : Z;
  partialCharge : option R
}.

(** [ChargedAtomType()] *)
Definition ChargedAtomType_default : ChargedAtomType :=
  mkChargedAtomType (-1) InvalidAtomIndex None.

Definition ChargedAtomType_isValid (t : ChargedAtomType) : bool :=
  (chargedAtomTypeIndex t >=? 0) && (cat_atomClassIx t >=? 0).

Record BondStretch : Type := mkBondStretch {
  bs_classes : IndexPair;
  bs_k : R;
  bs_d0 : R
}.

Definition BondStretch_default : BondStretch :=
  mkBondStretch (InvalidAtomClassIndex, InvalidAtomClassIndex) (-1) (-1).

Definition BondStretch_isValid (b : BondStretch) : bool :=
  Rgeb (bs_k b) 0 && Rgeb (bs_d0 b) 0
  && negb (fst (bs_classes b) =? InvalidAtomClassIndex)
  && negb (snd (bs_classes b) =? InvalidAtomClassIndex).

Record BondBend : Type := mkBondBend {
  bb_classes : IndexTriple;
  bb_k : R;
  bb_theta0 : R
}.

Definition BondBend_default : BondBend :=
  mkBondBend (InvalidAtomClassIndex, InvalidAtomClassIndex, InvalidAtomClassIndex)
             (-1) (-1).

Definition BondBend_isValid (b : BondBend) : bool :=
  Rgeb (bb_k b) 0 && Rleb 0 (bb_theta0 b) && Rleb (bb_theta0 b) PI.

Record TorsionTerm : Type := mkTorsionTerm {
  periodicity : Z;
  amplitude : R;
  theta0 : R
}.

(** [DuMM::Deg2Rad], declared in a header of the library. *)
Definition Deg2Rad : R := (PI / 180)%R.

(** [TorsionTerm(n, ampInKJ, th0InDeg)] *)
Definition newTorsionTerm (n : Z) (ampInKJ th0InDeg : R) : TorsionTerm :=
  mkTorsionTerm n ampInKJ (th0InDeg * Deg2Rad).

Record BondTorsion : Type := mkBondTorsion {
  bt_classes : IndexQuad;
  terms : list TorsionTerm
}.

Definition dummyKey : IndexQuad :=
  (InvalidAtomClassIndex, InvalidAtomClassIndex,
   InvalidAtomClassIndex, InvalidAtomClassIndex).

(** [BondTorsion(key)]: no terms yet. *)
Definition newBondTorsion (key : IndexQuad) : BondTorsion :=
  mkBondTorsion key [].

Definition addTerm (bt : BondTorsion) (tt : TorsionTerm) : BondTorsion :=
  mkBondTorsion (bt_classes bt) (terms bt ++ [tt]).

Definition BondTorsion_isValid (bt : BondTorsion) : bool :=
  match terms bt with [] => false | _ => true end.

Definition hasTerm (bt : BondTorsion) (n : Z) : bool :=
  existsb (fun t => periodicity t =? n) (terms bt).

(** [BondTorsion::operator==] (lines 592-610): the early [return false]
    of the loops is the conjunction. *)
Definition term_agrees (myTerm otherTerm : TorsionTerm) : bool :=
  if periodicity otherTerm =? periodicity myTerm
  then bool_decide (amplitude myTerm = amplitude otherTerm)
       && bool_decide (theta0 myTerm = theta0 otherTerm)
  else true.

Definition BondTorsion_eqb (me other : BondTorsion) : bool :=
  if negb (length (terms me) =? length (terms other))%nat then false
  else forallb (fun myTerm =>
                  hasTerm other (periodicity myTerm)
                  && forallb (term_agrees myTerm) (terms other))
               (terms me).

(** ** Atoms, bodies and the subsystem (lines 688-798, 1044-1399) *)

Record AtomPlacement : Type := mkAtomPlacement {
  ap_atomIndex : Z;
  ap_station : Vec3
}.

Record Atom : Type := mkAtom {
  atomIndex : Z;
  a_chargedAtomTypeIndex : Z;
  bond12 : list Z;
  bodyIx : Z;
  station_B : Vec3;
  bond13 : list IndexPair;
  bond14 : list IndexTriple;
  bond15 : list IndexQuad;
  shortPath13 : list IndexPair;
  shortPath14 : list IndexTriple;
  shortPath15 : list IndexQuad;
  bonds3Atoms : IndexTriple;
  xbond12 : list Z;
  xbond13 : list IndexPair;
  xbond14 : list IndexTriple;
  xbond15 : list IndexQuad;
  xshortPath13 : list IndexPair;
  xshortPath14 : list IndexTriple;
  xshortPath15 : list IndexQuad;
  xbonds3Atoms : IndexTriple;
  aImproperTorsion14 : list IndexTriple;
  aImproperTorsion : list BondTorsion;
  stretch : list BondStretch;
  bend : list BondBend;
  torsion : list BondTorsion
}.

(** [Atom(t, aIx)]: nothing bonded, no body, empty caches. *)
Definition newAtom (t aIx : Z) : Atom :=
  mkAtom aIx t [] InvalidMobilizedBodyIndex Vec3_zero
         [] [] [] [] [] [] triple_invalid
         [] [] [] [] [] [] [] triple_invalid [] [] [] [] [].

Definition Atom_isValid (a : Atom) : bool :=
  (atomIndex a >=? 0) && (a_chargedAtomTypeIndex a >=? 0).

Record DuMMBody : Type := mkDuMMBody {
  clusterIndex : Z;
  mobilizedBodyIndex : Z;
  allAtoms : list AtomPlacement
}.

Definition DuMMBody_isValid (b : DuMMBody) : bool :=
  (clusterIndex b >=? 0) && negb (mobilizedBodyIndex b =? InvalidMobilizedBodyIndex).

Inductive VdwMixingRule : Type :=
| WaldmanHagler | HalgrenHHG | Jorgensen | LorentzBerthelot | Kong.

(** The fields of [DuMMForceFieldSubsystemRep] that the operations below
    read or write.  [topologyCacheValid] stands for the realization state
    that [invalidateSubsystemTopologyCache] of the base class resets. *)
Record DuMMRep : Type := mkRep {
  atoms : list Atom;
  duMMSubsetOfBodies : list DuMMBody;
  atomClasses : list AtomClass;
  chargedAtomTypes : list ChargedAtomType;
  bondStretch : gmap IndexPair BondStretch;
  bondBend : gmap IndexTriple BondBend;
  bondTorsion : gmap IndexQuad BondTorsion;
  amberImproperTorsion : gmap IndexQuad BondTorsion;
  vdwMixingRule : VdwMixingRule;
  vdwScale12 : R; coulombScale12 : R;
  vdwScale13 : R; coulombScale13 : R;
  vdwScale14 : R; coulombScale14 : R;
  vdwScale15 : R; coulombScale15 : R;
  bondStretchGlobalScaleFactor : R;
  topologyCacheValid : bool
}.

Definition set_atoms (f : list Atom -> list Atom) (mm : DuMMRep) : DuMMRep :=
  mkRep (f (atoms mm)) (duMMSubsetOfBodies mm) (atomClasses mm)
        (chargedAtomTypes mm) (bondStretch mm) (bondBend mm) (bondTorsion mm)
        (amberImproperTorsion mm) (vdwMixingRule mm)
        (vdwScale12 mm) (coulombScale12 mm) (vdwScale13 mm) (coulombScale13 mm)
        (vdwScale14 mm) (coulombScale14 mm) (vdwScale15 mm) (coulombScale15 mm)
        (bondStretchGlobalScaleFactor mm) (topologyCacheValid mm).

Definition set_atomClasses (f : list AtomClass -> list AtomClass)
    (mm : DuMMRep) : DuMMRep :=
  mkRep (atoms mm) (duMMSubsetOfBodies mm) (f (atomClasses mm))
        (chargedAtomTypes mm) (bondStretch mm) (bondBend mm) (bondTorsion mm)
        (amberImproperTorsion mm) (vdwMixingRule mm)
        (vdwScale12 mm) (coulombScale12 mm) (vdwScale13 mm) (coulombScale13 mm)
        (vdwScale14 mm) (coulombScale14 mm) (vdwScale15 mm) (coulombScale15 mm)
        (bondStretchGlobalScaleFactor mm) (topologyCacheValid mm).

Definition set_chargedAtomTypes
    (f : list ChargedAtomType -> list ChargedAtomType) (mm : DuMMRep) : DuMMRep :=
  mkRep (atoms mm) (duMMSubsetOfBodies mm) (atomClasses mm)
        (f (chargedAtomTypes mm)) (bondStretch mm) (bondBend mm) (bondTorsion mm)
        (amberImproperTorsion mm) (vdwMixingRule mm)
        (vdwScale12 mm) (coulombScale12 mm) (vdwScale13 mm) (coulombScale13 mm)
        (vdwScale14 mm) (coulombScale14 mm) (vdwScale15 mm) (coulombScale15 mm)
        (bondStretchGlobalScaleFactor mm) (topologyCacheValid mm).

Definition set_bondTorsion (m : gmap IndexQuad BondTorsion) (mm : DuMMRep) : DuMMRep :=
  mkRep (atoms mm) (duMMSubsetOfBodies mm) (atomClasses mm)
        (chargedAtomTypes mm) (bondStretch mm) (bondBend mm) m
        (amberImproperTorsion mm) (vdwMixingRule mm)
        (vdwScale12 mm) (coulombScale12 mm) (vdwScale13 mm) (coulombScale13 mm)
        (vdwScale14 mm) (coulombScale14 mm) (vdwScale15 mm) (coulombScale15 mm)
        (bondStretchGlobalScaleFactor mm) (topologyCacheValid mm).

Definition set_amberImproperTorsion (m : gmap IndexQuad BondTorsion)
    (mm : DuMMRep) : DuMMRep :=
  mkRep (atoms mm) (duMMSubsetOfBodies mm) (atomClasses mm)
        (chargedAtomTypes mm) (bondStretch mm) (bondBend mm) (bondTorsion mm)
        m (vdwMixingRule mm)
        (vdwScale12 mm) (coulombScale12 mm) (vdwScale13 mm) (coulombScale13 mm)
        (vdwScale14 mm) (coulombScale14 mm) (vdwScale15 mm) (coulombScale15 mm)
        (bondStretchGlobalScaleFactor mm) (topologyCacheValid mm).

Definition invalidateSubsystemTopologyCache (mm : DuMMRep) : DuMMRep :=
  mkRep (atoms mm) (duMMSubsetOfBodies mm) (atomClasses mm)
        (chargedAtomTypes mm) (bondStretch mm) (bondBend mm) (bondTorsion mm)
        (amberImproperTorsion mm) (vdwMixingRule mm)
        (vdwScale12 mm) (coulombScale12 mm) (vdwScale13 mm) (coulombScale13 mm)
        (vdwScale14 mm) (coulombScale14 mm) (vdwScale15 mm) (coulombScale15 mm)
        (bondStretchGlobalScaleFactor mm) false.

(** The subsystem as its constructor leaves it (lines 1098-1112), before
    any atom, class or parameter is defined. *)
Definition newDuMMRep : DuMMRep :=
  mkRep [] [] [] [] ∅ ∅ ∅ ∅ WaldmanHagler 0 0 0 0 1 1 1 1 1 false.

(** [loadElements] (lines 3583-3696) fills every slot from 1 to 110 of a
    vector of 111 elements with a valid element. *)
Definition isValidElement (atomicNumber : Z) : bool :=
  (1 <=? atomicNumber) && (atomicNumber <? 111).

Definition isValidAtomClass (mm : DuMMRep) (classNum : Z) : bool :=
  (0 <=? classNum) && (classNum <? vec_size (atomClasses mm))
  && match vec_at (atomClasses mm) classNum with
     | Some c => AtomClass_isValid c
     | None => false
     end.

Definition isValidChargedAtomType (mm : DuMMRep) (typeNum : Z) : bool :=
  (0 <=? typeNum) && (typeNum <? vec_size (chargedAtomTypes mm))
  && match vec_at (chargedAtomTypes mm) typeNum with
     | Some t => ChargedAtomType_isValid t
     | None => false
     end.

(** ** Atom classes and charged atom types (lines 1563-1666) *)

Definition defineIncompleteAtomClass (mm : DuMMRep)
    (classIx elementNum valenceNum : Z) : Outcome DuMMRep :=
  let mm := invalidateSubsystemTopologyCache mm in
  if negb (classIx >=? 0) then Thrown APIArgcheckFailed mm else
  if negb (isValidElement elementNum) then Thrown APIArgcheckFailed mm else
  if negb (valenceNum >=? 0) then Thrown APIArgcheckFailed mm else
  let mm := if classIx >=? vec_size (atomClasses mm)
            then set_atomClasses
                   (fun v => vec_resize AtomClass_default v (classIx + 1)) mm
            else mm in
  match vec_at (atomClasses mm) classIx with
  | None => OutOfRange
  | Some old =>
      if negb (negb (AtomClass_isValid old)) then Thrown APIArgcheckFailed mm else
      Ok (set_atomClasses
            (fun v => <[Z.to_nat classIx :=
                          mkAtomClass classIx elementNum valenceNum None None]> v) mm)
  end.

Definition setAtomClassVdwParameters (mm : DuMMRep)
    (classIx : Z) (vdwRadiusInNm vdwWellDepthInKJPerMol : R) : Outcome DuMMRep :=
  let mm := invalidateSubsystemTopologyCache mm in
  if negb (classIx >=? 0) then Thrown APIArgcheckFailed mm else
  if negb (Rgeb vdwRadiusInNm 0) then Thrown APIArgcheckFailed mm else
  if negb (Rgeb vdwWellDepthInKJPerMol 0) then Thrown APIArgcheckFailed mm else
  match vec_at (atomClasses mm) classIx with
  | None => OutOfRange
  | Some atomClass =>
      Ok (set_atomClasses
            (fun v => <[Z.to_nat classIx :=
                          mkAtomClass (atomClassIx atomClass)
                                      (element atomClass) (valence atomClass)
                                      (Some vdwRadiusInNm)
                                      (Some vdwWellDepthInKJPerMol)]> v) mm)
  end.

Definition defineIncompleteChargedAtomType (mm : DuMMRep)
    (typeIx classIx : Z) : Outcome DuMMRep :=
  let mm := invalidateSubsystemTopologyCache mm in
  if negb (typeIx >=? 0) then Thrown APIArgcheckFailed mm else
  if negb (classIx >=? 0) then Thrown APIArgcheckFailed mm else
  if negb (isValidAtomClass mm classIx) then Thrown APIArgcheckFailed mm else
  let mm := if typeIx >=? vec_size (chargedAtomTypes mm)
            then set_chargedAtomTypes
                   (fun v => vec_resize ChargedAtomType_default v
                                        (typeIx + 1)) mm
            else mm in
  match vec_at (chargedAtomTypes mm) typeIx with
  | None => OutOfRange
  | Some old =>
      if negb (negb (ChargedAtomType_isValid old)) then Thrown APIArgcheckFailed mm else
      Ok (set_chargedAtomTypes
            (fun v => <[Z.to_nat typeIx :=
                          mkChargedAtomType typeIx classIx None]> v)
            mm)
  end.

Definition setChargedAtomTypeCharge (mm : DuMMRep)
    (typeIx : Z) (charge : R) : Outcome DuMMRep :=
  let mm := invalidateSubsystemTopologyCache mm in
  if negb (typeIx >=? 0) then Thrown APIArgcheckFailed mm else
  match vec_at (chargedAtomTypes mm) typeIx with
  | None => OutOfRange
  | Some chargedAtomType =>
      Ok (set_chargedAtomTypes
            (fun v => <[Z.to_nat typeIx :=
                          mkChargedAtomType
                            (chargedAtomTypeIndex chargedAtomType)
                            (cat_atomClassIx chargedAtomType)
                            (Some charge)]> v) mm)
  end.

(** ** Torsion parameters (lines 1743-1933, 2638-2677) *)

(** The three checks on one supplied term. *)
Definition checkTerm (n : Z) (ampInKJ phaseInDegrees : R) : bool :=
  ((1 <=? n) && (n <=? 6))
  && Rgeb ampInKJ 0
  && (Rleb 0 phaseInDegrees && Rleb phaseInDegrees 180).

(** [checkTorsion]: [true] when no check throws. *)
Definition checkTorsion (mm : DuMMRep) (class1 class2 class3 class4 : Z)
    (periodicity1 : Z) (amp1InKJ phase1InDegrees : R)
    (periodicity2 : Z) (amp2InKJ phase2InDegrees : R)
    (periodicity3 : Z) (amp3InKJ phase3InDegrees : R) : bool :=
  isValidAtomClass mm class1 && isValidAtomClass mm class2
  && isValidAtomClass mm class3 && isValidAtomClass mm class4
  && (negb (periodicity1 =? -1) || negb (periodicity2 =? -1)
      || negb (periodicity3 =? -1))
  && (if negb (periodicity1 =? -1)
      then checkTerm periodicity1 amp1InKJ phase1InDegrees
           && (negb (periodicity2 =? periodicity1)
               && negb (periodicity3 =? periodicity1))
      else true)
  && (if negb (periodicity2 =? -1)
      then checkTerm periodicity2 amp2InKJ phase2InDegrees
           && negb (periodicity3 =? periodicity2)
      else true)
  && (if negb (periodicity3 =? -1)
      then checkTerm periodicity3 amp3InKJ phase3InDegrees
      else true).

(** The [BondTorsion bt(key)] of both definition routines with its terms
    added as they are found. *)
Definition collectTerms (key : IndexQuad)
    (periodicity1 : Z) (amp1InKJ phase1InDegrees : R)
    (periodicity2 : Z) (amp2InKJ phase2InDegrees : R)
    (periodicity3 : Z) (amp3InKJ phase3InDegrees : R) : BondTorsion :=
  let bt := newBondTorsion key in
  let bt := if negb (periodicity1 =? -1)
            then addTerm bt (newTorsionTerm periodicity1 amp1InKJ phase1InDegrees)
            else bt in
  let bt := if negb (periodicity2 =? -1)
            then addTerm bt (newTorsionTerm periodicity2 amp2InKJ phase2InDegrees)
            else bt in
  if negb (periodicity3 =? -1)
  then addTerm bt (newTorsionTerm periodicity3 amp3InKJ phase3InDegrees)
  else bt.

Definition defineBondTorsion (mm : DuMMRep) (class1 class2 class3 class4 : Z)
    (periodicity1 : Z) (amp1InKJ phase1InDegrees : R)
    (periodicity2 : Z) (amp2InKJ phase2InDegrees : R)
    (periodicity3 : Z) (amp3InKJ phase3InDegrees : R) : Outcome DuMMRep :=
  let mm := invalidateSubsystemTopologyCache mm in
  if negb (checkTorsion mm class1 class2 class3 class4
             periodicity1 amp1InKJ phase1InDegrees
             periodicity2 amp2InKJ phase2InDegrees
             periodicity3 amp3InKJ phase3InDegrees)
  then Thrown APIArgcheckFailed mm else
  let key := mkIndexQuad class1 class2 class3 class4 true in
  let bt := collectTerms key periodicity1 amp1InKJ phase1InDegrees
                         periodicity2 amp2InKJ phase2InDegrees
                         periodicity3 amp3InKJ phase3InDegrees in
  let letItSlide := match bondTorsion mm !! key with
                    | Some oldBondTorsion => BondTorsion_eqb oldBondTorsion bt
                    | None => false
                    end in
  if letItSlide then Ok mm else
  let ret := std_map_insert (bondTorsion mm) key bt in
  let mm := set_bondTorsion (fst ret) mm in
  if negb (snd ret) then Thrown APIArgcheckFailed mm else Ok mm.

Definition defineAmberImproperTorsion (mm : DuMMRep)
    (class1 class2 class3 class4 : Z)
    (periodicity1 : Z) (amp1InKJ phase1InDegrees : R)
    (periodicity2 : Z) (amp2InKJ phase2InDegrees : R)
    (periodicity3 : Z) (amp3InKJ phase3InDegrees : R) : Outcome DuMMRep :=
  let mm := invalidateSubsystemTopologyCache mm in
  if negb (checkTorsion mm class1 class2 class3 class4
             periodicity1 amp1InKJ phase1InDegrees
             periodicity2 amp2InKJ phase2InDegrees
             periodicity3 amp3InKJ phase3InDegrees)
  then Thrown APIArgcheckFailed mm else
  let key := mkIndexQuad class1 class2 class3 class4 false in
  let bt := collectTerms key periodicity1 amp1InKJ phase1InDegrees
                         periodicity2 amp2InKJ phase2InDegrees
                         periodicity3 amp3InKJ phase3InDegrees in
  let ret := std_map_insert (amberImproperTorsion mm) key bt in
  let mm := set_amberImproperTorsion (fst ret) mm in
  if negb (snd ret) then Thrown APIArgcheckFailed mm else Ok mm.

(** The [static const BondTorsion dummy(dummyKey)] of the two lookups. *)
Definition dummy : BondTorsion := newBondTorsion dummyKey.

Definition getBondTorsion (mm : DuMMRep) (class1 class2 class3 class4 : Z)
    : BondTorsion :=
  let key := mkIndexQuad class1 class2 class3 class4 true in
  match bondTorsion mm !! key with
  | Some bt => bt
  | None => dummy
  end.

Definition getAmberImproperTorsion (mm : DuMMRep)
    (class1 class2 class3 class4 : Z) : BondTorsion :=
  let key := mkIndexQuad class1 class2 class3 class4 false in
  match amberImproperTorsion mm !! key with
  | Some bt => bt
  | None => dummy
  end.

(** Two torsions hold the same set of terms. *)
Definition same_terms (a b : BondTorsion) : Prop :=
  forall t : TorsionTerm, t ∈ terms a <-> t ∈ terms b.

(** No two terms of a torsion share a periodicity, the invariant that
    [checkTorsion] enforces and [addTerm] asserts. *)
Definition distinct_periodicities (bt : BondTorsion) : Prop :=
  NoDup (periodicity <$> terms bt).

(** A subsystem with the single atom class 0 (carbon, valence 4) in which
    the quad (0,0,0,0) has the one-term torsion n=2, 1 kJ/mol, 180 degrees,
    both as a normal and as an improper torsion. *)
Definition torsion_2_1_180 : BondTorsion :=
  collectTerms (0, 0, 0, 0) 2 1 180 (-1) 0 0 (-1) 0 0.

Definition rep_with_torsions : DuMMRep :=
  set_amberImproperTorsion {[ (0, 0, 0, 0) := torsion_2_1_180 ]}
    (set_bondTorsion {[ (0, 0, 0, 0) := torsion_2_1_180 ]}
       (set_atomClasses (fun _ => [mkAtomClass 0 6 4 None None]) newDuMMRep)).

(** A fresh subsystem after [defineIncompleteAtomClass(1, "C", 6, 4)] and
    [defineIncompleteChargedAtomType(1, "C", 1)]: the vectors were resized
    to two slots each, and slot 0 of each is default-constructed, that
    is, not a defined class or type. *)
Definition rep_slot0_undefined : DuMMRep :=
  set_chargedAtomTypes
    (fun _ => [ChargedAtomType_default; mkChargedAtomType 1 1 None])
    (set_atomClasses
       (fun _ => [AtomClass_default; mkAtomClass 1 6 4 None None]) newDuMMRep).

(** ** Van der Waals combining rules (lines 209-305, 1160-1179) *)

Section Mixing.

(** [std::pow] of [<cmath>]. *)
Variable std_pow : R -> R -> R.

Local Open Scope R_scope.

Definition arithmeticMean (a b : R) : R := 0.5 * (a + b).
Definition geometricMean (a b : R) : R := sqrt (a * b).
Definition harmonicMean (a b : R) : R := (2 * a * b) / (a + b).
Definition cubicMean (a b : R) : R := (a * a * a + b * b * b) / (a * a + b * b).
Definition hhgMean (a b : R) : R :=
  harmonicMean (harmonicMean a b) (geometricMean a b).

(** Each rule returns the pair [(r, e)] of its two reference results. *)
Definition vdwCombineLorentzBerthelot (ri rj ei ej : R) : R * R :=
  (arithmeticMean ri rj, geometricMean ei ej).

Definition vdwCombineJorgensen (ri rj ei ej : R) : R * R :=
  (geometricMean ri rj, geometricMean ei ej).

Definition vdwCombineHalgrenHHG (ri rj ei ej : R) : R * R :=
  (cubicMean ri rj, hhgMean ei ej).

Definition oo6 : R := 1 / 6.
Definition oo13 : R := 1 / 13.

Definition vdwCombineWaldmanHagler (ri rj ei ej : R) : R * R :=
  let ri3 := ri * ri * ri in let ri6 := ri3 * ri3 in
  let rj3 := rj * rj * rj in let rj6 := rj3 * rj3 in
  let er6 := geometricMean (ei * ri6) (ej * rj6) in
  let r6 := arithmeticMean ri6 rj6 in
  (std_pow r6 oo6, er6 / r6).

Definition vdwCombineKong (ri rj ei ej : R) : R * R :=
  let ri3 := ri * ri * ri in let ri6 := ri3 * ri3 in let ri12 := ri6 * ri6 in
  let rj3 := rj * rj * rj in let rj6 := rj3 * rj3 in let rj12 := rj6 * rj6 in
  let er6 := geometricMean (ei * ri6) (ej * rj6) in
  let eri12_13 := std_pow (ei * ri12) oo13 in
  let erj12_13 := std_pow (ej * rj12) oo13 in
  let er12_13 := arithmeticMean eri12_13 erj12_13 in
  let r6 := std_pow er12_13 13 / er6 in
  (std_pow r6 oo6, er6 / r6).

(** The [switch] of [applyMixingRule]: the pair [(rmin, emin)] of the
    selected rule. *)
Definition vdwCombine (rule : VdwMixingRule) (ri rj ei ej : R) : R * R :=
  match rule with
  | WaldmanHagler => vdwCombineWaldmanHagler ri rj ei ej
  | HalgrenHHG => vdwCombineHalgrenHHG ri rj ei ej
  | Jorgensen => vdwCombineJorgensen ri rj ei ej
  | LorentzBerthelot => vdwCombineLorentzBerthelot ri rj ei ej
  | Kong => vdwCombineKong ri rj ei ej
  end.

(** [applyMixingRule]: returns [(dmin, emin)]. *)
Definition applyMixingRule (mm : DuMMRep) (ri rj ei ej : R) : R * R :=
  let '(rmin, emin) := vdwCombine (vdwMixingRule mm) ri rj ei ej in
  (2 * rmin, emin).

End Mixing.

(** ** Bond stretch in the force kernel (lines 3096-3125) *)

(** What the kernel accumulates: [energyCache] and [forceCache]. *)
Record ForceState : Type := mkForceState {
  energyCache : R;
  forceCache : list SpatialVec
}.

Definition atomStation_G (X_GB : Transform) (a : Atom) : Vec3 :=
  Mat33_mul (X_R X_GB) (station_B a).

Definition atomPos_G (X_GB : Transform) (a : Atom) : Vec3 :=
  Vec3_add (X_T X_GB) (atomStation_G X_GB a).

(** The force [f2] and the energy [eStretch] of one 1-2 bond. *)
Definition stretchForce (mm : DuMMRep) (bs : BondStretch) (r : Vec3) : R * Vec3 :=
  let d := Vec3_norm r in
  let x := (d - bs_d0 bs)%R in
  let k := (bondStretchGlobalScaleFactor mm * bs_k bs)%R in
  let eStretch := (k * x * x)%R in
  let fStretch := (-2 * k * x)%R in
  let f2 := Vec3_scale (fStretch / d) r in
  (eStretch, f2).

(** The body of the stretch loop once the bond is not skipped: [a1] on
    body [bodyIndex1] at [X_GB1], partner [a2] on body [bodyIx a2] at
    [X_GB2], parameters [bs = a1.stretch[b12]].  [None] when a body index
    is outside [forceCache]. *)
Definition stretchStep (mm : DuMMRep) (bodyIndex1 : Z) (X_GB1 X_GB2 : Transform)
    (a1 a2 : Atom) (bs : BondStretch) (st : ForceState) : option ForceState :=
  let b2 := bodyIx a2 in
  let a1Station_G := atomStation_G X_GB1 a1 in
  let a1Pos_G := atomPos_G X_GB1 a1 in
  let a2Station_G := atomStation_G X_GB2 a2 in
  let a2Pos_G := atomPos_G X_GB2 a2 in
  let r := Vec3_sub a2Pos_G a1Pos_G in
  let '(eStretch, f2) := stretchForce mm bs r in
  let energy := (energyCache st + eStretch)%R in
  fc ← Vector_update (forceCache st) b2
         (fun F => SpatialVec_add F (Vec3_cross a2Station_G f2, f2));
  fc ← Vector_update fc bodyIndex1
         (fun F => SpatialVec_sub F (Vec3_cross a1Station_G f2, f2));
  Some (mkForceState energy fc).

(** ** Torsion geometry (lines 3776-3845) *)

Section Periodic.

(** [UnitVec3::perp] and [std::atan2], from the libraries. *)
Variable UnitVec3_perp : Vec3 -> Vec3.
Variable std_atan2 : R -> R -> R.

Local Open Scope R_scope.

Definition TorsionTerm_energy (t : TorsionTerm) (theta : R) : R :=
  amplitude t * (1 + cos (IZR (periodicity t) * theta - theta0 t)).

Definition TorsionTerm_torque (t : TorsionTerm) (theta : R) : R :=
  IZR (periodicity t) * amplitude t * sin (IZR (periodicity t) * theta - theta0 t).

(** The reference results of [periodic]. *)
Record TorsionResult : Type := mkTorsionResult {
  tr_theta : R;
  tr_pe : R;
  tr_rf : Vec3;
  tr_xf : Vec3;
  tr_yf : Vec3;
  tr_sf : Vec3
}.

(** The axis [v] and [oov] (lines 3793-3799). *)
Definition torsionAxis (rG xG yG sG : Vec3) : R * Vec3 :=
  let r := Vec3_sub xG rG in
  let s := Vec3_sub sG yG in
  let xy := Vec3_sub yG xG in
  let vv := Vec3_dot xy xy in
  let oov := if decide (vv = 0) then 0 else 1 / sqrt vv in
  let v := if decide (oov <> 0) then Vec3_scale oov xy
           else if decide (Vec3_norm (Vec3_cross r s) <> 0)
                then UnitVec3_normalize (Vec3_cross r s)
                else UnitVec3_perp (UnitVec3_normalize r) in
  (oov, v).

(** The plane normals [t = r % v] and [u = v % s] (line 3806). *)
Definition torsionNormals (rG xG yG sG : Vec3) : Vec3 * Vec3 :=
  let r := Vec3_sub xG rG in
  let s := Vec3_sub sG yG in
  let v := snd (torsionAxis rG xG yG sG) in
  (Vec3_cross r v, Vec3_cross v s).

(** [BondTorsion::periodic].  [theta] is the caller's variable behind the
    reference: the early return leaves it as it was. *)
Definition periodic (bt : BondTorsion) (rG xG yG sG : Vec3) (scale : R)
    (theta : R) : TorsionResult :=
  let r := Vec3_sub xG rG in
  let s := Vec3_sub sG yG in
  let '(oov, v) := torsionAxis rG xG yG sG in
  let '(t, u) := torsionNormals rG xG yG sG in
  let tt := Vec3_dot t t in
  let uu := Vec3_dot u u in
  if decide (tt = 0 \/ uu = 0)
  then mkTorsionResult theta 0 Vec3_zero Vec3_zero Vec3_zero Vec3_zero
  else
    let txu := Vec3_cross t u in
    let ootu := 1 / sqrt (tt * uu) in
    let cth := Vec3_dot t u * ootu in
    let sth := Vec3_dot v txu * ootu in
    let theta := std_atan2 sth cth in
    let pe := foldl (fun acc term => acc + TorsionTerm_energy term theta) 0 (terms bt) in
    let torque := foldl (fun acc term => acc + TorsionTerm_torque term theta) 0 (terms bt) in
    let pe := pe * scale in
    let torque := torque * scale in
    let ry := Vec3_sub yG rG in
    let xs := Vec3_sub sG xG in
    let dedt := Vec3_scale (torque / tt) (Vec3_cross t v) in
    let dedu := Vec3_scale (- (torque / uu)) (Vec3_cross u v) in
    let rf := Vec3_cross dedt v in
    let sf := Vec3_cross dedu v in
    if decide (oov = 0)
    then mkTorsionResult theta pe rf (Vec3_neg rf) (Vec3_neg sf) sf
    else mkTorsionResult theta pe rf
           (Vec3_scale oov (Vec3_add (Vec3_cross ry dedt) (Vec3_cross dedu s)))
           (Vec3_scale oov (Vec3_add (Vec3_cross dedt r) (Vec3_cross xs dedu)))
           sf.

End Periodic.

(** ** Scaling of bonded atoms (lines 3540-3580) *)

(** A [for] loop over a vector whose body may run outside an array. *)
Fixpoint forEachM {A S : Type} (body : S -> A -> option S) (l : list A) (s : S)
    : option S :=
  match l with
  | [] => Some s
  | x :: l' =>
      match body s x with
      | Some s' => forEachM body l' s'
      | None => None
      end
  end.

(** [vdwScale[ix]=vdw; coulombScale[ix]=coul;] on the pair of vectors. *)
Definition setScales (vdw coul : R) (sc : list R * list R) (ix : Z)
    : option (list R * list R) :=
  v ← Vector_update (fst sc) ix (fun _ => vdw);
  c ← Vector_update (snd sc) ix (fun _ => coul);
  Some (v, c).

Definition pair_2nd (p : IndexPair) : Z := snd p.
Definition triple_3rd (t : IndexTriple) : Z := snd t.
Definition quad_4th (q : IndexQuad) : Z := snd q.

Definition scaleBondedAtoms (mm : DuMMRep) (a : Atom) (sc : list R * list R)
    : option (list R * list R) :=
  sc ← forEachM (fun sc ix => setScales (vdwScale12 mm) (coulombScale12 mm) sc ix)
                (xbond12 a) sc;
  sc ← forEachM (fun sc p =>
                   setScales (vdwScale13 mm) (coulombScale13 mm) sc (pair_2nd p))
                (xshortPath13 a) sc;
  sc ← (if decide (vdwScale14 mm <> 1%R \/ coulombScale14 mm <> 1%R)
        then forEachM (fun sc t =>
                         setScales (vdwScale14 mm) (coulombScale14 mm) sc (triple_3rd t))
                      (xshortPath14 a) sc
        else Some sc);
  if decide (vdwScale15 mm <> 1%R \/ coulombScale15 mm <> 1%R)
  then forEachM (fun sc q =>
                   setScales (vdwScale15 mm) (coulombScale15 mm) sc (quad_4th q))
                (xshortPath15 a) sc
  else Some sc.

Definition unscaleBondedAtoms (mm : DuMMRep) (a : Atom) (sc : list R * list R)
    : option (list R * list R) :=
  sc ← forEachM (fun sc ix => setScales 1 1 sc ix) (xbond12 a) sc;
  sc ← forEachM (fun sc p => setScales 1 1 sc (pair_2nd p)) (xshortPath13 a) sc;
  sc ← (if decide (vdwScale14 mm <> 1%R \/ coulombScale14 mm <> 1%R)
        then forEachM (fun sc t => setScales 1 1 sc (triple_3rd t))
                      (xshortPath14 a) sc
        else Some sc);
  if decide (vdwScale15 mm <> 1%R \/ coulombScale15 mm <> 1%R)
  then forEachM (fun sc q => setScales 1 1 sc (quad_4th q)) (xshortPath15 a) sc
  else Some sc.

(** The indices a scaling pass writes, in the order of the four loops. *)
Definition scaledIndices (mm : DuMMRep) (a : Atom) : list Z :=
  xbond12 a
  ++ (pair_2nd <$> xshortPath13 a)
  ++ (if decide (vdwScale14 mm <> 1%R \/ coulombScale14 mm <> 1%R)
      then triple_3rd <$> xshortPath14 a else [])
  ++ (if decide (vdwScale15 mm <> 1%R \/ coulombScale15 mm <> 1%R)
      then quad_4th <$> xshortPath15 a else []).

(** The vector [v] after [v[ix] = x] for every [ix] of [ixs] in turn. *)
Definition writeAll (x : R) (ixs : list Z) (v : list R) : list R :=
  foldl (fun v ix => <[Z.to_nat ix := x]> v) v ixs.

(** ** Topology realization: the neighbourhoods of one atom
       (lines 2770-2949) *)

(** [std::sort] under the [operator<] of the element type. *)
Definition std_sort {A : Type} (lt : A -> A -> bool) (l : list A) : list A :=
  @merge_sort A (fun x y => lt y x = false)
              (fun x y => bool_eq_dec (lt y x) false) l.

(** [atoms[i].bond12] and [atoms[i].bodyIx].  The indices met during
    realization come out of [bond12] lists and body lists, which hold
    indices of atoms of the subsystem. *)
Definition bond12_of (mm : DuMMRep) (i : Z) : list Z :=
  match vec_at (atoms mm) i with
  | Some a => bond12 a
  | None => []
  end.

Definition bodyIx_of (mm : DuMMRep) (i : Z) : Z :=
  match vec_at (atoms mm) i with
  | Some a => bodyIx a
  | None => InvalidMobilizedBodyIndex
  end.

(** The inner statement of the 1-3 loop (lines 2798-2808) on
    [(bond13, shortPath13, allBondedSoFar)]. *)
Definition visit13 (anum a12 : Z)
    (st : list IndexPair * list IndexPair * gset Z) (newAtom : Z)
    : list IndexPair * list IndexPair * gset Z :=
  let '(b13, sp13, allBondedSoFar) := st in
  if newAtom =? anum then st
  else
    let b13 := b13 ++ [(a12, newAtom)] in
    if decide (newAtom ∈ allBondedSoFar) then (b13, sp13, allBondedSoFar)
    else (b13, sp13 ++ [(a12, newAtom)], allBondedSoFar ∪ {[newAtom]}).

Definition build13 (mm : DuMMRep) (anum : Z) (b12 : list Z)
    (allBondedSoFar : gset Z) : list IndexPair * list IndexPair * gset Z :=
  foldl (fun st a12 => foldl (visit13 anum a12) st (bond12_of mm a12))
        ([], [], allBondedSoFar) b12.

(** Lines 2818-2831. *)
Definition build14 (mm : DuMMRep) (anum : Z) (b13 : list IndexPair)
    : list IndexTriple :=
  foldl (fun b14 '(i0, i1) =>
           foldl (fun b14 newAtom =>
                    if negb (newAtom =? anum) && negb (newAtom =? i0)
                    then b14 ++ [(i0, i1, newAtom)] else b14)
                 b14 (bond12_of mm i1))
        [] b13.

(** Lines 2835-2849, on [(shortPath14, allBondedSoFar)]. *)
Definition visitShort14 (i0 i1 : Z) (st : list IndexTriple * gset Z) (newAtom : Z)
    : list IndexTriple * gset Z :=
  let '(sp14, allBondedSoFar) := st in
  if decide (newAtom ∈ allBondedSoFar) then st
  else (sp14 ++ [(i0, i1, newAtom)], allBondedSoFar ∪ {[newAtom]}).

Definition buildShort14 (mm : DuMMRep) (sp13 : list IndexPair)
    (allBondedSoFar : gset Z) : list IndexTriple * gset Z :=
  foldl (fun st '(i0, i1) => foldl (visitShort14 i0 i1) st (bond12_of mm i1))
        ([], allBondedSoFar) sp13.

(** Lines 2854-2869. *)
Definition build15 (mm : DuMMRep) (anum : Z) (b14 : list IndexTriple)
    : list IndexQuad :=
  foldl (fun b15 '(i0, i1, i2) =>
           foldl (fun b15 newAtom =>
                    if negb (newAtom =? anum) && negb (newAtom =? i0)
                       && negb (newAtom =? i1)
                    then b15 ++ [(i0, i1, i2, newAtom)] else b15)
                 b15 (bond12_of mm i2))
        [] b14.

(** Lines 2873-2888, on [(shortPath15, allBondedSoFar)]. *)
Definition visitShort15 (i0 i1 i2 : Z) (st : list IndexQuad * gset Z) (newAtom : Z)
    : list IndexQuad * gset Z :=
  let '(sp15, allBondedSoFar) := st in
  if decide (newAtom ∈ allBondedSoFar) then st
  else (sp15 ++ [(i0, i1, i2, newAtom)], allBondedSoFar ∪ {[newAtom]}).

Definition buildShort15 (mm : DuMMRep) (sp14 : list IndexTriple)
    (allBondedSoFar : gset Z) : list IndexQuad * gset Z :=
  foldl (fun st '(i0, i1, i2) =>
           foldl (visitShort15 i0 i1 i2) st (bond12_of mm i2))
        ([], allBondedSoFar) sp14.

(** The tests of the cross-body lists (lines 2901-2949): some atom of the
    tuple is on another body than the focal atom. *)
Definition crosses1 (mm : DuMMRep) (body : Z) (j : Z) : bool :=
  negb (bodyIx_of mm j =? body).

Definition crosses2 (mm : DuMMRep) (body : Z) (p : IndexPair) : bool :=
  let '(i0, i1) := p in crosses1 mm body i0 || crosses1 mm body i1.

Definition crosses3 (mm : DuMMRep) (body : Z) (t : IndexTriple) : bool :=
  let '(i0, i1, i2) := t in
  crosses1 mm body i0 || crosses1 mm body i1 || crosses1 mm body i2.

Definition crosses4 (mm : DuMMRep) (body : Z) (q : IndexQuad) : bool :=
  let '(i0, i1, i2, i3) := q in
  crosses1 mm body i0 || crosses1 mm body i1 || crosses1 mm body i2
  || crosses1 mm body i3.

(** The atom with its [bond12] overwritten. *)
Definition Atom_with_bond12 (a : Atom) (b12 : list Z) : Atom :=
  mkAtom (atomIndex a) (a_chargedAtomTypeIndex a) b12 (bodyIx a) (station_B a)
         (bond13 a) (bond14 a) (bond15 a)
         (shortPath13 a) (shortPath14 a) (shortPath15 a) (bonds3Atoms a)
         (xbond12 a) (xbond13 a) (xbond14 a) (xbond15 a)
         (xshortPath13 a) (xshortPath14 a) (xshortPath15 a) (xbonds3Atoms a)
         (aImproperTorsion14 a) (aImproperTorsion a)
         (stretch a) (bend a) (torsion a).

(** [atoms[anum] = a] *)
Definition store_atom (mm : DuMMRep) (anum : Z) (a : Atom) : DuMMRep :=
  set_atoms (fun v => <[Z.to_nat anum := a]> v) mm.

(** The neighbourhood lists of atom [anum], in the order of [mkAtom] from
    [bond12] to [xbonds3Atoms], computed as lines 2770-2949 do on the
    subsystem [mm] in which [atoms[anum].bond12] is already sorted. *)
Record Neighborhoods : Type := mkNeighborhoods {
  n_bond13 : list IndexPair;
  n_bond14 : list IndexTriple;
  n_bond15 : list IndexQuad;
  n_shortPath13 : list IndexPair;
  n_shortPath14 : list IndexTriple;
  n_shortPath15 : list IndexQuad;
  n_bonds3Atoms : IndexTriple;
  n_xbond12 : list Z;
  n_xbond13 : list IndexPair;
  n_xbond14 : list IndexTriple;
  n_xbond15 : list IndexQuad;
  n_xshortPath13 : list IndexPair;
  n_xshortPath14 : list IndexTriple;
  n_xshortPath15 : list IndexQuad;
  n_xbonds3Atoms : IndexTriple
}.

Definition realizeNeighborhoods (mm : DuMMRep) (anum : Z) (b12 : list Z)
    (body : Z) : Neighborhoods :=
  let allBondedSoFar : gset Z := {[anum]} ∪ list_to_set b12 in
  let '(b13, sp13, allBondedSoFar) := build13 mm anum b12 allBondedSoFar in
  let b13 := std_sort pair_lt b13 in
  let sp13 := std_sort pair_lt sp13 in
  let b14 := std_sort triple_lt (build14 mm anum b13) in
  let '(sp14, allBondedSoFar) := buildShort14 mm sp13 allBondedSoFar in
  let sp14 := std_sort triple_lt sp14 in
  let b15 := std_sort quad_lt (build15 mm anum b14) in
  let '(sp15, allBondedSoFar) := buildShort15 mm sp14 allBondedSoFar in
  let sp15 := std_sort quad_lt sp15 in
  let b3 := match b12 with
            | [n0; n1; n2] => mkIndexTriple n0 n1 n2 false
            | _ => triple_invalid
            end in
  let xb3 := if triple_isValid b3 && crosses3 mm body b3
             then b3 else triple_invalid in
  mkNeighborhoods b13 b14 b15 sp13 sp14 sp15 b3
    (filter (fun j => crosses1 mm body j = true) b12)
    (filter (fun p => crosses2 mm body p = true) b13)
    (filter (fun t => crosses3 mm body t = true) b14)
    (filter (fun q => crosses4 mm body q = true) b15)
    (filter (fun p => crosses2 mm body p = true) sp13)
    (filter (fun t => crosses3 mm body t = true) sp14)
    (filter (fun q => crosses4 mm body q = true) sp15)
    xb3.

(** ** Topology realization: the parameters of one atom (lines 2951-3023) *)

Definition getAtomClassIndex (mm : DuMMRep) (atomIx : Z) : Z :=
  match vec_at (atoms mm) atomIx with
  | Some a =>
      match vec_at (chargedAtomTypes mm) (a_chargedAtomTypeIndex a) with
      | Some type => cat_atomClassIx type
      | None => InvalidAtomClassIndex
      end
  | None => InvalidAtomClassIndex
  end.

Definition getBondStretch (mm : DuMMRep) (class1 class2 : Z) : BondStretch :=
  match bondStretch mm !! mkIndexPair class1 class2 true with
  | Some bs => bs
  | None => BondStretch_default
  end.

Definition getBondBend (mm : DuMMRep) (class1 class2 class3 : Z) : BondBend :=
  match bondBend mm !! mkIndexTriple class1 class2 class3 true with
  | Some bb => bb
  | None => BondBend_default
  end.

(** [v.resize(xs.size())] on an empty [v], then for each [x] of [xs] in
    turn [v[b] = get(x)] followed by a realize check of [v[b]]: the vector
    as it is when the loop ends or throws, and whether it ended. *)
Fixpoint assignChecked {X P : Type} (get : X -> P) (valid : P -> bool)
    (dflt : P) (xs : list X) : list P * bool :=
  match xs with
  | [] => ([], true)
  | x :: xs' =>
      let p := get x in
      if valid p
      then let '(ps, ok) := assignChecked get valid dflt xs' in (p :: ps, ok)
      else (p :: replicate (length xs') dflt, false)
  end.

(** A function-local [static const] object: initialized by the first
    execution of its declaration in the process, and never again. *)
Definition static_local {A : Type} (cell : option A) (init : A) : A * option A :=
  match cell with
  | Some value => (value, cell)
  | None => (init, Some init)
  end.

(** The triples [(i2,i3,i4)] that reach the body of the three nested
    loops of lines 3002-3006, in loop order. *)
Definition improperOrderings : list (Z * Z * Z) :=
  i2 ← [0; 1; 2];
  i3 ← [0; 1; 2];
  if i3 =? i2 then [] else
  i4 ← [0; 1; 2];
  if (i4 =? i2) || (i4 =? i3) then [] else [(i2, i3, i4)].

(** The body of the loops (lines 3007-3019), on
    [(aImproperTorsion14, aImproperTorsion,] the static [bt)]. *)
Definition visitImproper (mm : DuMMRep) (c1 : Z) (x3 : IndexTriple)
    (st : list IndexTriple * list BondTorsion * option BondTorsion)
    (o : Z * Z * Z) : list IndexTriple * list BondTorsion * option BondTorsion :=
  let '(i14, its, cell) := st in
  let '(i2, i3, i4) := o in
  let '(bt, cell) :=
    static_local cell
      (getAmberImproperTorsion mm
         (getAtomClassIndex mm (triple_get x3 i2))
         (getAtomClassIndex mm (triple_get x3 i3))
         c1
         (getAtomClassIndex mm (triple_get x3 i4))) in
  if BondTorsion_isValid bt
  then (i14 ++ [mkIndexTriple (triple_get x3 i2) (triple_get x3 i3)
                              (triple_get x3 i4) false],
        its ++ [bt], cell)
  else (i14, its, cell).

Definition buildImpropers (mm : DuMMRep) (c1 : Z) (x3 : IndexTriple)
    (cell : option BondTorsion)
    : list IndexTriple * list BondTorsion * option BondTorsion :=
  if triple_isValid x3
  then foldl (visitImproper mm c1 x3) ([], [], cell) improperOrderings
  else ([], [], cell).

(** ** Topology realization: the loop over the atoms *)

(** Atom [a] with its caches overwritten. *)
Definition Atom_realized (a : Atom) (b12 : list Z) (n : Neighborhoods)
    (i14 : list IndexTriple) (its : list BondTorsion)
    (st : list BondStretch) (bd : list BondBend) (tr : list BondTorsion) : Atom :=
  mkAtom (atomIndex a) (a_chargedAtomTypeIndex a) b12 (bodyIx a) (station_B a)
         (n_bond13 n) (n_bond14 n) (n_bond15 n)
         (n_shortPath13 n) (n_shortPath14 n) (n_shortPath15 n) (n_bonds3Atoms n)
         (n_xbond12 n) (n_xbond13 n) (n_xbond14 n) (n_xbond15 n)
         (n_xshortPath13 n) (n_xshortPath14 n) (n_xshortPath15 n)
         (n_xbonds3Atoms n) i14 its st bd tr.

(** One turn of the loop of lines 2770-3025, with the static [bt] of line
    3007 as second component of the state. *)
Definition realizeAtom (mm : DuMMRep) (cell : option BondTorsion) (anum : Z)
    : Outcome (DuMMRep * option BondTorsion) :=
  match vec_at (atoms mm) anum with
  | None => OutOfRange
  | Some a =>
      let b12 := std_sort Z.ltb (bond12 a) in
      let mm := store_atom mm anum (Atom_with_bond12 a b12) in
      let n := realizeNeighborhoods mm anum b12 (bodyIx a) in
      let c1 := getAtomClassIndex mm anum in
      let '(st, ok) :=
        assignChecked (fun j => getBondStretch mm c1 (getAtomClassIndex mm j))
                      BondStretch_isValid BondStretch_default (n_xbond12 n) in
      if negb ok
      then Thrown RealizeCheckFailed
             (store_atom mm anum
                (Atom_realized a b12 n (aImproperTorsion14 a) (aImproperTorsion a)
                               st (bend a) (torsion a)), cell)
      else
      let '(bd, ok) :=
        assignChecked (fun '(i0, i1) =>
                         getBondBend mm c1 (getAtomClassIndex mm i0)
                                     (getAtomClassIndex mm i1))
                      BondBend_isValid BondBend_default (n_xbond13 n) in
      if negb ok
      then Thrown RealizeCheckFailed
             (store_atom mm anum
                (Atom_realized a b12 n (aImproperTorsion14 a) (aImproperTorsion a)
                               st bd (torsion a)), cell)
      else
      let '(tr, ok) :=
        assignChecked (fun '(i0, i1, i2) =>
                         getBondTorsion mm c1 (getAtomClassIndex mm i0)
                                        (getAtomClassIndex mm i1)
                                        (getAtomClassIndex mm i2))
                      BondTorsion_isValid (newBondTorsion dummyKey) (n_xbond14 n) in
      if negb ok
      then Thrown RealizeCheckFailed
             (store_atom mm anum
                (Atom_realized a b12 n (aImproperTorsion14 a) (aImproperTorsion a)
                               st bd tr), cell)
      else
      let '(i14, its, cell) := buildImpropers mm c1 (n_xbonds3Atoms n) cell in
      Ok (store_atom mm anum (Atom_realized a b12 n i14 its st bd tr), cell)
  end.

Fixpoint realizeAtoms (anums : list Z) (st : DuMMRep * option BondTorsion)
    : Outcome (DuMMRep * option BondTorsion) :=
  match anums with
  | [] => Ok st
  | anum :: rest =>
      match realizeAtom (fst st) (snd st) anum with
      | Ok st' => realizeAtoms rest st'
      | other => other
      end
  end.

(** [Atom::invalidateTopologicalCache] *)
Definition Atom_invalidateTopologicalCache (a : Atom) : Atom :=
  mkAtom (atomIndex a) (a_chargedAtomTypeIndex a) (bond12 a) (bodyIx a)
         (station_B a)
         [] [] [] [] [] [] triple_invalid
         [] [] [] [] [] [] [] triple_invalid [] [] [] [] [].

(** Lines 2745-2761: every atom of a valid body gets the body's index and
    the station of its placement. *)
Definition Atom_on_body (a : Atom) (body : Z) (station : Vec3) : Atom :=
  mkAtom (atomIndex a) (a_chargedAtomTypeIndex a) (bond12 a) body station
         (bond13 a) (bond14 a) (bond15 a)
         (shortPath13 a) (shortPath14 a) (shortPath15 a) (bonds3Atoms a)
         (xbond12 a) (xbond13 a) (xbond14 a) (xbond15 a)
         (xshortPath13 a) (xshortPath14 a) (xshortPath15 a) (xbonds3Atoms a)
         (aImproperTorsion14 a) (aImproperTorsion a)
         (stretch a) (bend a) (torsion a).

Definition placeOnBody (b : DuMMBody) (mm : DuMMRep) (ap : AtomPlacement)
    : option DuMMRep :=
  match vec_at (atoms mm) (ap_atomIndex ap) with
  | Some a =>
      Some (store_atom mm (ap_atomIndex ap)
              (Atom_on_body a (mobilizedBodyIndex b) (ap_station ap)))
  | None => None
  end.

Definition assignBodies (mm : DuMMRep) : option DuMMRep :=
  let mm := set_atoms
              (fmap (fun a => Atom_on_body a InvalidMobilizedBodyIndex (station_B a)))
              mm in
  forEachM (fun mm b =>
              if negb (DuMMBody_isValid b) then Some mm
              else forEachM (placeOnBody b) (allAtoms b) mm)
           (duMMSubsetOfBodies mm) mm.

(** [realizeSubsystemTopologyImpl] on the atoms (lines 2679-3025).  The
    mixed van der Waals table and the cluster tree are left out: the body
    lists [allAtoms] are taken as [DuMMBody::realizeTopologicalCache]
    fills them from the clusters. *)
Definition realizeSubsystemTopologyImpl (mm : DuMMRep) (cell : option BondTorsion)
    : Outcome (DuMMRep * option BondTorsion) :=
  if negb (forallb (fun a => isValidChargedAtomType mm (a_chargedAtomTypeIndex a))
                   (atoms mm))
  then Thrown ExceptionBase (mm, cell)
  else
    let mm := set_atoms (fmap Atom_invalidateTopologicalCache) mm in
    match assignBodies mm with
    | None => OutOfRange
    | Some mm => realizeAtoms (seqZ 0 (vec_size (atoms mm))) (mm, cell)
    end.

(** ** The force kernel: which terms are processed (lines 3075-3341) *)

(** The loops of [realizeSubsystemDynamicsImpl] over bodies, atoms and
    bond lists, with their [continue] tests.  What is computed for a term
    that is processed is a parameter: [stretchTerm a1num a1 b12 a2num] for
    the statements after the test of the stretch loop, and so on;
    [scaleTerm] and [unscaleTerm] are the calls around the nonbonded
    loop. *)
Section Kernel.

Context {S : Type}.
Variable stretchTerm : Z -> Atom -> nat -> Z -> S -> S.
Variable bendTerm : Z -> Atom -> nat -> IndexPair -> S -> S.
Variable torsionTerm : Z -> Atom -> nat -> IndexTriple -> S -> S.
Variable improperTerm : Z -> Atom -> nat -> IndexTriple -> S -> S.
Variable scaleTerm unscaleTerm : Atom -> S -> S.
Variable nonbondedTerm : DuMMBody -> Z -> DuMMBody -> Z -> S -> S.

Definition withIndex {A : Type} (l : list A) : list (nat * A) := imap pair l.

Definition stretchLoop (a1num : Z) (a1 : Atom) (s : S) : S :=
  foldl (fun s '(b12, a2num) =>
           if a2num <? a1num then s else stretchTerm a1num a1 b12 a2num s)
        s (withIndex (xbond12 a1)).

Definition bendLoop (a1num : Z) (a1 : Atom) (s : S) : S :=
  foldl (fun s '(b13, (a2num, a3num)) =>
           if a3num <? a1num then s else bendTerm a1num a1 b13 (a2num, a3num) s)
        s (withIndex (xbond13 a1)).

Definition torsionLoop (a1num : Z) (a1 : Atom) (s : S) : S :=
  foldl (fun s '(b14, (a2num, a3num, a4num)) =>
           if a4num <? a1num then s
           else torsionTerm a1num a1 b14 (a2num, a3num, a4num) s)
        s (withIndex (xbond14 a1)).

Definition improperLoop (a1num : Z) (a1 : Atom) (s : S) : S :=
  foldl (fun s '(b14, t) => improperTerm a1num a1 b14 t s)
        s (withIndex (aImproperTorsion14 a1)).

Definition nonbondedLoop (body1 : DuMMBody) (a1num : Z)
    (later : list DuMMBody) (s : S) : S :=
  foldl (fun s body2 =>
           foldl (fun s ap2 => nonbondedTerm body1 a1num body2 (ap_atomIndex ap2) s)
                 s (allAtoms body2))
        s later.

(** The body of the loop over the atoms of [body1]; [later] are the
    bodies after it.  [None] when [atoms[a1num]] is outside the vector. *)
Definition atomLoopBody (mm : DuMMRep) (body1 : DuMMBody) (later : list DuMMBody)
    (s : S) (ap1 : AtomPlacement) : option S :=
  let a1num := ap_atomIndex ap1 in
  a1 ← vec_at (atoms mm) a1num;
  let s := stretchLoop a1num a1 s in
  let s := bendLoop a1num a1 s in
  let s := torsionLoop a1num a1 s in
  let s := improperLoop a1num a1 s in
  let s := scaleTerm a1 s in
  let s := nonbondedLoop body1 a1num later s in
  Some (unscaleTerm a1 s).

Fixpoint bodyLoop (mm : DuMMRep) (bodies : list DuMMBody) (s : S) : option S :=
  match bodies with
  | [] => Some s
  | body1 :: later =>
      match forEachM (atomLoopBody mm body1 later) (allAtoms body1) s with
      | Some s' => bodyLoop mm later s'
      | None => None
      end
  end.

Definition forceKernel (mm : DuMMRep) (s : S) : option S :=
  bodyLoop mm (duMMSubsetOfBodies mm) s.

End Kernel.

(** The terms of the force field, by the atoms they act on: the focal atom
    first for stretch, bend and torsion, third for an improper torsion. *)
Inductive Interaction : Type :=
| Stretch (a1 a2 : Z)
| Bend (a1 a2 a3 : Z)
| Torsion (a1 a2 a3 a4 : Z)
| Improper (a2 a3 a1 a4 : Z)
| Nonbonded (a1 a2 : Z).

#[global] Instance Interaction_eq_dec : EqDecision Interaction.
Proof. solve_decision. Defined.

(** The kernel that records each term it processes. *)
Definition recordStretch (a1num : Z) (a1 : Atom) (b12 : nat) (a2num : Z)
    (tr : list Interaction) : list Interaction :=
  tr ++ [Stretch a1num a2num].

Definition recordBend (a1num : Z) (a1 : Atom) (b13 : nat) (p : IndexPair)
    (tr : list Interaction) : list Interaction :=
  tr ++ [Bend a1num (fst p) (snd p)].

Definition recordTorsion (a1num : Z) (a1 : Atom) (b14 : nat) (t : IndexTriple)
    (tr : list Interaction) : list Interaction :=
  tr ++ [Torsion a1num (fst (fst t)) (snd (fst t)) (snd t)].

Definition recordImproper (a1num : Z) (a1 : Atom) (b14 : nat) (t : IndexTriple)
    (tr : list Interaction) : list Interaction :=
  tr ++ [Improper (fst (fst t)) (snd (fst t)) a1num (snd t)].

Definition recordNonbonded (body1 : DuMMBody) (a1num : Z) (body2 : DuMMBody)
    (a2num : Z) (tr : list Interaction) : list Interaction :=
  tr ++ [Nonbonded a1num a2num].

Definition kernelTrace (mm : DuMMRep) : option (list Interaction) :=
  forceKernel recordStretch recordBend recordTorsion recordImproper
              (fun _ tr => tr) (fun _ tr => tr) recordNonbonded mm [].

(** How many times the term [e] is processed. *)
Definition evaluations (tr : list Interaction) (e : Interaction) : nat :=
  length (filter (fun x => x = e) tr).

(** ** The neighbourhood loops as lists of paths *)

(** The paths that the all-paths loops append, in loop order. *)
Definition paths13 (mm : DuMMRep) (anum : Z) (b12 : list Z) : list IndexPair :=
  a12 ← b12;
  newAtom ← bond12_of mm a12;
  if newAtom =? anum then [] else [(a12, newAtom)].

Definition paths14 (mm : DuMMRep) (anum : Z) (b13 : list IndexPair)
    : list IndexTriple :=
  p ← b13;
  newAtom ← bond12_of mm (snd p);
  if negb (newAtom =? anum) && negb (newAtom =? fst p)
  then [(fst p, snd p, newAtom)] else [].

Definition paths15 (mm : DuMMRep) (anum : Z) (b14 : list IndexTriple)
    : list IndexQuad :=
  t ← b14;
  newAtom ← bond12_of mm (snd t);
  if negb (newAtom =? anum) && negb (newAtom =? fst (fst t))
     && negb (newAtom =? snd (fst t))
  then [(fst (fst t), snd (fst t), snd t, newAtom)] else [].

(** The one-bond extensions that the shortest-path loops look at. *)
Definition steps14 (mm : DuMMRep) (sp13 : list IndexPair) : list IndexTriple :=
  p ← sp13;
  newAtom ← bond12_of mm (snd p);
  [(fst p, snd p, newAtom)].

Definition steps15 (mm : DuMMRep) (sp14 : list IndexTriple) : list IndexQuad :=
  t ← sp14;
  newAtom ← bond12_of mm (snd t);
  [(fst (fst t), snd (fst t), snd t, newAtom)].

(** Going through candidate paths, keeping those whose last atom has not
    been met and marking it as met. *)
Definition pickUnseen {P : Type} (target : P -> Z) (cands : list P)
    (st : list P * gset Z) : list P * gset Z :=
  foldl (fun st c =>
           if decide (target c ∈ snd st) then st
           else (fst st ++ [c], snd st ∪ {[target c]}))
        st cands.

(** ** The shortest-path invariant of an atom *)

(** The last atoms of the shortest paths of an atom. *)
Definition shortPathTargets (a : Atom) : list Z :=
  (snd <$> shortPath13 a) ++ (snd <$> shortPath14 a) ++ (snd <$> shortPath15 a).

(** Each shortest path is one of the paths of the same length; no atom
    ends two shortest paths of the focal atom [anum]; no shortest path
    ends at the focal atom or at one of its 1-2 neighbours. *)
Definition shortPaths_ok (anum : Z) (a : Atom) : Prop :=
  (forall p, p ∈ shortPath13 a -> p ∈ bond13 a)
  /\ (forall t, t ∈ shortPath14 a -> t ∈ bond14 a)
  /\ (forall q, q ∈ shortPath15 a -> q ∈ bond15 a)
  /\ NoDup (shortPathTargets a)
  /\ (forall x, x ∈ shortPathTargets a -> x <> anum /\ x ∉ bond12 a).

(** ** What realization leaves in an atom *)

(** The neighbourhood lists stored in an atom. *)
Definition neighborhoods_of (a : Atom) : Neighborhoods :=
  mkNeighborhoods (bond13 a) (bond14 a) (bond15 a)
    (shortPath13 a) (shortPath14 a) (shortPath15 a) (bonds3Atoms a)
    (xbond12 a) (xbond13 a) (xbond14 a) (xbond15 a)
    (xshortPath13 a) (xshortPath14 a) (xshortPath15 a) (xbonds3Atoms a).

(** Two states of the subsystem with the same atoms bonded to the same
    atoms and attached to the same bodies; the order inside a [bond12]
    list may differ, since realization sorts these lists as it goes. *)
Definition sameTopology (mm mm' : DuMMRep) : Prop :=
  length (atoms mm') = length (atoms mm)
  /\ forall i : Z,
       bond12_of mm' i ≡ₚ bond12_of mm i /\ bodyIx_of mm' i = bodyIx_of mm i.

(** Atom [a'] at index [j] holds the neighbourhoods that the loop body
    computes for [j] on some state with the topology of [mm]. *)
Definition atom_realized_in (mm : DuMMRep) (j : Z) (a' : Atom) : Prop :=
  exists mmk : DuMMRep,
    sameTopology mm mmk
    /\ bond12 a' ≡ₚ bond12_of mm j
    /\ bodyIx a' = bodyIx_of mm j
    /\ neighborhoods_of a' = realizeNeighborhoods mmk j (bond12 a') (bodyIx a').

(** ** The terms the kernel processes, loop by loop *)

Definition stretchEvents (a1num : Z) (a1 : Atom) : list Interaction :=
  a2num ← xbond12 a1;
  if a2num <? a1num then [] else [Stretch a1num a2num].

Definition bendEvents (a1num : Z) (a1 : Atom) : list Interaction :=
  p ← xbond13 a1;
  if snd p <? a1num then [] else [Bend a1num (fst p) (snd p)].

Definition torsionEvents (a1num : Z) (a1 : Atom) : list Interaction :=
  t ← xbond14 a1;
  if snd t <? a1num then []
  else [Torsion a1num (fst (fst t)) (snd (fst t)) (snd t)].

Definition improperEvents (a1num : Z) (a1 : Atom) : list Interaction :=
  t ← aImproperTorsion14 a1;
  [Improper (fst (fst t)) (snd (fst t)) a1num (snd t)].

Definition nonbondedEvents (a1num : Z) (later : list DuMMBody)
    : list Interaction :=
  body2 ← later;
  ap2 ← allAtoms body2;
  [Nonbonded a1num (ap_atomIndex ap2)].

Definition bondedEvents (mm : DuMMRep) (a1num : Z) : list Interaction :=
  match vec_at (atoms mm) a1num with
  | Some a1 =>
      stretchEvents a1num a1 ++ bendEvents a1num a1
      ++ torsionEvents a1num a1 ++ improperEvents a1num a1
  | None => []
  end.

Definition atomEvents (mm : DuMMRep) (later : list DuMMBody) (a1num : Z)
    : list Interaction :=
  bondedEvents mm a1num ++ nonbondedEvents a1num later.

Fixpoint bodyEvents (mm : DuMMRep) (bodies : list DuMMBody) : list Interaction :=
  match bodies with
  | [] => []
  | body1 :: later =>
      (ap1 ← allAtoms body1; atomEvents mm later (ap_atomIndex ap1))
      ++ bodyEvents mm later
  end.

(** The atoms of a body and of a list of bodies, in loop order. *)
Definition atomsOf (b : DuMMBody) : list Z := ap_atomIndex <$> allAtoms b.

Definition focalAtoms (bodies : list DuMMBody) : list Z := bodies ≫= atomsOf.

(** ** Well-formed topology *)

(** The bond graph as [addBond] builds it: symmetric, without an atom
    bonded to itself or twice to the same atom. *)
Definition bondGraph_wf (mm : DuMMRep) : Prop :=
  (forall i j, j ∈ bond12_of mm i -> i ∈ bond12_of mm j)
  /\ (forall i, i ∉ bond12_of mm i)
  /\ (forall i, NoDup (bond12_of mm i)).

(** Every atom is listed by exactly one body, once, and the bodies list
    nothing but atoms. *)
Definition bodies_wf (mm : DuMMRep) : Prop :=
  NoDup (focalAtoms (duMMSubsetOfBodies mm))
  /\ forall i, i ∈ focalAtoms (duMMSubsetOfBodies mm)
               <-> 0 <= i < vec_size (atoms mm).

(** The centre of an improper torsion term. *)
Definition improperCentre (e : Interaction) : option Z :=
  match e with
  | Improper _ _ a1 _ => Some a1
  | _ => None
  end.

(** The terms of one kind that the kernel processes for focal atom [k]:
    the entries [x] of the list [lst] of the atom that are not skipped. *)
Definition kindEvents {X : Type} (lst : Atom -> list X) (skip : Z -> X -> bool)
    (mk : Z -> X -> Interaction) (mm : DuMMRep) (k : Z) : list Interaction :=
  match vec_at (atoms mm) k with
  | Some r => x ← lst r; if skip k x then [] else [mk k x]
  | None => []
  end.

(** The nonbonded terms between the atoms [xs] and the atoms [ys]. *)
Definition pairEvents (xs ys : list Z) : list Interaction :=
  k ← xs; j ← ys; [Nonbonded k j].

(** Two states of the subsystem with the same bodies and the same atoms
    bonded to the same atoms, the order inside a [bond12] list apart:
    what realization keeps of the state it starts from. *)
Definition sameBonds (mm mm' : DuMMRep) : Prop :=
  duMMSubsetOfBodies mm' = duMMSubsetOfBodies mm
  /\ length (atoms mm') = length (atoms mm)
  /\ forall i : Z, bond12_of mm' i ≡ₚ bond12_of mm i.

(** ** Sample inputs *)

(** The identity transform. *)
Definition Transform_identity : Transform :=
  mkTransform ((1, 0, 0), (0, 1, 0), (0, 0, 1))%R Vec3_zero.

(** An atom on a body, bonded to nothing. *)
Definition atom_on_body (aIx body : Z) (station : Vec3) : Atom :=
  mkAtom aIx 0 [] body station
         [] [] [] [] [] [] triple_invalid
         [] [] [] [] [] [] [] triple_invalid [] [] [] [] [].

(** Atom 0 with a cross-body 1-2 partner 1 and a cross-body 1-3 partner 2,
    three atoms in all, under the default scale factors. *)
Definition atom_with_partners : Atom :=
  mkAtom 0 0 [1] 0 Vec3_zero
         [(1, 2)] [] [] [(1, 2)] [] [] triple_invalid
         [1] [(1, 2)] [] [] [(1, 2)] [] [] triple_invalid [] [] [] [] [].

(** The subsystem with its vector of atoms replaced. *)
Definition with_atoms (mm : DuMMRep) (v : list Atom) : DuMMRep :=
  set_atoms (fun _ => v) mm.

(** Atom [aIx] of charged atom type [aIx], with its bonds. *)
Definition bondedAtom (aIx : Z) (b12 : list Z) : Atom :=
  Atom_with_bond12 (newAtom aIx aIx) b12.

(** The torsion of the single term n=2, 1 kJ/mol, 180 degrees. *)
Definition oneTermTorsion (key : IndexQuad) : BondTorsion :=
  collectTerms key 2 1 180 (-1) 0 0 (-1) 0 0.

(** Five atoms on three bodies, as [addAtom], [addBond(0,3)],
    [addBond(0,1)], [addBond(0,2)], [addBond(1,4)] and the attachment to
    bodies leave them: atom 0 alone on body 1, its three neighbours 1, 2, 3
    on body 2, atom 4 (bonded to atom 1) on body 3.  Atom [i] has charged
    atom type [i] of atom class [i].  Stretch, bend and torsion parameters
    are defined for every cross-body bond and path of the molecule; the
    table of improper torsions holds the single quad [key]. *)
Definition molecule (key : IndexQuad) : DuMMRep :=
  mkRep [bondedAtom 0 [3; 1; 2]; bondedAtom 1 [0; 4]; bondedAtom 2 [0];
         bondedAtom 3 [0]; bondedAtom 4 [1]]
        [mkDuMMBody 0 1 [mkAtomPlacement 0 Vec3_zero];
         mkDuMMBody 1 2 [mkAtomPlacement 1 Vec3_zero; mkAtomPlacement 2 Vec3_zero;
                         mkAtomPlacement 3 Vec3_zero];
         mkDuMMBody 2 3 [mkAtomPlacement 4 Vec3_zero]]
        ((fun c => mkAtomClass c 6 4 (Some 1%R) (Some 1%R)) <$> [0; 1; 2; 3; 4])
        ((fun t => mkChargedAtomType t t (Some 0%R)) <$> [0; 1; 2; 3; 4])
        {[ (0, 1) := mkBondStretch (0, 1) 1 1; (0, 2) := mkBondStretch (0, 2) 1 1;
           (0, 3) := mkBondStretch (0, 3) 1 1; (1, 4) := mkBondStretch (1, 4) 1 1 ]}
        {[ (0, 1, 4) := mkBondBend (0, 1, 4) 1 2;
           (1, 0, 2) := mkBondBend (1, 0, 2) 1 2;
           (1, 0, 3) := mkBondBend (1, 0, 3) 1 2;
           (2, 0, 3) := mkBondBend (2, 0, 3) 1 2 ]}
        {[ (2, 0, 1, 4) := oneTermTorsion (2, 0, 1, 4);
           (3, 0, 1, 4) := oneTermTorsion (3, 0, 1, 4) ]}
        {[ key := oneTermTorsion key ]}
        WaldmanHagler 0 0 0 0 1 1 1 1 1 false.

(** The six orderings of the neighbours 1, 2, 3 of atom 0, in the order of
    the loops of lines 3002-3006. *)
Definition neighbourOrderings : list IndexTriple :=
  [(1, 2, 3); (1, 3, 2); (2, 1, 3); (2, 3, 1); (3, 1, 2); (3, 2, 1)].

(** ** Bond bend (lines 3735-3766) *)

(** [v / s] on a [Vec3]. *)
Definition Vec3_div (a : Vec3) (s : R) : Vec3 :=
  let '(a0, a1, a2) := a in (a0 / s, a1 / s, a2 / s)%R.

(** The reference results of [harmonic]. *)
Record BendResult : Type := mkBendResult {
  br_theta : R;
  br_pe : R;
  br_cf : Vec3;
  br_rf : Vec3;
  br_sf : Vec3
}.

Section Harmonic.

Variable UnitVec3_perp : Vec3 -> Vec3.
Variable std_atan2 : R -> R -> R.

Local Open Scope R_scope.

(** [BondBend::harmonic]: central atom at [cG], bonded to atoms at [rG]
    and [sG]. *)
Definition harmonic (bb : BondBend) (cG rG sG : Vec3) (scale : R) : BendResult :=
  let ks := scale * bb_k bb in
  let r := Vec3_sub rG cG in
  let s := Vec3_sub sG cG in
  let rr := Vec3_dot r r in
  let ss := Vec3_dot s s in
  let rs := Vec3_dot r s in
  let rxs := Vec3_cross r s in
  let rxslen := Vec3_norm rxs in
  let theta := std_atan2 rxslen rs in
  let bend := theta - bb_theta0 bb in
  let pe := ks * bend * bend in
  let p := if decide (rxslen <> 0) then Vec3_div rxs rxslen
           else UnitVec3_perp (UnitVec3_normalize r) in
  let ffac := -2 * ks * bend in
  let rf := Vec3_scale (ffac / rr) (Vec3_cross r p) in
  let sf := Vec3_scale (ffac / ss) (Vec3_cross p s) in
  let cf := Vec3_neg (Vec3_add rf sf) in
  mkBendResult theta pe cf rf sf.

End Harmonic.

(** ** Validity of a torsion term (lines 541-557) *)

Definition Rltb (x y : R) : bool := if Rlt_dec x y then true else false.

Definition TorsionTerm_isValid (t : TorsionTerm) : bool :=
  (periodicity t >? 0) && Rgeb (amplitude t) 0
  && Rltb (- PI) (theta0 t) && Rleb (theta0 t) PI.

(** ** The table of mixed van der Waals parameters (lines 2696-2716) *)

(** The vectors [vdwDij] and [vdwEij] of an atom class; [None] is NaN. *)
Abbreviation VdwRow := (list (option R) * list (option R))%type.

Section VdwTable.

Variable std_pow : R -> R -> R.

(** [applyMixingRule(iclass.vdwRadius, jclass.vdwRadius, iclass.vdwWellDepth,
    jclass.vdwWellDepth, iclass.vdwDij[k], iclass.vdwEij[k])]; a NaN
    parameter gives NaN results. *)
Definition mixInto (mm : DuMMRep) (iclass jclass : AtomClass) (k : nat)
    (row : VdwRow) : VdwRow :=
  match vdwRadius iclass, vdwRadius jclass,
        vdwWellDepth iclass, vdwWellDepth jclass with
  | Some ri, Some rj, Some ei, Some ej =>
      let '(dmin, emin) := applyMixingRule std_pow mm ri rj ei ej in
      (<[k := Some dmin]> (fst row), <[k := Some emin]> (snd row))
  | _, _, _, _ => (<[k := None]> (fst row), <[k := None]> (snd row))
  end.

(** The two [resize] to [atomClasses.size()-i] NaN entries of the cleared
    vectors of class [i], then the loop over [j >= i]. *)
Definition vdwRow (mm : DuMMRep) (i : nat) (iclass : AtomClass) : VdwRow :=
  let n := length (atomClasses mm) in
  foldl (fun row j =>
           match atomClasses mm !! j with
           | Some jclass =>
               if AtomClass_isValid jclass && AtomClass_isComplete jclass
               then mixInto mm iclass jclass (j - i) row
               else row
           | None => row
           end)
        (replicate (n - i) None, replicate (n - i) None)
        (seq i (n - i)).

(** The loop over the classes, on vectors that
    [invalidateAllTopologicalCacheEntries] has cleared: the vectors of
    each class, in the order of [atomClasses]. *)
Definition realizeVdwTables (mm : DuMMRep) : list VdwRow :=
  imap (fun i iclass =>
          if negb (AtomClass_isValid iclass) then ([], [])
          else if negb (AtomClass_isComplete iclass) then ([], [])
          else vdwRow mm i iclass)
       (atomClasses mm).

End VdwTable.

(** The mixed parameters as the nonbonded loop reads them (lines
    3316-3320), from the class of lower index; the outer [None] is a read
    outside a vector. *)
Definition vdwDij (tables : list VdwRow) (a1cnum a2cnum : Z)
    : option (option R) :=
  if a1cnum <=? a2cnum
  then a1class ← vec_at tables a1cnum; vec_at (fst a1class) (a2cnum - a1cnum)
  else a2class ← vec_at tables a2cnum; vec_at (fst a2class) (a1cnum - a2cnum).

Definition vdwEij (tables : list VdwRow) (a1cnum a2cnum : Z)
    : option (option R) :=
  if a1cnum <=? a2cnum
  then a1class ← vec_at tables a1cnum; vec_at (snd a1class) (a2cnum - a1cnum)
  else a2class ← vec_at tables a2cnum; vec_at (snd a2class) (a1cnum - a2cnum).

(** ** One pair of the nonbonded loop (lines 3303-3334) *)

(** The energy [eCoulomb + eVdw] and the force [fj] on the second atom,
    from the vector [r] between the atoms and the numbers the loop has
    read: [coulombScale[a2num]], [vdwScale[a2num]], [q1Fac], the partial
    charge [q2] of the second atom, [dij], [eij] and the global van der
    Waals factor. *)
Definition nonbondedTerm (coulombScale_a2 vdwScale_a2 q1Fac q2 dij eij
    vdwGlobalScaleFactor : R) (r : Vec3) : R * Vec3 :=
  let d2 := Vec3_normSqr r in
  let ood := (1 / sqrt d2)%R in
  let ood2 := (ood * ood)%R in
  let qq := (coulombScale_a2 * q1Fac * q2)%R in
  let eCoulomb := (qq * ood)%R in
  let fCoulomb := eCoulomb in
  let ddij2 := (dij * dij * ood2)%R in
  let ddij6 := (ddij2 * ddij2 * ddij2)%R in
  let ddij12 := (ddij6 * ddij6)%R in
  let eijScale := (vdwGlobalScaleFactor * vdwScale_a2 * eij)%R in
  let eVdw := (eijScale * (ddij12 - 2 * ddij6))%R in
  let fVdw := (12 * eijScale * (ddij12 - ddij6))%R in
  let fj := Vec3_scale ((fCoulomb + fVdw) * ood2) r in
  ((eCoulomb + eVdw)%R, fj).

(** ** Bond stretch and bond bend parameters (lines 1668-1736) *)

Definition set_bondStretch (m : gmap IndexPair BondStretch) (mm : DuMMRep) : DuMMRep :=
  mkRep (atoms mm) (duMMSubsetOfBodies mm) (atomClasses mm)
        (chargedAtomTypes mm) m (bondBend mm) (bondTorsion mm)
        (amberImproperTorsion mm) (vdwMixingRule mm)
        (vdwScale12 mm) (coulombScale12 mm) (vdwScale13 mm) (coulombScale13 mm)
        (vdwScale14 mm) (coulombScale14 mm) (vdwScale15 mm) (coulombScale15 mm)
        (bondStretchGlobalScaleFactor mm) (topologyCacheValid mm).

Definition set_bondBend (m : gmap IndexTriple BondBend) (mm : DuMMRep) : DuMMRep :=
  mkRep (atoms mm) (duMMSubsetOfBodies mm) (atomClasses mm)
        (chargedAtomTypes mm) (bondStretch mm) m (bondTorsion mm)
        (amberImproperTorsion mm) (vdwMixingRule mm)
        (vdwScale12 mm) (coulombScale12 mm) (vdwScale13 mm) (coulombScale13 mm)
        (vdwScale14 mm) (coulombScale14 mm) (vdwScale15 mm) (coulombScale15 mm)
        (bondStretchGlobalScaleFactor mm) (topologyCacheValid mm).

(** [BondStretch(key, stiffnessInKJperNmSq, lengthInNm)] *)
Definition newBondStretch (key : IndexPair) (stiffnessInKJperNmSq lengthInNm : R)
    : BondStretch :=
  mkBondStretch key stiffnessInKJperNmSq lengthInNm.

(** [BondBend(key, stiffnessInKJPerRadSq, angleInDeg)] *)
Definition newBondBend (key : IndexTriple) (stiffnessInKJPerRadSq angleInDeg : R)
    : BondBend :=
  mkBondBend key stiffnessInKJPerRadSq (angleInDeg * Deg2Rad)%R.

Definition defineBondStretch (mm : DuMMRep) (class1 class2 : Z)
    (stiffnessInKJPerNmSq nominalLengthInNm : R) : Outcome DuMMRep :=
  let mm := invalidateSubsystemTopologyCache mm in
  if negb (isValidAtomClass mm class1) then Thrown APIArgcheckFailed mm else
  if negb (isValidAtomClass mm class2) then Thrown APIArgcheckFailed mm else
  if negb (Rgeb stiffnessInKJPerNmSq 0) then Thrown APIArgcheckFailed mm else
  if negb (Rgeb nominalLengthInNm 0) then Thrown APIArgcheckFailed mm else
  let key := mkIndexPair class1 class2 true in
  let ret := std_map_insert (bondStretch mm) key
               (newBondStretch key stiffnessInKJPerNmSq nominalLengthInNm) in
  let mm := set_bondStretch (fst ret) mm in
  if negb (snd ret) then Thrown APIArgcheckFailed mm else Ok mm.

Definition defineBondBend (mm : DuMMRep) (class1 class2 class3 : Z)
    (stiffnessInKJPerRadSq nominalAngleInDeg : R) : Outcome DuMMRep :=
  let mm := invalidateSubsystemTopologyCache mm in
  if negb (isValidAtomClass mm class1) then Thrown APIArgcheckFailed mm else
  if negb (isValidAtomClass mm class2) then Thrown APIArgcheckFailed mm else
  if negb (isValidAtomClass mm class3) then Thrown APIArgcheckFailed mm else
  if negb (Rgeb stiffnessInKJPerRadSq 0) then Thrown APIArgcheckFailed mm else
  if negb (Rleb 0 nominalAngleInDeg && Rleb nominalAngleInDeg 180)
  then Thrown APIArgcheckFailed mm else
  let key := mkIndexTriple class1 class2 class3 true in
  let ret := std_map_insert (bondBend mm) key
               (newBondBend key stiffnessInKJPerRadSq nominalAngleInDeg) in
  let mm := set_bondBend (fst ret) mm in
  if negb (snd ret) then Thrown APIArgcheckFailed mm else Ok mm.

(** ** Atoms and bonds (lines 710-714, 1127-1133, 2206-2220, 2383-2416) *)

(** Outcome of a call that returns a value: normal return with the new
    state and the value, an exception with the state as it is when
    thrown, or an unchecked access outside a vector. *)
Inductive Returned (S A : Type) : Type :=
| Returns (s : S) (a : A)
| Throws (e : Exception) (s : S)
| Unchecked.
Arguments Returns {S A} s a.
Arguments Throws {S A} e s.
Arguments Unchecked {S A}.

Definition isValidAtom (mm : DuMMRep) (atomNum : Z) : bool :=
  (0 <=? atomNum) && (atomNum <? vec_size (atoms mm))
  && match vec_at (atoms mm) atomNum with
     | Some a => Atom_isValid a
     | None => false
     end.

Definition isBondedTo (a : Atom) (anum : Z) : bool :=
  existsb (fun b => b =? anum) (bond12 a).

Definition addAtom (mm : DuMMRep) (chargedAtomTypeIndex : Z) : Returned DuMMRep Z :=
  let mm := invalidateSubsystemTopologyCache mm in
  if negb (isValidChargedAtomType mm chargedAtomTypeIndex)
  then Throws APIArgcheckFailed mm else
  let atomIndex := vec_size (atoms mm) in
  Returns (set_atoms (fun v => v ++ [newAtom chargedAtomTypeIndex atomIndex]) mm)
          atomIndex.

(** [atoms[anum].bond12.push_back(x)] *)
Definition push_bond12 (mm : DuMMRep) (anum x : Z) : option DuMMRep :=
  match vec_at (atoms mm) anum with
  | Some a => Some (store_atom mm anum (Atom_with_bond12 a (bond12 a ++ [x])))
  | None => None
  end.

(** [addBond], with the vector [bonds] of the subsystem, one index pair
    per bond, kept beside the record. *)
Definition addBond (mm : DuMMRep) (bonds : list IndexPair) (atom1Ix atom2Ix : Z)
    : Returned (DuMMRep * list IndexPair) Z :=
  let mm := invalidateSubsystemTopologyCache mm in
  if negb (isValidAtom mm atom1Ix) then Throws APIArgcheckFailed (mm, bonds) else
  if negb (isValidAtom mm atom2Ix) then Throws APIArgcheckFailed (mm, bonds) else
  if negb (negb (atom1Ix =? atom2Ix)) then Throws APIArgcheckFailed (mm, bonds) else
  let '(atom1Ix, atom2Ix) :=
    if atom1Ix >? atom2Ix then (atom2Ix, atom1Ix) else (atom1Ix, atom2Ix) in
  match vec_at (atoms mm) atom1Ix with
  | None => Unchecked
  | Some a1 =>
      if negb (negb (isBondedTo a1 atom2Ix))
      then Throws APIArgcheckFailed (mm, bonds) else
      let bonds := bonds ++ [mkIndexPair atom1Ix atom2Ix false] in
      match push_bond12 mm atom1Ix atom2Ix with
      | None => Unchecked
      | Some mm =>
          match push_bond12 mm atom2Ix atom1Ix with
          | None => Unchecked
          | Some mm => Returns (mm, bonds) (vec_size bonds - 1)
          end
      end
  end.

(** Every atom sits at its own index and is valid, every bonded atom is
    an atom of the subsystem, and [bonds] lists each bond once, lower
    index first. *)
Definition atoms_wf (mm : DuMMRep) (bonds : list IndexPair) : Prop :=
  (forall i a, vec_at (atoms mm) i = Some a ->
               atomIndex a = i /\ Atom_isValid a = true)
  /\ (forall i j, j ∈ bond12_of mm i -> 0 <= j < vec_size (atoms mm))
  /\ NoDup bonds
  /\ (forall a b, (a, b) ∈ bonds <-> a < b /\ b ∈ bond12_of mm a).

(** Two states of the subsystem with the same force field tables and, at
    every index, an atom of the same charged atom type. *)
Definition sameParameters (mm mm' : DuMMRep) : Prop :=
  atomClasses mm' = atomClasses mm
  /\ chargedAtomTypes mm' = chargedAtomTypes mm
  /\ bondStretch mm' = bondStretch mm
  /\ bondBend mm' = bondBend mm
  /\ bondTorsion mm' = bondTorsion mm
  /\ amberImproperTorsion mm' = amberImproperTorsion mm
  /\ forall i : Z,
       a_chargedAtomTypeIndex <$> vec_at (atoms mm') i
       = a_chargedAtomTypeIndex <$> vec_at (atoms mm) i.

(** The bonded parameters stored with atom [r] of index [k] are the
    entries of the tables of [mm] for the classes of the atoms of its
    cross-body lists, in the order of the lists, and all of them valid. *)
Definition parameters_of_tables (mm : DuMMRep) (k : Z) (r : Atom) : Prop :=
  let cls := getAtomClassIndex mm in
  stretch r = (fun j => getBondStretch mm (cls k) (cls j)) <$> xbond12 r
  /\ bend r = (fun '(i0, i1) => getBondBend mm (cls k) (cls i0) (cls i1))
              <$> xbond13 r
  /\ torsion r = (fun '(i0, i1, i2) =>
                    getBondTorsion mm (cls k) (cls i0) (cls i1) (cls i2))
                 <$> xbond14 r
  /\ Forall (fun p => BondStretch_isValid p = true) (stretch r)
  /\ Forall (fun p => BondBend_isValid p = true) (bend r)
  /\ Forall (fun p => BondTorsion_isValid p = true) (torsion r).

(** A subsystem with the single atom class 0 (carbon, valence 4) and
    nothing else. *)
Definition rep_one_class : DuMMRep :=
  set_atomClasses (fun _ => [mkAtomClass 0 6 4 None None]) newDuMMRep.

(** ** Clusters and bodies (lines 647-686, 835-1092, 1181-1209, 1300-1326,
       2342-2367, 3945-4014, 4098-4106) *)

Definition InvalidClusterIndex : Z := -1.
Definition InvalidDuMMBodyIndex : Z := -1.

(** [X*v] and [X*Y] on transforms: rotate, then shift. *)
Definition Transform_apply (X : Transform) (v : Vec3) : Vec3 :=
  Vec3_add (Mat33_mul (X_R X) v) (X_T X).

Definition Mat33_transpose (m : Mat33) : Mat33 :=
  let '((a00, a01, a02), (a10, a11, a12), (a20, a21, a22)) := m in
  ((a00, a10, a20), (a01, a11, a21), (a02, a12, a22)).

Definition Transform_compose (X Y : Transform) : Transform :=
  let '(r0, r1, r2) := X_R X in
  let Yt := Mat33_transpose (X_R Y) in
  mkTransform (Mat33_mul Yt r0, Mat33_mul Yt r1, Mat33_mul Yt r2)
              (Transform_apply X (X_T Y)).

(** A [Cluster].  An [AtomPlacementSet] is a [std::set] ordered and
    compared by atom index alone, so it holds one station per atom index;
    likewise a [ClusterPlacementSet] holds one placement per cluster
    index. *)
Record Cluster : Type := mkCluster {
  cl_clusterIndex : Z;
  directAtomPlacements : gmap Z Vec3;
  directClusterPlacements : gmap Z Transform;
  allAtomPlacements : gmap Z Vec3;
  allClusterPlacements : gmap Z Transform;
  parentClusters : gmap Z Transform;
  cl_bodyIx : Z;
  placement_B : Transform
}.

(** [Cluster(nm)]: no index yet, nothing inside, no body. *)
Definition newCluster : Cluster :=
  mkCluster InvalidClusterIndex ∅ ∅ ∅ ∅ ∅ InvalidMobilizedBodyIndex
            Transform_identity.

Definition Cluster_isValid (c : Cluster) : bool := cl_clusterIndex c >=? 0.
Definition Cluster_isAttachedToBody (c : Cluster) : bool := cl_bodyIx c >=? 0.
Definition Atom_isAttachedToBody (a : Atom) : bool := bodyIx a >=? 0.

(** The elements of a [std::set] in the order of its iterator. *)
Definition set_in_order {V : Type} (m : gmap Z V) : list (Z * V) :=
  std_sort (fun x y => fst x <? fst y) (map_to_list m).

(** The subsystem with its clusters: the record of the atoms and
    parameters, the vector [clusters] and the map from mobilized body to
    the index of its entry in [duMMSubsetOfBodies]. *)
Record DuMMClusters : Type := mkClusters {
  rep : DuMMRep;
  clusters : list Cluster;
  dummBodyIndicesByMobilizedBodyIndex : gmap Z Z
}.

Definition set_rep (f : DuMMRep -> DuMMRep) (st : DuMMClusters) : DuMMClusters :=
  mkClusters (f (rep st)) (clusters st) (dummBodyIndicesByMobilizedBodyIndex st).

Definition set_clusters (f : list Cluster -> list Cluster) (st : DuMMClusters)
    : DuMMClusters :=
  mkClusters (rep st) (f (clusters st)) (dummBodyIndicesByMobilizedBodyIndex st).

Definition set_duMMSubsetOfBodies (f : list DuMMBody -> list DuMMBody)
    (mm : DuMMRep) : DuMMRep :=
  mkRep (atoms mm) (f (duMMSubsetOfBodies mm)) (atomClasses mm)
        (chargedAtomTypes mm) (bondStretch mm) (bondBend mm) (bondTorsion mm)
        (amberImproperTorsion mm) (vdwMixingRule mm)
        (vdwScale12 mm) (coulombScale12 mm) (vdwScale13 mm) (coulombScale13 mm)
        (vdwScale14 mm) (coulombScale14 mm) (vdwScale15 mm) (coulombScale15 mm)
        (bondStretchGlobalScaleFactor mm) (topologyCacheValid mm).

(** [addCluster]: the new state and the index of the cluster. *)
Definition addCluster (st : DuMMClusters) (c : Cluster) : DuMMClusters * Z :=
  let st := set_rep invalidateSubsystemTopologyCache st in
  let clusterIndex := vec_size (clusters st) in
  (set_clusters
     (fun v => v ++ [mkCluster clusterIndex
                       (directAtomPlacements c) (directClusterPlacements c)
                       (allAtomPlacements c) (allClusterPlacements c)
                       (parentClusters c) (cl_bodyIx c) (placement_B c)]) st,
   clusterIndex).

(** [mm.updAtom(atomIndex).attachToBody(bnum, s)] *)
Definition Atom_attachToBody (st : DuMMClusters) (atomIndex bnum : Z) (s : Vec3)
    : option DuMMClusters :=
  match vec_at (atoms (rep st)) atomIndex with
  | Some a =>
      Some (set_rep (fun mm => store_atom (invalidateSubsystemTopologyCache mm)
                                 atomIndex (Atom_on_body a bnum s)) st)
  | None => None
  end.

(** [clusters[cIx].attachToBody(bnum, X_BR, mm)], the recursion through
    the contained clusters bounded by [depth]; [None] stands for an
    access outside a vector as well as for a cluster tree deeper than
    [depth]. *)
Fixpoint Cluster_attachToBody (depth : nat) (st : DuMMClusters) (cIx bnum : Z)
    (X_BR : Transform) : option DuMMClusters :=
  match depth with
  | O => None
  | S depth' =>
      match vec_at (clusters st) cIx with
      | None => None
      | Some c =>
          let st := set_clusters
                      (fun v => <[Z.to_nat cIx :=
                                    mkCluster (cl_clusterIndex c)
                                      (directAtomPlacements c)
                                      (directClusterPlacements c)
                                      (allAtomPlacements c)
                                      (allClusterPlacements c)
                                      (parentClusters c) bnum X_BR]> v) st in
          st ← forEachM (fun st ap =>
                           Atom_attachToBody st (fst ap) bnum
                                      (Transform_apply X_BR (snd ap)))
                        (set_in_order (directAtomPlacements c)) st;
          forEachM (fun st cp =>
                      Cluster_attachToBody depth'
                        (set_rep invalidateSubsystemTopologyCache st)
                        (fst cp) bnum (Transform_compose X_BR (snd cp)))
                   (set_in_order (directClusterPlacements c)) st
      end
  end.

(** [ensureDuMMBodyEntryExists]: the new state and the returned index.
    A tree of clusters without a loop is no deeper than the number of
    clusters. *)
Definition ensureDuMMBodyEntryExists (st : DuMMClusters) (bodyIx : Z)
    : option (DuMMClusters * Z) :=
  let duMMBodyIndex := InvalidDuMMBodyIndex in
  match dummBodyIndicesByMobilizedBodyIndex st !! bodyIx with
  | None =>
      let duMMBodyIndex := vec_size (duMMSubsetOfBodies (rep st)) in
      let '(st, clusterIndex) := addCluster st newCluster in
      st ← Cluster_attachToBody (length (clusters st)) st clusterIndex bodyIx
             Transform_identity;
      let st := set_rep (set_duMMSubsetOfBodies
                           (fun v => v ++ [mkDuMMBody clusterIndex bodyIx []])) st in
      Some (mkClusters (rep st) (clusters st)
              (<[bodyIx := duMMBodyIndex]> (dummBodyIndicesByMobilizedBodyIndex st)),
            duMMBodyIndex)
  | Some _ => Some (st, duMMBodyIndex)
  end.

(** [clusters[cIx].placeAtom(atomIndex, station, mm)] *)
Definition Cluster_placeAtom (st : DuMMClusters) (cIx atomIndex : Z)
    (station : Vec3) : option DuMMClusters :=
  match vec_at (clusters st) cIx with
  | None => None
  | Some c =>
      let direct := fst (std_map_insert (directAtomPlacements c) atomIndex station) in
      let all := fst (std_map_insert (allAtomPlacements c) atomIndex station) in
      let st := set_clusters
                  (fun v => <[Z.to_nat cIx :=
                                mkCluster (cl_clusterIndex c) direct
                                  (directClusterPlacements c) all
                                  (allClusterPlacements c) (parentClusters c)
                                  (cl_bodyIx c) (placement_B c)]> v) st in
      if Cluster_isAttachedToBody c
      then Atom_attachToBody st atomIndex (cl_bodyIx c)
                      (Transform_apply (placement_B c) station)
      else Some st
  end.

Definition attachAtomToBody (st : DuMMClusters) (atomIndex bodyIndex : Z)
    (stationInNm : Vec3) : Outcome DuMMClusters :=
  let st := set_rep invalidateSubsystemTopologyCache st in
  if negb (isValidAtom (rep st) atomIndex) then Thrown APIArgcheckFailed st else
  if negb (bodyIndex >=? 0) then Thrown APIArgcheckFailed st else
  match vec_at (atoms (rep st)) atomIndex with
  | None => OutOfRange
  | Some a =>
      if negb (negb (Atom_isAttachedToBody a)) then Thrown APIArgcheckFailed st else
      match ensureDuMMBodyEntryExists st bodyIndex with
      | None => OutOfRange
      | Some (st, duMMBodyIndex) =>
          match vec_at (duMMSubsetOfBodies (rep st)) duMMBodyIndex with
          | None => OutOfRange
          | Some body =>
              match Cluster_placeAtom
                      (set_rep invalidateSubsystemTopologyCache st)
                      (clusterIndex body) atomIndex stationInNm with
              | None => OutOfRange
              | Some st => Ok st
              end
          end
      end
  end.

(** [duMMSubsetOfBodies[ix].realizeTopologicalCache(mm)]: the list
    [allAtoms] of the body, read off its cluster. *)
Definition DuMMBody_realizeTopologicalCache (st : DuMMClusters) (b : DuMMBody)
    : option DuMMBody :=
  match vec_at (clusters st) (clusterIndex b) with
  | None => None
  | Some c =>
      Some (mkDuMMBody (clusterIndex b) (mobilizedBodyIndex b)
              ((fun ap => mkAtomPlacement (fst ap) (snd ap))
               <$> set_in_order (allAtomPlacements c)))
  end.

(** The subsystem as its constructor leaves it: the cluster 0 of the
    free atoms and groups, and nothing else. *)
Definition newDuMMClusters : DuMMClusters :=
  fst (addCluster (mkClusters newDuMMRep [] ∅) newCluster).

(** A fresh subsystem with two atoms of charged type 0, bonded to nothing
    and on no body. *)
Definition two_free_atoms : DuMMClusters :=
  set_rep (set_atoms (fun _ => [newAtom 0 0; newAtom 0 1])) newDuMMClusters.

(** A list in the order that [std::sort] leaves under [lt]: no element
    is above a later one. *)
Definition sorted_by {A : Type} (lt : A -> A -> bool) (l : list A) : Prop :=
  StronglySorted (fun x y => lt y x = false) l.

(* ===================================================================== *)
(** * Part II: properties                                                *)
(* ===================================================================== *)

Lemma quad_lt_irrefl (q : IndexQuad) : quad_lt q q = false.
Proof.
  destruct q as [[[a b] c] d]; simpl.
  repeat (rewrite Z.ltb_irrefl; rewrite ?Z.gtb_ltb, ?Z.ltb_irrefl); reflexivity.
Qed.

(** ** Comparisons on [R] *)

Lemma Rgeb_true (x y : R) : (y <= x)%R -> Rgeb x y = true.
Proof. intros H. unfold Rgeb. destruct (Rle_dec y x); [reflexivity | contradiction]. Qed.

Lemma Rgeb_false (x y : R) : (x < y)%R -> Rgeb x y = false.
Proof. intros H. unfold Rgeb. destruct (Rle_dec y x); [lra | reflexivity]. Qed.

Lemma Rleb_true (x y : R) : (x <= y)%R -> Rleb x y = true.
Proof. intros H. unfold Rleb. destruct (Rle_dec x y); [reflexivity | contradiction]. Qed.

Lemma Rleb_false (x y : R) : (y < x)%R -> Rleb x y = false.
Proof. intros H. unfold Rleb. destruct (Rle_dec x y); [lra | reflexivity]. Qed.

(** ** Index quads *)

Lemma quad_canonicalize_cases (c1 c2 c3 c4 : Z) :
  quad_canonicalize (c1, c2, c3, c4) =
  if (c1 >? c4) || ((c1 =? c4) && (c2 >? c3))
  then (c4, c3, c2, c1) else (c1, c2, c3, c4).
Proof.
  unfold quad_canonicalize; simpl.
  destruct ((c1 >? c4) || ((c1 =? c4) && (c2 >? c3))); reflexivity.
Qed.

Lemma quad_canonicalize_reverse (q : IndexQuad) :
  quad_canonicalize (quad_reverse q) = quad_canonicalize q.
Proof.
  destruct q as [[[c1 c2] c3] c4]. unfold quad_reverse.
  rewrite !quad_canonicalize_cases.
  destruct (Z.gtb_spec c1 c4), (Z.gtb_spec c4 c1),
           (Z.eqb_spec c1 c4), (Z.eqb_spec c4 c1),
           (Z.gtb_spec c2 c3), (Z.gtb_spec c3 c2);
    simpl; try reflexivity; try lia.
  f_equal; [f_equal; [f_equal |] |]; lia.
Qed.

(** [std::map] finds a key by equivalence under [operator<]; on quads of
    integers that equivalence is equality, which is what [gmap] uses. *)
Lemma quad_lt_equiv (x y : IndexQuad) :
  quad_lt x y = false /\ quad_lt y x = false <-> x = y.
Proof.
  destruct x as [[[x0 x1] x2] x3], y as [[[y0 y1] y2] y3]. simpl.
  split.
  - rewrite !Z.gtb_ltb.
    destruct (Z.ltb_spec x0 y0), (Z.ltb_spec y0 x0),
             (Z.ltb_spec x1 y1), (Z.ltb_spec y1 x1),
             (Z.ltb_spec x2 y2), (Z.ltb_spec y2 x2),
             (Z.ltb_spec x3 y3), (Z.ltb_spec y3 x3);
      intros [? ?]; try discriminate; try lia.
    f_equal; [f_equal; [f_equal |] |]; lia.
  - intros [= -> -> -> ->]. rewrite !Z.gtb_ltb, !Z.ltb_irrefl. auto.
Qed.

(** C4: [canonicalize] reverses the quad exactly when the outer classes are
    out of order, or equal with the middle pair out of order; and looking a
    torsion up under the reversed quad [(c4,c3,c2,c1)] returns the entry
    found under [(c1,c2,c3,c4)]. *)
Theorem getBondTorsion_reversed (mm : DuMMRep) (c1 c2 c3 c4 : Z) :
  quad_canonicalize (c1, c2, c3, c4)
  = (if (c1 >? c4) || ((c1 =? c4) && (c2 >? c3))
     then (c4, c3, c2, c1) else (c1, c2, c3, c4))
  /\ getBondTorsion mm c4 c3 c2 c1 = getBondTorsion mm c1 c2 c3 c4.
Proof.
  split; [apply quad_canonicalize_cases |].
  unfold getBondTorsion, mkIndexQuad.
  change (c4, c3, c2, c1) with (quad_reverse (c1, c2, c3, c4)).
  rewrite quad_canonicalize_reverse. reflexivity.
Qed.

(** ** Equality of torsions *)

Lemma hasTerm_spec (bt : BondTorsion) (n : Z) :
  hasTerm bt n = true <-> exists t, t ∈ terms bt /\ periodicity t = n.
Proof.
  unfold hasTerm. rewrite existsb_exists. split.
  - intros (t & Hin & Heq). exists t. split.
    + by apply list_elem_of_In.
    + by apply Z.eqb_eq.
  - intros (t & Hin & Heq). exists t. split.
    + by apply list_elem_of_In.
    + by apply Z.eqb_eq.
Qed.

Lemma term_agrees_spec (myTerm otherTerm : TorsionTerm) :
  term_agrees myTerm otherTerm = true <->
  (periodicity otherTerm = periodicity myTerm -> myTerm = otherTerm).
Proof.
  unfold term_agrees.
  destruct myTerm as [n a t], otherTerm as [n' a' t']; simpl.
  destruct (Z.eqb_spec n' n) as [-> | Hne].
  - rewrite andb_true_iff, !bool_decide_eq_true. split.
    + intros [-> ->] _. reflexivity.
    + intros H. specialize (H eq_refl). by inversion H.
  - split; [intros _ H; contradiction | reflexivity].
Qed.

Lemma periodicity_inj_on (l : list TorsionTerm) (x y : TorsionTerm) :
  NoDup (periodicity <$> l) -> x ∈ l -> y ∈ l ->
  periodicity x = periodicity y -> x = y.
Proof.
  induction l as [| z l IH]; simpl; intros Hnd Hx Hy Heq.
  - by apply elem_of_nil in Hx.
  - apply NoDup_cons in Hnd as [Hz Hnd].
    apply elem_of_cons in Hx as [-> | Hx], Hy as [-> | Hy]; auto.
    + exfalso. apply Hz. rewrite Heq. by apply list_elem_of_fmap_2.
    + exfalso. apply Hz. rewrite <- Heq. by apply list_elem_of_fmap_2.
Qed.

Lemma BondTorsion_eqb_subset (a b : BondTorsion) :
  BondTorsion_eqb a b = true ->
  length (terms a) = length (terms b) /\ (forall t, t ∈ terms a -> t ∈ terms b).
Proof.
  unfold BondTorsion_eqb.
  destruct (Nat.eqb_spec (length (terms a)) (length (terms b))) as [Hlen | ?];
    simpl; [| discriminate].
  rewrite forallb_forall. intros H. split; [assumption |].
  intros t Ht. apply list_elem_of_In in Ht. specialize (H t Ht).
  apply andb_true_iff in H as [Hhas Hagree].
  apply hasTerm_spec in Hhas as (o & Ho & Hp).
  rewrite forallb_forall in Hagree.
  specialize (Hagree o (proj1 (list_elem_of_In _ _) Ho)).
  apply term_agrees_spec in Hagree; [| exact Hp]. rewrite Hagree. exact Ho.
Qed.

(** On torsions without repeated periodicities, [operator==] holds exactly
    when the two sets of terms are the same. *)
Lemma BondTorsion_eqb_same_terms (a b : BondTorsion) :
  distinct_periodicities a -> distinct_periodicities b ->
  BondTorsion_eqb a b = true <-> same_terms a b.
Proof.
  intros Ha Hb. pose proof (NoDup_fmap_1 _ _ Ha) as Hnda.
  pose proof (NoDup_fmap_1 _ _ Hb) as Hndb. split.
  - intros H. apply BondTorsion_eqb_subset in H as [Hlen Hsub].
    assert (terms a ≡ₚ terms b) as Hperm.
    { apply submseteq_length_Permutation; [by apply NoDup_submseteq | lia]. }
    intros t. by rewrite Hperm.
  - intros Hsame.
    assert (terms a ≡ₚ terms b) as Hperm by (by apply NoDup_Permutation).
    unfold BondTorsion_eqb. rewrite (Permutation_length Hperm), Nat.eqb_refl.
    simpl. apply forallb_forall. intros t Ht. apply list_elem_of_In in Ht.
    apply andb_true_iff. split.
    + apply hasTerm_spec. exists t. split; [by apply Hsame | reflexivity].
    + apply forallb_forall. intros o Ho. apply list_elem_of_In in Ho.
      apply term_agrees_spec. intros Hp. symmetry.
      apply (periodicity_inj_on (terms b)); auto. by apply Hsame.
Qed.

(** ** Defining a torsion twice *)

Lemma collectTerms_distinct (mm : DuMMRep) (key : IndexQuad)
    (c1 c2 c3 c4 p1 : Z) (a1 ph1 : R) (p2 : Z) (a2 ph2 : R) (p3 : Z) (a3 ph3 : R) :
  checkTorsion mm c1 c2 c3 c4 p1 a1 ph1 p2 a2 ph2 p3 a3 ph3 = true ->
  distinct_periodicities (collectTerms key p1 a1 ph1 p2 a2 ph2 p3 a3 ph3).
Proof.
  unfold checkTorsion, collectTerms, distinct_periodicities.
  rewrite !andb_true_iff. intros [[[_ H1] H2] H3].
  destruct (Z.eqb_spec p1 (-1)), (Z.eqb_spec p2 (-1)), (Z.eqb_spec p3 (-1));
    simpl in *; repeat constructor;
    rewrite ?andb_true_iff, ?negb_true_iff, ?Z.eqb_neq in *;
    rewrite ?elem_of_cons, ?elem_of_nil; intuition congruence.
Qed.

Lemma defineBondTorsion_present (mm : DuMMRep)
    (c1 c2 c3 c4 p1 : Z) (a1 ph1 : R) (p2 : Z) (a2 ph2 : R) (p3 : Z) (a3 ph3 : R)
    (old : BondTorsion) :
  checkTorsion mm c1 c2 c3 c4 p1 a1 ph1 p2 a2 ph2 p3 a3 ph3 = true ->
  bondTorsion mm !! quad_canonicalize (c1, c2, c3, c4) = Some old ->
  defineBondTorsion mm c1 c2 c3 c4 p1 a1 ph1 p2 a2 ph2 p3 a3 ph3 =
  if BondTorsion_eqb old
       (collectTerms (quad_canonicalize (c1, c2, c3, c4))
                     p1 a1 ph1 p2 a2 ph2 p3 a3 ph3)
  then Ok (invalidateSubsystemTopologyCache mm)
  else Thrown APIArgcheckFailed (invalidateSubsystemTopologyCache mm).
Proof.
  intros Hcheck Hold. unfold defineBondTorsion.
  change (checkTorsion (invalidateSubsystemTopologyCache mm))
    with (checkTorsion mm).
  rewrite Hcheck. simpl. unfold std_map_insert. rewrite Hold.
  destruct (BondTorsion_eqb old _); reflexivity.
Qed.

Lemma defineAmberImproperTorsion_present (mm : DuMMRep)
    (c1 c2 c3 c4 p1 : Z) (a1 ph1 : R) (p2 : Z) (a2 ph2 : R) (p3 : Z) (a3 ph3 : R)
    (old : BondTorsion) :
  amberImproperTorsion mm !! (c1, c2, c3, c4) = Some old ->
  defineAmberImproperTorsion mm c1 c2 c3 c4 p1 a1 ph1 p2 a2 ph2 p3 a3 ph3 =
  Thrown APIArgcheckFailed (invalidateSubsystemTopologyCache mm).
Proof.
  intros Hold. unfold defineAmberImproperTorsion, mkIndexQuad.
  destruct (checkTorsion _ _ _ _ _ _ _ _ _ _ _ _ _ _); simpl; [| reflexivity].
  unfold std_map_insert. rewrite Hold. reflexivity.
Qed.

Lemma checkTorsion_rep_with_torsions (amp : R) :
  (0 <= amp)%R ->
  checkTorsion rep_with_torsions 0 0 0 0 2 amp 180 (-1) 0 0 (-1) 0 0 = true.
Proof.
  intros Hamp. unfold checkTorsion, checkTerm. simpl.
  rewrite !Rgeb_true, !Rleb_true by lra. reflexivity.
Qed.

Lemma distinct_torsion_2_1_180 : distinct_periodicities torsion_2_1_180.
Proof.
  apply (collectTerms_distinct rep_with_torsions _ 0 0 0 0).
  apply checkTorsion_rep_with_torsions. lra.
Qed.

(** C3, as stated, fails for improper torsions: the quad (0,0,0,0) is in
    the improper table with exactly the terms of the call, and the call
    throws instead of returning. *)
Lemma defineAmberImproperTorsion_identical_throws :
  amberImproperTorsion rep_with_torsions !! (0, 0, 0, 0) = Some torsion_2_1_180
  /\ same_terms torsion_2_1_180
       (collectTerms (0, 0, 0, 0) 2 1 180 (-1) 0 0 (-1) 0 0)
  /\ defineAmberImproperTorsion rep_with_torsions
       0 0 0 0 2 1 180 (-1) 0 0 (-1) 0 0
     = Thrown APIArgcheckFailed (invalidateSubsystemTopologyCache rep_with_torsions).
Proof.
  split; [reflexivity |]. split; [intros t; reflexivity |].
  apply (defineAmberImproperTorsion_present _ _ _ _ _ _ _ _ _ _ _ _ _ _ torsion_2_1_180).
  reflexivity.
Qed.

(** C3 (amended): for a call whose arguments pass [checkTorsion], with the
    key already in the table.  [defineBondTorsion], on the canonical key:
    the same set of terms makes the call return with both tables as they
    were, any other set of terms makes it throw with both tables as they
    were.  [defineAmberImproperTorsion], on the key as given: the call
    throws whatever the terms, identical ones included, with both tables
    as they were. *)
Theorem torsion_redefinition (mm : DuMMRep)
    (c1 c2 c3 c4 p1 : Z) (a1 ph1 : R) (p2 : Z) (a2 ph2 : R) (p3 : Z) (a3 ph3 : R) :
  checkTorsion mm c1 c2 c3 c4 p1 a1 ph1 p2 a2 ph2 p3 a3 ph3 = true ->
  let mm' := invalidateSubsystemTopologyCache mm in
  (bondTorsion mm' = bondTorsion mm
   /\ amberImproperTorsion mm' = amberImproperTorsion mm)
  /\ (forall old : BondTorsion,
        bondTorsion mm !! quad_canonicalize (c1, c2, c3, c4) = Some old ->
        distinct_periodicities old ->
        let bt := collectTerms (quad_canonicalize (c1, c2, c3, c4))
                               p1 a1 ph1 p2 a2 ph2 p3 a3 ph3 in
        (same_terms old bt ->
         defineBondTorsion mm c1 c2 c3 c4 p1 a1 ph1 p2 a2 ph2 p3 a3 ph3
         = Ok mm')
        /\ (~ same_terms old bt ->
            defineBondTorsion mm c1 c2 c3 c4 p1 a1 ph1 p2 a2 ph2 p3 a3 ph3
            = Thrown APIArgcheckFailed mm'))
  /\ (forall old : BondTorsion,
        amberImproperTorsion mm !! (c1, c2, c3, c4) = Some old ->
        defineAmberImproperTorsion mm c1 c2 c3 c4 p1 a1 ph1 p2 a2 ph2 p3 a3 ph3
        = Thrown APIArgcheckFailed mm').
Proof.
  intros Hcheck mm'. split; [split; reflexivity |]. split.
  - intros old Hold Hdist bt.
    pose proof (collectTerms_distinct mm (quad_canonicalize (c1, c2, c3, c4))
                  _ _ _ _ _ _ _ _ _ _ _ _ _ Hcheck) as Hbt.
    rewrite (defineBondTorsion_present _ _ _ _ _ _ _ _ _ _ _ _ _ _ old Hcheck Hold).
    pose proof (BondTorsion_eqb_same_terms old bt Hdist Hbt) as Heq.
    fold bt. destruct (BondTorsion_eqb old bt).
    + split; [reflexivity |]. intros Hn. exfalso. apply Hn, Heq. reflexivity.
    + split; [| reflexivity]. intros Hs. apply Heq in Hs. discriminate.
  - intros old Hold.
    by apply (defineAmberImproperTorsion_present _ _ _ _ _ _ _ _ _ _ _ _ _ _ old).
Qed.

(** The three cases of [torsion_redefinition] on [rep_with_torsions]:
    the same term again, the same term with another amplitude, and the
    same term again as an improper torsion. *)
Lemma torsion_redefinition_witness :
  checkTorsion rep_with_torsions 0 0 0 0 2 1 180 (-1) 0 0 (-1) 0 0 = true
  /\ defineBondTorsion rep_with_torsions 0 0 0 0 2 1 180 (-1) 0 0 (-1) 0 0
     = Ok (invalidateSubsystemTopologyCache rep_with_torsions)
  /\ defineBondTorsion rep_with_torsions 0 0 0 0 2 3 180 (-1) 0 0 (-1) 0 0
     = Thrown APIArgcheckFailed (invalidateSubsystemTopologyCache rep_with_torsions)
  /\ defineAmberImproperTorsion rep_with_torsions 0 0 0 0 2 1 180 (-1) 0 0 (-1) 0 0
     = Thrown APIArgcheckFailed (invalidateSubsystemTopologyCache rep_with_torsions).
Proof.
  assert (checkTorsion rep_with_torsions 0 0 0 0 2 1 180 (-1) 0 0 (-1) 0 0 = true)
    as H1 by (apply checkTorsion_rep_with_torsions; lra).
  assert (checkTorsion rep_with_torsions 0 0 0 0 2 3 180 (-1) 0 0 (-1) 0 0 = true)
    as H3 by (apply checkTorsion_rep_with_torsions; lra).
  destruct (torsion_redefinition rep_with_torsions 0 0 0 0 2 1 180 (-1) 0 0 (-1) 0 0 H1)
    as (_ & Hn & Ha).
  destruct (torsion_redefinition rep_with_torsions 0 0 0 0 2 3 180 (-1) 0 0 (-1) 0 0 H3)
    as (_ & Hn3 & _).
  split; [exact H1 |]. split; [| split].
  - apply (Hn torsion_2_1_180 eq_refl distinct_torsion_2_1_180).
    intros t; reflexivity.
  - apply (Hn3 torsion_2_1_180 eq_refl distinct_torsion_2_1_180).
    intros Hsame. specialize (Hsame (newTorsionTerm 2 1 180)).
    unfold torsion_2_1_180, collectTerms in Hsame. simpl in Hsame.
    rewrite !list_elem_of_singleton in Hsame.
    destruct Hsame as [Hsame _]. specialize (Hsame eq_refl).
    inversion Hsame. lra.
  - apply (Ha torsion_2_1_180 eq_refl).
Defined.

(** ** Setting parameters of an undefined class or type *)

Lemma rep_slot0_undefined_reached :
  exists mm,
    defineIncompleteAtomClass newDuMMRep 1 6 4 = Ok mm
    /\ defineIncompleteChargedAtomType mm 1 1 = Ok rep_slot0_undefined.
Proof. eexists. split; reflexivity. Qed.

(** C9 at a failing input: index 0 is nonnegative and is neither a defined
    atom class nor a defined charged atom type of [rep_slot0_undefined],
    yet both setters return normally and write into slot 0. *)
Theorem setters_accept_undefined_index :
  isValidAtomClass rep_slot0_undefined 0 = false
  /\ isValidChargedAtomType rep_slot0_undefined 0 = false
  /\ setAtomClassVdwParameters rep_slot0_undefined 0 (1 / 10) (2 / 10)
     = Ok (set_atomClasses
             (fun _ => [mkAtomClass (-1) (-1) (-1) (Some (1 / 10)%R) (Some (2 / 10)%R);
                        mkAtomClass 1 6 4 None None])
             (invalidateSubsystemTopologyCache rep_slot0_undefined))
  /\ setChargedAtomTypeCharge rep_slot0_undefined 0 (1 / 2)
     = Ok (set_chargedAtomTypes
             (fun _ => [mkChargedAtomType (-1) (-1) (Some (1 / 2)%R);
                        mkChargedAtomType 1 1 None])
             (invalidateSubsystemTopologyCache rep_slot0_undefined)).
Proof.
  split; [reflexivity |]. split; [reflexivity |]. split.
  - unfold setAtomClassVdwParameters. simpl.
    rewrite !Rgeb_true by lra. reflexivity.
  - reflexivity.
Qed.

(** Past the end of the vector the setters read [atomClasses[ix]] and
    [chargedAtomTypes[ix]] unchecked. *)
Lemma setters_index_past_the_end :
  setAtomClassVdwParameters rep_slot0_undefined 2 (1 / 10) (2 / 10) = OutOfRange
  /\ setChargedAtomTypeCharge rep_slot0_undefined 2 (1 / 2) = OutOfRange.
Proof.
  split; [| reflexivity].
  unfold setAtomClassVdwParameters. simpl.
  rewrite !Rgeb_true by lra. reflexivity.
Qed.

(** ** Combining rules *)

Section MixingFacts.

Variable std_pow : R -> R -> R.

Local Open Scope R_scope.

Lemma arithmeticMean_comm (a b : R) : arithmeticMean a b = arithmeticMean b a.
Proof. unfold arithmeticMean. ring. Qed.

Lemma geometricMean_comm (a b : R) : geometricMean a b = geometricMean b a.
Proof. unfold geometricMean. f_equal. ring. Qed.

Lemma harmonicMean_comm (a b : R) : harmonicMean a b = harmonicMean b a.
Proof. unfold harmonicMean, Rdiv. f_equal; [ring | f_equal; ring]. Qed.

Lemma cubicMean_comm (a b : R) : cubicMean a b = cubicMean b a.
Proof. unfold cubicMean, Rdiv. f_equal; [ring | f_equal; ring]. Qed.

Lemma hhgMean_comm (a b : R) : hhgMean a b = hhgMean b a.
Proof.
  unfold hhgMean. by rewrite (harmonicMean_comm a b), (geometricMean_comm a b).
Qed.

Lemma vdwCombine_comm (rule : VdwMixingRule) (ri rj ei ej : R) :
  vdwCombine std_pow rule ri rj ei ej = vdwCombine std_pow rule rj ri ej ei.
Proof.
  destruct rule; simpl.
  - unfold vdwCombineWaldmanHagler.
    by rewrite (geometricMean_comm (ei * _) (ej * _)),
               (arithmeticMean_comm (ri * ri * ri * _) (rj * rj * rj * _)).
  - unfold vdwCombineHalgrenHHG.
    by rewrite (cubicMean_comm ri rj), (hhgMean_comm ei ej).
  - unfold vdwCombineJorgensen.
    by rewrite (geometricMean_comm ri rj), (geometricMean_comm ei ej).
  - unfold vdwCombineLorentzBerthelot.
    by rewrite (arithmeticMean_comm ri rj), (geometricMean_comm ei ej).
  - unfold vdwCombineKong.
    by rewrite (geometricMean_comm (ei * _) (ej * _)),
               (arithmeticMean_comm (std_pow (ei * _) _) (std_pow (ej * _) _)).
Qed.

(** C8: under each of the five combining rules the mixed pair is the same
    when the two classes are exchanged, and [dmin] is twice the radius that
    the selected rule returns (with [emin] its well depth). *)
Theorem applyMixingRule_symmetric (mm : DuMMRep) (ri rj ei ej : R) :
  applyMixingRule std_pow mm ri rj ei ej = applyMixingRule std_pow mm rj ri ej ei
  /\ applyMixingRule std_pow mm ri rj ei ej
     = (2 * fst (vdwCombine std_pow (vdwMixingRule mm) ri rj ei ej),
        snd (vdwCombine std_pow (vdwMixingRule mm) ri rj ei ej)).
Proof.
  unfold applyMixingRule. split.
  - by rewrite (vdwCombine_comm (vdwMixingRule mm) ri rj ei ej).
  - by destruct (vdwCombine std_pow (vdwMixingRule mm) ri rj ei ej).
Qed.

End MixingFacts.

(** ** Vectors *)

Lemma Vec3_cross_zero_l (v : Vec3) : Vec3_cross Vec3_zero v = Vec3_zero.
Proof.
  destruct v as [[v0 v1] v2]. unfold Vec3_cross, Vec3_zero.
  f_equal; [f_equal |]; ring.
Qed.

Lemma Vec3_cross_zero_r (v : Vec3) : Vec3_cross v Vec3_zero = Vec3_zero.
Proof.
  destruct v as [[v0 v1] v2]. unfold Vec3_cross, Vec3_zero.
  f_equal; [f_equal |]; ring.
Qed.

Lemma Vec3_sub_diag (v : Vec3) : Vec3_sub v v = Vec3_zero.
Proof.
  destruct v as [[v0 v1] v2]. unfold Vec3_sub, Vec3_zero.
  f_equal; [f_equal |]; ring.
Qed.

Lemma Vec3_cross_scale_r (s : R) (a b : Vec3) :
  Vec3_cross a (Vec3_scale s b) = Vec3_scale s (Vec3_cross a b).
Proof.
  destruct a as [[a0 a1] a2], b as [[b0 b1] b2]. unfold Vec3_cross, Vec3_scale.
  f_equal; [f_equal |]; ring.
Qed.

Lemma Vec3_cross_scale_l (s : R) (a b : Vec3) :
  Vec3_cross (Vec3_scale s a) b = Vec3_scale s (Vec3_cross a b).
Proof.
  destruct a as [[a0 a1] a2], b as [[b0 b1] b2]. unfold Vec3_cross, Vec3_scale.
  f_equal; [f_equal |]; ring.
Qed.

Lemma Vec3_scale_zero (s : R) : Vec3_scale s Vec3_zero = Vec3_zero.
Proof. unfold Vec3_scale, Vec3_zero. f_equal; [f_equal |]; ring. Qed.

Lemma Vec3_dot_zero : Vec3_dot Vec3_zero Vec3_zero = 0%R.
Proof. unfold Vec3_dot, Vec3_zero. ring. Qed.

Lemma Vec3_dot_self_zero (v : Vec3) : Vec3_dot v v = 0%R -> v = Vec3_zero.
Proof.
  destruct v as [[v0 v1] v2]. unfold Vec3_dot, Vec3_zero. intros H.
  assert (v0 = 0 /\ v1 = 0 /\ v2 = 0)%R as (-> & -> & ->); [| reflexivity].
  repeat split; nra.
Qed.

Lemma Vec3_add_sub_cancel (F f : Vec3) :
  Vec3_add (Vec3_sub (Vec3_add F f) F) (Vec3_sub (Vec3_sub F f) F) = Vec3_zero.
Proof.
  destruct F as [[F0 F1] F2], f as [[f0 f1] f2].
  unfold Vec3_add, Vec3_sub, Vec3_zero. f_equal; [f_equal |]; ring.
Qed.

(** ** Bond stretch *)

Lemma Vector_update_Some {A : Type} (v : list A) (ix : Z) (f : A -> A) (x : A) :
  vec_at v ix = Some x ->
  Vector_update v ix f = Some (<[Z.to_nat ix := f x]> v).
Proof. intros H. unfold Vector_update. by rewrite H. Qed.

Lemma vec_at_insert_eq {A : Type} (v : list A) (ix : Z) (x y : A) :
  vec_at v ix = Some x -> vec_at (<[Z.to_nat ix := y]> v) ix = Some y.
Proof.
  unfold vec_at. destruct (ix <? 0); [discriminate |]. intros H.
  apply list_lookup_insert_eq. by eapply lookup_lt_Some.
Qed.

Lemma vec_at_insert_ne {A : Type} (v : list A) (ix jx : Z) (y : A) :
  0 <= ix -> 0 <= jx -> ix <> jx ->
  vec_at (<[Z.to_nat ix := y]> v) jx = vec_at v jx.
Proof.
  intros Hi Hj Hne. unfold vec_at. destruct (jx <? 0); [reflexivity |].
  apply list_lookup_insert_ne. lia.
Qed.

Lemma vec_at_nonneg {A : Type} (v : list A) (ix : Z) (x : A) :
  vec_at v ix = Some x -> 0 <= ix.
Proof. unfold vec_at. destruct (Z.ltb_spec ix 0); [discriminate | lia]. Qed.

(** C7: one processed cross-body 1-2 bond with separation [d > 0] adds
    [g*k*(d-d0)^2] to the energy; the force on the partner is
    [f2 = (-2*g*k*(d-d0)/d) * r] along the bond vector [r]; the body of the
    partner receives [+f2] and the body of the focal atom [-f2] as linear
    force (with the moments [station % f2]), so the two linear
    contributions cancel. *)
Theorem stretchStep_energy_and_force (mm : DuMMRep) (bodyIndex1 : Z)
    (X_GB1 X_GB2 : Transform) (a1 a2 : Atom) (bs : BondStretch)
    (st : ForceState) (F1 F2 : SpatialVec) :
  let r := Vec3_sub (atomPos_G X_GB2 a2) (atomPos_G X_GB1 a1) in
  let d := Vec3_norm r in
  let g := bondStretchGlobalScaleFactor mm in
  let f2 := Vec3_scale (-2 * g * bs_k bs * (d - bs_d0 bs) / d)%R r in
  (0 < d)%R ->
  bodyIx a2 <> bodyIndex1 ->
  vec_at (forceCache st) (bodyIx a2) = Some F2 ->
  vec_at (forceCache st) bodyIndex1 = Some F1 ->
  exists st' F1' F2',
    stretchStep mm bodyIndex1 X_GB1 X_GB2 a1 a2 bs st = Some st'
    /\ energyCache st'
       = (energyCache st + g * bs_k bs * (d - bs_d0 bs) ^ 2)%R
    /\ vec_at (forceCache st') (bodyIx a2) = Some F2'
    /\ vec_at (forceCache st') bodyIndex1 = Some F1'
    /\ F2' = SpatialVec_add F2 (Vec3_cross (atomStation_G X_GB2 a2) f2, f2)
    /\ F1' = SpatialVec_sub F1 (Vec3_cross (atomStation_G X_GB1 a1) f2, f2)
    /\ Vec3_add (Vec3_sub (snd F2') (snd F2)) (Vec3_sub (snd F1') (snd F1))
       = Vec3_zero.
Proof.
  intros r d g f2 Hd Hne H2 H1.
  pose proof (vec_at_nonneg _ _ _ H1) as Hb1.
  pose proof (vec_at_nonneg _ _ _ H2) as Hb2.
  assert (stretchForce mm bs r
          = ((g * bs_k bs * (d - bs_d0 bs) ^ 2)%R, f2)) as Hforce.
  { unfold stretchForce. fold d. fold g. unfold f2. f_equal; [ring |].
    f_equal. unfold Rdiv. ring. }
  eexists _, _, _. split.
  { unfold stretchStep. fold r. rewrite Hforce.
    rewrite (Vector_update_Some _ _ _ _ H2). simpl.
    rewrite (Vector_update_Some _ _ _ F1).
    - reflexivity.
    - rewrite vec_at_insert_ne by auto. exact H1. }
  simpl. split; [reflexivity |]. split.
  { rewrite vec_at_insert_ne by auto. eapply vec_at_insert_eq. exact H2. }
  split.
  { eapply vec_at_insert_eq. rewrite vec_at_insert_ne by auto. exact H1. }
  split; [reflexivity |]. split; [reflexivity |].
  unfold SpatialVec_add, SpatialVec_sub. simpl.
  destruct (snd F1) as [[x1 y1] z1], (snd F2) as [[x2 y2] z2], f2 as [[fx fy] fz].
  unfold Vec3_add, Vec3_sub, Vec3_zero. f_equal; [f_equal |]; ring.
Qed.

(** Two atoms one unit apart on bodies 0 and 1, both bodies at the
    identity transform. *)
Lemma stretchStep_energy_and_force_witness :
  exists st',
    stretchStep newDuMMRep 0 Transform_identity Transform_identity
      (atom_on_body 0 0 Vec3_zero) (atom_on_body 1 1 (1, 0, 0)%R)
      (mkBondStretch (0, 0) 1 0)
      (mkForceState 0 [(Vec3_zero, Vec3_zero); (Vec3_zero, Vec3_zero)])
    = Some st'.
Proof.
  edestruct (stretchStep_energy_and_force newDuMMRep 0
               Transform_identity Transform_identity
               (atom_on_body 0 0 Vec3_zero) (atom_on_body 1 1 (1, 0, 0)%R)
               (mkBondStretch (0, 0) 1 0)
               (mkForceState 0 [(Vec3_zero, Vec3_zero); (Vec3_zero, Vec3_zero)])
               (Vec3_zero, Vec3_zero) (Vec3_zero, Vec3_zero))
    as (st' & F1' & F2' & Hstep & _).
  - unfold Vec3_norm. apply sqrt_lt_R0.
    unfold Vec3_normSqr, Vec3_dot, Vec3_sub, atomPos_G, atomStation_G,
      Vec3_add, Mat33_mul, Vec3_dot. simpl. lra.
  - simpl. lia.
  - reflexivity.
  - reflexivity.
  - exists st'. exact Hstep.
Defined.

(** ** Torsion with a vanishing plane normal *)

Section PeriodicFacts.

Variable UnitVec3_perp : Vec3 -> Vec3.
Variable std_atan2 : R -> R -> R.

Local Open Scope R_scope.

Lemma Vec3_dot_self_pos (v : Vec3) : v <> Vec3_zero -> 0 < Vec3_dot v v.
Proof.
  intros Hv. destruct (Rle_lt_dec (Vec3_dot v v) 0) as [Hle | Hlt]; [| exact Hlt].
  exfalso. apply Hv, Vec3_dot_self_zero.
  destruct v as [[v0 v1] v2]. unfold Vec3_dot in *. nra.
Qed.

(** With distinct [x] and [y] the axis is [(y - x) / |y - x|]. *)
Lemma torsionAxis_regular (rG xG yG sG : Vec3) :
  yG <> xG ->
  exists oov, oov <> 0
    /\ torsionAxis UnitVec3_perp rG xG yG sG
       = (oov, Vec3_scale oov (Vec3_sub yG xG)).
Proof.
  intros Hxy.
  assert (Vec3_sub yG xG <> Vec3_zero) as Hne.
  { intros H. apply Hxy.
    destruct yG as [[y0 y1] y2], xG as [[x0 x1] x2].
    unfold Vec3_sub, Vec3_zero in H. inversion H.
    f_equal; [f_equal |]; lra. }
  pose proof (Vec3_dot_self_pos _ Hne) as Hpos.
  exists (1 / sqrt (Vec3_dot (Vec3_sub yG xG) (Vec3_sub yG xG))).
  assert (1 / sqrt (Vec3_dot (Vec3_sub yG xG) (Vec3_sub yG xG)) <> 0) as Hoov.
  { pose proof (sqrt_lt_R0 _ Hpos) as Hs.
    unfold Rdiv. rewrite Rmult_1_l. apply Rinv_neq_0_compat. lra. }
  split; [exact Hoov |].
  unfold torsionAxis.
  destruct (decide (Vec3_dot (Vec3_sub yG xG) (Vec3_sub yG xG) = 0)) as [H0 | _];
    [lra |].
  destruct (decide (_ <> 0)) as [_ | Hn]; [reflexivity | contradiction].
Qed.

(** [r = x - r] parallel to the axis [y - x] makes the first normal zero,
    [s = s - y] parallel to it makes the second one zero. *)
Lemma torsionNormals_parallel (rG xG yG sG : Vec3) :
  yG <> xG ->
  (Vec3_cross (Vec3_sub xG rG) (Vec3_sub yG xG) = Vec3_zero ->
   fst (torsionNormals UnitVec3_perp rG xG yG sG) = Vec3_zero)
  /\ (Vec3_cross (Vec3_sub yG xG) (Vec3_sub sG yG) = Vec3_zero ->
      snd (torsionNormals UnitVec3_perp rG xG yG sG) = Vec3_zero).
Proof.
  intros Hxy. destruct (torsionAxis_regular rG xG yG sG Hxy) as (oov & _ & Hax).
  unfold torsionNormals. rewrite Hax. simpl. split; intros H.
  - by rewrite Vec3_cross_scale_r, H, Vec3_scale_zero.
  - by rewrite Vec3_cross_scale_l, H, Vec3_scale_zero.
Qed.

(** C10: when one of the two plane normals [t = r % v], [u = v % s] is the
    zero vector, [periodic] returns energy 0 and the zero force on each of
    the four atoms, whatever the terms and the scale; [theta] is left as
    it was, and the four forces add up to zero. *)
Theorem periodic_zero_normal (bt : BondTorsion) (rG xG yG sG : Vec3)
    (scale theta : R) :
  fst (torsionNormals UnitVec3_perp rG xG yG sG) = Vec3_zero
  \/ snd (torsionNormals UnitVec3_perp rG xG yG sG) = Vec3_zero ->
  let res := periodic UnitVec3_perp std_atan2 bt rG xG yG sG scale theta in
  res = mkTorsionResult theta 0 Vec3_zero Vec3_zero Vec3_zero Vec3_zero
  /\ tr_pe res = 0
  /\ Vec3_add (Vec3_add (tr_rf res) (tr_xf res)) (Vec3_add (tr_yf res) (tr_sf res))
     = Vec3_zero.
Proof.
  intros Hzero res.
  assert (res = mkTorsionResult theta 0 Vec3_zero Vec3_zero Vec3_zero Vec3_zero)
    as ->.
  { unfold res, periodic.
    destruct (torsionAxis UnitVec3_perp rG xG yG sG) as [oov v].
    destruct (torsionNormals UnitVec3_perp rG xG yG sG) as [t u].
    simpl in Hzero.
    destruct (decide (Vec3_dot t t = 0 \/ Vec3_dot u u = 0)) as [_ | Hn];
      [reflexivity |].
    exfalso. apply Hn.
    destruct Hzero as [-> | ->]; [left | right]; apply Vec3_dot_zero. }
  split; [reflexivity |]. split; [reflexivity |].
  simpl. unfold Vec3_add, Vec3_zero. f_equal; [f_equal |]; ring.
Qed.

End PeriodicFacts.

(** Atoms [r] and [x] coincide: the first normal is zero.  The two
    library functions are instantiated with a fixed direction and with the
    angle of the half-plane [x > 0]. *)
Lemma periodic_zero_normal_witness :
  periodic (fun _ => (0, 0, 1)%R) (fun y x => atan (y / x)) torsion_2_1_180
    Vec3_zero Vec3_zero (1, 0, 0)%R (1, 1, 0)%R 1 0
  = mkTorsionResult 0 0 Vec3_zero Vec3_zero Vec3_zero Vec3_zero.
Proof.
  apply (periodic_zero_normal (fun _ => (0, 0, 1)%R) (fun y x => atan (y / x))
           torsion_2_1_180 Vec3_zero Vec3_zero (1, 0, 0)%R (1, 1, 0)%R 1 0).
  left. unfold torsionNormals. cbn [fst].
  rewrite (Vec3_sub_diag Vec3_zero). apply Vec3_cross_zero_l.
Defined.

(** ** Scaling and unscaling *)

Lemma length_writeAll (x : R) (ixs : list Z) (v : list R) :
  length (writeAll x ixs v) = length v.
Proof.
  unfold writeAll. revert v.
  induction ixs as [| ix ixs IH]; intros v; simpl; [reflexivity |].
  by rewrite IH, length_insert.
Qed.

Lemma writeAll_app (x : R) (ixs jxs : list Z) (v : list R) :
  writeAll x (ixs ++ jxs) v = writeAll x jxs (writeAll x ixs v).
Proof. unfold writeAll. apply foldl_app. Qed.

Lemma lookup_writeAll_notin (x : R) (ixs : list Z) (v : list R) (j : nat) :
  j ∉ Z.to_nat <$> ixs -> writeAll x ixs v !! j = v !! j.
Proof.
  unfold writeAll. revert v.
  induction ixs as [| ix ixs IH]; intros v Hj; simpl; [reflexivity |].
  rewrite fmap_cons, not_elem_of_cons in Hj. destruct Hj as [Hne Hj].
  rewrite IH by exact Hj. by apply list_lookup_insert_ne.
Qed.

Lemma lookup_writeAll_in (x : R) (ixs : list Z) (v : list R) (j : nat) :
  j ∈ Z.to_nat <$> ixs -> (j < length v)%nat -> writeAll x ixs v !! j = Some x.
Proof.
  unfold writeAll. revert v.
  induction ixs as [| ix ixs IH]; intros v Hj Hlen; simpl.
  - by apply elem_of_nil in Hj.
  - destruct (decide (j ∈ Z.to_nat <$> ixs)) as [Hin | Hnotin].
    + apply IH; [exact Hin | by rewrite length_insert].
    + rewrite fmap_cons, elem_of_cons in Hj. destruct Hj as [-> | ?]; [| done].
      change (writeAll x ixs (<[Z.to_nat ix := x]> v) !! Z.to_nat ix = Some x).
      rewrite lookup_writeAll_notin by exact Hnotin.
      by apply list_lookup_insert_eq.
Qed.

Lemma setScales_in_range (vdw coul : R) (sc : list R * list R) (ix : Z) :
  0 <= ix < vec_size (fst sc) -> 0 <= ix < vec_size (snd sc) ->
  setScales vdw coul sc ix
  = Some (<[Z.to_nat ix := vdw]> (fst sc), <[Z.to_nat ix := coul]> (snd sc)).
Proof.
  unfold setScales, Vector_update, vec_at, vec_size. intros H1 H2.
  destruct (Z.ltb_spec ix 0); [lia |].
  destruct (lookup_lt_is_Some_2 (fst sc) (Z.to_nat ix)) as [x1 ->]; [lia |].
  destruct (lookup_lt_is_Some_2 (snd sc) (Z.to_nat ix)) as [x2 ->]; [lia |].
  reflexivity.
Qed.

(** One loop of a scaling pass, all of whose indices are inside both
    vectors, runs to its end and writes its value at each of them. *)
Lemma forEachM_setScales {A : Type} (proj : A -> Z) (vdw coul : R)
    (l : list A) (sc : list R * list R) (n : nat) :
  length (fst sc) = n -> length (snd sc) = n ->
  Forall (fun ix => 0 <= ix < Z.of_nat n) (proj <$> l) ->
  forEachM (fun sc x => setScales vdw coul sc (proj x)) l sc
  = Some (writeAll vdw (proj <$> l) (fst sc), writeAll coul (proj <$> l) (snd sc)).
Proof.
  revert sc. induction l as [| x l IH]; intros [v c] Hv Hc Hall; simpl in *.
  - reflexivity.
  - apply Forall_cons in Hall as [Hx Hall].
    rewrite setScales_in_range by (unfold vec_size; simpl; lia).
    rewrite IH; [reflexivity | | | exact Hall]; simpl; by rewrite length_insert.
Qed.

Lemma scaleBondedAtoms_in_range (mm : DuMMRep) (a : Atom)
    (sc : list R * list R) (n : nat) :
  length (fst sc) = n -> length (snd sc) = n ->
  Forall (fun ix => 0 <= ix < Z.of_nat n) (scaledIndices mm a) ->
  exists sc',
    scaleBondedAtoms mm a sc = Some sc'
    /\ length (fst sc') = n /\ length (snd sc') = n
    /\ forall j : nat, j ∉ Z.to_nat <$> scaledIndices mm a ->
         fst sc' !! j = fst sc !! j /\ snd sc' !! j = snd sc !! j.
Proof.
  intros Hv Hc Hall.
  set (l14 := if decide (vdwScale14 mm <> 1%R \/ coulombScale14 mm <> 1%R)
              then triple_3rd <$> xshortPath14 a else []).
  set (l15 := if decide (vdwScale15 mm <> 1%R \/ coulombScale15 mm <> 1%R)
              then quad_4th <$> xshortPath15 a else []).
  set (w := fun (s12 s13 s14 s15 : R) (v : list R) =>
              writeAll s15 l15
                (writeAll s14 l14
                   (writeAll s13 (pair_2nd <$> xshortPath13 a)
                      (writeAll s12 (xbond12 a) v)))).
  exists (w (vdwScale12 mm) (vdwScale13 mm) (vdwScale14 mm) (vdwScale15 mm) (fst sc),
          w (coulombScale12 mm) (coulombScale13 mm) (coulombScale14 mm)
            (coulombScale15 mm) (snd sc)).
  unfold w. simpl. rewrite !length_writeAll.
  split; [| split; [exact Hv | split; [exact Hc |]]].
  - unfold scaledIndices in Hall. fold l14 l15 in Hall.
    rewrite !Forall_app in Hall. destruct Hall as (H12 & H13 & H14 & H15).
    unfold scaleBondedAtoms, l14, l15 in *.
    rewrite <- (list_fmap_id (xbond12 a)) in H12.
    rewrite (forEachM_setScales (@Datatypes.id Z) _ _ _ _ n Hv Hc H12). simpl.
    rewrite (forEachM_setScales pair_2nd _ _ _ _ n);
      [| simpl; by rewrite length_writeAll ..| exact H13]. simpl.
    rewrite list_fmap_id.
    destruct (decide (vdwScale14 mm <> 1%R \/ coulombScale14 mm <> 1%R));
      destruct (decide (vdwScale15 mm <> 1%R \/ coulombScale15 mm <> 1%R)); simpl;
      repeat (rewrite (forEachM_setScales _ _ _ _ _ n);
              [| simpl; by rewrite !length_writeAll ..| assumption]; simpl);
      reflexivity.
  - intros j Hj. unfold scaledIndices in Hj. fold l14 l15 in Hj.
    rewrite !fmap_app, !not_elem_of_app in Hj.
    destruct Hj as (Hj12 & Hj13 & Hj14 & Hj15).
    by rewrite !lookup_writeAll_notin by assumption.
Qed.

Lemma unscaleBondedAtoms_in_range (mm : DuMMRep) (a : Atom)
    (sc : list R * list R) (n : nat) :
  length (fst sc) = n -> length (snd sc) = n ->
  Forall (fun ix => 0 <= ix < Z.of_nat n) (scaledIndices mm a) ->
  unscaleBondedAtoms mm a sc
  = Some (writeAll 1 (scaledIndices mm a) (fst sc),
          writeAll 1 (scaledIndices mm a) (snd sc)).
Proof.
  intros Hv Hc Hall. unfold scaledIndices in *.
  rewrite !Forall_app in Hall. destruct Hall as (H12 & H13 & H14 & H15).
  unfold unscaleBondedAtoms. rewrite !writeAll_app.
  rewrite <- (list_fmap_id (xbond12 a)) in H12.
  rewrite (forEachM_setScales (@Datatypes.id Z) _ _ _ _ n Hv Hc H12). simpl.
  rewrite (forEachM_setScales pair_2nd _ _ _ _ n);
    [| simpl; by rewrite length_writeAll ..| exact H13]. simpl.
  rewrite list_fmap_id.
  destruct (decide (vdwScale14 mm <> 1%R \/ coulombScale14 mm <> 1%R));
    destruct (decide (vdwScale15 mm <> 1%R \/ coulombScale15 mm <> 1%R)); simpl;
    repeat (rewrite (forEachM_setScales _ _ _ _ _ n);
            [| simpl; by rewrite !length_writeAll ..| assumption]; simpl);
    reflexivity.
Qed.

(** C6: on vectors that are 1 everywhere, the scaling pass for an atom
    whose scaled indices all lie inside the vectors runs to its end, and
    the unscaling pass that follows returns both vectors to 1 everywhere. *)
Theorem scale_then_unscale (mm : DuMMRep) (a : Atom) (n : nat) :
  Forall (fun ix => 0 <= ix < Z.of_nat n) (scaledIndices mm a) ->
  exists sc',
    scaleBondedAtoms mm a (replicate n 1%R, replicate n 1%R) = Some sc'
    /\ unscaleBondedAtoms mm a sc' = Some (replicate n 1%R, replicate n 1%R).
Proof.
  intros Hall.
  destruct (scaleBondedAtoms_in_range mm a (replicate n 1%R, replicate n 1%R) n)
    as (sc' & Hscale & Hv & Hc & Hsame);
    [simpl; apply length_replicate | simpl; apply length_replicate | exact Hall |].
  exists sc'. split; [exact Hscale |].
  rewrite (unscaleBondedAtoms_in_range mm a sc' n Hv Hc Hall).
  assert (forall v : list R, length v = n ->
            (forall j : nat, j ∉ Z.to_nat <$> scaledIndices mm a ->
                             v !! j = replicate n 1%R !! j) ->
            writeAll 1 (scaledIndices mm a) v = replicate n 1%R) as Hones.
  { intros v Hlen Hout. apply list_eq. intros j.
    destruct (decide (j < n)%nat) as [Hlt | Hge].
    - rewrite (lookup_replicate_2 n 1%R j Hlt).
      destruct (decide (j ∈ Z.to_nat <$> scaledIndices mm a)) as [Hin | Hnotin].
      + apply lookup_writeAll_in; [exact Hin | lia].
      + rewrite lookup_writeAll_notin by exact Hnotin.
        rewrite (Hout j Hnotin). by apply lookup_replicate_2.
    - rewrite !(proj2 (lookup_ge_None _ _));
        [reflexivity | rewrite length_replicate; lia
         | rewrite length_writeAll; lia]. }
  f_equal. f_equal; apply Hones; auto; intros j Hj; by apply Hsame.
Qed.

(** Atom 0 with a cross-body 1-2 partner 1 and a cross-body 1-3 partner 2,
    under the scale factors of a new subsystem, on arrays of three ones. *)
Lemma scale_then_unscale_witness :
  exists sc',
    scaleBondedAtoms newDuMMRep atom_with_partners
      (replicate 3 1%R, replicate 3 1%R) = Some sc'
    /\ unscaleBondedAtoms newDuMMRep atom_with_partners sc'
       = Some (replicate 3 1%R, replicate 3 1%R).
Proof.
  apply (scale_then_unscale newDuMMRep atom_with_partners 3).
  unfold scaledIndices.
  destruct (decide (vdwScale14 newDuMMRep <> 1%R \/ coulombScale14 newDuMMRep <> 1%R));
    destruct (decide (vdwScale15 newDuMMRep <> 1%R \/ coulombScale15 newDuMMRep <> 1%R));
    simpl; repeat constructor; lia.
Defined.

(** ** Loops that append *)

Lemma foldl_ext {A B : Type} (f g : A -> B -> A) (l : list B) (a : A) :
  (forall a x, f a x = g a x) -> foldl f a l = foldl g a l.
Proof.
  intros Hfg. revert a. induction l as [| x l IH]; intros a; simpl; [reflexivity |].
  by rewrite Hfg, IH.
Qed.

Lemma foldl_snoc_bind {A B : Type} (f : A -> list B) (l : list A) (acc : list B) :
  foldl (fun acc x => acc ++ f x) acc l = acc ++ (l ≫= f).
Proof.
  revert acc. induction l as [| x l IH]; intros acc; simpl.
  - by rewrite app_nil_r.
  - by rewrite IH, app_assoc.
Qed.

Lemma build14_paths (mm : DuMMRep) (anum : Z) (b13 : list IndexPair) :
  build14 mm anum b13 = paths14 mm anum b13.
Proof.
  unfold build14, paths14.
  rewrite (foldl_ext _ (fun b14 p =>
             b14 ++ (newAtom ← bond12_of mm (snd p);
                     if negb (newAtom =? anum) && negb (newAtom =? fst p)
                     then [(fst p, snd p, newAtom)] else []))).
  - by rewrite foldl_snoc_bind.
  - intros b14 [i0 i1]. simpl. rewrite <- foldl_snoc_bind.
    apply foldl_ext. intros acc n.
    destruct (negb (n =? anum) && negb (n =? i0)); [reflexivity |].
    by rewrite app_nil_r.
Qed.

Lemma build15_paths (mm : DuMMRep) (anum : Z) (b14 : list IndexTriple) :
  build15 mm anum b14 = paths15 mm anum b14.
Proof.
  unfold build15, paths15.
  rewrite (foldl_ext _ (fun b15 t =>
             b15 ++ (newAtom ← bond12_of mm (snd t);
                     if negb (newAtom =? anum) && negb (newAtom =? fst (fst t))
                        && negb (newAtom =? snd (fst t))
                     then [(fst (fst t), snd (fst t), snd t, newAtom)] else []))).
  - by rewrite foldl_snoc_bind.
  - intros b15 [[i0 i1] i2]. simpl. rewrite <- foldl_snoc_bind.
    apply foldl_ext. intros acc n.
    destruct (negb (n =? anum) && negb (n =? i0) && negb (n =? i1));
      [reflexivity |].
    by rewrite app_nil_r.
Qed.

(** ** Loops that pick unseen atoms *)

Lemma pickUnseen_app {P : Type} (target : P -> Z) (c1 c2 : list P)
    (st : list P * gset Z) :
  pickUnseen target (c1 ++ c2) st = pickUnseen target c2 (pickUnseen target c1 st).
Proof. unfold pickUnseen. apply foldl_app. Qed.

Lemma foldl_pickUnseen_bind {A P : Type} (target : P -> Z) (f : A -> list P)
    (l : list A) (st : list P * gset Z) :
  foldl (fun st x => pickUnseen target (f x) st) st l
  = pickUnseen target (l ≫= f) st.
Proof.
  revert st. induction l as [| x l IH]; intros st; simpl; [reflexivity |].
  by rewrite IH, pickUnseen_app.
Qed.

Lemma foldl_bind_singleton {A B C : Type} (f : A -> C -> A) (h : B -> C)
    (l : list B) (a : A) :
  foldl f a (l ≫= fun n => [h n]) = foldl (fun a n => f a (h n)) a l.
Proof.
  revert a. induction l as [| x l IH]; intros a; simpl; [reflexivity |].
  by rewrite IH.
Qed.

Lemma buildShort14_pick (mm : DuMMRep) (sp13 : list IndexPair) (seen : gset Z) :
  buildShort14 mm sp13 seen = pickUnseen snd (steps14 mm sp13) ([], seen).
Proof.
  unfold buildShort14, steps14. rewrite <- foldl_pickUnseen_bind.
  apply foldl_ext. intros st [i0 i1]. simpl.
  unfold pickUnseen. rewrite foldl_bind_singleton. apply foldl_ext.
  intros [sp seen'] n. unfold visitShort14. simpl.
  by destruct (decide (n ∈ seen')).
Qed.

Lemma buildShort15_pick (mm : DuMMRep) (sp14 : list IndexTriple) (seen : gset Z) :
  buildShort15 mm sp14 seen = pickUnseen snd (steps15 mm sp14) ([], seen).
Proof.
  unfold buildShort15, steps15. rewrite <- foldl_pickUnseen_bind.
  apply foldl_ext. intros st [[i0 i1] i2]. simpl.
  unfold pickUnseen. rewrite foldl_bind_singleton. apply foldl_ext.
  intros [sp seen'] n. unfold visitShort15. simpl.
  by destruct (decide (n ∈ seen')).
Qed.

Lemma pickUnseen_spec {P : Type} (target : P -> Z) (cands acc : list P)
    (seen : gset Z) :
  exists new : list P,
    pickUnseen target cands (acc, seen)
    = (acc ++ new, seen ∪ list_to_set (target <$> new))
    /\ (forall c, c ∈ new -> c ∈ cands)
    /\ NoDup (target <$> new)
    /\ (forall c, c ∈ new -> target c ∉ seen).
Proof.
  revert acc seen. induction cands as [| c cands IH]; intros acc seen.
  - exists []. simpl. rewrite app_nil_r. repeat split.
    + f_equal. set_solver.
    + intros c Hc. by apply elem_of_nil in Hc.
    + constructor.
    + intros c Hc. by apply elem_of_nil in Hc.
  - unfold pickUnseen. simpl. destruct (decide (target c ∈ seen)) as [Hin | Hnotin].
    + destruct (IH acc seen) as (new & Heq & Hsub & Hnd & Hfresh).
      exists new. repeat split; auto.
      intros c' Hc'. apply elem_of_cons. right. by apply Hsub.
    + destruct (IH (acc ++ [c]) (seen ∪ {[target c]}))
        as (new & Heq & Hsub & Hnd & Hfresh).
      exists (c :: new). repeat split.
      * unfold pickUnseen in Heq. rewrite Heq. f_equal.
        -- by rewrite <- app_assoc.
        -- simpl. set_solver.
      * intros c' Hc'. apply elem_of_cons in Hc' as [-> | Hc'].
        -- apply elem_of_cons. by left.
        -- apply elem_of_cons. right. by apply Hsub.
      * simpl. constructor; [| exact Hnd].
        intros Hc. apply list_elem_of_fmap in Hc as (c' & Heq' & Hc').
        apply (Hfresh c' Hc'). rewrite <- Heq'. set_solver.
      * intros c' Hc'. apply elem_of_cons in Hc' as [-> | Hc']; [exact Hnotin |].
        specialize (Hfresh c' Hc'). set_solver.
Qed.

Lemma visit13_step (anum a12 n : Z) (b sp : list IndexPair) (sn : gset Z) :
  visit13 anum a12 (b, sp, sn) n
  = if n =? anum then (b, sp, sn)
    else (b ++ [(a12, n)],
          fst (pickUnseen snd [(a12, n)] (sp, sn)),
          snd (pickUnseen snd [(a12, n)] (sp, sn))).
Proof.
  unfold visit13, pickUnseen. simpl.
  destruct (n =? anum); [reflexivity |]. by destruct (decide (n ∈ sn)).
Qed.

Lemma foldl_visit13 (anum a12 : Z) (l : list Z) (b sp : list IndexPair)
    (sn : gset Z) :
  foldl (visit13 anum a12) (b, sp, sn) l
  = (b ++ (l ≫= fun n => if n =? anum then [] else [(a12, n)]),
     fst (pickUnseen snd (l ≫= fun n => if n =? anum then [] else [(a12, n)])
                     (sp, sn)),
     snd (pickUnseen snd (l ≫= fun n => if n =? anum then [] else [(a12, n)])
                     (sp, sn))).
Proof.
  revert b sp sn. induction l as [| n l IH]; intros b sp sn.
  - simpl. by rewrite app_nil_r.
  - rewrite bind_cons. cbn [foldl]. rewrite visit13_step.
    destruct (n =? anum).
    + rewrite IH. reflexivity.
    + rewrite IH, pickUnseen_app, <- app_assoc.
      by destruct (pickUnseen snd [(a12, n)] (sp, sn)).
Qed.

Lemma build13_paths (mm : DuMMRep) (anum : Z) (b12 : list Z) (seen : gset Z) :
  build13 mm anum b12 seen
  = (paths13 mm anum b12,
     fst (pickUnseen snd (paths13 mm anum b12) ([], seen)),
     snd (pickUnseen snd (paths13 mm anum b12) ([], seen))).
Proof.
  unfold build13.
  assert (forall l b sp sn,
            foldl (fun st a12 => foldl (visit13 anum a12) st (bond12_of mm a12))
                  (b, sp, sn) l
            = (b ++ paths13 mm anum l,
               fst (pickUnseen snd (paths13 mm anum l) (sp, sn)),
               snd (pickUnseen snd (paths13 mm anum l) (sp, sn)))) as Houter.
  { intros l. induction l as [| a12 l IH]; intros b sp sn.
    - simpl. by rewrite app_nil_r.
    - unfold paths13. rewrite bind_cons. fold (paths13 mm anum l).
      cbn [foldl]. rewrite foldl_visit13.
      rewrite IH, pickUnseen_app, <- app_assoc.
      by destruct (pickUnseen snd _ (sp, sn)). }
  apply Houter.
Qed.

Lemma std_sort_Permutation {A : Type} (lt : A -> A -> bool) (l : list A) :
  std_sort lt l ≡ₚ l.
Proof. unfold std_sort. apply merge_sort_Permutation. Qed.

Lemma elem_of_std_sort {A : Type} (lt : A -> A -> bool) (l : list A) (x : A) :
  x ∈ std_sort lt l <-> x ∈ l.
Proof. by rewrite std_sort_Permutation. Qed.

(** ** Membership in the lists of paths *)

Lemma elem_of_paths13 (mm : DuMMRep) (anum : Z) (b12 : list Z) (i0 i1 : Z) :
  (i0, i1) ∈ paths13 mm anum b12
  <-> i0 ∈ b12 /\ i1 ∈ bond12_of mm i0 /\ i1 <> anum.
Proof.
  unfold paths13. rewrite list_elem_of_bind. split.
  - intros (a12 & Hin & Ha12). apply list_elem_of_bind in Hin as (n & Hin & Hn).
    destruct (Z.eqb_spec n anum); [by apply elem_of_nil in Hin |].
    apply list_elem_of_singleton in Hin. by inversion Hin; subst.
  - intros (H0 & H1 & Hne). exists i0. split; [| exact H0].
    apply list_elem_of_bind. exists i1. split; [| exact H1].
    destruct (Z.eqb_spec i1 anum); [contradiction |]. by apply list_elem_of_singleton.
Qed.

Lemma elem_of_paths14 (mm : DuMMRep) (anum : Z) (b13 : list IndexPair)
    (i0 i1 i2 : Z) :
  (i0, i1, i2) ∈ paths14 mm anum b13
  <-> (i0, i1) ∈ b13 /\ i2 ∈ bond12_of mm i1 /\ i2 <> anum /\ i2 <> i0.
Proof.
  unfold paths14. rewrite list_elem_of_bind. split.
  - intros ([j0 j1] & Hin & Hp). apply list_elem_of_bind in Hin as (n & Hin & Hn).
    simpl in *.
    destruct (Z.eqb_spec n anum), (Z.eqb_spec n j0); simpl in Hin;
      try (by apply elem_of_nil in Hin).
    apply list_elem_of_singleton in Hin. by inversion Hin; subst.
  - intros (H0 & H1 & Hne & Hne0). exists (i0, i1). split; [| exact H0].
    apply list_elem_of_bind. exists i2. split; [| exact H1]. simpl.
    destruct (Z.eqb_spec i2 anum), (Z.eqb_spec i2 i0); try contradiction.
    by apply list_elem_of_singleton.
Qed.

Lemma elem_of_paths15 (mm : DuMMRep) (anum : Z) (b14 : list IndexTriple)
    (i0 i1 i2 i3 : Z) :
  (i0, i1, i2, i3) ∈ paths15 mm anum b14
  <-> (i0, i1, i2) ∈ b14 /\ i3 ∈ bond12_of mm i2
      /\ i3 <> anum /\ i3 <> i0 /\ i3 <> i1.
Proof.
  unfold paths15. rewrite list_elem_of_bind. split.
  - intros ([[j0 j1] j2] & Hin & Hp).
    apply list_elem_of_bind in Hin as (n & Hin & Hn). simpl in *.
    destruct (Z.eqb_spec n anum), (Z.eqb_spec n j0), (Z.eqb_spec n j1);
      simpl in Hin; try (by apply elem_of_nil in Hin).
    apply list_elem_of_singleton in Hin. by inversion Hin; subst.
  - intros (H0 & H1 & Hne & Hne0 & Hne1). exists (i0, i1, i2). split; [| exact H0].
    apply list_elem_of_bind. exists i3. split; [| exact H1]. simpl.
    destruct (Z.eqb_spec i3 anum), (Z.eqb_spec i3 i0), (Z.eqb_spec i3 i1);
      try contradiction.
    by apply list_elem_of_singleton.
Qed.

Lemma elem_of_steps14 (mm : DuMMRep) (sp13 : list IndexPair) (i0 i1 i2 : Z) :
  (i0, i1, i2) ∈ steps14 mm sp13 <-> (i0, i1) ∈ sp13 /\ i2 ∈ bond12_of mm i1.
Proof.
  unfold steps14. rewrite list_elem_of_bind. split.
  - intros ([j0 j1] & Hin & Hp). apply list_elem_of_bind in Hin as (n & Hin & Hn).
    simpl in *. apply list_elem_of_singleton in Hin. by inversion Hin; subst.
  - intros (H0 & H1). exists (i0, i1). split; [| exact H0].
    apply list_elem_of_bind. exists i2. split; [| exact H1].
    by apply list_elem_of_singleton.
Qed.

Lemma elem_of_steps15 (mm : DuMMRep) (sp14 : list IndexTriple) (i0 i1 i2 i3 : Z) :
  (i0, i1, i2, i3) ∈ steps15 mm sp14
  <-> (i0, i1, i2) ∈ sp14 /\ i3 ∈ bond12_of mm i2.
Proof.
  unfold steps15. rewrite list_elem_of_bind. split.
  - intros ([[j0 j1] j2] & Hin & Hp).
    apply list_elem_of_bind in Hin as (n & Hin & Hn).
    simpl in *. apply list_elem_of_singleton in Hin. by inversion Hin; subst.
  - intros (H0 & H1). exists (i0, i1, i2). split; [| exact H0].
    apply list_elem_of_bind. exists i3. split; [| exact H1].
    by apply list_elem_of_singleton.
Qed.

(** ** Shortest paths of one atom *)

Arguments std_sort : simpl never.
Arguments paths13 : simpl never.
Arguments paths14 : simpl never.
Arguments paths15 : simpl never.
Arguments steps14 : simpl never.
Arguments steps15 : simpl never.
Arguments pickUnseen : simpl never.

(** What [realizeNeighborhoods] computes, with the three shortest-path
    loops described by the atoms they newly meet. *)
Lemma realizeNeighborhoods_lists (mm : DuMMRep) (anum : Z) (b12 : list Z)
    (body : Z) :
  let seen0 : gset Z := {[anum]} ∪ list_to_set b12 in
  let n := realizeNeighborhoods mm anum b12 body in
  exists new13 new14 new15,
    n_bond13 n = std_sort pair_lt (paths13 mm anum b12)
    /\ n_bond14 n = std_sort triple_lt (paths14 mm anum (n_bond13 n))
    /\ n_bond15 n = std_sort quad_lt (paths15 mm anum (n_bond14 n))
    /\ n_shortPath13 n = std_sort pair_lt new13
    /\ n_shortPath14 n = std_sort triple_lt new14
    /\ n_shortPath15 n = std_sort quad_lt new15
    /\ (forall c, c ∈ new13 -> c ∈ paths13 mm anum b12)
    /\ (forall c, c ∈ new14 -> c ∈ steps14 mm (n_shortPath13 n))
    /\ (forall c, c ∈ new15 -> c ∈ steps15 mm (n_shortPath14 n))
    /\ NoDup (snd <$> new13) /\ NoDup (snd <$> new14) /\ NoDup (snd <$> new15)
    /\ (forall c, c ∈ new13 -> snd c ∉ seen0)
    /\ (forall c, c ∈ new14 ->
          snd c ∉ seen0 ∪ list_to_set (snd <$> new13))
    /\ (forall c, c ∈ new15 ->
          snd c ∉ seen0 ∪ list_to_set (snd <$> new13)
                  ∪ list_to_set (snd <$> new14)).
Proof.
  intros seen0 n. unfold n, realizeNeighborhoods. fold seen0.
  rewrite build13_paths.
  destruct (pickUnseen_spec snd (paths13 mm anum b12) [] seen0)
    as (new13 & E13 & S13 & ND13 & F13).
  rewrite E13. cbn [fst snd app].
  rewrite buildShort14_pick.
  destruct (pickUnseen_spec snd (steps14 mm (std_sort pair_lt new13)) []
              (seen0 ∪ list_to_set (snd <$> new13)))
    as (new14 & E14 & S14 & ND14 & F14).
  rewrite E14. cbn [fst snd app].
  rewrite buildShort15_pick.
  destruct (pickUnseen_spec snd (steps15 mm (std_sort triple_lt new14)) []
              (seen0 ∪ list_to_set (snd <$> new13) ∪ list_to_set (snd <$> new14)))
    as (new15 & E15 & S15 & ND15 & F15).
  rewrite E15. cbn [fst snd app].
  rewrite build14_paths, build15_paths.
  exists new13, new14, new15. cbn.
  repeat (split; [first [reflexivity | assumption] |]). assumption.
Qed.

Lemma realizeNeighborhoods_shortPaths (mm : DuMMRep) (anum : Z) (b12 : list Z)
    (body : Z) :
  let n := realizeNeighborhoods mm anum b12 body in
  let targets := (snd <$> n_shortPath13 n) ++ (snd <$> n_shortPath14 n)
                 ++ (snd <$> n_shortPath15 n) in
  (forall p, p ∈ n_shortPath13 n -> p ∈ n_bond13 n)
  /\ (forall t, t ∈ n_shortPath14 n -> t ∈ n_bond14 n)
  /\ (forall q, q ∈ n_shortPath15 n -> q ∈ n_bond15 n)
  /\ NoDup targets
  /\ (forall x, x ∈ targets -> x <> anum /\ x ∉ b12).
Proof.
  intros n targets.
  destruct (realizeNeighborhoods_lists mm anum b12 body)
    as (new13 & new14 & new15 & Hb13 & Hb14 & Hb15 & Hs13 & Hs14 & Hs15
        & S13 & S14 & S15 & ND13 & ND14 & ND15 & F13 & F14 & F15).
  fold n in Hb13, Hb14, Hb15, Hs13, Hs14, Hs15, S14, S15.
  set (seen0 := ({[anum]} ∪ list_to_set b12 : gset Z)) in *.
  assert (forall p, p ∈ n_shortPath13 n -> p ∈ n_bond13 n) as H13.
  { intros p. rewrite Hs13, Hb13, !elem_of_std_sort. apply S13. }
  assert (forall i0 i1, (i0, i1) ∈ n_shortPath13 n ->
            i0 ∈ seen0 /\ i1 ∈ seen0 ∪ list_to_set (snd <$> new13)) as Hmet13.
  { intros i0 i1 Hp. rewrite Hs13, elem_of_std_sort in Hp. split.
    - apply S13, elem_of_paths13 in Hp as (Hi0 & _). unfold seen0.
      apply elem_of_union_r, elem_of_list_to_set, Hi0.
    - apply elem_of_union_r, elem_of_list_to_set, list_elem_of_fmap.
      by exists (i0, i1). }
  assert (forall t, t ∈ n_shortPath14 n -> t ∈ n_bond14 n) as H14.
  { intros [[i0 i1] i2]. rewrite Hs14, Hb14, !elem_of_std_sort. intros Ht.
    pose proof (F14 _ Ht) as Hfresh. simpl in Hfresh.
    apply S14, elem_of_steps14 in Ht as (Hp & Hi2).
    destruct (Hmet13 _ _ Hp) as [Hi0 _].
    apply elem_of_paths14. split; [by apply H13 |]. split; [exact Hi2 |].
    split; intros ->; apply Hfresh, elem_of_union_l; [| exact Hi0].
    unfold seen0. apply elem_of_union_l. by apply elem_of_singleton. }
  assert (forall q, q ∈ n_shortPath15 n -> q ∈ n_bond15 n) as H15.
  { intros [[[i0 i1] i2] i3]. rewrite Hs15, Hb15, !elem_of_std_sort. intros Hq.
    pose proof (F15 _ Hq) as Hfresh. simpl in Hfresh.
    apply S15, elem_of_steps15 in Hq as (Ht & Hi3).
    pose proof Ht as Ht'. rewrite Hs14, elem_of_std_sort in Ht'.
    apply S14, elem_of_steps14 in Ht' as (Hp & _).
    destruct (Hmet13 _ _ Hp) as [Hi0 Hi1].
    apply elem_of_paths15. split; [by apply H14 |]. split; [exact Hi3 |].
    repeat split; intros ->; apply Hfresh, elem_of_union_l.
    - apply elem_of_union_l. unfold seen0. apply elem_of_union_l.
      by apply elem_of_singleton.
    - by apply elem_of_union_l.
    - exact Hi1. }
  split; [exact H13 |]. split; [exact H14 |]. split; [exact H15 |].
  assert (forall x, x ∈ snd <$> n_shortPath13 n <-> x ∈ snd <$> new13) as T13.
  { intros x. by rewrite Hs13, std_sort_Permutation. }
  assert (forall x, x ∈ snd <$> n_shortPath14 n <-> x ∈ snd <$> new14) as T14.
  { intros x. by rewrite Hs14, std_sort_Permutation. }
  assert (forall x, x ∈ snd <$> n_shortPath15 n <-> x ∈ snd <$> new15) as T15.
  { intros x. by rewrite Hs15, std_sort_Permutation. }
  assert (forall x, x ∈ snd <$> new14 ->
            x ∉ seen0 ∪ list_to_set (snd <$> new13)) as G14.
  { intros x Hx. apply list_elem_of_fmap in Hx as (c & -> & Hc). by apply F14. }
  assert (forall x, x ∈ snd <$> new15 ->
            x ∉ seen0 ∪ list_to_set (snd <$> new13)
                ∪ list_to_set (snd <$> new14)) as G15.
  { intros x Hx. apply list_elem_of_fmap in Hx as (c & -> & Hc). by apply F15. }
  assert (forall x, x ∈ snd <$> new13 -> x ∉ seen0) as G13.
  { intros x Hx. apply list_elem_of_fmap in Hx as (c & -> & Hc). by apply F13. }
  split.
  - unfold targets. apply NoDup_app. split; [| split].
    + by rewrite Hs13, std_sort_Permutation.
    + intros x Hx Hx'. apply T13 in Hx. apply elem_of_app in Hx' as [Hx' | Hx'].
      * apply T14, G14 in Hx'. apply Hx', elem_of_union_r.
        by apply elem_of_list_to_set.
      * apply T15, G15 in Hx'. apply Hx', elem_of_union_l, elem_of_union_r.
        by apply elem_of_list_to_set.
    + apply NoDup_app. split; [| split].
      * by rewrite Hs14, std_sort_Permutation.
      * intros x Hx Hx'. apply T14 in Hx. apply T15, G15 in Hx'.
        apply Hx', elem_of_union_r. by apply elem_of_list_to_set.
      * by rewrite Hs15, std_sort_Permutation.
  - intros x Hx.
    assert (x ∉ seen0) as Hfresh.
    { unfold targets in Hx. rewrite !elem_of_app in Hx.
      destruct Hx as [Hx | [Hx | Hx]].
      - by apply G13, T13.
      - apply T14, G14 in Hx. intros H0. by apply Hx, elem_of_union_l.
      - apply T15, G15 in Hx. intros H0.
        by apply Hx, elem_of_union_l, elem_of_union_l. }
    split.
    + intros ->. apply Hfresh. unfold seen0. apply elem_of_union_l.
      by apply elem_of_singleton.
    + intros Hin. apply Hfresh. unfold seen0.
      by apply elem_of_union_r, elem_of_list_to_set.
Qed.

(** ** The loop over the atoms *)

Lemma vec_at_Some_range {A : Type} (v : list A) (i : Z) (x : A) :
  vec_at v i = Some x -> 0 <= i < vec_size v.
Proof.
  unfold vec_at, vec_size. destruct (Z.ltb_spec i 0) as [Hneg | Hpos];
    [discriminate |].
  intros Hlk. apply lookup_lt_Some in Hlk. lia.
Qed.

Lemma vec_at_store_atom (mm : DuMMRep) (i j : Z) (a a0 : Atom) :
  vec_at (atoms mm) i = Some a0 ->
  vec_at (atoms (store_atom mm i a)) j
  = if decide (j = i) then Some a else vec_at (atoms mm) j.
Proof.
  intros Hi. pose proof (vec_at_Some_range _ _ _ Hi) as Hr.
  unfold store_atom. simpl. destruct (decide (j = i)) as [-> | Hne].
  - by eapply vec_at_insert_eq.
  - unfold vec_at. destruct (Z.ltb_spec j 0); [reflexivity |].
    apply list_lookup_insert_ne. lia.
Qed.

Lemma length_store_atom (mm : DuMMRep) (i : Z) (a : Atom) :
  length (atoms (store_atom mm i a)) = length (atoms mm).
Proof. unfold store_atom. simpl. apply length_insert. Qed.

Lemma sameTopology_refl (mm : DuMMRep) : sameTopology mm mm.
Proof. split; [reflexivity |]. intros i. split; reflexivity. Qed.

Lemma sameTopology_trans (mm1 mm2 mm3 : DuMMRep) :
  sameTopology mm1 mm2 -> sameTopology mm2 mm3 -> sameTopology mm1 mm3.
Proof.
  intros [L12 H12] [L23 H23]. split; [congruence |].
  intros i. destruct (H12 i) as [P12 B12], (H23 i) as [P23 B23].
  split; [by rewrite P23 | congruence].
Qed.

(** Overwriting an atom by one with the same body and a permutation of
    its bonds keeps the topology. *)
Lemma sameTopology_store_atom (mm : DuMMRep) (i : Z) (a a' : Atom) :
  vec_at (atoms mm) i = Some a ->
  bond12 a' ≡ₚ bond12 a -> bodyIx a' = bodyIx a ->
  sameTopology mm (store_atom mm i a').
Proof.
  intros Hi Hperm Hbody. split; [apply length_store_atom |].
  intros j. unfold bond12_of, bodyIx_of.
  rewrite (vec_at_store_atom _ _ _ _ _ Hi).
  destruct (decide (j = i)) as [-> | Hne]; [| done].
  rewrite Hi. done.
Qed.

(** The shape of a turn of the loop that does not throw. *)
Lemma realizeAtom_Ok (mm : DuMMRep) (cell : option BondTorsion) (anum : Z)
    (mm' : DuMMRep) (cell' : option BondTorsion) :
  realizeAtom mm cell anum = Ok (mm', cell') ->
  exists a i14 its st bd tr,
    vec_at (atoms mm) anum = Some a
    /\ let b12 := std_sort Z.ltb (bond12 a) in
       let mm1 := store_atom mm anum (Atom_with_bond12 a b12) in
       let n := realizeNeighborhoods mm1 anum b12 (bodyIx a) in
       mm' = store_atom mm1 anum (Atom_realized a b12 n i14 its st bd tr)
       /\ buildImpropers mm1 (getAtomClassIndex mm1 anum) (n_xbonds3Atoms n) cell
          = (i14, its, cell').
Proof.
  unfold realizeAtom. destruct (vec_at (atoms mm) anum) as [a |]; [| discriminate].
  cbv zeta.
  destruct (assignChecked _ BondStretch_isValid _ _) as [st [|]]; [| discriminate].
  destruct (assignChecked _ BondBend_isValid _ _) as [bd [|]]; [| discriminate].
  destruct (assignChecked _ BondTorsion_isValid _ _) as [tr [|]]; [| discriminate].
  cbn [negb].
  destruct (buildImpropers _ _ _ _) as [[i14 its] cell''] eqn:Himp.
  intros [= <- <-]. exists a, i14, its, st, bd, tr.
  split; [reflexivity |]. split; [reflexivity | exact Himp].
Qed.

Lemma neighborhoods_of_realized (a : Atom) (b12 : list Z) (n : Neighborhoods)
    (i14 : list IndexTriple) (its : list BondTorsion)
    (st : list BondStretch) (bd : list BondBend) (tr : list BondTorsion) :
  neighborhoods_of (Atom_realized a b12 n i14 its st bd tr) = n.
Proof. by destruct n. Qed.

Lemma realizeAtom_realized (mm0 mm : DuMMRep) (cell : option BondTorsion)
    (anum : Z) (mm' : DuMMRep) (cell' : option BondTorsion) :
  sameTopology mm0 mm ->
  realizeAtom mm cell anum = Ok (mm', cell') ->
  sameTopology mm0 mm'
  /\ (exists a', vec_at (atoms mm') anum = Some a' /\ atom_realized_in mm0 anum a')
  /\ (forall j, j <> anum -> vec_at (atoms mm') j = vec_at (atoms mm) j).
Proof.
  intros Hsame Hok.
  apply realizeAtom_Ok in Hok as (a & i14 & its & st & bd & tr & Ha & Hmm' & _).
  cbv zeta in Hmm'.
  set (b12 := std_sort Z.ltb (bond12 a)) in *.
  set (mm1 := store_atom mm anum (Atom_with_bond12 a b12)) in *.
  set (n := realizeNeighborhoods mm1 anum b12 (bodyIx a)) in *.
  assert (b12 ≡ₚ bond12 a) as Hperm by apply std_sort_Permutation.
  assert (sameTopology mm mm1) as H01.
  { by apply (sameTopology_store_atom mm anum a). }
  assert (vec_at (atoms mm1) anum = Some (Atom_with_bond12 a b12)) as Ha1.
  { unfold mm1. rewrite (vec_at_store_atom _ _ _ _ _ Ha). by rewrite decide_True. }
  assert (sameTopology mm1 mm') as H12.
  { subst mm'. by apply (sameTopology_store_atom mm1 anum (Atom_with_bond12 a b12)). }
  split; [| split].
  - eapply sameTopology_trans; [exact Hsame |].
    eapply sameTopology_trans; [exact H01 | exact H12].
  - exists (Atom_realized a b12 n i14 its st bd tr). split.
    + subst mm'. rewrite (vec_at_store_atom _ _ _ _ _ Ha1). by rewrite decide_True.
    + exists mm1. split; [by eapply sameTopology_trans |].
      destruct Hsame as [_ Hsame]. destruct (Hsame anum) as [Hp Hb].
      unfold bond12_of, bodyIx_of in Hp, Hb. rewrite Ha in Hp, Hb.
      split; [| split].
      * simpl. by rewrite Hperm.
      * exact Hb.
      * apply neighborhoods_of_realized.
  - intros j Hne. subst mm'.
    rewrite (vec_at_store_atom _ _ _ _ _ Ha1), decide_False by exact Hne.
    unfold mm1. by rewrite (vec_at_store_atom _ _ _ _ _ Ha), decide_False.
Qed.

Lemma realizeAtoms_realized (mm0 : DuMMRep) (anums : list Z)
    (st st' : DuMMRep * option BondTorsion) :
  sameTopology mm0 (fst st) ->
  realizeAtoms anums st = Ok st' ->
  sameTopology mm0 (fst st')
  /\ (forall j, j ∈ anums ->
        exists a', vec_at (atoms (fst st')) j = Some a' /\ atom_realized_in mm0 j a')
  /\ (forall j, j ∉ anums -> vec_at (atoms (fst st')) j = vec_at (atoms (fst st)) j).
Proof.
  revert st. induction anums as [| anum rest IH]; intros st Hsame Hok; simpl in Hok.
  - injection Hok as <-. split; [exact Hsame |]. split; [| reflexivity].
    intros j Hj. by apply elem_of_nil in Hj.
  - destruct (realizeAtom (fst st) (snd st) anum) as [[mm1 cell1] | |] eqn:Hstep;
      try discriminate.
    destruct (realizeAtom_realized mm0 _ _ _ _ _ Hsame Hstep)
      as (Hsame1 & (a1 & Ha1 & Hreal1) & Hframe1).
    destruct (IH (mm1, cell1) Hsame1 Hok) as (Hsame' & Hdone & Hframe).
    split; [exact Hsame' |]. split.
    + intros j Hj. destruct (decide (j ∈ rest)) as [Hin | Hnotin].
      * by apply Hdone.
      * apply elem_of_cons in Hj as [-> | Hj]; [| contradiction].
        exists a1. split; [| exact Hreal1]. rewrite (Hframe anum Hnotin). exact Ha1.
    + intros j Hj. apply not_elem_of_cons in Hj as [Hne Hnotin].
      rewrite (Hframe j Hnotin). simpl. by apply Hframe1.
Qed.

(** An atom that realization has gone through satisfies the
    shortest-path invariant. *)
Lemma atom_realized_shortPaths (mm : DuMMRep) (j : Z) (a' : Atom) :
  atom_realized_in mm j a' -> shortPaths_ok j a'.
Proof.
  intros (mmk & _ & _ & _ & Hn).
  pose proof (realizeNeighborhoods_shortPaths mmk j (bond12 a') (bodyIx a')) as H.
  cbv zeta in H. rewrite <- Hn in H. exact H.
Qed.

Lemma realizeSubsystemTopologyImpl_Ok (mm : DuMMRep) (cell : option BondTorsion)
    (mm' : DuMMRep) (cell' : option BondTorsion) :
  realizeSubsystemTopologyImpl mm cell = Ok (mm', cell') ->
  exists mm1,
    assignBodies (set_atoms (fmap Atom_invalidateTopologicalCache) mm) = Some mm1
    /\ realizeAtoms (seqZ 0 (vec_size (atoms mm1))) (mm1, cell) = Ok (mm', cell').
Proof.
  unfold realizeSubsystemTopologyImpl.
  destruct (negb (forallb _ _)); [discriminate |].
  destruct (assignBodies _) as [mm1 |]; [| discriminate].
  intros H. by exists mm1.
Qed.

(** C5: after topology realization every atom satisfies the shortest-path
    invariant: each [shortPath1N] entry is an entry of [bond1N]; the last
    atoms of the three shortest-path lists are pairwise distinct across
    the lists; none of them is the focal atom or one of its 1-2
    neighbours. *)
Theorem realized_shortPaths (mm : DuMMRep) (cell : option BondTorsion)
    (mm' : DuMMRep) (cell' : option BondTorsion) :
  realizeSubsystemTopologyImpl mm cell = Ok (mm', cell') ->
  forall (anum : Z) (a : Atom),
    vec_at (atoms mm') anum = Some a -> shortPaths_ok anum a.
Proof.
  intros Hok anum a Ha.
  apply realizeSubsystemTopologyImpl_Ok in Hok as (mm1 & _ & Hloop).
  destruct (realizeAtoms_realized mm1 _ (mm1, cell) _ (sameTopology_refl mm1) Hloop)
    as ([Hlen _] & Hdone & _).
  simpl in Hlen, Hdone.
  destruct (Hdone anum) as (a' & Ha' & Hreal).
  - apply elem_of_seqZ. apply vec_at_Some_range in Ha.
    unfold vec_size in *. lia.
  - rewrite Ha in Ha'. injection Ha' as <-.
    by eapply atom_realized_shortPaths.
Qed.

(** ** The kernel loops as lists of terms *)

Lemma foldl_imap_snd {A S : Type} (g : S -> A -> S) (h : nat -> A -> nat * A)
    (l : list A) (s : S) :
  (forall i x, snd (h i x) = x) ->
  foldl (fun s p => g s (snd p)) s (imap h l) = foldl g s l.
Proof.
  revert h s. induction l as [| x l IH]; intros h s Hh; simpl; [reflexivity |].
  rewrite Hh. apply IH. intros i y. apply Hh.
Qed.

Lemma foldl_withIndex_append {A B : Type} (f : A -> list B) (l : list A)
    (body : list B -> nat * A -> list B) (acc : list B) :
  (forall acc p, body acc p = acc ++ f (snd p)) ->
  foldl body acc (withIndex l) = acc ++ (l ≫= f).
Proof.
  intros Hbody. rewrite (foldl_ext _ (fun acc p => acc ++ f (snd p))) by exact Hbody.
  unfold withIndex.
  rewrite (foldl_imap_snd (fun acc x => acc ++ f x)) by reflexivity.
  apply foldl_snoc_bind.
Qed.

Lemma stretchLoop_events (a1num : Z) (a1 : Atom) (tr : list Interaction) :
  stretchLoop recordStretch a1num a1 tr = tr ++ stretchEvents a1num a1.
Proof.
  unfold stretchLoop, stretchEvents. apply foldl_withIndex_append.
  intros acc [b12 a2num]. simpl. unfold recordStretch.
  destruct (a2num <? a1num); [by rewrite app_nil_r | reflexivity].
Qed.

Lemma bendLoop_events (a1num : Z) (a1 : Atom) (tr : list Interaction) :
  bendLoop recordBend a1num a1 tr = tr ++ bendEvents a1num a1.
Proof.
  unfold bendLoop, bendEvents. apply foldl_withIndex_append.
  intros acc [b13 [a2num a3num]]. simpl.
  destruct (a3num <? a1num); [by rewrite app_nil_r | reflexivity].
Qed.

Lemma torsionLoop_events (a1num : Z) (a1 : Atom) (tr : list Interaction) :
  torsionLoop recordTorsion a1num a1 tr = tr ++ torsionEvents a1num a1.
Proof.
  unfold torsionLoop, torsionEvents. apply foldl_withIndex_append.
  intros acc [b14 [[a2num a3num] a4num]]. simpl.
  destruct (a4num <? a1num); [by rewrite app_nil_r | reflexivity].
Qed.

Lemma improperLoop_events (a1num : Z) (a1 : Atom) (tr : list Interaction) :
  improperLoop recordImproper a1num a1 tr = tr ++ improperEvents a1num a1.
Proof.
  unfold improperLoop, improperEvents. apply foldl_withIndex_append.
  by intros acc [b14 [[a2num a3num] a4num]].
Qed.

Lemma nonbondedLoop_events (body1 : DuMMBody) (a1num : Z)
    (later : list DuMMBody) (tr : list Interaction) :
  nonbondedLoop recordNonbonded body1 a1num later tr
  = tr ++ nonbondedEvents a1num later.
Proof.
  unfold nonbondedLoop, nonbondedEvents.
  rewrite (foldl_ext _ (fun tr body2 =>
             tr ++ (ap2 ← allAtoms body2; [Nonbonded a1num (ap_atomIndex ap2)]))).
  - apply foldl_snoc_bind.
  - intros acc body2. by rewrite <- foldl_snoc_bind.
Qed.

Lemma bodyLoop_events (mm : DuMMRep) (bodies : list DuMMBody)
    (tr : list Interaction) :
  (forall i, i ∈ focalAtoms bodies -> is_Some (vec_at (atoms mm) i)) ->
  bodyLoop recordStretch recordBend recordTorsion recordImproper (fun _ tr => tr) (fun _ tr => tr)
           recordNonbonded mm bodies tr
  = Some (tr ++ bodyEvents mm bodies).
Proof.
  revert tr. induction bodies as [| body1 later IH]; intros tr Hrange; simpl.
  - by rewrite app_nil_r.
  - assert (forall aps tr0,
              (forall ap, ap ∈ aps -> is_Some (vec_at (atoms mm) (ap_atomIndex ap))) ->
              forEachM (atomLoopBody recordStretch recordBend recordTorsion recordImproper
                          (fun _ tr => tr) (fun _ tr => tr) recordNonbonded
                          mm body1 later) aps tr0
              = Some (tr0 ++ (ap1 ← aps; atomEvents mm later (ap_atomIndex ap1))))
      as Hatoms.
    { intros aps. induction aps as [| ap aps IHaps]; intros tr0 Hr; simpl.
      - by rewrite app_nil_r.
      - destruct (Hr ap) as [a1 Ha1]; [by apply elem_of_cons; left |].
        unfold atomLoopBody at 1. rewrite Ha1. simpl.
        rewrite stretchLoop_events, bendLoop_events, torsionLoop_events,
          improperLoop_events, nonbondedLoop_events.
        rewrite IHaps by (intros ap' Hap'; apply Hr, elem_of_cons; by right).
        f_equal. unfold atomEvents, bondedEvents. rewrite Ha1.
        by rewrite <- !app_assoc. }
    rewrite Hatoms.
    + rewrite IH.
      * by rewrite <- app_assoc.
      * intros i Hi. apply Hrange. unfold focalAtoms. rewrite bind_cons.
        apply elem_of_app. by right.
    + intros ap Hap. apply Hrange. unfold focalAtoms. rewrite bind_cons.
      apply elem_of_app. left. unfold atomsOf. by apply list_elem_of_fmap_2.
Qed.

Lemma kernelTrace_events (mm : DuMMRep) :
  (forall i, i ∈ focalAtoms (duMMSubsetOfBodies mm) ->
             is_Some (vec_at (atoms mm) i)) ->
  kernelTrace mm = Some (bodyEvents mm (duMMSubsetOfBodies mm)).
Proof.
  intros Hrange. unfold kernelTrace, forceKernel.
  by rewrite bodyLoop_events.
Qed.


(** ** Counting the terms of a list *)

Lemma evaluations_app (l1 l2 : list Interaction) (e : Interaction) :
  evaluations (l1 ++ l2) e = (evaluations l1 e + evaluations l2 e)%nat.
Proof. unfold evaluations. by rewrite filter_app, length_app. Qed.

Lemma evaluations_absent (l : list Interaction) (e : Interaction) :
  e ∉ l -> evaluations l e = 0%nat.
Proof.
  unfold evaluations. induction l as [| x l IH]; intros He; [reflexivity |].
  apply not_elem_of_cons in He as [Hne He].
  rewrite filter_cons, decide_False by congruence. by apply IH.
Qed.

Lemma evaluations_NoDup (l : list Interaction) (e : Interaction) :
  NoDup l -> e ∈ l -> evaluations l e = 1%nat.
Proof.
  unfold evaluations. induction l as [| x l IH]; intros Hnd He.
  - by apply elem_of_nil in He.
  - apply NoDup_cons in Hnd as [Hx Hnd]. rewrite filter_cons.
    destruct (decide (x = e)) as [-> | Hne].
    + simpl. f_equal. by apply (evaluations_absent l e).
    + apply elem_of_cons in He as [-> | He]; [congruence | by apply IH].
Qed.

Lemma evaluations_bind {A : Type} (l : list A) (f g : A -> list Interaction)
    (e : Interaction) :
  (forall x, x ∈ l -> evaluations (f x) e = evaluations (g x) e) ->
  evaluations (l ≫= f) e = evaluations (l ≫= g) e.
Proof.
  induction l as [| x l IH]; intros Hfg; [reflexivity |].
  rewrite !bind_cons, !evaluations_app. f_equal.
  - apply Hfg. by apply elem_of_cons; left.
  - apply IH. intros y Hy. apply Hfg. by apply elem_of_cons; right.
Qed.

Lemma evaluations_bind_bind {A B : Type} (l : list A) (f : A -> list B)
    (g : B -> list Interaction) (e : Interaction) :
  evaluations (l ≫= fun x => f x ≫= g) e = evaluations ((l ≫= f) ≫= g) e.
Proof.
  induction l as [| x l IH]; [reflexivity |].
  rewrite !bind_cons, bind_app, !evaluations_app. by rewrite IH.
Qed.

(** A bond list without repetition yields each of its terms once. *)
Lemma NoDup_bind_guarded {A : Type} (l : list A) (skip : A -> bool)
    (mk : A -> Interaction) :
  Inj (=) (=) mk -> NoDup l ->
  NoDup (l ≫= fun x => if skip x then [] else [mk x]).
Proof.
  intros Hinj Hnd. apply NoDup_bind; [| | exact Hnd].
  - intros x1 x2 y _ _ H1 H2.
    destruct (skip x1); [by apply elem_of_nil in H1 |].
    destruct (skip x2); [by apply elem_of_nil in H2 |].
    apply list_elem_of_singleton in H1, H2. apply Hinj. congruence.
  - intros x _. destruct (skip x); [constructor | apply NoDup_singleton].
Qed.

Lemma elem_of_bind_guarded {A : Type} (l : list A) (skip : A -> bool)
    (mk : A -> Interaction) (e : Interaction) :
  e ∈ (l ≫= fun x => if skip x then [] else [mk x])
  <-> exists x, x ∈ l /\ skip x = false /\ e = mk x.
Proof.
  rewrite list_elem_of_bind. split.
  - intros (x & He & Hx). exists x. destruct (skip x);
      [by apply elem_of_nil in He |].
    apply list_elem_of_singleton in He. auto.
  - intros (x & Hx & Hs & ->). exists x. rewrite Hs.
    split; [by apply list_elem_of_singleton | exact Hx].
Qed.

(** ** Each bonded term of a kind is processed at most once *)

Lemma kindEvents_count {X : Type} (lst : Atom -> list X) (skip : Z -> X -> bool)
    (mk : Z -> X -> Interaction) (mm : DuMMRep) (focal : list Z)
    (k : Z) (x : X) (r : Atom) :
  (forall k1 x1 k2 x2, mk k1 x1 = mk k2 x2 -> k1 = k2 /\ x1 = x2) ->
  NoDup focal ->
  (forall k' r', vec_at (atoms mm) k' = Some r' -> NoDup (lst r')) ->
  k ∈ focal -> vec_at (atoms mm) k = Some r -> x ∈ lst r ->
  evaluations (focal ≫= kindEvents lst skip mk mm) (mk k x)
  = if skip k x then 0%nat else 1%nat.
Proof.
  intros Hinj Hfocal Hlst Hk Hr Hx.
  assert (forall k', mk k x ∈ kindEvents lst skip mk mm k' ->
            k' = k /\ skip k x = false) as Hmem.
  { intros k' Hin. unfold kindEvents in Hin.
    destruct (vec_at (atoms mm) k') as [r' |]; [| by apply elem_of_nil in Hin].
    apply list_elem_of_bind in Hin as (x' & Hin & _).
    destruct (skip k' x') eqn:Hs; [by apply elem_of_nil in Hin |].
    apply list_elem_of_singleton, Hinj in Hin as [-> ->]. auto. }
  destruct (skip k x) eqn:Hskip.
  - apply evaluations_absent. intros Hin.
    apply list_elem_of_bind in Hin as (k' & Hin & _).
    apply Hmem in Hin as [_ Hs]. congruence.
  - apply evaluations_NoDup.
    + apply NoDup_bind; [| | exact Hfocal].
      * intros k1 k2 e _ _ H1 H2. unfold kindEvents in H1, H2.
        destruct (vec_at (atoms mm) k1); [| by apply elem_of_nil in H1].
        destruct (vec_at (atoms mm) k2); [| by apply elem_of_nil in H2].
        apply list_elem_of_bind in H1 as (x1 & H1 & _).
        apply list_elem_of_bind in H2 as (x2 & H2 & _).
        destruct (skip k1 x1); [by apply elem_of_nil in H1 |].
        destruct (skip k2 x2); [by apply elem_of_nil in H2 |].
        apply list_elem_of_singleton in H1, H2. subst e.
        by apply Hinj in H2 as [-> _].
      * intros k' _. unfold kindEvents.
        destruct (vec_at (atoms mm) k') as [r' |] eqn:Hr'; [| constructor].
        apply NoDup_bind; [| | by eapply Hlst].
        -- intros x1 x2 e _ _ H1 H2.
           destruct (skip k' x1); [by apply elem_of_nil in H1 |].
           destruct (skip k' x2); [by apply elem_of_nil in H2 |].
           apply list_elem_of_singleton in H1, H2. subst e.
           by apply Hinj in H2 as [_ ->].
        -- intros x' _. destruct (skip k' x'); [constructor | apply NoDup_singleton].
    + apply list_elem_of_bind. exists k. split; [| exact Hk].
      unfold kindEvents. rewrite Hr. apply list_elem_of_bind. exists x.
      rewrite Hskip. split; [by apply list_elem_of_singleton | exact Hx].
Qed.

(** ** Each pair of atoms of different bodies is processed once *)

Lemma elem_of_pairEvents (xs ys : list Z) (e : Interaction) :
  e ∈ pairEvents xs ys <-> exists x y, x ∈ xs /\ y ∈ ys /\ e = Nonbonded x y.
Proof.
  unfold pairEvents. rewrite list_elem_of_bind. split.
  - intros (x & He & Hx). apply list_elem_of_bind in He as (y & He & Hy).
    apply list_elem_of_singleton in He. by exists x, y.
  - intros (x & y & Hx & Hy & ->). exists x. split; [| exact Hx].
    apply list_elem_of_bind. exists y. split; [| exact Hy].
    by apply list_elem_of_singleton.
Qed.

Lemma NoDup_pairEvents (xs ys : list Z) :
  NoDup xs -> NoDup ys -> NoDup (pairEvents xs ys).
Proof.
  intros Hxs Hys. unfold pairEvents. apply NoDup_bind; [| | exact Hxs].
  - intros x1 x2 e _ _ H1 H2.
    apply list_elem_of_bind in H1 as (y1 & H1 & _).
    apply list_elem_of_bind in H2 as (y2 & H2 & _).
    apply list_elem_of_singleton in H1, H2. congruence.
  - intros x _. apply NoDup_bind; [| | exact Hys].
    + intros y1 y2 e _ _ H1 H2.
      apply list_elem_of_singleton in H1, H2. congruence.
    + intros y _. apply NoDup_singleton.
Qed.

Lemma pairEvents_count (xs ys : list Z) (x y : Z) :
  NoDup xs -> NoDup ys ->
  evaluations (pairEvents xs ys) (Nonbonded x y)
  = if decide (x ∈ xs /\ y ∈ ys) then 1%nat else 0%nat.
Proof.
  intros Hxs Hys. destruct (decide (x ∈ xs /\ y ∈ ys)) as [[Hx Hy] | Hn].
  - apply evaluations_NoDup; [by apply NoDup_pairEvents |].
    apply elem_of_pairEvents. by exists x, y.
  - apply evaluations_absent. intros Hin.
    apply elem_of_pairEvents in Hin as (x' & y' & Hx & Hy & [= -> ->]). auto.
Qed.

Lemma bind_fmap_list {A B C : Type} (g : A -> B) (f : B -> list C) (l : list A) :
  (g <$> l) ≫= f = l ≫= fun x => f (g x).
Proof.
  induction l as [| x l IH]; [reflexivity |].
  by rewrite fmap_cons, !bind_cons, IH.
Qed.

Lemma bind_bind_list {A B C : Type} (f : A -> list B) (g : B -> list C)
    (l : list A) :
  (l ≫= f) ≫= g = l ≫= fun x => f x ≫= g.
Proof.
  induction l as [| x l IH]; [reflexivity |].
  by rewrite !bind_cons, bind_app, IH.
Qed.

Lemma nonbondedEvents_focal (k : Z) (later : list DuMMBody) :
  nonbondedEvents k later = (j ← focalAtoms later; [Nonbonded k j]).
Proof.
  unfold nonbondedEvents, focalAtoms. rewrite bind_bind_list.
  apply list_bind_ext; [| reflexivity]. intros body2.
  unfold atomsOf. by rewrite bind_fmap_list.
Qed.

Lemma Nonbonded_not_bonded (mm : DuMMRep) (k x y : Z) :
  Nonbonded x y ∉ bondedEvents mm k.
Proof.
  unfold bondedEvents. destruct (vec_at (atoms mm) k) as [r |];
    [| apply not_elem_of_nil].
  unfold stretchEvents, bendEvents, torsionEvents, improperEvents.
  rewrite !elem_of_app, !list_elem_of_bind.
  intros [H | [H | [H | H]]]; destruct H as (z & Hin & _);
    try (destruct (_ <? _); [by apply elem_of_nil in Hin |]);
    by apply list_elem_of_singleton in Hin.
Qed.

Lemma bodyEvents_head_nonbonded (mm : DuMMRep) (body1 : DuMMBody)
    (later : list DuMMBody) (x y : Z) :
  evaluations (ap1 ← allAtoms body1; atomEvents mm later (ap_atomIndex ap1))
              (Nonbonded x y)
  = evaluations (pairEvents (atomsOf body1) (focalAtoms later)) (Nonbonded x y).
Proof.
  unfold pairEvents, atomsOf. rewrite bind_fmap_list.
  apply evaluations_bind. intros ap1 _. unfold atomEvents.
  rewrite evaluations_app, (evaluations_absent (bondedEvents _ _))
    by apply Nonbonded_not_bonded.
  by rewrite nonbondedEvents_focal.
Qed.

Lemma NoDup_focalAtoms_cons (body1 : DuMMBody) (later : list DuMMBody) :
  NoDup (focalAtoms (body1 :: later)) ->
  NoDup (atomsOf body1) /\ NoDup (focalAtoms later)
  /\ forall x, x ∈ atomsOf body1 -> x ∉ focalAtoms later.
Proof.
  unfold focalAtoms. rewrite bind_cons, NoDup_app. tauto.
Qed.

Lemma elem_of_focalAtoms (bodies : list DuMMBody) (x : Z) :
  x ∈ focalAtoms bodies <-> exists b, b ∈ bodies /\ x ∈ atomsOf b.
Proof.
  unfold focalAtoms. rewrite list_elem_of_bind.
  split; intros (b & H1 & H2); by exists b.
Qed.

Lemma bodyEvents_nonbonded_absent (mm : DuMMRep) (bodies : list DuMMBody)
    (x y : Z) :
  NoDup (focalAtoms bodies) ->
  x ∉ focalAtoms bodies \/ y ∉ focalAtoms bodies ->
  evaluations (bodyEvents mm bodies) (Nonbonded x y) = 0%nat.
Proof.
  induction bodies as [| body1 later IH]; intros Hnd Hxy; [reflexivity |].
  destruct (NoDup_focalAtoms_cons _ _ Hnd) as (Hnd1 & Hndl & Hdisj).
  simpl. rewrite evaluations_app, bodyEvents_head_nonbonded.
  rewrite pairEvents_count by assumption.
  unfold focalAtoms in Hxy. rewrite bind_cons, !not_elem_of_app in Hxy.
  fold (focalAtoms later) in Hxy.
  rewrite IH; [| exact Hndl | tauto].
  destruct (decide _) as [[Hx Hy] | _]; [| reflexivity].
  exfalso. destruct Hxy as [[Hx' _] | [_ Hy']]; auto.
Qed.

Lemma bodyEvents_nonbonded_once (mm : DuMMRep) (bodies : list DuMMBody)
    (x y : Z) :
  NoDup (focalAtoms bodies) ->
  x ∈ focalAtoms bodies -> y ∈ focalAtoms bodies ->
  (forall b, b ∈ bodies -> ~ (x ∈ atomsOf b /\ y ∈ atomsOf b)) ->
  (evaluations (bodyEvents mm bodies) (Nonbonded x y)
   + evaluations (bodyEvents mm bodies) (Nonbonded y x) = 1)%nat.
Proof.
  induction bodies as [| body1 later IH]; intros Hnd Hx Hy Hcross.
  - by apply elem_of_nil in Hx.
  - destruct (NoDup_focalAtoms_cons _ _ Hnd) as (Hnd1 & Hndl & Hdisj).
    simpl. rewrite !evaluations_app, !bodyEvents_head_nonbonded.
    rewrite !pairEvents_count by assumption.
    unfold focalAtoms in Hx, Hy. rewrite bind_cons, elem_of_app in Hx, Hy.
    fold (focalAtoms later) in Hx, Hy.
    assert (~ (x ∈ atomsOf body1 /\ y ∈ atomsOf body1)) as Hc1.
    { apply Hcross. by apply elem_of_cons; left. }
    destruct Hx as [Hx | Hx], Hy as [Hy | Hy].
    + tauto.
    + rewrite !(bodyEvents_nonbonded_absent mm later);
        [| exact Hndl | right; by apply Hdisj | exact Hndl | left; by apply Hdisj].
      rewrite decide_True by done.
      rewrite decide_False; [reflexivity |].
      intros [_ Hx']. by apply (Hdisj x).
    + rewrite !(bodyEvents_nonbonded_absent mm later);
        [| exact Hndl | left; by apply Hdisj | exact Hndl | right; by apply Hdisj].
      rewrite decide_False; [| intros [_ Hy']; by apply (Hdisj y)].
      rewrite decide_True by done. reflexivity.
    + rewrite decide_False; [| intros [Hx' _]; by apply (Hdisj x)].
      rewrite decide_False; [| intros [Hy' _]; by apply (Hdisj y)].
      simpl. apply IH; auto.
      intros b Hb. apply Hcross. by apply elem_of_cons; right.
Qed.

(** ** Bonded terms in the trace of the kernel *)

Lemma not_Nonbonded_absent (k : Z) (later : list DuMMBody) (e : Interaction) :
  (forall x y, e <> Nonbonded x y) -> e ∉ nonbondedEvents k later.
Proof.
  intros He Hin. rewrite nonbondedEvents_focal in Hin.
  apply list_elem_of_bind in Hin as (j & Hin & _).
  apply list_elem_of_singleton in Hin. by apply (He k j).
Qed.

Lemma bodyEvents_bonded (mm : DuMMRep) (bodies : list DuMMBody) (e : Interaction) :
  (forall x y, e <> Nonbonded x y) ->
  evaluations (bodyEvents mm bodies) e
  = evaluations (focalAtoms bodies ≫= bondedEvents mm) e.
Proof.
  intros He. induction bodies as [| body1 later IH]; [reflexivity |].
  cbn [bodyEvents]. unfold focalAtoms. rewrite bind_cons, bind_app, !evaluations_app.
  fold (focalAtoms later). rewrite IH. f_equal.
  unfold atomsOf. rewrite bind_fmap_list. apply evaluations_bind.
  intros ap1 _. unfold atomEvents. rewrite evaluations_app.
  rewrite (evaluations_absent (nonbondedEvents _ _)) by by apply not_Nonbonded_absent.
  lia.
Qed.

Ltac other_kind :=
  let H := fresh in
  let z := fresh in
  intros H; apply list_elem_of_bind in H as (z & H & _);
  try (destruct (_ <? _); [by apply elem_of_nil in H |]);
  by apply list_elem_of_singleton in H.

Lemma bondedEvents_Stretch (mm : DuMMRep) (focal : list Z) (a1 a2 : Z) :
  evaluations (focal ≫= bondedEvents mm) (Stretch a1 a2)
  = evaluations (focal ≫= kindEvents xbond12 (fun k x => x <? k) Stretch mm)
                (Stretch a1 a2).
Proof.
  apply evaluations_bind. intros k _. unfold bondedEvents, kindEvents.
  destruct (vec_at (atoms mm) k) as [r |]; [| reflexivity].
  rewrite !evaluations_app.
  rewrite (evaluations_absent (bendEvents _ _)),
    (evaluations_absent (torsionEvents _ _)),
    (evaluations_absent (improperEvents _ _));
    [unfold stretchEvents; lia | other_kind ..].
Qed.

Lemma bondedEvents_Bend (mm : DuMMRep) (focal : list Z) (a1 a2 a3 : Z) :
  evaluations (focal ≫= bondedEvents mm) (Bend a1 a2 a3)
  = evaluations (focal ≫= kindEvents xbond13 (fun k p => snd p <? k)
                            (fun k p => Bend k (fst p) (snd p)) mm)
                (Bend a1 a2 a3).
Proof.
  apply evaluations_bind. intros k _. unfold bondedEvents, kindEvents.
  destruct (vec_at (atoms mm) k) as [r |]; [| reflexivity].
  rewrite !evaluations_app.
  rewrite (evaluations_absent (stretchEvents _ _)),
    (evaluations_absent (torsionEvents _ _)),
    (evaluations_absent (improperEvents _ _));
    [unfold bendEvents; lia | other_kind ..].
Qed.

Lemma bondedEvents_Torsion (mm : DuMMRep) (focal : list Z) (a1 a2 a3 a4 : Z) :
  evaluations (focal ≫= bondedEvents mm) (Torsion a1 a2 a3 a4)
  = evaluations (focal ≫= kindEvents xbond14 (fun k t => snd t <? k)
                            (fun k t => Torsion k (fst (fst t)) (snd (fst t)) (snd t))
                            mm)
                (Torsion a1 a2 a3 a4).
Proof.
  apply evaluations_bind. intros k _. unfold bondedEvents, kindEvents.
  destruct (vec_at (atoms mm) k) as [r |]; [| reflexivity].
  rewrite !evaluations_app.
  rewrite (evaluations_absent (stretchEvents _ _)),
    (evaluations_absent (bendEvents _ _)),
    (evaluations_absent (improperEvents _ _));
    [unfold torsionEvents; lia | other_kind ..].
Qed.

(** ** Improper terms in the trace of the kernel *)

Lemma filter_bind_list {A B : Type} (P : B -> Prop) `{!forall x, Decision (P x)}
    (f : A -> list B) (l : list A) :
  filter P (l ≫= f) = l ≫= fun x => filter P (f x).
Proof.
  induction l as [| x l IH]; [reflexivity |].
  by rewrite !bind_cons, filter_app, IH.
Qed.

Lemma filter_none {B : Type} (P : B -> Prop) `{!forall x, Decision (P x)}
    (l : list B) :
  (forall x, x ∈ l -> ~ P x) -> filter P l = [].
Proof.
  induction l as [| x l IH]; intros Hall; [reflexivity |].
  rewrite filter_cons, decide_False by (apply Hall; by apply elem_of_cons; left).
  apply IH. intros y Hy. apply Hall. by apply elem_of_cons; right.
Qed.

Lemma filter_all {B : Type} (P : B -> Prop) `{!forall x, Decision (P x)}
    (l : list B) :
  (forall x, x ∈ l -> P x) -> filter P l = l.
Proof.
  induction l as [| x l IH]; intros Hall; [reflexivity |].
  rewrite filter_cons, decide_True by (apply Hall; by apply elem_of_cons; left).
  f_equal. apply IH. intros y Hy. apply Hall. by apply elem_of_cons; right.
Qed.

Lemma bind_only_at {B : Type} (l : list Z) (k : Z) (f : Z -> list B) :
  NoDup l -> k ∈ l -> (forall x, x <> k -> f x = []) -> l ≫= f = f k.
Proof.
  induction l as [| x l IH]; intros Hnd Hk Hf.
  - by apply elem_of_nil in Hk.
  - apply NoDup_cons in Hnd as [Hx Hnd]. rewrite bind_cons.
    destruct (decide (x = k)) as [-> | Hne].
    + assert (l ≫= f = []) as ->; [| by rewrite app_nil_r].
      clear IH Hk. induction l as [| y l IHl]; [reflexivity |].
      apply not_elem_of_cons in Hx as [Hne Hx]. apply NoDup_cons in Hnd as [_ Hnd].
      rewrite bind_cons, (Hf y) by congruence. by apply IHl.
    + rewrite (Hf x Hne). simpl. apply IH; auto.
      by apply elem_of_cons in Hk as [-> | Hk].
Qed.

Lemma atomEvents_impropers (mm : DuMMRep) (later : list DuMMBody) (k a1 : Z) :
  filter (fun e => improperCentre e = Some a1) (atomEvents mm later k)
  = if decide (k = a1)
    then match vec_at (atoms mm) a1 with
         | Some r => improperEvents a1 r
         | None => []
         end
    else [].
Proof.
  unfold atomEvents, bondedEvents.
  rewrite filter_app, (filter_none _ (nonbondedEvents k later)).
  2: { intros e He. rewrite nonbondedEvents_focal in He.
       apply list_elem_of_bind in He as (j & He & _).
       by apply list_elem_of_singleton in He as ->. }
  rewrite app_nil_r.
  destruct (vec_at (atoms mm) k) as [r |] eqn:Hr.
  2: { destruct (decide (k = a1)) as [<- |]; [by rewrite Hr | reflexivity]. }
  rewrite !filter_app.
  rewrite (filter_none _ (stretchEvents k r)), (filter_none _ (bendEvents k r)),
    (filter_none _ (torsionEvents k r)).
  2-4: intros e He; apply list_elem_of_bind in He as (z & He & _);
       (destruct (_ <? _); [by apply elem_of_nil in He |]);
       by apply list_elem_of_singleton in He as ->.
  simpl. destruct (decide (k = a1)) as [<- | Hne].
  - rewrite Hr. apply filter_all. intros e He.
    apply list_elem_of_bind in He as (t & He & _).
    by apply list_elem_of_singleton in He as ->.
  - apply filter_none. intros e He.
    apply list_elem_of_bind in He as (t & He & _).
    apply list_elem_of_singleton in He as ->. simpl. congruence.
Qed.

Lemma bodyEvents_impropers (mm : DuMMRep) (bodies : list DuMMBody)
    (a1 : Z) (r : Atom) :
  NoDup (focalAtoms bodies) -> a1 ∈ focalAtoms bodies ->
  vec_at (atoms mm) a1 = Some r ->
  filter (fun e => improperCentre e = Some a1) (bodyEvents mm bodies)
  = improperEvents a1 r.
Proof.
  intros Hnd Ha1 Hr.
  assert (filter (fun e => improperCentre e = Some a1) (bodyEvents mm bodies)
          = focalAtoms bodies ≫= fun k =>
              if decide (k = a1) then improperEvents a1 r else []) as ->.
  { clear Hnd Ha1. induction bodies as [| body1 later IH]; [reflexivity |].
    cbn [bodyEvents]. unfold focalAtoms. rewrite bind_cons, bind_app, filter_app.
    fold (focalAtoms later). rewrite IH. f_equal.
    unfold atomsOf. rewrite bind_fmap_list, filter_bind_list.
    apply list_bind_ext; [| reflexivity]. intros ap1.
    rewrite atomEvents_impropers. by rewrite Hr. }
  rewrite (bind_only_at _ a1); [by rewrite decide_True | assumption ..|].
  intros x Hx. by rewrite decide_False.
Qed.

(** ** The cross-body lists of a realized atom *)

Lemma realizeNeighborhoods_xlists (mm : DuMMRep) (anum : Z) (b12 : list Z)
    (body : Z) :
  let n := realizeNeighborhoods mm anum b12 body in
  n_bond13 n = std_sort pair_lt (paths13 mm anum b12)
  /\ n_bond14 n = std_sort triple_lt (paths14 mm anum (n_bond13 n))
  /\ n_xbond12 n = filter (fun j => crosses1 mm body j = true) b12
  /\ n_xbond13 n = filter (fun p => crosses2 mm body p = true) (n_bond13 n)
  /\ n_xbond14 n = filter (fun t => crosses3 mm body t = true) (n_bond14 n).
Proof.
  intros n. unfold n, realizeNeighborhoods.
  rewrite build13_paths.
  destruct (pickUnseen snd (paths13 mm anum b12) _) as [sp13 seen1].
  cbn [fst snd]. rewrite buildShort14_pick.
  destruct (pickUnseen snd (steps14 mm _) _) as [sp14 seen2].
  rewrite buildShort15_pick.
  destruct (pickUnseen snd (steps15 mm _) _) as [sp15 seen3].
  rewrite build14_paths. cbn. repeat split; reflexivity.
Qed.

Lemma NoDup_paths13 (mm : DuMMRep) (anum : Z) (b12 : list Z) :
  NoDup b12 -> (forall i, NoDup (bond12_of mm i)) ->
  NoDup (paths13 mm anum b12).
Proof.
  intros Hb12 Hadj. unfold paths13. apply NoDup_bind; [| | exact Hb12].
  - intros x1 x2 p _ _ H1 H2.
    apply list_elem_of_bind in H1 as (n1 & H1 & _).
    apply list_elem_of_bind in H2 as (n2 & H2 & _).
    destruct (n1 =? anum); [by apply elem_of_nil in H1 |].
    destruct (n2 =? anum); [by apply elem_of_nil in H2 |].
    apply list_elem_of_singleton in H1, H2. congruence.
  - intros a12 _. apply NoDup_bind; [| | apply Hadj].
    + intros n1 n2 p _ _ H1 H2.
      destruct (n1 =? anum); [by apply elem_of_nil in H1 |].
      destruct (n2 =? anum); [by apply elem_of_nil in H2 |].
      apply list_elem_of_singleton in H1, H2. congruence.
    + intros n _. destruct (n =? anum); [constructor | apply NoDup_singleton].
Qed.

Lemma NoDup_paths14 (mm : DuMMRep) (anum : Z) (b13 : list IndexPair) :
  NoDup b13 -> (forall i, NoDup (bond12_of mm i)) ->
  NoDup (paths14 mm anum b13).
Proof.
  intros Hb13 Hadj. unfold paths14. apply NoDup_bind; [| | exact Hb13].
  - intros [x1 y1] [x2 y2] t _ _ H1 H2. simpl in *.
    apply list_elem_of_bind in H1 as (n1 & H1 & _).
    apply list_elem_of_bind in H2 as (n2 & H2 & _).
    destruct (negb (n1 =? anum) && negb (n1 =? x1)); [| by apply elem_of_nil in H1].
    destruct (negb (n2 =? anum) && negb (n2 =? x2)); [| by apply elem_of_nil in H2].
    apply list_elem_of_singleton in H1, H2. congruence.
  - intros [x y] _. simpl. apply NoDup_bind; [| | apply Hadj].
    + intros n1 n2 t _ _ H1 H2.
      destruct (negb (n1 =? anum) && negb (n1 =? x)); [| by apply elem_of_nil in H1].
      destruct (negb (n2 =? anum) && negb (n2 =? x)); [| by apply elem_of_nil in H2].
      apply list_elem_of_singleton in H1, H2. congruence.
    + intros n _. destruct (negb (n =? anum) && negb (n =? x));
        [apply NoDup_singleton | constructor].
Qed.

Lemma sameTopology_sym (mm mm' : DuMMRep) :
  sameTopology mm mm' -> sameTopology mm' mm.
Proof.
  intros [Hlen H]. split; [congruence |]. intros i. destruct (H i) as [Hp Hb].
  split; [by symmetry | congruence].
Qed.

Lemma crosses1_spec (mm : DuMMRep) (body j : Z) :
  crosses1 mm body j = true <-> bodyIx_of mm j <> body.
Proof. unfold crosses1. rewrite negb_true_iff. apply Z.eqb_neq. Qed.

(** An atom of the realized subsystem holds the lists computed for it on
    a state with the topology of the realized subsystem. *)
Lemma realized_atom (mm : DuMMRep) (cell : option BondTorsion)
    (mm' : DuMMRep) (cell' : option BondTorsion) (k : Z) (r : Atom) :
  realizeSubsystemTopologyImpl mm cell = Ok (mm', cell') ->
  vec_at (atoms mm') k = Some r ->
  exists mmk,
    sameTopology mm' mmk
    /\ neighborhoods_of r = realizeNeighborhoods mmk k (bond12 r) (bodyIx r).
Proof.
  intros Hok Hr.
  apply realizeSubsystemTopologyImpl_Ok in Hok as (mm1 & _ & Hloop).
  destruct (realizeAtoms_realized mm1 _ (mm1, cell) _ (sameTopology_refl mm1) Hloop)
    as (Hsame & Hdone & _).
  simpl in Hsame, Hdone.
  destruct (Hdone k) as (r' & Hr' & mmk & Hk & _ & _ & Hn).
  - apply elem_of_seqZ. apply vec_at_Some_range in Hr.
    destruct Hsame as [Hlen _]. unfold vec_size in *. lia.
  - rewrite Hr in Hr'. injection Hr' as <-. exists mmk. split; [| exact Hn].
    eapply sameTopology_trans; [apply sameTopology_sym, Hsame | exact Hk].
Qed.

Lemma realized_xbonds (mm : DuMMRep) (cell : option BondTorsion)
    (mm' : DuMMRep) (cell' : option BondTorsion) (k : Z) (r : Atom) :
  realizeSubsystemTopologyImpl mm cell = Ok (mm', cell') ->
  vec_at (atoms mm') k = Some r ->
  let adj := fun i j : Z => j ∈ bond12_of mm' i in
  let B := bodyIx_of mm' in
  (forall j, j ∈ xbond12 r <-> adj k j /\ B j <> B k)
  /\ (forall j l, (j, l) ∈ xbond13 r
        <-> adj k j /\ adj j l /\ l <> k /\ (B j <> B k \/ B l <> B k))
  /\ (forall j l m, (j, l, m) ∈ xbond14 r
        <-> adj k j /\ adj j l /\ l <> k /\ adj l m /\ m <> k /\ m <> j
            /\ (B j <> B k \/ B l <> B k \/ B m <> B k))
  /\ ((forall i, NoDup (bond12_of mm' i)) ->
      NoDup (xbond12 r) /\ NoDup (xbond13 r) /\ NoDup (xbond14 r)).
Proof.
  intros Hok Hr adj B.
  destruct (realized_atom _ _ _ _ _ _ Hok Hr) as (mmk & [_ Hsame] & Hn).
  assert (forall i j, j ∈ bond12_of mmk i <-> adj i j) as Hadj.
  { intros i j. unfold adj. by rewrite (proj1 (Hsame i)). }
  assert (forall i, bodyIx_of mmk i = B i) as Hbody.
  { intros i. apply (Hsame i). }
  assert (bond12 r = bond12_of mm' k) as Hb12.
  { unfold bond12_of. by rewrite Hr. }
  assert (bodyIx r = B k) as Hbk.
  { unfold B, bodyIx_of. by rewrite Hr. }
  destruct (realizeNeighborhoods_xlists mmk k (bond12 r) (bodyIx r))
    as (E13 & E14 & X12 & X13 & X14).
  rewrite <- Hn in E13, E14, X12, X13, X14. simpl in E13, E14, X12, X13, X14.
  assert (forall j l, (j, l) ∈ bond13 r <-> adj k j /\ adj j l /\ l <> k) as M13.
  { intros j l. rewrite E13, elem_of_std_sort, elem_of_paths13, Hadj, Hb12.
    reflexivity. }
  assert (forall j l m, (j, l, m) ∈ bond14 r
            <-> adj k j /\ adj j l /\ l <> k /\ adj l m /\ m <> k /\ m <> j) as M14.
  { intros j l m. rewrite E14, elem_of_std_sort, elem_of_paths14, M13, Hadj. tauto. }
  split; [| split; [| split]].
  - intros j. rewrite X12, list_elem_of_filter, crosses1_spec, Hbody, Hbk, Hb12.
    unfold adj. tauto.
  - intros j l. rewrite X13, list_elem_of_filter, M13. unfold crosses2.
    rewrite orb_true_iff, !crosses1_spec, !Hbody, Hbk. tauto.
  - intros j l m. rewrite X14, list_elem_of_filter, M14. unfold crosses3.
    rewrite !orb_true_iff, !crosses1_spec, !Hbody, Hbk. tauto.
  - intros Hnd.
    assert (forall i, NoDup (bond12_of mmk i)) as Hndk.
    { intros i. rewrite (proj1 (Hsame i)). apply Hnd. }
    assert (NoDup (bond13 r)) as N13.
    { rewrite E13, std_sort_Permutation. apply NoDup_paths13; [| exact Hndk].
      rewrite Hb12. apply Hnd. }
    split; [| split].
    + rewrite X12. apply NoDup_filter. rewrite Hb12. apply Hnd.
    + rewrite X13. by apply NoDup_filter.
    + rewrite X14. apply NoDup_filter.
      rewrite E14, std_sort_Permutation. by apply NoDup_paths14.
Qed.

(** ** The kernel on a realized topology *)

Lemma bond12_of_Some (mm : DuMMRep) (i j : Z) :
  j ∈ bond12_of mm i -> exists r, vec_at (atoms mm) i = Some r.
Proof.
  unfold bond12_of. destruct (vec_at (atoms mm) i) as [r |]; [by exists r |].
  intros H. by apply elem_of_nil in H.
Qed.

Lemma bodies_wf_focal (mm : DuMMRep) (k : Z) (r : Atom) :
  bodies_wf mm -> vec_at (atoms mm) k = Some r ->
  k ∈ focalAtoms (duMMSubsetOfBodies mm).
Proof. intros [_ Hall] Hr. apply Hall. by eapply vec_at_Some_range. Qed.

Lemma bodies_wf_atoms (mm : DuMMRep) (i : Z) :
  bodies_wf mm -> i ∈ focalAtoms (duMMSubsetOfBodies mm) ->
  is_Some (vec_at (atoms mm) i).
Proof.
  intros [_ Hall] Hi. apply Hall in Hi. unfold vec_at, vec_size in *.
  destruct (Z.ltb_spec i 0) as [Hneg | Hpos]; [lia |].
  apply lookup_lt_is_Some. lia.
Qed.

Lemma improperEvents_fmap (a1 : Z) (r : Atom) :
  improperEvents a1 r
  = (fun t => Improper (fst (fst t)) (snd (fst t)) a1 (snd t))
      <$> aImproperTorsion14 r.
Proof.
  unfold improperEvents. induction (aImproperTorsion14 r) as [| t l IH];
    [reflexivity |].
  rewrite bind_cons, fmap_cons, IH. reflexivity.
Qed.

Section RealizedKernel.

Variables (mm : DuMMRep) (cell : option BondTorsion).
Variables (mm' : DuMMRep) (cell' : option BondTorsion).
Hypothesis Hrealized : realizeSubsystemTopologyImpl mm cell = Ok (mm', cell').
Hypothesis Hgraph : bondGraph_wf mm'.
Hypothesis Hbodies : bodies_wf mm'.

Let tr : list Interaction := bodyEvents mm' (duMMSubsetOfBodies mm').

Lemma realized_xbonds_NoDup (k : Z) (r : Atom) :
  vec_at (atoms mm') k = Some r ->
  NoDup (xbond12 r) /\ NoDup (xbond13 r) /\ NoDup (xbond14 r).
Proof.
  intros Hr. destruct Hgraph as (_ & _ & Hnd).
  by apply (realized_xbonds mm cell mm' cell' k r Hrealized Hr).
Qed.

Lemma realized_stretch_once (a1 a2 : Z) (r1 : Atom) :
  vec_at (atoms mm') a1 = Some r1 -> a2 ∈ xbond12 r1 ->
  (exists r2, vec_at (atoms mm') a2 = Some r2 /\ a1 ∈ xbond12 r2)
  /\ evaluations tr (Stretch a1 a2) = (if a1 <? a2 then 1%nat else 0%nat)
  /\ evaluations tr (Stretch a2 a1) = (if a1 <? a2 then 0%nat else 1%nat).
Proof.
  intros Hr1 Hx. destruct Hgraph as (Hsym & Hirr & Hnd).
  destruct (realized_xbonds mm cell mm' cell' a1 r1 Hrealized Hr1)
    as (H12 & _). cbv zeta in H12.
  apply H12 in Hx as Hadj. destruct Hadj as [Hadj Hcross].
  pose proof (Hsym _ _ Hadj) as Hadj'.
  destruct (bond12_of_Some _ _ _ Hadj') as [r2 Hr2].
  assert (a1 ∈ xbond12 r2) as Hx'.
  { destruct (realized_xbonds mm cell mm' cell' a2 r2 Hrealized Hr2)
      as (H12' & _). cbv zeta in H12'. apply H12'. split; [done | congruence]. }
  assert (a2 <> a1) as Hne by (intros ->; by apply (Hirr a1)).
  split; [by exists r2 |].
  unfold tr. rewrite !bodyEvents_bonded by (intros ? ?; discriminate).
  rewrite !bondedEvents_Stretch.
  rewrite (kindEvents_count xbond12 _ Stretch mm' _ a1 a2 r1),
    (kindEvents_count xbond12 _ Stretch mm' _ a2 a1 r2);
    try done; try (by eapply bodies_wf_focal); try exact (proj1 Hbodies);
    try (intros k' r' Hr'; by apply (realized_xbonds_NoDup k' r'));
    try (intros ? ? ? ? [= -> ->]; done).
  destruct (Z.ltb_spec a2 a1), (Z.ltb_spec a1 a2); split; first [done | lia].
Qed.

Lemma realized_bend_once (a1 a2 a3 : Z) (r1 : Atom) :
  vec_at (atoms mm') a1 = Some r1 -> (a2, a3) ∈ xbond13 r1 ->
  (exists r3, vec_at (atoms mm') a3 = Some r3 /\ (a2, a1) ∈ xbond13 r3)
  /\ evaluations tr (Bend a1 a2 a3) = (if a1 <? a3 then 1%nat else 0%nat)
  /\ evaluations tr (Bend a3 a2 a1) = (if a1 <? a3 then 0%nat else 1%nat).
Proof.
  intros Hr1 Hx. destruct Hgraph as (Hsym & Hirr & Hnd).
  destruct (realized_xbonds mm cell mm' cell' a1 r1 Hrealized Hr1)
    as (_ & H13 & _). cbv zeta in H13.
  apply H13 in Hx as Hadj. destruct Hadj as (Hadj1 & Hadj2 & Hne & Hcross).
  pose proof (Hsym _ _ Hadj1) as Hadj1'. pose proof (Hsym _ _ Hadj2) as Hadj2'.
  destruct (bond12_of_Some _ _ _ Hadj2') as [r3 Hr3].
  assert ((a2, a1) ∈ xbond13 r3) as Hx'.
  { destruct (realized_xbonds mm cell mm' cell' a3 r3 Hrealized Hr3)
      as (_ & H13' & _). cbv zeta in H13'. apply H13'.
    repeat split; [done | done | congruence | lia]. }
  split; [by exists r3 |].
  unfold tr. rewrite !bodyEvents_bonded by (intros ? ?; discriminate).
  rewrite !bondedEvents_Bend.
  pose proof (kindEvents_count xbond13 (fun k p => snd p <? k)
                (fun k p => Bend k (fst p) (snd p)) mm'
                (focalAtoms (duMMSubsetOfBodies mm'))) as Hcount.
  pose proof (Hcount a1 (a2, a3) r1) as E1.
  pose proof (Hcount a3 (a2, a1) r3) as E3.
  cbn [fst snd] in E1, E3.
  rewrite E1, E3;
    try done; try (by eapply bodies_wf_focal); try exact (proj1 Hbodies);
    try (intros k' r' Hr'; by apply (realized_xbonds_NoDup k' r'));
    try (intros ? [? ?] ? [? ?] [= -> -> ->]; done).
  cbn [snd].
  destruct (Z.ltb_spec a3 a1), (Z.ltb_spec a1 a3); split; first [done | lia].
Qed.

Lemma realized_torsion_once (a1 a2 a3 a4 : Z) (r1 : Atom) :
  vec_at (atoms mm') a1 = Some r1 -> (a2, a3, a4) ∈ xbond14 r1 ->
  (exists r4, vec_at (atoms mm') a4 = Some r4 /\ (a3, a2, a1) ∈ xbond14 r4)
  /\ evaluations tr (Torsion a1 a2 a3 a4) = (if a1 <? a4 then 1%nat else 0%nat)
  /\ evaluations tr (Torsion a4 a3 a2 a1) = (if a1 <? a4 then 0%nat else 1%nat).
Proof.
  intros Hr1 Hx. destruct Hgraph as (Hsym & Hirr & Hnd).
  destruct (realized_xbonds mm cell mm' cell' a1 r1 Hrealized Hr1)
    as (_ & _ & H14 & _). cbv zeta in H14.
  apply H14 in Hx as Hadj.
  destruct Hadj as (Hadj1 & Hadj2 & Hne1 & Hadj3 & Hne2 & Hne3 & Hcross).
  pose proof (Hsym _ _ Hadj1) as Hadj1'. pose proof (Hsym _ _ Hadj2) as Hadj2'.
  pose proof (Hsym _ _ Hadj3) as Hadj3'.
  destruct (bond12_of_Some _ _ _ Hadj3') as [r4 Hr4].
  assert ((a3, a2, a1) ∈ xbond14 r4) as Hx'.
  { destruct (realized_xbonds mm cell mm' cell' a4 r4 Hrealized Hr4)
      as (_ & _ & H14' & _). cbv zeta in H14'. apply H14'.
    repeat split; [done | done | congruence | done | congruence | congruence
                  | lia]. }
  split; [by exists r4 |].
  unfold tr. rewrite !bodyEvents_bonded by (intros ? ?; discriminate).
  rewrite !bondedEvents_Torsion.
  pose proof (kindEvents_count xbond14 (fun k t => snd t <? k)
                (fun k t => Torsion k (fst (fst t)) (snd (fst t)) (snd t)) mm'
                (focalAtoms (duMMSubsetOfBodies mm'))) as Hcount.
  pose proof (Hcount a1 (a2, a3, a4) r1) as E1.
  pose proof (Hcount a4 (a3, a2, a1) r4) as E4.
  cbn [fst snd] in E1, E4.
  rewrite E1, E4;
    try done; try (by eapply bodies_wf_focal); try exact (proj1 Hbodies);
    try (intros k' r' Hr'; by apply (realized_xbonds_NoDup k' r'));
    try (intros ? [[? ?] ?] ? [[? ?] ?] [= -> -> -> ->]; done).
  cbn [snd].
  destruct (Z.ltb_spec a4 a1), (Z.ltb_spec a1 a4); split; first [done | lia].
Qed.

End RealizedKernel.

(** ** Realization keeps the bonds and the bodies *)

Lemma sameBonds_refl (mm : DuMMRep) : sameBonds mm mm.
Proof. by repeat split. Qed.

Lemma sameBonds_trans (mm1 mm2 mm3 : DuMMRep) :
  sameBonds mm1 mm2 -> sameBonds mm2 mm3 -> sameBonds mm1 mm3.
Proof.
  intros (B12 & L12 & H12) (B23 & L23 & H23).
  split; [congruence |]. split; [congruence |].
  intros i. by rewrite H23.
Qed.

Lemma sameBonds_store_atom (mm : DuMMRep) (i : Z) (a a' : Atom) :
  vec_at (atoms mm) i = Some a -> bond12 a' ≡ₚ bond12 a ->
  sameBonds mm (store_atom mm i a').
Proof.
  intros Hi Hperm. split; [reflexivity |]. split; [apply length_store_atom |].
  intros j. unfold bond12_of. rewrite (vec_at_store_atom _ _ _ _ _ Hi).
  destruct (decide (j = i)) as [-> | Hne]; [| done].
  by rewrite Hi.
Qed.

Lemma sameBonds_fmap (mm : DuMMRep) (f : Atom -> Atom) :
  (forall a, bond12 (f a) = bond12 a) ->
  sameBonds mm (set_atoms (fmap f) mm).
Proof.
  intros Hf. split; [reflexivity |]. split; [apply length_fmap |].
  intros i. unfold bond12_of, vec_at. simpl.
  destruct (i <? 0); [done |].
  rewrite list_lookup_fmap. destruct (atoms mm !! Z.to_nat i) as [a |]; simpl;
    [by rewrite Hf | done].
Qed.

Lemma forEachM_preserves {A S : Type} (Rel : S -> S -> Prop)
    (body : S -> A -> option S) (l : list A) (s s' : S) :
  (forall s, Rel s s) ->
  (forall s1 s2 s3, Rel s1 s2 -> Rel s2 s3 -> Rel s1 s3) ->
  (forall s x s', body s x = Some s' -> Rel s s') ->
  forEachM body l s = Some s' -> Rel s s'.
Proof.
  intros Hrefl Htrans Hbody. revert s.
  induction l as [| x l IH]; intros s Hrun; simpl in Hrun.
  - injection Hrun as <-. apply Hrefl.
  - destruct (body s x) as [s1 |] eqn:Hstep; [| discriminate].
    eapply Htrans; [by eapply Hbody | by apply IH].
Qed.

Lemma sameBonds_placeOnBody (b : DuMMBody) (mm : DuMMRep) (ap : AtomPlacement)
    (mm' : DuMMRep) :
  placeOnBody b mm ap = Some mm' -> sameBonds mm mm'.
Proof.
  unfold placeOnBody.
  destruct (vec_at (atoms mm) (ap_atomIndex ap)) as [a |] eqn:Ha; [| discriminate].
  intros [= <-]. by apply (sameBonds_store_atom mm _ a).
Qed.

Lemma sameBonds_assignBodies (mm mm' : DuMMRep) :
  assignBodies mm = Some mm' -> sameBonds mm mm'.
Proof.
  unfold assignBodies. intros Hrun.
  eapply sameBonds_trans;
    [apply (sameBonds_fmap mm
              (fun a => Atom_on_body a InvalidMobilizedBodyIndex (station_B a)));
     reflexivity |].
  eapply (forEachM_preserves sameBonds); [apply sameBonds_refl | apply sameBonds_trans
                                         | | exact Hrun].
  intros s b s' Hb. cbv beta in Hb. destruct (negb (DuMMBody_isValid b)).
  - injection Hb as <-. apply sameBonds_refl.
  - eapply (forEachM_preserves sameBonds);
      [apply sameBonds_refl | apply sameBonds_trans | | exact Hb].
    intros ? ? ?. apply sameBonds_placeOnBody.
Qed.

Lemma sameBonds_realizeAtom (mm : DuMMRep) (cell : option BondTorsion) (anum : Z)
    (mm' : DuMMRep) (cell' : option BondTorsion) :
  realizeAtom mm cell anum = Ok (mm', cell') -> sameBonds mm mm'.
Proof.
  intros Hok.
  apply realizeAtom_Ok in Hok as (a & i14 & its & st & bd & tr & Ha & Hmm' & _).
  cbv zeta in Hmm'. subst mm'.
  set (b12 := std_sort Z.ltb (bond12 a)).
  assert (b12 ≡ₚ bond12 a) as Hperm by apply std_sort_Permutation.
  eapply sameBonds_trans.
  - by apply (sameBonds_store_atom mm anum a (Atom_with_bond12 a b12)).
  - apply (sameBonds_store_atom _ anum (Atom_with_bond12 a b12)); [| done].
    rewrite (vec_at_store_atom _ _ _ _ _ Ha). by rewrite decide_True.
Qed.

Lemma sameBonds_realizeAtoms (anums : list Z)
    (st st' : DuMMRep * option BondTorsion) :
  realizeAtoms anums st = Ok st' -> sameBonds (fst st) (fst st').
Proof.
  revert st. induction anums as [| anum rest IH]; intros st Hok; simpl in Hok.
  - injection Hok as <-. apply sameBonds_refl.
  - destruct (realizeAtom (fst st) (snd st) anum) as [[mm1 cell1] | |] eqn:Hstep;
      try discriminate.
    eapply sameBonds_trans; [by eapply sameBonds_realizeAtom |].
    apply (IH (mm1, cell1) Hok).
Qed.

Lemma sameBonds_realized (mm : DuMMRep) (cell : option BondTorsion)
    (mm' : DuMMRep) (cell' : option BondTorsion) :
  realizeSubsystemTopologyImpl mm cell = Ok (mm', cell') -> sameBonds mm mm'.
Proof.
  intros Hok.
  apply realizeSubsystemTopologyImpl_Ok in Hok as (mm1 & Hbodies & Hloop).
  eapply sameBonds_trans;
    [apply (sameBonds_fmap mm Atom_invalidateTopologicalCache); reflexivity |].
  eapply sameBonds_trans; [by apply sameBonds_assignBodies |].
  apply (sameBonds_realizeAtoms _ (mm1, cell) (mm', cell') Hloop).
Qed.

Lemma bondGraph_wf_sameBonds (mm mm' : DuMMRep) :
  sameBonds mm mm' -> bondGraph_wf mm -> bondGraph_wf mm'.
Proof.
  intros (_ & _ & Hperm) (Hsym & Hirr & Hnd). split; [| split].
  - intros i j. rewrite !Hperm. apply Hsym.
  - intros i. rewrite Hperm. apply Hirr.
  - intros i. rewrite Hperm. apply Hnd.
Qed.

Lemma bodies_wf_sameBonds (mm mm' : DuMMRep) :
  sameBonds mm mm' -> bodies_wf mm -> bodies_wf mm'.
Proof.
  intros (Hb & Hlen & _) [Hnd Hall]. unfold bodies_wf, vec_size.
  rewrite Hb, Hlen. by split.
Qed.

(** C2: one evaluation of the kernel after topology realization of a
    subsystem whose bond graph is as [addBond] builds it and whose bodies
    list every atom once.  A cross-body 1-2 pair is in the
    list of both of its atoms and its stretch term is processed once, from
    the atom of lower index; the same holds for a cross-body 1-4 path and
    its torsion term, with the end atoms compared; a cross-body 1-3 path is
    in the list of both of its end atoms and its bend term is processed
    once, from the end atom of lower index, the other end being skipped
    because its last atom is less than its focal atom; the improper
    torsion terms around an atom are processed once for each entry of its
    list, none is skipped; and for two atoms of different bodies the
    nonbonded term is processed once, in one direction only. *)
Theorem kernel_terms_processed_once (mm : DuMMRep) (cell : option BondTorsion)
    (mm' : DuMMRep) (cell' : option BondTorsion) :
  realizeSubsystemTopologyImpl mm cell = Ok (mm', cell') ->
  bondGraph_wf mm -> bodies_wf mm ->
  exists tr : list Interaction,
    kernelTrace mm' = Some tr
    /\ (forall a1 a2 r1,
          vec_at (atoms mm') a1 = Some r1 -> a2 ∈ xbond12 r1 ->
          (exists r2, vec_at (atoms mm') a2 = Some r2 /\ a1 ∈ xbond12 r2)
          /\ evaluations tr (Stretch a1 a2) = (if a1 <? a2 then 1%nat else 0%nat)
          /\ evaluations tr (Stretch a2 a1) = (if a1 <? a2 then 0%nat else 1%nat))
    /\ (forall a1 a2 a3 r1,
          vec_at (atoms mm') a1 = Some r1 -> (a2, a3) ∈ xbond13 r1 ->
          (exists r3, vec_at (atoms mm') a3 = Some r3 /\ (a2, a1) ∈ xbond13 r3)
          /\ evaluations tr (Bend a1 a2 a3) = (if a1 <? a3 then 1%nat else 0%nat)
          /\ evaluations tr (Bend a3 a2 a1) = (if a1 <? a3 then 0%nat else 1%nat))
    /\ (forall a1 a2 a3 a4 r1,
          vec_at (atoms mm') a1 = Some r1 -> (a2, a3, a4) ∈ xbond14 r1 ->
          (exists r4, vec_at (atoms mm') a4 = Some r4
                      /\ (a3, a2, a1) ∈ xbond14 r4)
          /\ evaluations tr (Torsion a1 a2 a3 a4)
             = (if a1 <? a4 then 1%nat else 0%nat)
          /\ evaluations tr (Torsion a4 a3 a2 a1)
             = (if a1 <? a4 then 0%nat else 1%nat))
    /\ (forall a1 r1,
          vec_at (atoms mm') a1 = Some r1 ->
          filter (fun e => improperCentre e = Some a1) tr
          = (fun t => Improper (fst (fst t)) (snd (fst t)) a1 (snd t))
              <$> aImproperTorsion14 r1)
    /\ (forall x y,
          x ∈ focalAtoms (duMMSubsetOfBodies mm') ->
          y ∈ focalAtoms (duMMSubsetOfBodies mm') ->
          (forall b, b ∈ duMMSubsetOfBodies mm' ->
                     ~ (x ∈ atomsOf b /\ y ∈ atomsOf b)) ->
          (evaluations tr (Nonbonded x y) + evaluations tr (Nonbonded y x)
           = 1)%nat).
Proof.
  intros Hrealized Hgraph0 Hbodies0.
  pose proof (sameBonds_realized _ _ _ _ Hrealized) as Hsame.
  pose proof (bondGraph_wf_sameBonds _ _ Hsame Hgraph0) as Hgraph.
  pose proof (bodies_wf_sameBonds _ _ Hsame Hbodies0) as Hbodies.
  exists (bodyEvents mm' (duMMSubsetOfBodies mm')).
  split; [| repeat split].
  - apply kernelTrace_events. intros i Hi. by apply bodies_wf_atoms.
  - by eapply realized_stretch_once.
  - by eapply (realized_stretch_once mm cell mm' cell').
  - by eapply (realized_stretch_once mm cell mm' cell').
  - by eapply realized_bend_once.
  - by eapply (realized_bend_once mm cell mm' cell').
  - by eapply (realized_bend_once mm cell mm' cell').
  - by eapply realized_torsion_once.
  - by eapply (realized_torsion_once mm cell mm' cell').
  - by eapply (realized_torsion_once mm cell mm' cell').
  - intros a1 r1 Hr1. rewrite <- improperEvents_fmap.
    apply bodyEvents_impropers; [apply Hbodies | by eapply bodies_wf_focal | done].
  - intros x y Hx Hy Hcross.
    apply bodyEvents_nonbonded_once; [apply Hbodies | done ..].
Qed.

(** ** Running realization on given parameters *)

Lemma assignChecked_valid {X P : Type} (get : X -> P) (valid : P -> bool)
    (dflt : P) (xs : list X) :
  Forall (fun x => valid (get x) = true) xs ->
  assignChecked get valid dflt xs = (get <$> xs, true).
Proof.
  induction 1 as [| x xs Hx _ IH]; [reflexivity |].
  simpl. by rewrite Hx, IH.
Qed.

Lemma BondStretch_isValid_intro (classes : IndexPair) (k d0 : R) :
  (0 <= k)%R -> (0 <= d0)%R ->
  fst classes <> InvalidAtomClassIndex -> snd classes <> InvalidAtomClassIndex ->
  BondStretch_isValid (mkBondStretch classes k d0) = true.
Proof.
  intros Hk Hd H1 H2. unfold BondStretch_isValid. cbn [bs_k bs_d0 bs_classes].
  rewrite !Rgeb_true by done.
  apply Z.eqb_neq in H1, H2. by rewrite H1, H2.
Qed.

Lemma BondBend_isValid_intro (classes : IndexTriple) (k theta0 : R) :
  (0 <= k)%R -> (0 <= theta0 <= PI)%R ->
  BondBend_isValid (mkBondBend classes k theta0) = true.
Proof.
  intros Hk [H0 HPI]. unfold BondBend_isValid. cbn [bb_k bb_theta0].
  by rewrite Rgeb_true, !Rleb_true.
Qed.

(** A turn of the loop in which every parameter that is looked up is
    valid: the atom is stored with its lists and parameters. *)
Lemma realizeAtom_passes (s : DuMMRep) (v : list Atom)
    (cell : option BondTorsion) (anum : Z) (a : Atom)
    (v' : list Atom) (cell' : option BondTorsion) :
  vec_at v anum = Some a ->
  let b12 := std_sort Z.ltb (bond12 a) in
  let mm1 := store_atom (with_atoms s v) anum (Atom_with_bond12 a b12) in
  let n := realizeNeighborhoods mm1 anum b12 (bodyIx a) in
  let c1 := getAtomClassIndex mm1 anum in
  let getS := fun j => getBondStretch mm1 c1 (getAtomClassIndex mm1 j) in
  let getB := fun p : IndexPair =>
                getBondBend mm1 c1 (getAtomClassIndex mm1 (fst p))
                            (getAtomClassIndex mm1 (snd p)) in
  let getT := fun t : IndexTriple =>
                getBondTorsion mm1 c1 (getAtomClassIndex mm1 (fst (fst t)))
                               (getAtomClassIndex mm1 (snd (fst t)))
                               (getAtomClassIndex mm1 (snd t)) in
  let imp := buildImpropers mm1 c1 (n_xbonds3Atoms n) cell in
  Forall (fun j => BondStretch_isValid (getS j) = true) (n_xbond12 n) ->
  Forall (fun p => BondBend_isValid (getB p) = true) (n_xbond13 n) ->
  Forall (fun t => BondTorsion_isValid (getT t) = true) (n_xbond14 n) ->
  atoms (store_atom mm1 anum
           (Atom_realized a b12 n (fst (fst imp)) (snd (fst imp))
              (getS <$> n_xbond12 n) (getB <$> n_xbond13 n)
              (getT <$> n_xbond14 n))) = v' ->
  snd imp = cell' ->
  realizeAtom (with_atoms s v) cell anum = Ok (with_atoms s v', cell').
Proof.
  intros Ha b12 mm1 n c1 getS getB getT imp HS HB HT <- <-.
  unfold realizeAtom.
  change (atoms (with_atoms s v)) with v. rewrite Ha. cbv zeta.
  fold b12. fold mm1. fold n. fold c1.
  rewrite (assignChecked_valid getS _ _ _ HS). cbn [negb].
  assert (forall xs dflt valid,
            assignChecked (fun '(i0, i1) =>
                             getBondBend mm1 c1 (getAtomClassIndex mm1 i0)
                                         (getAtomClassIndex mm1 i1)) valid dflt xs
            = assignChecked getB valid dflt xs) as EB.
  { intros xs dflt valid. induction xs as [| [i0 i1] xs IH]; [reflexivity |].
    simpl. by rewrite IH. }
  rewrite EB, (assignChecked_valid getB _ _ _ HB). cbn [negb].
  assert (forall xs dflt valid,
            assignChecked (fun '(i0, i1, i2) =>
                             getBondTorsion mm1 c1 (getAtomClassIndex mm1 i0)
                                            (getAtomClassIndex mm1 i1)
                                            (getAtomClassIndex mm1 i2)) valid dflt xs
            = assignChecked getT valid dflt xs) as ET.
  { intros xs dflt valid. induction xs as [| [[i0 i1] i2] xs IH]; [reflexivity |].
    simpl. by rewrite IH. }
  rewrite ET, (assignChecked_valid getT _ _ _ HT). cbn [negb].
  fold imp. by destruct imp as [[i14 its] cell'].
Qed.

Lemma realizeAtoms_cons (anum : Z) (rest : list Z)
    (st st1 st' : DuMMRep * option BondTorsion) :
  realizeAtom (fst st) (snd st) anum = Ok st1 ->
  realizeAtoms rest st1 = Ok st' ->
  realizeAtoms (anum :: rest) st = Ok st'.
Proof. intros H1 H2. simpl. by rewrite H1. Qed.

(** Attaching the atoms to their bodies writes to the atoms only. *)
Lemma assignBodies_frame (mm mm1 : DuMMRep) :
  assignBodies mm = Some mm1 -> mm1 = with_atoms mm (atoms mm1).
Proof.
  unfold assignBodies. intros Hrun.
  apply (forEachM_preserves (fun s s' => s' = with_atoms s (atoms s'))) in Hrun.
  - exact Hrun.
  - by intros [].
  - intros s1 s2 s3 -> ->. reflexivity.
  - intros s b s' Hb. cbv beta in Hb. destruct (negb (DuMMBody_isValid b)).
    + injection Hb as <-. by destruct s.
    + apply (forEachM_preserves (fun s s' => s' = with_atoms s (atoms s'))) in Hb.
      * exact Hb.
      * by intros [].
      * intros s1 s2 s3 -> ->. reflexivity.
      * intros s0 ap s0'. unfold placeOnBody.
        destruct (vec_at (atoms s0) (ap_atomIndex ap)); [| discriminate].
        by intros [= <-].
Qed.

Lemma realizeSubsystemTopologyImpl_runs (mm : DuMMRep) (cell : option BondTorsion)
    (v1 : list Atom) (anums : list Z) (st' : DuMMRep * option BondTorsion) :
  forallb (fun a => isValidChargedAtomType mm (a_chargedAtomTypeIndex a))
          (atoms mm) = true ->
  atoms <$> assignBodies (set_atoms (fmap Atom_invalidateTopologicalCache) mm)
  = Some v1 ->
  seqZ 0 (vec_size v1) = anums ->
  realizeAtoms anums (with_atoms mm v1, cell) = Ok st' ->
  realizeSubsystemTopologyImpl mm cell = Ok st'.
Proof.
  intros Hv Hb <- Hr. unfold realizeSubsystemTopologyImpl. rewrite Hv. cbn [negb].
  destruct (assignBodies _) as [mm1 |] eqn:Hrun; [| discriminate].
  injection Hb as <-. rewrite (assignBodies_frame _ _ Hrun). exact Hr.
Qed.

(** The parameters that a turn of the loop looks up, evaluated and
    checked one by one. *)
Ltac check_params :=
  match goal with
  | |- Forall _ ?xs =>
      let l := eval vm_compute in xs in
      replace xs with l by (vm_compute; reflexivity)
  end;
  repeat constructor;
  match goal with
  | |- _ ?p = true =>
      let r := eval vm_compute in p in
      replace p with r by (vm_compute; reflexivity)
  end;
  first [ apply BondStretch_isValid_intro; [lra | lra | done | done]
        | apply BondBend_isValid_intro; [lra | pose proof PI2_1; lra]
        | reflexivity ].

Ltac run_atom :=
  eapply realizeAtoms_cons;
  [ eapply realizeAtom_passes;
    [ vm_compute; reflexivity
    | try check_params | try check_params | try check_params
    | vm_compute; reflexivity
    | vm_compute; reflexivity ]
  | cbn [fst snd] ].

Ltac run_realization :=
  eapply realizeSubsystemTopologyImpl_runs;
  [ vm_compute; reflexivity | vm_compute; reflexivity | vm_compute; reflexivity
  | do 5 run_atom; reflexivity ].

(** ** Realization of the sample molecule *)

(** With the improper torsion of the quad (1,2,0,3), the quad of the first
    ordering of the neighbours of atom 0: realization succeeds and atom 0
    gets six entries, one for each ordering, all six with the parameters
    of the first lookup. *)
Lemma molecule_realized_first :
  exists v' : list Atom,
    let mm' := with_atoms (molecule (1, 2, 0, 3)) v' in
    realizeSubsystemTopologyImpl (molecule (1, 2, 0, 3)) None
    = Ok (mm', Some (oneTermTorsion (1, 2, 0, 3)))
    /\ getAtomClassIndex mm' <$> [0; 1; 2; 3] = [0; 1; 2; 3]
    /\ (xbonds3Atoms <$> vec_at (atoms mm') 0) = Some (1, 2, 3)
    /\ (aImproperTorsion14 <$> vec_at (atoms mm') 0) = Some neighbourOrderings
    /\ (aImproperTorsion <$> vec_at (atoms mm') 0)
       = Some (replicate 6 (oneTermTorsion (1, 2, 0, 3)))
    /\ (xbond12 <$> vec_at (atoms mm') 0) = Some [1; 2; 3].
Proof.
  eexists. cbv zeta. split; [run_realization |].
  repeat split; vm_compute; reflexivity.
Qed.

(** With the improper torsion of the quad (2,1,0,3), the quad of the third
    ordering: the first lookup finds nothing, and atom 0 gets no entry. *)
Lemma molecule_realized_third :
  exists v' : list Atom,
    let mm' := with_atoms (molecule (2, 1, 0, 3)) v' in
    realizeSubsystemTopologyImpl (molecule (2, 1, 0, 3)) None
    = Ok (mm', Some dummy)
    /\ getAtomClassIndex mm' <$> [0; 1; 2; 3] = [0; 1; 2; 3]
    /\ (xbonds3Atoms <$> vec_at (atoms mm') 0) = Some (1, 2, 3)
    /\ (aImproperTorsion14 <$> vec_at (atoms mm') 0) = Some []
    /\ (aImproperTorsion <$> vec_at (atoms mm') 0) = Some [].
Proof.
  eexists. cbv zeta. split; [run_realization |].
  repeat split; vm_compute; reflexivity.
Qed.

(** C1 on the sample molecule, whose atom 0 (class 0) has the cross-body
    neighbours 1, 2, 3 (classes 1, 2, 3) and whose table of improper
    torsions has one entry.  The lookup of line 3007 initializes a
    [static const] object: it is made once, for the first ordering
    (1,2,3), and its result stands for every ordering.  When the entry is
    for the quad (1,2,0,3) of the first ordering, all six orderings are
    recorded, each with the parameters of that quad, although the quads of
    the five other orderings have no entry; when the entry is for the quad
    (2,1,0,3) of the third ordering, nothing is recorded, although that
    ordering has a matching entry. *)
Theorem improper_lookup_made_once :
  (exists (mm' : DuMMRep) (cell' : option BondTorsion),
     realizeSubsystemTopologyImpl (molecule (1, 2, 0, 3)) None = Ok (mm', cell')
     /\ amberImproperTorsion mm' = {[ (1, 2, 0, 3) := oneTermTorsion (1, 2, 0, 3) ]}
     /\ getAtomClassIndex mm' <$> [0; 1; 2; 3] = [0; 1; 2; 3]
     /\ (xbonds3Atoms <$> vec_at (atoms mm') 0) = Some (1, 2, 3)
     /\ (aImproperTorsion14 <$> vec_at (atoms mm') 0) = Some neighbourOrderings
     /\ (aImproperTorsion <$> vec_at (atoms mm') 0)
        = Some (replicate 6 (oneTermTorsion (1, 2, 0, 3))))
  /\ (exists (mm' : DuMMRep) (cell' : option BondTorsion),
     realizeSubsystemTopologyImpl (molecule (2, 1, 0, 3)) None = Ok (mm', cell')
     /\ amberImproperTorsion mm' = {[ (2, 1, 0, 3) := oneTermTorsion (2, 1, 0, 3) ]}
     /\ getAtomClassIndex mm' <$> [0; 1; 2; 3] = [0; 1; 2; 3]
     /\ (xbonds3Atoms <$> vec_at (atoms mm') 0) = Some (1, 2, 3)
     /\ (aImproperTorsion14 <$> vec_at (atoms mm') 0) = Some []
     /\ (aImproperTorsion <$> vec_at (atoms mm') 0) = Some []).
Proof.
  split.
  - destruct molecule_realized_first as (v' & Hok & Hcls & Hx3 & H14 & Hbt & _).
    exists (with_atoms (molecule (1, 2, 0, 3)) v'), (Some (oneTermTorsion (1, 2, 0, 3))).
    by repeat split.
  - destruct molecule_realized_third as (v' & Hok & Hcls & Hx3 & H14 & Hbt).
    exists (with_atoms (molecule (2, 1, 0, 3)) v'), (Some dummy).
    by repeat split.
Qed.

(** ** The sample molecule is well formed *)

Lemma bond12_of_molecule (key : IndexQuad) (i : Z) :
  bond12_of (molecule key) i
  = if decide (i = 0) then [3; 1; 2]
    else if decide (i = 1) then [0; 4]
    else if decide (i = 2) then [0]
    else if decide (i = 3) then [0]
    else if decide (i = 4) then [1]
    else [].
Proof.
  unfold bond12_of, vec_at. cbn [atoms molecule].
  destruct (Z.ltb_spec i 0) as [Hneg | Hpos].
  - repeat case_decide; first [lia | reflexivity].
  - repeat case_decide; subst; try reflexivity.
    rewrite lookup_ge_None_2; [reflexivity |]. simpl. lia.
Qed.

Lemma bondGraph_wf_molecule (key : IndexQuad) : bondGraph_wf (molecule key).
Proof.
  split; [| split].
  - intros i j. rewrite !bond12_of_molecule.
    repeat case_decide; subst; set_solver.
  - intros i. rewrite bond12_of_molecule.
    repeat case_decide; subst; set_solver.
  - intros i. rewrite bond12_of_molecule.
    repeat case_decide; repeat constructor; set_solver.
Qed.

Lemma bodies_wf_molecule (key : IndexQuad) : bodies_wf (molecule key).
Proof.
  split.
  - change (NoDup [0; 1; 2; 3; 4]). repeat constructor; set_solver.
  - intros i. change (i ∈ [0; 1; 2; 3; 4] <-> 0 <= i < 5).
    rewrite !elem_of_cons, elem_of_nil. lia.
Qed.

(** Every atom of the realized sample molecule satisfies the
    shortest-path invariant. *)
Lemma realized_shortPaths_witness :
  exists (mm' : DuMMRep) (cell' : option BondTorsion),
    realizeSubsystemTopologyImpl (molecule (1, 2, 0, 3)) None = Ok (mm', cell')
    /\ forall (anum : Z) (a : Atom),
         vec_at (atoms mm') anum = Some a -> shortPaths_ok anum a.
Proof.
  destruct molecule_realized_first as (v' & Hok & _).
  eexists _, _. split; [exact Hok |].
  exact (realized_shortPaths _ _ _ _ Hok).
Defined.

(** The kernel on the realized sample molecule: the stretch term of the
    cross-body bond between atoms 0 and 1 is processed once, from atom 0. *)
Lemma kernel_terms_processed_once_witness :
  exists (mm' : DuMMRep) (cell' : option BondTorsion) (tr : list Interaction),
    realizeSubsystemTopologyImpl (molecule (1, 2, 0, 3)) None = Ok (mm', cell')
    /\ kernelTrace mm' = Some tr
    /\ evaluations tr (Stretch 0 1) = 1%nat
    /\ evaluations tr (Stretch 1 0) = 0%nat.
Proof.
  destruct molecule_realized_first as (v' & Hok & _ & _ & _ & _ & H12).
  destruct (kernel_terms_processed_once _ _ _ _ Hok
              (bondGraph_wf_molecule _) (bodies_wf_molecule _))
    as (tr & Htr & Hstretch & _).
  eexists _, _, tr. split; [exact Hok |]. split; [exact Htr |].
  destruct (vec_at _ 0) as [r1 |] eqn:Hr1; [| discriminate].
  injection H12 as H12.
  destruct (Hstretch 0 1 r1 Hr1) as (_ & E1 & E2).
  - rewrite H12. constructor.
  - split; assumption.
Defined.

(* ===================================================================== *)
(** * Part III: further properties of the code                           *)
(* ===================================================================== *)

(** ** The order and the canonical form of index tuples *)

Ltac order_cases :=
  repeat match goal with
         | H : context [?u <? ?v] |- _ => destruct (Z.ltb_spec u v)
         | H : context [?u >? ?v] |- _ => destruct (Z.gtb_spec u v)
         | |- context [?u <? ?v] => destruct (Z.ltb_spec u v)
         | |- context [?u >? ?v] => destruct (Z.gtb_spec u v)
         end;
  try discriminate; try reflexivity; try lia.

Lemma pair_lt_irrefl (x : IndexPair) : pair_lt x x = false.
Proof. destruct x as [a b]. unfold pair_lt. order_cases. Qed.

Lemma triple_lt_irrefl (x : IndexTriple) : triple_lt x x = false.
Proof. destruct x as [[a b] c]. unfold triple_lt. order_cases. Qed.

(** X1: [operator<] on index pairs, triples and quads is a strict total
    order: nothing is below itself, the relation is transitive, and two
    tuples neither of which is below the other are equal.  The
    equivalence that [std::map] and [std::sort] draw from it is thus
    equality of tuples. *)
Theorem index_lt_strict_total_order :
  ((forall x, pair_lt x x = false)
   /\ (forall x y z, pair_lt x y = true -> pair_lt y z = true -> pair_lt x z = true)
   /\ (forall x y, pair_lt x y = false -> pair_lt y x = false -> x = y))
  /\ ((forall x, triple_lt x x = false)
      /\ (forall x y z, triple_lt x y = true -> triple_lt y z = true ->
                        triple_lt x z = true)
      /\ (forall x y, triple_lt x y = false -> triple_lt y x = false -> x = y))
  /\ ((forall x, quad_lt x x = false)
      /\ (forall x y z, quad_lt x y = true -> quad_lt y z = true ->
                        quad_lt x z = true)
      /\ (forall x y, quad_lt x y = false -> quad_lt y x = false -> x = y)).
Proof.
  split; [| split]; (split; [| split]).
  - apply pair_lt_irrefl.
  - intros [a b] [c d] [e f]. unfold pair_lt. intros H1 H2. order_cases.
  - intros [a b] [c d]. unfold pair_lt. intros H1 H2.
    order_cases; f_equal; lia.
  - apply triple_lt_irrefl.
  - intros [[a b] c] [[d e] f] [[g h] i]. unfold triple_lt. intros H1 H2.
    order_cases.
  - intros [[a b] c] [[d e] f]. unfold triple_lt. intros H1 H2.
    order_cases; repeat f_equal; lia.
  - apply quad_lt_irrefl.
  - intros [[[a b] c] d] [[[e f] g] h] [[[i j] k] l]. unfold quad_lt.
    intros H1 H2. order_cases.
  - intros [[[a b] c] d] [[[e f] g] h]. unfold quad_lt. intros H1 H2.
    order_cases; repeat f_equal; lia.
Qed.

Lemma pair_canonicalize_swap (a b : Z) :
  pair_canonicalize (b, a) = pair_canonicalize (a, b).
Proof. unfold pair_canonicalize. order_cases; f_equal; lia. Qed.

Lemma triple_canonicalize_reverse (a b c : Z) :
  triple_canonicalize (c, b, a) = triple_canonicalize (a, b, c).
Proof. unfold triple_canonicalize. order_cases; repeat f_equal; lia. Qed.

(** X2: the canonical form of a class pair or triple has its first index
    no larger than its last, is left alone by a second canonicalization,
    and is the same whichever way round the tuple is written; so
    [getBondStretch] and [getBondBend] return the same parameters for a
    bond or an angle named from either end. *)
Theorem canonical_keys_ignore_direction (mm : DuMMRep) (c1 c2 c3 : Z) :
  (let p := pair_canonicalize (c1, c2) in
   fst p <= snd p /\ pair_canonicalize p = p /\ pair_canonicalize (c2, c1) = p)
  /\ (let t := triple_canonicalize (c1, c2, c3) in
      fst (fst t) <= snd t /\ snd (fst t) = c2
      /\ triple_canonicalize t = t /\ triple_canonicalize (c3, c2, c1) = t)
  /\ getBondStretch mm c2 c1 = getBondStretch mm c1 c2
  /\ getBondBend mm c3 c2 c1 = getBondBend mm c1 c2 c3.
Proof.
  split; [| split; [| split]].
  - cbv zeta. split; [| split].
    + unfold pair_canonicalize. order_cases; simpl; lia.
    + unfold pair_canonicalize. destruct (Z.gtb_spec c1 c2); order_cases.
    + apply pair_canonicalize_swap.
  - cbv zeta. split; [| split; [| split]].
    + unfold triple_canonicalize. order_cases; simpl; lia.
    + unfold triple_canonicalize. by destruct (c1 >? c3).
    + unfold triple_canonicalize. destruct (Z.gtb_spec c1 c3); order_cases.
    + apply triple_canonicalize_reverse.
  - unfold getBondStretch, mkIndexPair. by rewrite pair_canonicalize_swap.
  - unfold getBondBend, mkIndexTriple. by rewrite triple_canonicalize_reverse.
Qed.

(** ** One term of a torsion *)

Lemma Rltb_true (x y : R) : (x < y)%R -> Rltb x y = true.
Proof. intros H. unfold Rltb. destruct (Rlt_dec x y); [reflexivity | lra]. Qed.

Lemma Rgeb_true_inv (x y : R) : Rgeb x y = true -> (y <= x)%R.
Proof. unfold Rgeb. by destruct (Rle_dec y x). Qed.

Lemma Rleb_true_inv (x y : R) : Rleb x y = true -> (x <= y)%R.
Proof. unfold Rleb. by destruct (Rle_dec x y). Qed.

Lemma Rltb_true_inv (x y : R) : Rltb x y = true -> (x < y)%R.
Proof. unfold Rltb. by destruct (Rlt_dec x y). Qed.

Lemma TorsionTerm_isValid_inv (t : TorsionTerm) :
  TorsionTerm_isValid t = true ->
  0 < periodicity t /\ (0 <= amplitude t)%R /\ (- PI < theta0 t <= PI)%R.
Proof.
  unfold TorsionTerm_isValid. rewrite !andb_true_iff.
  intros [[[Hn Ha] Hlo] Hhi].
  apply Z.gtb_lt in Hn. apply Rgeb_true_inv in Ha.
  apply Rltb_true_inv in Hlo. apply Rleb_true_inv in Hhi. auto.
Qed.

Lemma cos_shift_2PI (x : R) : cos (x + 2 * PI)%R = cos x.
Proof.
  replace (x + 2 * PI)%R with (x + 2 * INR 1 * PI)%R by (simpl; ring).
  apply cos_period.
Qed.

Lemma sin_shift_2PI (x : R) : sin (x + 2 * PI)%R = sin x.
Proof.
  replace (x + 2 * PI)%R with (x + 2 * INR 1 * PI)%R by (simpl; ring).
  apply sin_period.
Qed.

(** X3: the torque of a torsion term is minus the slope of its energy:
    at every angle [theta], the energy [amplitude*(1+cos(n*theta-theta0))]
    has the derivative [-torque(theta)]. *)
Theorem TorsionTerm_torque_is_minus_slope (t : TorsionTerm) (theta : R) :
  derivable_pt_lim (TorsionTerm_energy t) theta (- TorsionTerm_torque t theta)%R.
Proof.
  set (n := IZR (periodicity t)).
  set (g := (fun x : R => n * x - theta0 t)%R).
  assert (derivable_pt_lim g theta n) as Hg.
  { apply (derivable_pt_lim_ext (mult_real_fct n id - fct_cte (theta0 t))%F).
    - intros z. reflexivity.
    - replace n with (n * 1 - 0)%R at 2 by ring.
      apply derivable_pt_lim_minus.
      + apply derivable_pt_lim_scal, derivable_pt_lim_id.
      + apply derivable_pt_lim_const. }
  apply (derivable_pt_lim_ext
           (mult_real_fct (amplitude t) (fct_cte 1 + comp cos g)%F)).
  - intros z. reflexivity.
  - replace (- TorsionTerm_torque t theta)%R
      with (amplitude t * (0 + - sin (g theta) * n))%R
      by (unfold TorsionTerm_torque, g, n; ring).
    apply derivable_pt_lim_scal, derivable_pt_lim_plus.
    + apply derivable_pt_lim_const.
    + apply derivable_pt_lim_comp; [exact Hg | apply derivable_pt_lim_cos].
Qed.

(** X4: for a valid term (periodicity [n > 0], amplitude [>= 0]) the
    energy lies between 0 and twice the amplitude, and energy and torque
    repeat when the angle advances by [2*PI/n]. *)
Theorem TorsionTerm_energy_range_and_period (t : TorsionTerm) (theta : R) :
  TorsionTerm_isValid t = true ->
  (0 <= TorsionTerm_energy t theta <= 2 * amplitude t)%R
  /\ TorsionTerm_energy t (theta + 2 * PI / IZR (periodicity t))%R
     = TorsionTerm_energy t theta
  /\ TorsionTerm_torque t (theta + 2 * PI / IZR (periodicity t))%R
     = TorsionTerm_torque t theta.
Proof.
  intros Hvalid.
  apply TorsionTerm_isValid_inv in Hvalid as (Hn & Ha & _).
  assert (IZR (periodicity t) <> 0%R) as Hn0.
  { apply not_0_IZR. lia. }
  assert (forall x, IZR (periodicity t) * (x + 2 * PI / IZR (periodicity t))
                    - theta0 t
                    = IZR (periodicity t) * x - theta0 t + 2 * PI)%R as Hshift.
  { intros x. field. exact Hn0. }
  split; [| split].
  - unfold TorsionTerm_energy.
    pose proof (COS_bound (IZR (periodicity t) * theta - theta0 t)) as [Hlo Hhi].
    split; nra.
  - unfold TorsionTerm_energy. by rewrite Hshift, cos_shift_2PI.
  - unfold TorsionTerm_torque. by rewrite Hshift, sin_shift_2PI.
Qed.

(** The term n=2, 1 kJ/mol, 180 degrees. *)
Lemma TorsionTerm_energy_range_and_period_witness :
  (0 <= TorsionTerm_energy (newTorsionTerm 2 1 180) 0 <= 2 * 1)%R.
Proof.
  apply (TorsionTerm_energy_range_and_period (newTorsionTerm 2 1 180) 0).
  unfold TorsionTerm_isValid, newTorsionTerm, Deg2Rad. cbn.
  pose proof PI_RGT_0.
  replace (180 * (PI / 180))%R with PI by field.
  rewrite Rgeb_true, Rltb_true, Rleb_true by lra. reflexivity.
Defined.

(** ** Balance of the forces of a torsion and of a bend *)

Lemma Vec3_neg_balance (a b : Vec3) :
  Vec3_add (Vec3_add a (Vec3_neg a)) (Vec3_add (Vec3_neg b) b) = Vec3_zero.
Proof.
  destruct a as [[a0 a1] a2], b as [[b0 b1] b2].
  unfold Vec3_add, Vec3_neg, Vec3_zero. f_equal; [f_equal |]; ring.
Qed.

(** The four forces of the regular branch, for any [dedt] and [dedu]. *)
Lemma torsion_force_balance (rG xG yG sG dedt dedu : Vec3) (oov : R) :
  let r := Vec3_sub xG rG in
  let s := Vec3_sub sG yG in
  let v := Vec3_scale oov (Vec3_sub yG xG) in
  let ry := Vec3_sub yG rG in
  let xs := Vec3_sub sG xG in
  Vec3_add
    (Vec3_add (Vec3_cross dedt v)
       (Vec3_scale oov (Vec3_add (Vec3_cross ry dedt) (Vec3_cross dedu s))))
    (Vec3_add
       (Vec3_scale oov (Vec3_add (Vec3_cross dedt r) (Vec3_cross xs dedu)))
       (Vec3_cross dedu v))
  = Vec3_zero.
Proof.
  destruct rG as [[r0 r1] r2], xG as [[x0 x1] x2], yG as [[y0 y1] y2],
    sG as [[s0 s1] s2], dedt as [[t0 t1] t2], dedu as [[u0 u1] u2].
  cbv [Vec3_add Vec3_sub Vec3_scale Vec3_cross Vec3_zero].
  f_equal; [f_equal |]; ring.
Qed.

Section TorsionBalance.

Variable UnitVec3_perp : Vec3 -> Vec3.
Variable std_atan2 : R -> R -> R.

(** X5: whatever the positions of the four atoms, the terms and the
    scale, the four forces that [periodic] returns add up to zero. *)
Theorem periodic_forces_balance (bt : BondTorsion) (rG xG yG sG : Vec3)
    (scale theta : R) :
  let res := periodic UnitVec3_perp std_atan2 bt rG xG yG sG scale theta in
  Vec3_add (Vec3_add (tr_rf res) (tr_xf res)) (Vec3_add (tr_yf res) (tr_sf res))
  = Vec3_zero.
Proof.
  cbv zeta. unfold periodic.
  destruct (torsionAxis UnitVec3_perp rG xG yG sG) as [oov v] eqn:Haxis.
  destruct (torsionNormals UnitVec3_perp rG xG yG sG) as [t u].
  destruct (decide (_ \/ _)) as [Hzero | Hregular].
  - cbn. unfold Vec3_add, Vec3_zero. f_equal; [f_equal |]; ring.
  - destruct (decide (oov = 0%R)) as [Hoov | Hoov]; cbn [tr_rf tr_xf tr_yf tr_sf].
    + apply Vec3_neg_balance.
    + assert (v = Vec3_scale oov (Vec3_sub yG xG)) as ->.
      { unfold torsionAxis in Haxis. injection Haxis as Ho Hv.
        rewrite Ho in Hv. by rewrite decide_True in Hv. }
      apply torsion_force_balance.
Qed.

End TorsionBalance.



Lemma Vec3_dot_scale_l (c : R) (a b : Vec3) :
  Vec3_dot (Vec3_scale c a) b = (c * Vec3_dot a b)%R.
Proof.
  destruct a as [[a0 a1] a2], b as [[b0 b1] b2].
  unfold Vec3_dot, Vec3_scale. ring.
Qed.

Lemma Vec3_norm_pos (v : Vec3) : v <> Vec3_zero -> (0 < Vec3_norm v)%R.
Proof.
  intros Hv. unfold Vec3_norm, Vec3_normSqr. apply sqrt_lt_R0.
  destruct (Rle_lt_or_eq_dec 0 (Vec3_dot v v)) as [Hpos | Hzero]; [| exact Hpos |].
  - destruct v as [[v0 v1] v2]. unfold Vec3_dot. nra.
  - exfalso. apply Hv. by apply Vec3_dot_self_zero.
Qed.

Section HarmonicFacts.

Variable UnitVec3_perp : Vec3 -> Vec3.
Variable std_atan2 : R -> R -> R.


(** X7: when the two bonds are not collinear, the forces of [harmonic]
    exert no net torque: the moments of the two end forces about the
    central atom cancel. *)
Theorem harmonic_no_net_torque (bb : BondBend) (cG rG sG : Vec3) (scale : R) :
  Vec3_cross (Vec3_sub rG cG) (Vec3_sub sG cG) <> Vec3_zero ->
  let res := harmonic UnitVec3_perp std_atan2 bb cG rG sG scale in
  Vec3_add (Vec3_cross (Vec3_sub rG cG) (br_rf res))
           (Vec3_cross (Vec3_sub sG cG) (br_sf res)) = Vec3_zero.
Proof.
  intros Hrxs. cbv zeta. unfold harmonic. cbn [br_rf br_sf].
  set (r := Vec3_sub rG cG) in *. set (s := Vec3_sub sG cG) in *.
  pose proof (Vec3_norm_pos _ Hrxs) as Hlen.
  rewrite decide_True by lra.
  set (len := Vec3_norm (Vec3_cross r s)) in *.
  set (ffac := (-2 * (scale * bb_k bb) * (std_atan2 len (Vec3_dot r s) - bb_theta0 bb))%R).
  assert (r <> Vec3_zero) as Hr.
  { intros E. apply Hrxs. rewrite E. apply Vec3_cross_zero_l. }
  assert (s <> Vec3_zero) as Hs.
  { intros E. apply Hrxs. rewrite E. apply Vec3_cross_zero_r. }
  pose proof (Vec3_dot_self_pos r Hr) as Hrr.
  pose proof (Vec3_dot_self_pos s Hs) as Hss.
  clearbody len ffac r s.
  destruct r as [[r0 r1] r2], s as [[s0 s1] s2].
  unfold Vec3_dot in Hrr, Hss.
  cbv [Vec3_add Vec3_scale Vec3_cross Vec3_div Vec3_dot Vec3_zero].
  f_equal; [f_equal |]; field; repeat split; lra.
Qed.

End HarmonicFacts.

(** A right angle at the origin, between the first two axes. *)
Lemma harmonic_no_net_torque_witness :
  let res := harmonic (fun _ => (0, 0, 1)%R) (fun y x => atan (y / x))
               (mkBondBend (0, 0, 0) 1 1) Vec3_zero (1, 0, 0)%R (0, 1, 0)%R 1 in
  Vec3_add (Vec3_cross (Vec3_sub (1, 0, 0)%R Vec3_zero) (br_rf res))
           (Vec3_cross (Vec3_sub (0, 1, 0)%R Vec3_zero) (br_sf res)) = Vec3_zero.
Proof.
  apply harmonic_no_net_torque.
  cbv [Vec3_cross Vec3_sub Vec3_zero]. intros [= _ _ H]. lra.
Defined.

(** ** Combining rules on like and unlike classes *)

Lemma sqrt_square_pos (a : R) : (0 <= a)%R -> sqrt (a * a) = a.
Proof. intros Ha. by apply sqrt_square. Qed.

Lemma Rdiv_lower (a x y : R) : (0 < y)%R -> (a * y <= x)%R -> (a <= x / y)%R.
Proof.
  intros Hy H. apply (Rmult_le_reg_r y); [exact Hy |].
  unfold Rdiv. rewrite Rmult_assoc, Rinv_l by lra. lra.
Qed.

Lemma Rdiv_upper (a x y : R) : (0 < y)%R -> (x <= a * y)%R -> (x / y <= a)%R.
Proof.
  intros Hy H. apply (Rmult_le_reg_r y); [exact Hy |].
  unfold Rdiv. rewrite Rmult_assoc, Rinv_l by lra. lra.
Qed.

Lemma geometricMean_between (a b : R) :
  (0 < a <= b)%R -> (a <= geometricMean a b <= b)%R.
Proof.
  intros [Ha Hab]. unfold geometricMean. split.
  - rewrite <- (sqrt_square_pos a) at 1 by lra. apply sqrt_le_1_alt. nra.
  - rewrite <- (sqrt_square_pos b) at 2 by lra. apply sqrt_le_1_alt. nra.
Qed.

Lemma harmonicMean_between (a b : R) :
  (0 < a <= b)%R -> (a <= harmonicMean a b <= b)%R.
Proof.
  intros [Ha Hab]. unfold harmonicMean. split.
  - apply Rdiv_lower; nra.
  - apply Rdiv_upper; nra.
Qed.

Lemma cubicMean_between (a b : R) :
  (0 < a <= b)%R -> (a <= cubicMean a b <= b)%R.
Proof.
  intros [Ha Hab]. unfold cubicMean.
  assert (0 < a * a + b * b)%R as Hden by nra.
  assert (0 <= b - a)%R as Hd by lra.
  assert (0 <= b * b * (b - a))%R as H1 by (apply Rmult_le_pos; nra).
  assert (0 <= a * a * (b - a))%R as H2 by (apply Rmult_le_pos; nra).
  split.
  - apply Rdiv_lower; [lra |]. nra.
  - apply Rdiv_upper; [lra |]. nra.
Qed.

Lemma hhgMean_between (a b : R) :
  (0 < a <= b)%R -> (a <= hhgMean a b <= b)%R.
Proof.
  intros Hab. unfold hhgMean.
  pose proof (harmonicMean_between a b Hab) as Hh.
  pose proof (geometricMean_between a b Hab) as Hg.
  destruct (Rle_dec (harmonicMean a b) (geometricMean a b)) as [Hle | Hgt].
  - pose proof (harmonicMean_between (harmonicMean a b) (geometricMean a b)) as H.
    lra.
  - pose proof (harmonicMean_between (geometricMean a b) (harmonicMean a b)) as H.
    rewrite harmonicMean_comm. lra.
Qed.

(** X8: under the Lorentz-Berthelot, Jorgensen and Halgren-HHG rules the
    mixed radius lies between the two radii and the mixed well depth
    between the two well depths, for positive parameters. *)
Theorem mixed_parameters_between (ri rj ei ej : R) :
  (0 < ri <= rj)%R -> (0 < ei <= ej)%R ->
  Forall (fun rule : R -> R -> R -> R -> R * R =>
            (ri <= fst (rule ri rj ei ej) <= rj)%R
            /\ (ei <= snd (rule ri rj ei ej) <= ej)%R)
         [vdwCombineLorentzBerthelot; vdwCombineJorgensen; vdwCombineHalgrenHHG].
Proof.
  intros Hr He.
  pose proof (geometricMean_between ri rj Hr) as Gr.
  pose proof (geometricMean_between ei ej He) as Ge.
  pose proof (cubicMean_between ri rj Hr) as Cr.
  pose proof (hhgMean_between ei ej He) as He'.
  apply Forall_cons. split.
  { cbn [fst snd vdwCombineLorentzBerthelot]. unfold arithmeticMean. lra. }
  apply Forall_cons. split; [by split |].
  apply Forall_cons. split; [by split |].
  by apply Forall_nil.
Qed.

Lemma mixed_parameters_between_witness :
  (1 <= fst (vdwCombineHalgrenHHG 1 2 3 4) <= 2)%R.
Proof.
  pose proof (mixed_parameters_between 1 2 3 4) as H.
  assert (0 < 1 <= 2)%R as H1 by lra. assert (0 < 3 <= 4)%R as H2 by lra.
  specialize (H H1 H2).
  apply Forall_cons in H as [_ H]. apply Forall_cons in H as [_ H].
  apply Forall_cons in H as [[H _] _]. exact H.
Defined.

Lemma geometricMean_self (a : R) : (0 <= a)%R -> geometricMean a a = a.
Proof. intros Ha. unfold geometricMean. by apply sqrt_square. Qed.

Lemma harmonicMean_self (a : R) : (0 < a)%R -> harmonicMean a a = a.
Proof. intros Ha. unfold harmonicMean. field. lra. Qed.

Section SelfMixing.

Variable std_pow : R -> R -> R.

(** X9: a class mixed with itself keeps its parameters: for a positive
    radius [r] and well depth [e], the Lorentz-Berthelot, Jorgensen and
    Halgren-HHG rules return [(r, e)], so [applyMixingRule] returns
    [dmin = 2*r] and [emin = e]; the Waldman-Hagler rule returns the well
    depth [e]. *)
Theorem like_classes_keep_their_parameters (mm : DuMMRep) (r e : R) :
  (0 < r)%R -> (0 < e)%R ->
  (vdwMixingRule mm = LorentzBerthelot \/ vdwMixingRule mm = Jorgensen
   \/ vdwMixingRule mm = HalgrenHHG ->
   applyMixingRule std_pow mm r r e e = ((2 * r)%R, e))
  /\ (vdwMixingRule mm = WaldmanHagler ->
      snd (applyMixingRule std_pow mm r r e e) = e).
Proof.
  intros Hr He. unfold applyMixingRule. split.
  - intros [-> | [-> | ->]]; cbn [vdwCombine].
    + unfold vdwCombineLorentzBerthelot.
      rewrite geometricMean_self by lra. f_equal. unfold arithmeticMean. lra.
    + unfold vdwCombineJorgensen. by rewrite !geometricMean_self by lra.
    + unfold vdwCombineHalgrenHHG, hhgMean.
      rewrite harmonicMean_self, geometricMean_self, harmonicMean_self by lra.
      f_equal. f_equal. unfold cubicMean. field. nra.
  - intros ->. cbn [vdwCombine]. unfold vdwCombineWaldmanHagler. cbn [snd].
    set (r6 := (r * r * r * (r * r * r))%R).
    assert (0 < r6)%R as Hr6.
    { unfold r6. repeat apply Rmult_lt_0_compat; lra. }
    rewrite geometricMean_self by nra.
    unfold arithmeticMean. replace (0.5 * (r6 + r6))%R with r6 by lra.
    field. lra.
Qed.

End SelfMixing.

Lemma like_classes_keep_their_parameters_witness :
  applyMixingRule (fun x _ => x)
    (mkRep [] [] [] [] ∅ ∅ ∅ ∅ Jorgensen 0 0 0 0 1 1 1 1 1 false) 1 1 2 2
  = ((2 * 1)%R, 2%R).
Proof.
  apply (like_classes_keep_their_parameters (fun x _ => x)); [lra | lra |].
  right. left. reflexivity.
Defined.

(** ** The table of mixed van der Waals parameters *)

(** A loop that writes [w j] at slot [j - i] for the [j] it does not
    skip. *)
Lemma foldl_write_lookup {A : Type} (w : nat -> option A) (i m k : nat)
    (init : list A) :
  (i + m <= i + length init)%nat ->
  foldl (fun r j => match w j with Some x => <[(j - i)%nat := x]> r | None => r end)
        init (seq i m) !! k
  = if decide (k < m)%nat
    then match w (i + k)%nat with Some x => Some x | None => init !! k end
    else init !! k.
Proof.
  induction m as [| m IH]; intros Hm.
  - cbn [seq foldl]. by rewrite decide_False by lia.
  - rewrite seq_S, foldl_app. cbn [foldl].
    assert (length (foldl (fun r j => match w j with
                                      | Some x => <[(j - i)%nat := x]> r
                                      | None => r end) init (seq i m))
            = length init) as Hlen.
    { clear. generalize (seq i m) as l. intros l. revert init.
      induction l as [| j l IHl]; intros init; [reflexivity |].
      cbn [foldl]. rewrite IHl. destruct (w j); [apply length_insert | reflexivity]. }
    replace (i + m - i)%nat with m by lia.
    destruct (w (i + m)%nat) as [x |] eqn:Hw.
    + destruct (decide (k = m)) as [-> | Hne].
      * rewrite list_lookup_insert_eq by (rewrite Hlen; lia).
        rewrite decide_True by lia. by rewrite Hw.
      * rewrite list_lookup_insert_ne by done. rewrite IH by lia.
        destruct (decide (k < m)%nat), (decide (k < S m)%nat); try lia; reflexivity.
    + rewrite IH by lia.
      destruct (decide (k < m)%nat), (decide (k < S m)%nat); try lia; try reflexivity.
      assert (k = m) as -> by lia. by rewrite Hw.
Qed.

Section VdwTableFacts.

Variable std_pow : R -> R -> R.

(** What the loop over [j] writes into [vdwDij] and [vdwEij]. *)
Let written (mm : DuMMRep) (iclass : AtomClass) (j : nat)
    : option (option R * option R) :=
  match atomClasses mm !! j with
  | Some jclass =>
      if AtomClass_isValid jclass && AtomClass_isComplete jclass
      then Some (match vdwRadius iclass, vdwRadius jclass,
                       vdwWellDepth iclass, vdwWellDepth jclass with
                 | Some ri, Some rj, Some ei, Some ej =>
                     (Some (fst (applyMixingRule std_pow mm ri rj ei ej)),
                      Some (snd (applyMixingRule std_pow mm ri rj ei ej)))
                 | _, _, _, _ => (None, None)
                 end)
      else None
  | None => None
  end.

Lemma vdwRow_split (mm : DuMMRep) (i : nat) (iclass : AtomClass)
    (l : list nat) (row : VdwRow) :
  let step := fun (row : VdwRow) (j : nat) =>
                match atomClasses mm !! j with
                | Some jclass =>
                    if AtomClass_isValid jclass && AtomClass_isComplete jclass
                    then mixInto std_pow mm iclass jclass (j - i) row
                    else row
                | None => row
                end in
  foldl step row l
  = (foldl (fun r j => match fst <$> written mm iclass j with
                       | Some x => <[(j - i)%nat := x]> r | None => r end)
           (fst row) l,
     foldl (fun r j => match snd <$> written mm iclass j with
                       | Some x => <[(j - i)%nat := x]> r | None => r end)
           (snd row) l).
Proof.
  intros step. revert row. induction l as [| j l IH]; intros [dij eij];
    [reflexivity |].
  cbn [foldl]. rewrite IH.
  assert (step (dij, eij) j
          = (match fst <$> written mm iclass j with
             | Some x => <[(j - i)%nat := x]> dij | None => dij end,
             match snd <$> written mm iclass j with
             | Some x => <[(j - i)%nat := x]> eij | None => eij end)) as ->;
    [| reflexivity].
  unfold step, written, mixInto.
  destruct (atomClasses mm !! j) as [jclass |]; [| reflexivity].
  destruct (AtomClass_isValid jclass && AtomClass_isComplete jclass);
    [| reflexivity].
  destruct (vdwRadius iclass), (vdwRadius jclass), (vdwWellDepth iclass),
    (vdwWellDepth jclass); cbn; try reflexivity.
  by destruct (applyMixingRule std_pow mm _ _ _ _).
Qed.

Lemma vdwRow_lookup (mm : DuMMRep) (i k : nat) (iclass : AtomClass) :
  (i + k < length (atomClasses mm))%nat ->
  fst (vdwRow std_pow mm i iclass) !! k
  = Some (match written mm iclass (i + k) with Some x => fst x | None => None end)
  /\ snd (vdwRow std_pow mm i iclass) !! k
     = Some (match written mm iclass (i + k) with Some x => snd x | None => None end).
Proof.
  intros Hk. unfold vdwRow. rewrite vdwRow_split. cbn [fst snd].
  rewrite !foldl_write_lookup by (rewrite length_replicate; lia).
  rewrite !decide_True by lia.
  rewrite lookup_replicate_2 by lia.
  destruct (written mm iclass (i + k)) as [[d e] |]; by cbn.
Qed.

End VdwTableFacts.

Lemma AtomClass_isComplete_valid (c : AtomClass) :
  AtomClass_isComplete c = true -> AtomClass_isValid c = true.
Proof.
  unfold AtomClass_isComplete. rewrite !andb_true_iff. by intros [[H _] _].
Qed.

Lemma vec_at_Some_lookup {A : Type} (v : list A) (i : Z) (x : A) :
  vec_at v i = Some x -> 0 <= i /\ v !! Z.to_nat i = Some x.
Proof.
  unfold vec_at. destruct (Z.ltb_spec i 0); [discriminate |]. by split.
Qed.

Lemma vec_at_of_nat {A : Type} (v : list A) (i : nat) :
  vec_at v (Z.of_nat i) = v !! i.
Proof.
  unfold vec_at. destruct (Z.ltb_spec (Z.of_nat i) 0); [lia |].
  by rewrite Nat2Z.id.
Qed.

Section VdwTableLookup.

Variable std_pow : R -> R -> R.

Lemma vdw_row_of_lower_class (mm : DuMMRep) (i j : nat) (cls1 cls2 : AtomClass)
    (r1 e1 r2 e2 : R) :
  atomClasses mm !! i = Some cls1 -> atomClasses mm !! j = Some cls2 ->
  (i <= j)%nat ->
  AtomClass_isComplete cls1 = true -> AtomClass_isComplete cls2 = true ->
  vdwRadius cls1 = Some r1 -> vdwWellDepth cls1 = Some e1 ->
  vdwRadius cls2 = Some r2 -> vdwWellDepth cls2 = Some e2 ->
  exists row,
    realizeVdwTables std_pow mm !! i = Some row
    /\ fst row !! (j - i)%nat
       = Some (Some (fst (applyMixingRule std_pow mm r1 r2 e1 e2)))
    /\ snd row !! (j - i)%nat
       = Some (Some (snd (applyMixingRule std_pow mm r1 r2 e1 e2))).
Proof.
  intros Hi Hj Hij Hc1 Hc2 Hr1 He1 Hr2 He2.
  exists (vdwRow std_pow mm i cls1). split.
  - unfold realizeVdwTables. rewrite list_lookup_imap, Hi. cbn.
    by rewrite Hc1, (AtomClass_isComplete_valid _ Hc1).
  - apply lookup_lt_Some in Hj as Hlt.
    destruct (vdwRow_lookup std_pow mm i (j - i) cls1) as [Hd He]; [lia |].
    replace (i + (j - i))%nat with j in Hd, He by lia.
    rewrite Hj, Hc2, (AtomClass_isComplete_valid _ Hc2), Hr1, Hr2, He1, He2
      in Hd, He.
    by split.
Qed.

(** X10: after the table of mixed parameters is built, the nonbonded loop
    reads for two complete classes, named in either order, the result of
    [applyMixingRule] on their radii and well depths. *)
Theorem mixed_table_holds_the_rule (mm : DuMMRep) (c1 c2 : Z)
    (cls1 cls2 : AtomClass) (r1 e1 r2 e2 : R) :
  vec_at (atomClasses mm) c1 = Some cls1 ->
  vec_at (atomClasses mm) c2 = Some cls2 ->
  AtomClass_isComplete cls1 = true -> AtomClass_isComplete cls2 = true ->
  vdwRadius cls1 = Some r1 -> vdwWellDepth cls1 = Some e1 ->
  vdwRadius cls2 = Some r2 -> vdwWellDepth cls2 = Some e2 ->
  let tables := realizeVdwTables std_pow mm in
  let mixed := applyMixingRule std_pow mm r1 r2 e1 e2 in
  vdwDij tables c1 c2 = Some (Some (fst mixed))
  /\ vdwEij tables c1 c2 = Some (Some (snd mixed))
  /\ vdwDij tables c2 c1 = Some (Some (fst mixed))
  /\ vdwEij tables c2 c1 = Some (Some (snd mixed)).
Proof.
  intros H1 H2 Hc1 Hc2 Hr1 He1 Hr2 He2 tables mixed.
  apply vec_at_Some_lookup in H1 as [Hn1 H1], H2 as [Hn2 H2].
  assert (applyMixingRule std_pow mm r2 r1 e2 e1 = mixed) as Hcomm.
  { unfold mixed, applyMixingRule. by rewrite (vdwCombine_comm std_pow _ r2 r1). }
  assert (forall i j cls1 cls2 r1 e1 r2 e2,
            atomClasses mm !! Z.to_nat i = Some cls1 ->
            atomClasses mm !! Z.to_nat j = Some cls2 ->
            0 <= i <= j ->
            AtomClass_isComplete cls1 = true -> AtomClass_isComplete cls2 = true ->
            vdwRadius cls1 = Some r1 -> vdwWellDepth cls1 = Some e1 ->
            vdwRadius cls2 = Some r2 -> vdwWellDepth cls2 = Some e2 ->
            (row ← vec_at tables i; vec_at (fst row) (j - i))
            = Some (Some (fst (applyMixingRule std_pow mm r1 r2 e1 e2)))
            /\ (row ← vec_at tables i; vec_at (snd row) (j - i))
               = Some (Some (snd (applyMixingRule std_pow mm r1 r2 e1 e2))))
    as Hrow.
  { intros i j k1 k2 a1 b1 a2 b2 Hi Hj Hij Hk1 Hk2 Ha1 Hb1 Ha2 Hb2.
    destruct (vdw_row_of_lower_class mm (Z.to_nat i) (Z.to_nat j) k1 k2
                a1 b1 a2 b2 Hi Hj ltac:(lia) Hk1 Hk2 Ha1 Hb1 Ha2 Hb2)
      as (row & Hlk & Hd & He).
    fold tables in Hlk.
    assert (vec_at tables i = Some row) as ->.
    { rewrite <- (Z2Nat.id i) by lia. by rewrite vec_at_of_nat. }
    cbn.
    replace (j - i) with (Z.of_nat (Z.to_nat j - Z.to_nat i)) by lia.
    by rewrite !vec_at_of_nat. }
  unfold vdwDij, vdwEij.
  destruct (Z.leb_spec c1 c2) as [Hle | Hgt].
  - destruct (Hrow c1 c2 cls1 cls2 r1 e1 r2 e2 H1 H2 ltac:(lia)
                Hc1 Hc2 Hr1 He1 Hr2 He2) as [Hd He].
    split; [exact Hd |]. split; [exact He |].
    destruct (Z.leb_spec c2 c1) as [Hle' | Hgt'].
    + assert (c1 = c2) as -> by lia.
      rewrite H1 in H2. injection H2 as <-.
      rewrite Hr1 in Hr2. rewrite He1 in He2.
      injection Hr2 as <-. injection He2 as <-. by split.
    + by split.
  - destruct (Hrow c2 c1 cls2 cls1 r2 e2 r1 e1 H2 H1 ltac:(lia)
                Hc2 Hc1 Hr2 He2 Hr1 He1) as [Hd He].
    rewrite Hcomm in Hd, He.
    destruct (Z.leb_spec c2 c1) as [Hle' | Hgt']; [| lia].
    by repeat split.
Qed.

End VdwTableLookup.

(** Carbon and oxygen classes with parameters set, read with the higher
    class first. *)
Lemma mixed_table_holds_the_rule_witness :
  let mm := set_atomClasses
              (fun _ => [mkAtomClass 0 6 4 (Some 1%R) (Some 2%R);
                         mkAtomClass 1 8 2 (Some 3%R) (Some 4%R)]) newDuMMRep in
  vdwDij (realizeVdwTables (fun x _ => x) mm) 1 0
  = Some (Some (fst (applyMixingRule (fun x _ => x) mm 3 1 4 2))).
Proof.
  intros mm.
  apply (mixed_table_holds_the_rule (fun x _ => x) mm 1 0
           (mkAtomClass 1 8 2 (Some 3%R) (Some 4%R))
           (mkAtomClass 0 6 4 (Some 1%R) (Some 2%R)) 3 4 1 2);
    try reflexivity;
    unfold AtomClass_isComplete, AtomClass_isValid, Real_nonneg; cbn;
    rewrite !Rgeb_true by lra; reflexivity.
Defined.

(** ** Pair energies and the forces derived from them *)

Lemma Vec3_normSqr_scale (x : R) (u : Vec3) :
  Vec3_normSqr (Vec3_scale x u) = (x * x * Vec3_dot u u)%R.
Proof.
  destruct u as [[u0 u1] u2]. unfold Vec3_normSqr, Vec3_dot, Vec3_scale. ring.
Qed.

Lemma Vec3_norm_scale_unit (x : R) (u : Vec3) :
  Vec3_dot u u = 1%R -> (0 <= x)%R -> Vec3_norm (Vec3_scale x u) = x.
Proof.
  intros Hu Hx. unfold Vec3_norm. rewrite Vec3_normSqr_scale, Hu, Rmult_1_r.
  by apply sqrt_square.
Qed.

Lemma derivable_pt_lim_Rinv (x : R) :
  x <> 0%R -> derivable_pt_lim (fun y => / y)%R x (- / (x * x))%R.
Proof.
  intros Hx.
  apply (derivable_pt_lim_ext (fct_cte 1 / id)%F).
  - intros z. unfold div_fct, fct_cte, id. unfold Rdiv. ring.
  - replace (- / (x * x))%R with ((0 * id x - 1 * fct_cte 1 x) / Rsqr (id x))%R
      by (unfold id, fct_cte, Rsqr; field; exact Hx).
    apply derivable_pt_lim_div;
      [apply derivable_pt_lim_const | apply derivable_pt_lim_id | exact Hx].
Qed.

(** The pair term on the half line from the first atom in the direction
    of the unit vector [u], at distance [x > 0]. *)
Lemma nonbondedTerm_along (cs vs q1Fac q2 dij eij g : R) (u : Vec3) (x : R) :
  Vec3_dot u u = 1%R -> (0 < x)%R ->
  let o := (/ x)%R in
  let qq := (cs * q1Fac * q2)%R in
  let eS := (g * vs * eij)%R in
  nonbondedTerm cs vs q1Fac q2 dij eij g (Vec3_scale x u)
  = ((qq * o + eS * (dij ^ 12 * o ^ 12 - 2 * (dij ^ 6 * o ^ 6)))%R,
     Vec3_scale ((qq * o + 12 * eS * (dij ^ 12 * o ^ 12 - dij ^ 6 * o ^ 6)) * o)%R u).
Proof.
  intros Hu Hx o qq eS. unfold nonbondedTerm.
  change (sqrt (Vec3_normSqr (Vec3_scale x u))) with (Vec3_norm (Vec3_scale x u)).
  rewrite (Vec3_norm_scale_unit x u Hu) by lra.
  fold qq. fold eS. f_equal.
  - unfold o. field. lra.
  - destruct u as [[u0 u1] u2]. unfold Vec3_scale, o.
    f_equal; [f_equal |]; field; lra.
Qed.

(** X11: the nonbonded force on the second atom of a pair is minus the
    slope of the pair energy: moving the second atom along the unit
    direction [u] away from the first, the energy [eCoulomb + eVdw] at
    distance [d > 0] has the derivative [-(fj . u)]. *)
Theorem nonbonded_force_is_minus_slope (cs vs q1Fac q2 dij eij g : R)
    (u : Vec3) (d : R) :
  Vec3_dot u u = 1%R -> (0 < d)%R ->
  derivable_pt_lim
    (fun x => fst (nonbondedTerm cs vs q1Fac q2 dij eij g (Vec3_scale x u)))
    d
    (- Vec3_dot (snd (nonbondedTerm cs vs q1Fac q2 dij eij g (Vec3_scale d u))) u)%R.
Proof.
  intros Hu Hd.
  set (qq := (cs * q1Fac * q2)%R). set (eS := (g * vs * eij)%R).
  set (F := (fun o : R => qq * o + eS * (dij ^ 12 * o ^ 12 - 2 * (dij ^ 6 * o ^ 6)))%R).
  apply (derivable_pt_lim_locally_ext (fun x => F (/ x)%R) _ d (d / 2) (2 * d));
    [lra | |].
  { intros z Hz. rewrite nonbondedTerm_along by (try done; lra). reflexivity. }
  rewrite nonbondedTerm_along by done. cbn [snd].
  rewrite Vec3_dot_scale_l, Hu.
  fold qq. fold eS.
  assert (forall o, derivable_pt_lim F o
            (qq * 1 + eS * (dij ^ 12 * (INR 12 * o ^ 11)
                            - 2 * dij ^ 6 * (INR 6 * o ^ 5)))%R) as HF.
  { intros o.
    apply (derivable_pt_lim_ext
             (mult_real_fct qq id
              + mult_real_fct eS (mult_real_fct (dij ^ 12)%R (fun y : R => (y ^ 12)%R)
                                  - mult_real_fct (2 * dij ^ 6)%R (fun y : R => (y ^ 6)%R)))%F).
    - intros z. unfold F, plus_fct, minus_fct, mult_real_fct, id. ring.
    - apply derivable_pt_lim_plus.
      + apply derivable_pt_lim_scal, derivable_pt_lim_id.
      + apply derivable_pt_lim_scal, derivable_pt_lim_minus;
          apply derivable_pt_lim_scal.
        * apply (derivable_pt_lim_pow o 12).
        * apply (derivable_pt_lim_pow o 6). }
  apply (derivable_pt_lim_ext (comp F (fun y => / y)%R)); [reflexivity |].
  match goal with |- derivable_pt_lim _ _ ?l =>
    replace l with ((qq * 1 + eS * (dij ^ 12 * (INR 12 * (/ d) ^ 11)
                                    - 2 * dij ^ 6 * (INR 6 * (/ d) ^ 5)))
                    * (- / (d * d)))%R
  end.
  - apply derivable_pt_lim_comp; [apply derivable_pt_lim_Rinv; lra | apply HF].
  - simpl INR. field. lra.
Qed.

Lemma nonbonded_force_is_minus_slope_witness :
  derivable_pt_lim
    (fun x => fst (nonbondedTerm 1 1 1 1 1 1 1 (Vec3_scale x (1, 0, 0)%R)))
    2
    (- Vec3_dot (snd (nonbondedTerm 1 1 1 1 1 1 1 (Vec3_scale 2 (1, 0, 0)%R)))
                (1, 0, 0)%R)%R.
Proof.
  apply nonbonded_force_is_minus_slope; [| lra].
  unfold Vec3_dot. ring.
Defined.

Lemma Vec3_norm_scale (c : R) (r : Vec3) :
  (0 <= c)%R -> Vec3_norm (Vec3_scale c r) = (c * Vec3_norm r)%R.
Proof.
  intros Hc. unfold Vec3_norm. rewrite Vec3_normSqr_scale.
  fold (Vec3_normSqr r).
  rewrite sqrt_mult_alt by nra. by rewrite sqrt_square.
Qed.

(** X12: for an uncharged partner the pair term is the Lennard-Jones
    well: with a nonnegative scaled well depth [e = g * vs * eij] the
    energy at any nonzero separation [r] is at least [-e], and with [r]
    rescaled to the length [dij] it is exactly [-e] with zero force. *)
Theorem vdw_well_depth_and_minimum (cs vs q1Fac dij eij g : R) (r : Vec3) :
  (0 <= g * vs * eij)%R -> (0 < Vec3_normSqr r)%R -> (0 < dij)%R ->
  (- (g * vs * eij) <= fst (nonbondedTerm cs vs q1Fac 0 dij eij g r))%R
  /\ nonbondedTerm cs vs q1Fac 0 dij eij g
       (Vec3_scale (dij / Vec3_norm r) r)
     = ((- (g * vs * eij))%R, Vec3_zero).
Proof.
  intros He Hr Hd. split.
  - unfold nonbondedTerm. cbn [fst].
    set (ood := (1 / sqrt (Vec3_normSqr r))%R).
    set (t := (dij * dij * (ood * ood) * (dij * dij * (ood * ood))
               * (dij * dij * (ood * ood)))%R).
    pose proof (Rle_0_sqr (t - 1)) as Hsq. unfold Rsqr in Hsq.
    assert (-1 <= t * t - 2 * t)%R as Ht by lra.
    replace (cs * q1Fac * 0 * ood)%R with 0%R by ring.
    rewrite Rplus_0_l.
    apply Rle_trans with (g * vs * eij * -1)%R; [lra |].
    by apply Rmult_le_compat_l.
  - assert (0 < Vec3_norm r)%R as Hn by (by apply sqrt_lt_R0).
    assert (Vec3_norm (Vec3_scale (dij / Vec3_norm r) r) = dij) as Hnorm.
    { rewrite Vec3_norm_scale.
      - field. lra.
      - apply Rlt_le, Rdiv_lt_0_compat; lra. }
    unfold nonbondedTerm.
    change (sqrt (Vec3_normSqr (Vec3_scale (dij / Vec3_norm r) r)))
      with (Vec3_norm (Vec3_scale (dij / Vec3_norm r) r)).
    rewrite Hnorm.
    replace (dij * dij * (1 / dij * (1 / dij)))%R with 1%R by (field; lra).
    destruct (Vec3_scale (dij / Vec3_norm r) r) as [[r0 r1] r2].
    unfold Vec3_scale, Vec3_zero.
    f_equal; [| f_equal; [f_equal |]]; ring.
Qed.

Lemma vdw_well_depth_and_minimum_witness :
  (- (1 * 1 * 1) <= fst (nonbondedTerm 1 1 1 0 2 1 1 (3, 0, 0)%R))%R
  /\ nonbondedTerm 1 1 1 0 2 1 1 (Vec3_scale (2 / Vec3_norm (3, 0, 0)%R) (3, 0, 0)%R)
     = ((- (1 * 1 * 1))%R, Vec3_zero).
Proof.
  apply vdw_well_depth_and_minimum; unfold Vec3_normSqr, Vec3_dot; lra.
Defined.

(** ** Defining bond stretch and bond bend terms *)

Lemma isValidAtomClass_nonneg (mm : DuMMRep) (c : Z) :
  isValidAtomClass mm c = true -> 0 <= c.
Proof.
  unfold isValidAtomClass. rewrite !andb_true_iff. intros [[H _] _]. lia.
Qed.

Lemma pair_canonicalize_nonneg (c1 c2 : Z) :
  0 <= c1 -> 0 <= c2 ->
  fst (pair_canonicalize (c1, c2)) <> InvalidAtomClassIndex
  /\ snd (pair_canonicalize (c1, c2)) <> InvalidAtomClassIndex.
Proof.
  intros H1 H2. unfold pair_canonicalize, InvalidAtomClassIndex.
  destruct (c1 >? c2); cbn [fst snd]; lia.
Qed.

Lemma std_map_insert_present `{Countable K} {V : Type}
    (m : gmap K V) (k : K) (v old : V) :
  m !! k = Some old -> std_map_insert m k v = (m, false).
Proof. intros Hk. unfold std_map_insert. by rewrite Hk. Qed.

Lemma std_map_insert_absent `{Countable K} {V : Type}
    (m : gmap K V) (k : K) (v : V) :
  m !! k = None -> std_map_insert m k v = (<[k := v]> m, true).
Proof. intros Hk. unfold std_map_insert. by rewrite Hk. Qed.

(** What a normal return of [defineBondStretch] tells. *)
Lemma defineBondStretch_Ok_inv (mm mm' : DuMMRep) (c1 c2 : Z) (k d0 : R) :
  defineBondStretch mm c1 c2 k d0 = Ok mm' ->
  bondStretch mm !! pair_canonicalize (c1, c2) = None
  /\ mm' = set_bondStretch
             (<[pair_canonicalize (c1, c2) :=
                  newBondStretch (pair_canonicalize (c1, c2)) k d0]> (bondStretch mm))
             (invalidateSubsystemTopologyCache mm).
Proof.
  unfold defineBondStretch, mkIndexPair, std_map_insert.
  cbn [bondStretch invalidateSubsystemTopologyCache].
  destruct (bondStretch mm !! pair_canonicalize (c1, c2)); cbn [fst snd negb];
    repeat (match goal with
            | |- context [if negb ?b then _ else _] => destruct b; cbn [negb]
            end; try discriminate).
  intros [= <-]. done.
Qed.

Lemma defineBondBend_Ok_inv (mm mm' : DuMMRep) (c1 c2 c3 : Z) (k a : R) :
  defineBondBend mm c1 c2 c3 k a = Ok mm' ->
  bondBend mm !! triple_canonicalize (c1, c2, c3) = None
  /\ mm' = set_bondBend
             (<[triple_canonicalize (c1, c2, c3) :=
                  newBondBend (triple_canonicalize (c1, c2, c3)) k a]> (bondBend mm))
             (invalidateSubsystemTopologyCache mm).
Proof.
  unfold defineBondBend, mkIndexTriple, std_map_insert.
  cbn [bondBend invalidateSubsystemTopologyCache].
  destruct (bondBend mm !! triple_canonicalize (c1, c2, c3)); cbn [fst snd negb];
    repeat (match goal with
            | |- context [if negb ?b then _ else _] => destruct b; cbn [negb]
            end; try discriminate).
  intros [= <-]. done.
Qed.

(** A pair, or triple, that has its term is refused, whatever the
    arguments, and the tables stay as they are. *)
Lemma defineBondStretch_present (mm : DuMMRep) (c1 c2 : Z) (k d0 : R)
    (old : BondStretch) :
  bondStretch mm !! pair_canonicalize (c1, c2) = Some old ->
  exists mm', defineBondStretch mm c1 c2 k d0 = Thrown APIArgcheckFailed mm'
              /\ bondStretch mm' = bondStretch mm /\ bondBend mm' = bondBend mm.
Proof.
  intros Hold. unfold defineBondStretch, mkIndexPair.
  cbn [bondStretch invalidateSubsystemTopologyCache].
  rewrite (std_map_insert_present _ _ _ _ Hold). cbn [fst snd negb].
  repeat (match goal with
          | |- context [if negb ?b then _ else _] => destruct b; cbn [negb]
          end; try (eexists; split; [reflexivity | done])).
Qed.

Lemma defineBondBend_present (mm : DuMMRep) (c1 c2 c3 : Z) (k a : R)
    (old : BondBend) :
  bondBend mm !! triple_canonicalize (c1, c2, c3) = Some old ->
  exists mm', defineBondBend mm c1 c2 c3 k a = Thrown APIArgcheckFailed mm'
              /\ bondStretch mm' = bondStretch mm /\ bondBend mm' = bondBend mm.
Proof.
  intros Hold. unfold defineBondBend, mkIndexTriple.
  cbn [bondBend invalidateSubsystemTopologyCache].
  rewrite (std_map_insert_present _ _ _ _ Hold). cbn [fst snd negb].
  repeat (match goal with
          | |- context [if negb ?b then _ else _] => destruct b; cbn [negb]
          end; try (eexists; split; [reflexivity | done])).
Qed.

Lemma getBondStretch_set (mm : DuMMRep) (m : gmap IndexPair BondStretch)
    (a b : Z) :
  getBondStretch (set_bondStretch m mm) a b
  = match m !! pair_canonicalize (a, b) with
    | Some bs => bs
    | None => BondStretch_default
    end.
Proof. reflexivity. Qed.

Lemma getBondBend_set (mm : DuMMRep) (m : gmap IndexTriple BondBend)
    (a b c : Z) :
  getBondBend (set_bondBend m mm) a b c
  = match m !! triple_canonicalize (a, b, c) with
    | Some bb => bb
    | None => BondBend_default
    end.
Proof. reflexivity. Qed.

Lemma Deg2Rad_range (angleInDeg : R) :
  (0 <= angleInDeg <= 180)%R -> (0 <= angleInDeg * Deg2Rad <= PI)%R.
Proof.
  intros [H0 H180]. unfold Deg2Rad. pose proof PI_RGT_0 as HPI.
  split.
  - apply Rmult_le_pos; [done |]. apply Rlt_le, Rdiv_lt_0_compat; lra.
  - replace PI with (180 * (PI / 180))%R at 2 by field.
    apply Rmult_le_compat_r; [| done].
    apply Rlt_le, Rdiv_lt_0_compat; lra.
Qed.

Lemma defineBondStretch_runs (mm : DuMMRep) (c1 c2 : Z) (k d0 : R) :
  isValidAtomClass mm c1 = true -> isValidAtomClass mm c2 = true ->
  (0 <= k)%R -> (0 <= d0)%R ->
  bondStretch mm !! pair_canonicalize (c1, c2) = None ->
  defineBondStretch mm c1 c2 k d0
  = Ok (set_bondStretch
          (<[pair_canonicalize (c1, c2) :=
               newBondStretch (pair_canonicalize (c1, c2)) k d0]> (bondStretch mm))
          (invalidateSubsystemTopologyCache mm)).
Proof.
  intros Hc1 Hc2 Hk Hd0 Hnew.
  unfold defineBondStretch, mkIndexPair.
  change (isValidAtomClass (invalidateSubsystemTopologyCache mm))
    with (isValidAtomClass mm).
  rewrite Hc1, Hc2, !Rgeb_true by done. cbn [negb].
  cbn [bondStretch invalidateSubsystemTopologyCache].
  rewrite (std_map_insert_absent _ _ _ Hnew). cbn [fst snd negb].
  reflexivity.
Qed.

Lemma defineBondBend_runs (mm : DuMMRep) (c1 c2 c3 : Z) (k angleInDeg : R) :
  isValidAtomClass mm c1 = true -> isValidAtomClass mm c2 = true ->
  isValidAtomClass mm c3 = true ->
  (0 <= k)%R -> (0 <= angleInDeg <= 180)%R ->
  bondBend mm !! triple_canonicalize (c1, c2, c3) = None ->
  defineBondBend mm c1 c2 c3 k angleInDeg
  = Ok (set_bondBend
          (<[triple_canonicalize (c1, c2, c3) :=
               newBondBend (triple_canonicalize (c1, c2, c3)) k angleInDeg]>
             (bondBend mm))
          (invalidateSubsystemTopologyCache mm)).
Proof.
  intros Hc1 Hc2 Hc3 Hk Hangle Hnew.
  unfold defineBondBend, mkIndexTriple.
  change (isValidAtomClass (invalidateSubsystemTopologyCache mm))
    with (isValidAtomClass mm).
  rewrite Hc1, Hc2, Hc3, Rgeb_true, !Rleb_true by (done || lra).
  cbn [negb andb].
  cbn [bondBend invalidateSubsystemTopologyCache].
  rewrite (std_map_insert_absent _ _ _ Hnew). cbn [fst snd negb].
  reflexivity.
Qed.

(** X13: a bond stretch term for two defined atom classes, with
    nonnegative stiffness and length and no term for the pair so far, is
    accepted; afterwards the lookup returns it for both orders of the two
    classes, it is a valid term, and every other pair's term is as
    before. *)
Theorem bond_stretch_round_trip (mm : DuMMRep) (c1 c2 : Z) (k d0 : R) :
  isValidAtomClass mm c1 = true -> isValidAtomClass mm c2 = true ->
  (0 <= k)%R -> (0 <= d0)%R ->
  bondStretch mm !! pair_canonicalize (c1, c2) = None ->
  exists mm',
    defineBondStretch mm c1 c2 k d0 = Ok mm'
    /\ getBondStretch mm' c1 c2 = newBondStretch (pair_canonicalize (c1, c2)) k d0
    /\ getBondStretch mm' c2 c1 = getBondStretch mm' c1 c2
    /\ BondStretch_isValid (getBondStretch mm' c1 c2) = true
    /\ forall a b, pair_canonicalize (a, b) <> pair_canonicalize (c1, c2) ->
                   getBondStretch mm' a b = getBondStretch mm a b.
Proof.
  intros Hc1 Hc2 Hk Hd0 Hnew.
  exists (set_bondStretch
            (<[pair_canonicalize (c1, c2) :=
                 newBondStretch (pair_canonicalize (c1, c2)) k d0]> (bondStretch mm))
            (invalidateSubsystemTopologyCache mm)).
  split; [by apply defineBondStretch_runs |].
  rewrite !getBondStretch_set, (pair_canonicalize_swap c1 c2), lookup_insert_eq.
  split; [done |]. split; [done |]. split.
  - destruct (pair_canonicalize_nonneg c1 c2) as [H1 H2];
      [by eapply isValidAtomClass_nonneg .. |].
    unfold newBondStretch. by apply BondStretch_isValid_intro.
  - intros a b Hab. rewrite getBondStretch_set, lookup_insert_ne by done.
    unfold getBondStretch, mkIndexPair.
    by destruct (bondStretch mm !! pair_canonicalize (a, b)).
Qed.

Lemma bond_stretch_round_trip_witness :
  exists mm',
    defineBondStretch rep_with_torsions 0 0 1 1 = Ok mm'
    /\ getBondStretch mm' 0 0 = newBondStretch (pair_canonicalize (0, 0)) 1 1
    /\ getBondStretch mm' 0 0 = getBondStretch mm' 0 0
    /\ BondStretch_isValid (getBondStretch mm' 0 0) = true
    /\ forall a b, pair_canonicalize (a, b) <> pair_canonicalize (0, 0) ->
                   getBondStretch mm' a b = getBondStretch rep_with_torsions a b.
Proof.
  apply bond_stretch_round_trip; first [reflexivity | lra].
Defined.

(** X14: a bond bend term for three defined atom classes, with
    nonnegative stiffness, an angle between 0 and 180 degrees and no term
    for the triple so far, is accepted; afterwards the lookup returns it
    for the triple read in either direction, with the angle held in
    radians between 0 and pi, and every other triple's term is as
    before. *)
Theorem bond_bend_round_trip (mm : DuMMRep) (c1 c2 c3 : Z) (k angleInDeg : R) :
  isValidAtomClass mm c1 = true -> isValidAtomClass mm c2 = true ->
  isValidAtomClass mm c3 = true ->
  (0 <= k)%R -> (0 <= angleInDeg <= 180)%R ->
  bondBend mm !! triple_canonicalize (c1, c2, c3) = None ->
  exists mm',
    defineBondBend mm c1 c2 c3 k angleInDeg = Ok mm'
    /\ getBondBend mm' c1 c2 c3
       = mkBondBend (triple_canonicalize (c1, c2, c3)) k (angleInDeg * PI / 180)%R
    /\ getBondBend mm' c3 c2 c1 = getBondBend mm' c1 c2 c3
    /\ BondBend_isValid (getBondBend mm' c1 c2 c3) = true
    /\ forall a b c, triple_canonicalize (a, b, c) <> triple_canonicalize (c1, c2, c3) ->
                     getBondBend mm' a b c = getBondBend mm a b c.
Proof.
  intros Hc1 Hc2 Hc3 Hk Hangle Hnew.
  exists (set_bondBend
            (<[triple_canonicalize (c1, c2, c3) :=
                 newBondBend (triple_canonicalize (c1, c2, c3)) k angleInDeg]>
               (bondBend mm))
            (invalidateSubsystemTopologyCache mm)).
  split; [by apply defineBondBend_runs |].
  rewrite !getBondBend_set, (triple_canonicalize_reverse c1 c2 c3),
    lookup_insert_eq.
  split.
  { unfold newBondBend, Deg2Rad. f_equal. unfold Rdiv. ring. }
  split; [done |]. split.
  - unfold newBondBend.
    apply BondBend_isValid_intro; [done | by apply Deg2Rad_range].
  - intros a b c Habc. rewrite getBondBend_set, lookup_insert_ne by done.
    unfold getBondBend, mkIndexTriple.
    by destruct (bondBend mm !! triple_canonicalize (a, b, c)).
Qed.

Lemma bond_bend_round_trip_witness :
  exists mm',
    defineBondBend rep_with_torsions 0 0 0 1 90 = Ok mm'
    /\ getBondBend mm' 0 0 0
       = mkBondBend (triple_canonicalize (0, 0, 0)) 1 (90 * PI / 180)%R
    /\ getBondBend mm' 0 0 0 = getBondBend mm' 0 0 0
    /\ BondBend_isValid (getBondBend mm' 0 0 0) = true
    /\ forall a b c, triple_canonicalize (a, b, c) <> triple_canonicalize (0, 0, 0) ->
                     getBondBend mm' a b c = getBondBend rep_with_torsions a b c.
Proof.
  apply bond_bend_round_trip; first [reflexivity | lra].
Defined.

(** X15: bonded terms are defined once.  After a stretch term for a class
    pair and a bend term for a class triple have been accepted, every
    further definition for that pair or triple, the classes given in
    either order and whatever the new values, throws and leaves both
    tables as they were. *)
Theorem bonded_terms_defined_once (mm mm1 mm2 : DuMMRep) (c1 c2 : Z) (k d0 : R)
    (b1 b2 b3 : Z) (kb angleInDeg : R) :
  defineBondStretch mm c1 c2 k d0 = Ok mm1 ->
  defineBondBend mm1 b1 b2 b3 kb angleInDeg = Ok mm2 ->
  forall k' x',
    (forall x y, (x, y) = (c1, c2) \/ (x, y) = (c2, c1) ->
       exists mm3, defineBondStretch mm2 x y k' x' = Thrown APIArgcheckFailed mm3
                   /\ bondStretch mm3 = bondStretch mm2
                   /\ bondBend mm3 = bondBend mm2)
    /\ (forall x y z, (x, y, z) = (b1, b2, b3) \/ (x, y, z) = (b3, b2, b1) ->
          exists mm3, defineBondBend mm2 x y z k' x' = Thrown APIArgcheckFailed mm3
                      /\ bondStretch mm3 = bondStretch mm2
                      /\ bondBend mm3 = bondBend mm2).
Proof.
  intros Hs Hb k' x'.
  apply defineBondStretch_Ok_inv in Hs as [_ ->].
  apply defineBondBend_Ok_inv in Hb as [_ ->].
  split.
  - intros x y Hxy.
    apply defineBondStretch_present
      with (old := newBondStretch (pair_canonicalize (c1, c2)) k d0).
    cbn [bondStretch set_bondBend set_bondStretch invalidateSubsystemTopologyCache].
    destruct Hxy as [[= -> ->] | [= -> ->]];
      rewrite ?(pair_canonicalize_swap c1 c2); apply lookup_insert_eq.
  - intros x y z Hxyz.
    apply defineBondBend_present
      with (old := newBondBend (triple_canonicalize (b1, b2, b3)) kb angleInDeg).
    cbn [bondBend set_bondBend set_bondStretch invalidateSubsystemTopologyCache].
    destruct Hxyz as [[= -> -> ->] | [= -> -> ->]];
      rewrite ?(triple_canonicalize_reverse b1 b2 b3); apply lookup_insert_eq.
Qed.

Lemma bonded_terms_defined_once_witness :
  exists mm1 mm2,
    defineBondStretch rep_with_torsions 0 0 1 1 = Ok mm1
    /\ defineBondBend mm1 0 0 0 1 90 = Ok mm2
    /\ exists mm3, defineBondStretch mm2 0 0 2 2 = Thrown APIArgcheckFailed mm3
                   /\ bondStretch mm3 = bondStretch mm2
                   /\ bondBend mm3 = bondBend mm2.
Proof.
  pose proof (defineBondStretch_runs rep_with_torsions 0 0 1 1
                eq_refl eq_refl ltac:(lra) ltac:(lra) eq_refl) as Hs.
  match type of Hs with _ = Ok ?mm1 =>
    pose proof (defineBondBend_runs mm1 0 0 0 1 90
                  eq_refl eq_refl eq_refl ltac:(lra) ltac:(lra) eq_refl) as Hb
  end.
  eexists _, _. split; [exact Hs |]. split; [exact Hb |].
  apply (proj1 (bonded_terms_defined_once _ _ _ _ _ _ _ _ _ _ _ _ Hs Hb 2%R 2%R) 0 0).
  by left.
Defined.

(** ** Building the molecule: atoms and bonds *)

Lemma isValidAtom_Some (mm : DuMMRep) (i : Z) :
  isValidAtom mm i = true ->
  exists a, vec_at (atoms mm) i = Some a /\ Atom_isValid a = true.
Proof.
  unfold isValidAtom. rewrite !andb_true_iff. intros [_ Ha].
  destruct (vec_at (atoms mm) i) as [a |]; [by exists a | discriminate].
Qed.

Lemma isBondedTo_spec (a : Atom) (anum : Z) :
  isBondedTo a anum = true <-> anum ∈ bond12 a.
Proof.
  unfold isBondedTo. rewrite existsb_exists. split.
  - intros (b & Hb & Heq). apply Z.eqb_eq in Heq as <-.
    by apply list_elem_of_In.
  - intros Hin. exists anum. split; [by apply list_elem_of_In | apply Z.eqb_refl].
Qed.

Lemma push_bond12_spec (mm mm' : DuMMRep) (n x : Z) :
  push_bond12 mm n x = Some mm' ->
  (forall i, bond12_of mm' i
             = if decide (i = n) then bond12_of mm n ++ [x] else bond12_of mm i)
  /\ length (atoms mm') = length (atoms mm)
  /\ (forall i a', vec_at (atoms mm') i = Some a' ->
        exists a, vec_at (atoms mm) i = Some a
                  /\ atomIndex a' = atomIndex a
                  /\ Atom_isValid a' = Atom_isValid a)
  /\ (forall i a, vec_at (atoms mm) i = Some a ->
        exists a', vec_at (atoms mm') i = Some a').
Proof.
  unfold push_bond12. destruct (vec_at (atoms mm) n) as [a |] eqn:Ha;
    [| discriminate].
  intros [= <-]. repeat split.
  - intros i. unfold bond12_of. rewrite (vec_at_store_atom _ _ _ _ _ Ha).
    destruct (decide (i = n)) as [-> |]; [by rewrite Ha | done].
  - apply length_store_atom.
  - intros i a'. rewrite (vec_at_store_atom _ _ _ _ _ Ha).
    destruct (decide (i = n)) as [-> |].
    + intros [= <-]. by exists a.
    + intros Hi. by exists a'.
  - intros i a0 Hi. rewrite (vec_at_store_atom _ _ _ _ _ Ha).
    destruct (decide (i = n)); eauto.
Qed.

(** The three outcomes of [addBond], with [lo] and [hi] the two atom
    indices in increasing order. *)
Lemma addBond_spec (mm : DuMMRep) (bonds : list IndexPair) (a1 a2 : Z) :
  let lo := Z.min a1 a2 in
  let hi := Z.max a1 a2 in
  match addBond mm bonds a1 a2 with
  | Returns (mm', bonds') ix =>
      isValidAtom mm a1 = true /\ isValidAtom mm a2 = true /\ a1 <> a2
      /\ (hi ∉ bond12_of mm lo)
      /\ bonds' = bonds ++ [(lo, hi)] /\ ix = vec_size bonds
      /\ length (atoms mm') = length (atoms mm)
      /\ (forall i, bond12_of mm' i
                    = if decide (i = hi) then bond12_of mm hi ++ [lo]
                      else if decide (i = lo) then bond12_of mm lo ++ [hi]
                      else bond12_of mm i)
      /\ (forall i a', vec_at (atoms mm') i = Some a' ->
            exists a, vec_at (atoms mm) i = Some a
                      /\ atomIndex a' = atomIndex a
                      /\ Atom_isValid a' = Atom_isValid a)
  | Throws e (mm', bonds') =>
      e = APIArgcheckFailed
      /\ mm' = invalidateSubsystemTopologyCache mm /\ bonds' = bonds
      /\ (isValidAtom mm a1 = false \/ isValidAtom mm a2 = false \/ a1 = a2
          \/ hi ∈ bond12_of mm lo)
  | Unchecked => False
  end.
Proof.
  intros lo hi. unfold addBond.
  change (isValidAtom (invalidateSubsystemTopologyCache mm)) with (isValidAtom mm).
  destruct (isValidAtom mm a1) eqn:H1; cbn [negb]; [| by auto].
  destruct (isValidAtom mm a2) eqn:H2; cbn [negb]; [| by auto 6].
  destruct (Z.eqb_spec a1 a2) as [Heq | Hne]; cbn [negb]; [by auto 8 |].
  assert ((if a1 >? a2 then (a2, a1) else (a1, a2)) = (lo, hi)) as ->.
  { unfold lo, hi. destruct (Z.gtb_spec a1 a2); f_equal; lia. }
  assert (isValidAtom mm lo = true /\ isValidAtom mm hi = true /\ lo <> hi)
    as (Hlo & Hhi & Hlh).
  { unfold lo, hi. destruct (Z.min_spec a1 a2) as [[? ->] | [? ->]];
      destruct (Z.max_spec a1 a2) as [[? ->] | [? ->]];
      try lia; repeat split; first [done | lia]. }
  apply isValidAtom_Some in Hlo as (rlo & Hrlo & _).
  apply isValidAtom_Some in Hhi as (rhi & Hrhi & _).
  change (atoms (invalidateSubsystemTopologyCache mm)) with (atoms mm).
  rewrite Hrlo.
  assert (bond12_of mm lo = bond12 rlo) as Hblo by (unfold bond12_of; by rewrite Hrlo).
  destruct (isBondedTo rlo hi) eqn:Hbonded; cbn [negb].
  { apply isBondedTo_spec in Hbonded. rewrite Hblo. auto 8. }
  assert (hi ∉ bond12 rlo) as Hfree.
  { intros Hin. apply isBondedTo_spec in Hin. congruence. }
  destruct (push_bond12 (invalidateSubsystemTopologyCache mm) lo hi)
    as [mmA |] eqn:HA.
  2:{ unfold push_bond12 in HA.
      change (atoms (invalidateSubsystemTopologyCache mm)) with (atoms mm) in HA.
      by rewrite Hrlo in HA. }
  apply push_bond12_spec in HA as (HAb & HAlen & HAat & HAex).
  destruct (HAex hi rhi Hrhi) as [rhi' Hrhi'].
  destruct (push_bond12 mmA hi lo) as [mmB |] eqn:HB.
  2:{ unfold push_bond12 in HB. by rewrite Hrhi' in HB. }
  apply push_bond12_spec in HB as (HBb & HBlen & HBat & _).
  unfold mkIndexPair.
  split; [done |]. split; [done |]. split; [done |].
  split; [by rewrite Hblo |]. split; [done |]. split.
  { unfold vec_size. rewrite length_app. cbn [length]. lia. }
  split; [by rewrite HBlen, HAlen |]. split.
  - intros i. rewrite HBb. destruct (decide (i = hi)) as [-> |].
    + rewrite HAb. destruct (decide (hi = lo)) as [Heq |]; [congruence | done].
    + by rewrite HAb.
  - intros i a' Hi.
    destruct (HBat i a' Hi) as (aA & HiA & Hix & Hval).
    destruct (HAat i aA HiA) as (a & Hi0 & Hix0 & Hval0).
    exists a. split; [done |]. split; congruence.
Qed.

Lemma vec_at_snoc {A : Type} (v : list A) (x : A) (i : Z) :
  vec_at (v ++ [x]) i = if decide (i = vec_size v) then Some x else vec_at v i.
Proof.
  unfold vec_at, vec_size. destruct (Z.ltb_spec i 0) as [Hneg | Hpos].
  - destruct (decide (i = Z.of_nat (length v))); [lia | done].
  - destruct (decide (i = Z.of_nat (length v))) as [-> | Hne].
    + rewrite Nat2Z.id. by apply list_lookup_middle.
    + destruct (decide (Z.to_nat i < length v)%nat).
      * by apply lookup_app_l.
      * rewrite !lookup_ge_None_2; [done | lia |].
        rewrite length_app. cbn [length]. lia.
Qed.

(** The two outcomes of [addAtom]. *)
Lemma addAtom_spec (mm : DuMMRep) (t : Z) :
  match addAtom mm t with
  | Returns mm' ix =>
      isValidChargedAtomType mm t = true
      /\ ix = vec_size (atoms mm)
      /\ vec_size (atoms mm') = vec_size (atoms mm) + 1
      /\ (forall i, vec_at (atoms mm') i
                    = if decide (i = ix) then Some (newAtom t ix)
                      else vec_at (atoms mm) i)
      /\ (forall i, bond12_of mm' i = bond12_of mm i)
  | Throws e mm' =>
      e = APIArgcheckFailed /\ mm' = invalidateSubsystemTopologyCache mm
      /\ isValidChargedAtomType mm t = false
  | Unchecked => False
  end.
Proof.
  unfold addAtom.
  change (isValidChargedAtomType (invalidateSubsystemTopologyCache mm))
    with (isValidChargedAtomType mm).
  destruct (isValidChargedAtomType mm t) eqn:Ht; cbn [negb]; [| done].
  cbn [atoms set_atoms invalidateSubsystemTopologyCache].
  split; [done |]. split; [done |]. split.
  { unfold vec_size. rewrite length_app. cbn [length]. lia. }
  split; [intros i; apply vec_at_snoc |].
  intros i. unfold bond12_of.
  cbn [atoms set_atoms invalidateSubsystemTopologyCache].
  rewrite vec_at_snoc. destruct (decide (i = vec_size (atoms mm))) as [-> | Hne];
    [| done].
  cbn [bond12 newAtom].
  destruct (vec_at (atoms mm) (vec_size (atoms mm))) as [a |] eqn:Ha; [| done].
  apply vec_at_Some_range in Ha. lia.
Qed.

Lemma isValidChargedAtomType_nonneg (mm : DuMMRep) (t : Z) :
  isValidChargedAtomType mm t = true -> 0 <= t.
Proof.
  unfold isValidChargedAtomType. rewrite !andb_true_iff. intros [[H _] _]. lia.
Qed.

(** X16: the molecule stays well formed while it is built.  If the bond
    graph is symmetric, without self bond or double bond, every atom sits
    at its own index and is valid, every bonded atom exists, and [bonds]
    lists each bond once with the lower index first, then all of this
    still holds after [addAtom] and after [addBond], whether the call
    returns or throws; neither call reads outside a vector. *)
Theorem topology_stays_well_formed (mm : DuMMRep) (bonds : list IndexPair) :
  bondGraph_wf mm -> atoms_wf mm bonds ->
  (forall t, match addAtom mm t with
             | Returns mm' _ => bondGraph_wf mm' /\ atoms_wf mm' bonds
             | Throws _ mm' => bondGraph_wf mm' /\ atoms_wf mm' bonds
             | Unchecked => False
             end)
  /\ (forall a1 a2, match addBond mm bonds a1 a2 with
                    | Returns (mm', bonds') _ =>
                        bondGraph_wf mm' /\ atoms_wf mm' bonds'
                    | Throws _ (mm', bonds') =>
                        bondGraph_wf mm' /\ atoms_wf mm' bonds'
                    | Unchecked => False
                    end).
Proof.
  intros Hgraph Hatoms. split.
  - intros t. pose proof (addAtom_spec mm t) as Hspec.
    destruct (addAtom mm t) as [mm' ix | e mm' |]; [| | done].
    + destruct Hspec as (Ht & -> & Hsize & Hat & Hb12).
      destruct Hgraph as (Hsym & Hirr & Hnd).
      destruct Hatoms as (Hix & Hrange & Hndb & Hbonds).
      split; [| split; [| split; [| split]]].
      * repeat split; intros *; rewrite ?Hb12; auto.
      * intros i a. rewrite Hat.
        destruct (decide (i = vec_size (atoms mm))) as [-> |]; [| by apply Hix].
        intros [= <-]. split; [done |].
        unfold Atom_isValid, newAtom, vec_size. cbn [atomIndex a_chargedAtomTypeIndex].
        apply isValidChargedAtomType_nonneg in Ht.
        apply andb_true_iff. split; apply Z.geb_le; lia.
      * intros i j. rewrite Hb12, Hsize. intros Hj%Hrange. lia.
      * done.
      * intros a b. rewrite Hb12. apply Hbonds.
    + by destruct Hspec as (_ & -> & _).
  - intros a1 a2. pose proof (addBond_spec mm bonds a1 a2) as Hspec.
    cbv zeta in Hspec.
    destruct (addBond mm bonds a1 a2) as [[mm' bonds'] ix | e [mm' bonds'] |];
      [| | done].
    2:{ by destruct Hspec as (_ & -> & -> & _). }
    set (lo := Z.min a1 a2) in *. set (hi := Z.max a1 a2) in *.
    destruct Hspec as (H1 & H2 & Hne & Hfree & -> & _ & Hlen & Hb12 & Hat).
    destruct Hgraph as (Hsym & Hirr & Hnd).
    destruct Hatoms as (Hix & Hrange & Hndb & Hbonds).
    assert (lo < hi) as Hlt by (unfold lo, hi; lia).
    assert (0 <= lo < vec_size (atoms mm) /\ 0 <= hi < vec_size (atoms mm))
      as [Hrlo Hrhi].
    { apply isValidAtom_Some in H1 as (r1 & Hr1%vec_at_Some_range & _).
      apply isValidAtom_Some in H2 as (r2 & Hr2%vec_at_Some_range & _).
      unfold lo, hi. lia. }
    assert (lo ∉ bond12_of mm hi) as Hfree' by (intros Hin; by apply Hsym in Hin).
    assert (forall i j, j ∈ bond12_of mm' i <->
              j ∈ bond12_of mm i \/ (i = lo /\ j = hi) \/ (i = hi /\ j = lo))
      as Hin'.
    { intros i j. rewrite Hb12.
      destruct (decide (i = hi)) as [-> |]; [| destruct (decide (i = lo)) as [-> |]];
        rewrite ?elem_of_app, ?list_elem_of_singleton; intuition lia. }
    split; [| split; [| split; [| split]]].
    + repeat split.
      * intros i j. rewrite !Hin'. intros [Hij | [[-> ->] | [-> ->]]]; auto.
      * intros i. rewrite Hin'. intros [Hii | [[-> ?] | [-> ?]]];
          [by apply (Hirr i) | lia | lia].
      * intros i. rewrite Hb12.
        destruct (decide (i = hi)); [| destruct (decide (i = lo))];
          rewrite ?NoDup_app; repeat split; auto;
          try (intros x Hx Hx'%list_elem_of_singleton; by subst);
          apply NoDup_singleton.
    + intros i a Hi. destruct (Hat i a Hi) as (a0 & Hi0 & -> & ->).
      by apply Hix.
    + intros i j. rewrite Hin'. unfold vec_size in *. rewrite Hlen.
      intros [Hij%Hrange | [[-> ->] | [-> ->]]]; done.
    + apply NoDup_app. split; [done |]. split; [| apply NoDup_singleton].
      intros x Hx Hx'%list_elem_of_singleton. subst x.
      apply Hbonds in Hx as [_ Hx]. done.
    + intros a b. rewrite elem_of_app, list_elem_of_singleton, Hin', Hbonds.
      split.
      * intros [[? ?] | [= -> ->]]; auto.
      * intros [Hab [Hin | [[-> ->] | [-> ->]]]]; auto. lia.
Qed.

Lemma topology_stays_well_formed_witness :
  (forall t, match addAtom newDuMMRep t with
             | Returns mm' _ => bondGraph_wf mm' /\ atoms_wf mm' []
             | Throws _ mm' => bondGraph_wf mm' /\ atoms_wf mm' []
             | Unchecked => False
             end)
  /\ (forall a1 a2, match addBond newDuMMRep [] a1 a2 with
                    | Returns (mm', bonds') _ =>
                        bondGraph_wf mm' /\ atoms_wf mm' bonds'
                    | Throws _ (mm', bonds') =>
                        bondGraph_wf mm' /\ atoms_wf mm' bonds'
                    | Unchecked => False
                    end).
Proof.
  assert (forall i, bond12_of newDuMMRep i = []) as Hnone.
  { intros i. unfold bond12_of, vec_at. cbn [atoms newDuMMRep].
    by destruct (i <? 0). }
  assert (forall i, vec_at (atoms newDuMMRep) i = None) as Hempty.
  { intros i. unfold vec_at. cbn [atoms newDuMMRep]. by destruct (i <? 0). }
  apply topology_stays_well_formed.
  - repeat split; intros *; rewrite ?Hnone;
      [by intros ?%elem_of_nil | by intros ?%elem_of_nil | apply NoDup_nil_2].
  - split; [| split; [| split]].
    + intros i a. by rewrite Hempty.
    + intros i j. rewrite Hnone. by intros ?%elem_of_nil.
    + apply NoDup_nil_2.
    + intros a b. rewrite Hnone. split.
      * by intros ?%elem_of_nil.
      * by intros [_ ?%elem_of_nil].
Defined.

(** X17: a bond joins two distinct valid atoms, once.  On a symmetric
    bond graph, for two distinct valid atoms that are not bonded yet,
    [addBond] returns the old number of bonds as the new bond's index,
    records the pair with the lower index first, makes each atom a 1-2
    neighbour of the other and leaves the neighbours of every other atom
    alone; adding the same bond again, the atoms in either order, throws
    and changes neither the atoms nor the bonds. *)
Theorem addBond_once_per_pair (mm : DuMMRep) (bonds : list IndexPair) (a1 a2 : Z) :
  bondGraph_wf mm ->
  isValidAtom mm a1 = true -> isValidAtom mm a2 = true -> a1 <> a2 ->
  a2 ∉ bond12_of mm a1 ->
  exists mm',
    let bonds' := bonds ++ [(Z.min a1 a2, Z.max a1 a2)] in
    addBond mm bonds a1 a2 = Returns (mm', bonds') (vec_size bonds)
    /\ a2 ∈ bond12_of mm' a1 /\ a1 ∈ bond12_of mm' a2
    /\ (forall i, i <> a1 -> i <> a2 -> bond12_of mm' i = bond12_of mm i)
    /\ addBond mm' bonds' a1 a2
       = Throws APIArgcheckFailed (invalidateSubsystemTopologyCache mm', bonds')
    /\ addBond mm' bonds' a2 a1
       = Throws APIArgcheckFailed (invalidateSubsystemTopologyCache mm', bonds').
Proof.
  intros (Hsym & _ & _) H1 H2 Hne Hfree.
  pose proof (addBond_spec mm bonds a1 a2) as Hspec. cbv zeta in Hspec.
  destruct (addBond mm bonds a1 a2) as [[mm' bonds'] ix | e [mm' bonds'] |];
    [| | done].
  2:{ destruct Hspec as (_ & _ & _ & [? | [? | [? | Hin]]]); try congruence.
      exfalso. destruct (Z.min_spec a1 a2) as [[? Hmin] | [? Hmin]];
        destruct (Z.max_spec a1 a2) as [[? Hmax] | [? Hmax]];
        rewrite Hmin, Hmax in Hin; try lia; auto. }
  destruct Hspec as (_ & _ & _ & _ & -> & -> & _ & Hb12 & _).
  exists mm'. cbv zeta.
  assert (a2 ∈ bond12_of mm' a1 /\ a1 ∈ bond12_of mm' a2) as [Hin1 Hin2].
  { rewrite !Hb12.
    destruct (Z.min_spec a1 a2) as [[? ->] | [? ->]];
      destruct (Z.max_spec a1 a2) as [[? ->] | [? ->]]; try lia;
      repeat case_decide; try lia;
      rewrite !elem_of_app, !list_elem_of_singleton; auto. }
  assert (forall x y, Z.min x y = Z.min a1 a2 -> Z.max x y = Z.max a1 a2 ->
            addBond mm' (bonds ++ [(Z.min a1 a2, Z.max a1 a2)]) x y
            = Throws APIArgcheckFailed
                (invalidateSubsystemTopologyCache mm',
                 bonds ++ [(Z.min a1 a2, Z.max a1 a2)])) as Hagain.
  { intros x y Hmin Hmax.
    pose proof (addBond_spec mm' (bonds ++ [(Z.min a1 a2, Z.max a1 a2)]) x y)
      as Hspec.
    cbv zeta in Hspec. rewrite Hmin, Hmax in Hspec.
    destruct (addBond mm' _ x y) as [[mm2 bonds2] ix2 | e [mm2 bonds2] |];
      [| | done].
    - exfalso. destruct Hspec as (_ & _ & _ & Hfree2 & _). apply Hfree2.
      destruct (Z.min_spec a1 a2) as [[? ->] | [? ->]];
        destruct (Z.max_spec a1 a2) as [[? ->] | [? ->]]; try lia; done.
    - by destruct Hspec as (-> & -> & -> & _). }
  split; [done |]. split; [done |]. split; [done |]. split.
  - intros i Hi1 Hi2. rewrite Hb12. repeat case_decide; lia || done.
  - split; apply Hagain; lia.
Qed.

Lemma addBond_once_per_pair_witness :
  exists mm',
    let bonds' := [(0, 1); (0, 2); (0, 3); (1, 4)]
                  ++ [(Z.min 3 2, Z.max 3 2)] in
    addBond (molecule (0, 0, 0, 0)) [(0, 1); (0, 2); (0, 3); (1, 4)] 3 2
    = Returns (mm', bonds') (vec_size [(0, 1); (0, 2); (0, 3); (1, 4)])
    /\ 2 ∈ bond12_of mm' 3 /\ 3 ∈ bond12_of mm' 2
    /\ (forall i, i <> 3 -> i <> 2 ->
                  bond12_of mm' i = bond12_of (molecule (0, 0, 0, 0)) i)
    /\ addBond mm' bonds' 3 2
       = Throws APIArgcheckFailed (invalidateSubsystemTopologyCache mm', bonds')
    /\ addBond mm' bonds' 2 3
       = Throws APIArgcheckFailed (invalidateSubsystemTopologyCache mm', bonds').
Proof.
  apply (addBond_once_per_pair (molecule (0, 0, 0, 0)));
    [apply bondGraph_wf_molecule | reflexivity | reflexivity | lia |].
  rewrite bond12_of_molecule. repeat case_decide; try lia. set_solver.
Defined.

(** ** Atom classes and charged atom types *)

(** The slot idiom of the definition routines: [if (ix >= v.size())
    v.resize(ix+1)] leaves the old elements alone and fills up with
    default-constructed ones. *)
Lemma vec_at_ensure_slot {A : Type} (dflt : A) (v : list A) (ix i : Z) :
  0 <= ix ->
  vec_at (if ix >=? vec_size v then vec_resize dflt v (ix + 1) else v) i
  = if decide (i < vec_size v) then vec_at v i
    else if decide (i <= ix) then Some dflt else None.
Proof.
  intros Hix. unfold vec_size.
  destruct (Z.geb_spec ix (Z.of_nat (length v))) as [Hge | Hlt].
  - unfold vec_resize, vec_at. destruct (Z.ltb_spec i 0) as [Hneg | Hpos].
    + by destruct (decide (i < Z.of_nat (length v))); [| lia].
    + rewrite take_ge by lia.
      destruct (decide (i < Z.of_nat (length v))).
      * apply lookup_app_l. lia.
      * rewrite lookup_app_r by lia.
        destruct (decide (i <= ix)).
        -- apply lookup_replicate_2. lia.
        -- apply lookup_ge_None_2. rewrite length_replicate. lia.
  - destruct (decide (i < Z.of_nat (length v))); [done |].
    destruct (decide (i <= ix)); [lia |].
    unfold vec_at. destruct (i <? 0); [done |].
    apply lookup_ge_None_2. lia.
Qed.

Lemma isValidAtomClass_iff (mm : DuMMRep) (c : Z) :
  isValidAtomClass mm c = true
  <-> exists x, vec_at (atomClasses mm) c = Some x /\ AtomClass_isValid x = true.
Proof.
  unfold isValidAtomClass. split.
  - rewrite !andb_true_iff. intros [_ Hc].
    destruct (vec_at (atomClasses mm) c) as [x |]; [by exists x | discriminate].
  - intros (x & Hx & Hval). rewrite Hx, Hval.
    apply vec_at_Some_range in Hx.
    rewrite !andb_true_iff. repeat split; [apply Z.leb_le | apply Z.ltb_lt]; lia.
Qed.

Lemma isValidAtomClass_ext (mm mm' : DuMMRep) (c : Z) :
  (forall x, vec_at (atomClasses mm') c = Some x /\ AtomClass_isValid x = true
             <-> vec_at (atomClasses mm) c = Some x /\ AtomClass_isValid x = true) ->
  isValidAtomClass mm' c = isValidAtomClass mm c.
Proof.
  intros Hext. apply eq_true_iff_eq. rewrite !isValidAtomClass_iff.
  split; intros (x & Hx); exists x; by apply Hext.
Qed.

Lemma defineIncompleteAtomClass_runs (mm : DuMMRep) (classIx el val : Z) :
  0 <= classIx -> isValidElement el = true -> 0 <= val ->
  isValidAtomClass mm classIx = false ->
  exists mm',
    defineIncompleteAtomClass mm classIx el val = Ok mm'
    /\ forall i, vec_at (atomClasses mm') i
                 = if decide (i = classIx)
                   then Some (mkAtomClass classIx el val None None)
                   else if decide (i < vec_size (atomClasses mm))
                        then vec_at (atomClasses mm) i
                        else if decide (i <= classIx) then Some AtomClass_default
                             else None.
Proof.
  intros Hix Hel Hval Hfresh. unfold defineIncompleteAtomClass.
  rewrite Hel. destruct (Z.geb_spec classIx 0); [| lia].
  destruct (Z.geb_spec val 0); [| lia]. cbn [negb].
  set (mm0 := invalidateSubsystemTopologyCache mm).
  set (mm1 := if classIx >=? vec_size (atomClasses mm0) then _ else mm0).
  assert (forall i, vec_at (atomClasses mm1) i
                    = if decide (i < vec_size (atomClasses mm)) then vec_at (atomClasses mm) i
                      else if decide (i <= classIx) then Some AtomClass_default
                           else None) as Hslot.
  { intros i. rewrite <- (vec_at_ensure_slot AtomClass_default _ classIx i Hix).
    unfold mm1, mm0. cbn [atomClasses invalidateSubsystemTopologyCache].
    by destruct (classIx >=? vec_size (atomClasses mm)). }
  assert (exists old, vec_at (atomClasses mm1) classIx = Some old
                      /\ AtomClass_isValid old = false) as (old & Hold & Hinv).
  { rewrite Hslot. destruct (decide (classIx < vec_size (atomClasses mm))).
    - destruct (vec_at (atomClasses mm) classIx) as [old |] eqn:Hold.
      + exists old. split; [done |].
        destruct (AtomClass_isValid old) eqn:Hv; [| done].
        rewrite (proj2 (isValidAtomClass_iff mm classIx)) in Hfresh; eauto.
      + unfold vec_at, vec_size in *. destruct (Z.ltb_spec classIx 0); [lia |].
        apply lookup_ge_None_1 in Hold. lia.
    - destruct (decide (classIx <= classIx)); [| lia]. by exists AtomClass_default. }
  rewrite Hold, Hinv. cbn [negb]. eexists. split; [reflexivity |].
  intros i. cbn [atomClasses set_atomClasses].
  destruct (decide (i = classIx)) as [-> |].
  - by eapply vec_at_insert_eq.
  - rewrite <- Hslot. unfold vec_at. destruct (Z.ltb_spec i 0); [done |].
    apply list_lookup_insert_ne. lia.
Qed.

(** X18: defining an atom class.  For a nonnegative index that is not a
    defined class, a valid element and a nonnegative valence,
    [defineIncompleteAtomClass] succeeds whether the index is inside the
    vector or beyond its end; afterwards the index is a defined class that
    is not complete (no van der Waals parameters yet), every other index
    is a defined class exactly when it was before, with the same entry,
    and a second definition of the index throws without changing the
    classes. *)
Theorem atom_class_defined_once (mm : DuMMRep) (classIx el val : Z) :
  0 <= classIx -> isValidElement el = true -> 0 <= val ->
  isValidAtomClass mm classIx = false ->
  exists mm',
    defineIncompleteAtomClass mm classIx el val = Ok mm'
    /\ isValidAtomClass mm' classIx = true
    /\ vec_at (atomClasses mm') classIx = Some (mkAtomClass classIx el val None None)
    /\ AtomClass_isComplete (mkAtomClass classIx el val None None) = false
    /\ (forall c, c <> classIx ->
          isValidAtomClass mm' c = isValidAtomClass mm c
          /\ (isValidAtomClass mm c = true ->
              vec_at (atomClasses mm') c = vec_at (atomClasses mm) c))
    /\ forall el' val',
         exists mm'', defineIncompleteAtomClass mm' classIx el' val'
                      = Thrown APIArgcheckFailed mm''
                      /\ atomClasses mm'' = atomClasses mm'.
Proof.
  intros Hix Hel Hval Hfresh.
  destruct (defineIncompleteAtomClass_runs mm classIx el val)
    as (mm' & Hrun & Hat); try done.
  exists mm'. split; [done |].
  assert (vec_at (atomClasses mm') classIx
          = Some (mkAtomClass classIx el val None None)) as Hnew.
  { rewrite Hat. by destruct (decide (classIx = classIx)). }
  assert (AtomClass_isValid (mkAtomClass classIx el val None None) = true) as Hv.
  { unfold AtomClass_isValid, isValidElement in *.
    cbn [atomClassIx element valence].
    apply andb_true_iff in Hel as [Hel _].
    rewrite !andb_true_iff. repeat split;
      [apply Z.geb_le | apply Z.gtb_lt | apply Z.geb_le]; lia. }
  split; [apply isValidAtomClass_iff; eauto |].
  split; [done |]. split.
  { unfold AtomClass_isComplete. cbn [vdwRadius Real_nonneg].
    by rewrite andb_false_r. }
  split.
  - intros c Hc.
    assert (forall x, vec_at (atomClasses mm') c = Some x /\ AtomClass_isValid x = true
                      <-> vec_at (atomClasses mm) c = Some x /\ AtomClass_isValid x = true)
      as Hext.
    { intros x. rewrite Hat. destruct (decide (c = classIx)); [done |].
      destruct (decide (c < vec_size (atomClasses mm))) as [| Hge]; [done |].
      assert (vec_at (atomClasses mm) c = None) as ->.
      { destruct (vec_at (atomClasses mm) c) eqn:Hc'; [| done].
        apply vec_at_Some_range in Hc'. lia. }
      destruct (decide (c <= classIx)); split; intros [[=] Hx]; subst; done. }
    split; [by apply isValidAtomClass_ext |].
    intros (x & Hx & Hvx)%isValidAtomClass_iff.
    rewrite Hx. by apply Hext.
  - intros el' val'. unfold defineIncompleteAtomClass.
    repeat (match goal with
            | |- context [if negb ?b then _ else _] =>
                lazymatch b with
                | negb _ => fail
                | _ => destruct b; cbn [negb]
                end
            end; try (eexists; split; [reflexivity | done])).
    set (mm0 := invalidateSubsystemTopologyCache mm').
    assert ((if classIx >=? vec_size (atomClasses mm0)
             then set_atomClasses
                    (fun v => vec_resize AtomClass_default v (classIx + 1)) mm0
             else mm0) = mm0) as ->.
    { apply vec_at_Some_range in Hnew.
      destruct (Z.geb_spec classIx (vec_size (atomClasses mm0))); [| done].
      unfold mm0 in *. cbn [atomClasses invalidateSubsystemTopologyCache] in *. lia. }
    change (atomClasses mm0) with (atomClasses mm').
    rewrite Hnew, Hv. cbn [negb]. by eexists.
Qed.

Lemma atom_class_defined_once_witness :
  exists mm',
    defineIncompleteAtomClass rep_with_torsions 3 6 4 = Ok mm'
    /\ isValidAtomClass mm' 3 = true
    /\ vec_at (atomClasses mm') 3 = Some (mkAtomClass 3 6 4 None None)
    /\ AtomClass_isComplete (mkAtomClass 3 6 4 None None) = false
    /\ (forall c, c <> 3 ->
          isValidAtomClass mm' c = isValidAtomClass rep_with_torsions c
          /\ (isValidAtomClass rep_with_torsions c = true ->
              vec_at (atomClasses mm') c = vec_at (atomClasses rep_with_torsions) c))
    /\ forall el' val',
         exists mm'', defineIncompleteAtomClass mm' 3 el' val'
                      = Thrown APIArgcheckFailed mm''
                      /\ atomClasses mm'' = atomClasses mm'.
Proof.
  apply atom_class_defined_once; first [reflexivity | lia].
Defined.

(** ** Realization: the parameters stored with the atoms *)

Lemma sameParameters_refl (mm : DuMMRep) : sameParameters mm mm.
Proof. by repeat split. Qed.

Lemma sameParameters_trans (mm1 mm2 mm3 : DuMMRep) :
  sameParameters mm1 mm2 -> sameParameters mm2 mm3 -> sameParameters mm1 mm3.
Proof.
  intros (A1 & A2 & A3 & A4 & A5 & A6 & A7) (B1 & B2 & B3 & B4 & B5 & B6 & B7).
  repeat split; first [congruence | intros i; by rewrite B7].
Qed.

Lemma sameParameters_store_atom (mm : DuMMRep) (i : Z) (a a' : Atom) :
  vec_at (atoms mm) i = Some a ->
  a_chargedAtomTypeIndex a' = a_chargedAtomTypeIndex a ->
  sameParameters mm (store_atom mm i a').
Proof.
  intros Hi Htype. repeat split. intros j.
  rewrite (vec_at_store_atom _ _ _ _ _ Hi).
  destruct (decide (j = i)) as [-> |]; [| done].
  rewrite Hi. cbn [fmap option_fmap option_map]. by rewrite Htype.
Qed.

Lemma sameParameters_fmap (mm : DuMMRep) (f : Atom -> Atom) :
  (forall a, a_chargedAtomTypeIndex (f a) = a_chargedAtomTypeIndex a) ->
  sameParameters mm (set_atoms (fmap f) mm).
Proof.
  intros Hf. repeat split. intros i. unfold vec_at. cbn [atoms set_atoms].
  destruct (i <? 0); [done |].
  rewrite list_lookup_fmap. destruct (atoms mm !! Z.to_nat i) as [a |]; simpl;
    [by rewrite Hf | done].
Qed.

Lemma sameParameters_getAtomClassIndex (mm mm' : DuMMRep) (i : Z) :
  sameParameters mm mm' -> getAtomClassIndex mm' i = getAtomClassIndex mm i.
Proof.
  intros (_ & Htypes & _ & _ & _ & _ & Hat). unfold getAtomClassIndex.
  specialize (Hat i). rewrite Htypes.
  destruct (vec_at (atoms mm') i) as [a' |], (vec_at (atoms mm) i) as [a |];
    try done.
  injection Hat as ->. done.
Qed.

Lemma sameParameters_assignBodies (mm mm' : DuMMRep) :
  assignBodies mm = Some mm' -> sameParameters mm mm'.
Proof.
  unfold assignBodies. intros Hrun.
  eapply sameParameters_trans;
    [apply (sameParameters_fmap mm
              (fun a => Atom_on_body a InvalidMobilizedBodyIndex (station_B a)));
     reflexivity |].
  eapply (forEachM_preserves sameParameters);
    [apply sameParameters_refl | apply sameParameters_trans | | exact Hrun].
  intros s b s' Hb. cbv beta in Hb. destruct (negb (DuMMBody_isValid b)).
  - injection Hb as <-. apply sameParameters_refl.
  - eapply (forEachM_preserves sameParameters);
      [apply sameParameters_refl | apply sameParameters_trans | | exact Hb].
    intros s0 ap s1. unfold placeOnBody.
    destruct (vec_at (atoms s0) (ap_atomIndex ap)) as [a |] eqn:Ha; [| discriminate].
    intros [= <-]. by apply (sameParameters_store_atom s0 _ a).
Qed.

Lemma assignChecked_true_inv {X P : Type} (get : X -> P) (valid : P -> bool)
    (dflt : P) (xs : list X) (ps : list P) :
  assignChecked get valid dflt xs = (ps, true) ->
  ps = get <$> xs /\ Forall (fun p => valid p = true) ps.
Proof.
  revert ps. induction xs as [| x xs IH]; intros ps; cbn [assignChecked].
  - intros [= <-]. by split.
  - destruct (valid (get x)) eqn:Hv; [| discriminate].
    destruct (assignChecked get valid dflt xs) as [ps' ok].
    intros [= <- ->]. destruct (IH ps' eq_refl) as [-> Hall].
    split; [done |]. by apply Forall_cons.
Qed.

Lemma sameParameters_lookups (mm mm' : DuMMRep) :
  sameParameters mm mm' ->
  (forall c1 c2, getBondStretch mm' c1 c2 = getBondStretch mm c1 c2)
  /\ (forall c1 c2 c3, getBondBend mm' c1 c2 c3 = getBondBend mm c1 c2 c3)
  /\ (forall c1 c2 c3 c4,
        getBondTorsion mm' c1 c2 c3 c4 = getBondTorsion mm c1 c2 c3 c4).
Proof.
  intros (_ & _ & Hs & Hb & Ht & _).
  unfold getBondStretch, getBondBend, getBondTorsion.
  rewrite Hs, Hb, Ht. done.
Qed.

Lemma realizeAtom_parameters (mm0 mm : DuMMRep) (cell : option BondTorsion)
    (anum : Z) (mm' : DuMMRep) (cell' : option BondTorsion) :
  sameParameters mm0 mm ->
  realizeAtom mm cell anum = Ok (mm', cell') ->
  sameParameters mm0 mm'
  /\ (exists a', vec_at (atoms mm') anum = Some a'
                 /\ parameters_of_tables mm0 anum a')
  /\ (forall j, j <> anum -> vec_at (atoms mm') j = vec_at (atoms mm) j).
Proof.
  intros Hsame. unfold realizeAtom.
  destruct (vec_at (atoms mm) anum) as [a |] eqn:Ha; [| discriminate].
  cbv zeta.
  set (b12 := std_sort Z.ltb (bond12 a)).
  set (mm1 := store_atom mm anum (Atom_with_bond12 a b12)).
  set (n := realizeNeighborhoods mm1 anum b12 (bodyIx a)).
  assert (sameParameters mm0 mm1) as Hsame1.
  { eapply sameParameters_trans; [exact Hsame |].
    by apply (sameParameters_store_atom mm anum a). }
  assert (vec_at (atoms mm1) anum = Some (Atom_with_bond12 a b12)) as Ha1.
  { unfold mm1. rewrite (vec_at_store_atom _ _ _ _ _ Ha). by rewrite decide_True. }
  destruct (assignChecked _ BondStretch_isValid _ _) as [st [|]] eqn:Hst;
    [| discriminate].
  destruct (assignChecked _ BondBend_isValid _ _) as [bd [|]] eqn:Hbd;
    [| discriminate].
  destruct (assignChecked _ BondTorsion_isValid _ _) as [tr [|]] eqn:Htr;
    [| discriminate].
  cbn [negb].
  destruct (buildImpropers _ _ _ _) as [[i14 its] cell''].
  intros [= <- <-].
  apply assignChecked_true_inv in Hst as [Hst Hstv].
  apply assignChecked_true_inv in Hbd as [Hbd Hbdv].
  apply assignChecked_true_inv in Htr as [Htr Htrv].
  destruct (sameParameters_lookups _ _ Hsame1) as (Hgs & Hgb & Hgt).
  pose proof (fun i => sameParameters_getAtomClassIndex _ _ i Hsame1) as Hcls.
  split; [| split].
  - eapply sameParameters_trans; [exact Hsame1 |].
    by apply (sameParameters_store_atom mm1 anum (Atom_with_bond12 a b12)).
  - eexists. split.
    + rewrite (vec_at_store_atom _ _ _ _ _ Ha1). by rewrite decide_True.
    + unfold parameters_of_tables, Atom_realized.
      cbn [stretch bend torsion xbond12 xbond13 xbond14].
      split; [| split; [| split; [| split]]]; try done.
      * rewrite Hst. apply list_fmap_ext. intros _ j _. by rewrite Hgs, !Hcls.
      * rewrite Hbd. apply list_fmap_ext. intros _ [i0 i1] _.
        by rewrite Hgb, !Hcls.
      * rewrite Htr. apply list_fmap_ext. intros _ [[i0 i1] i2] _.
        by rewrite Hgt, !Hcls.
  - intros j Hne.
    rewrite (vec_at_store_atom _ _ _ _ _ Ha1), decide_False by exact Hne.
    unfold mm1. by rewrite (vec_at_store_atom _ _ _ _ _ Ha), decide_False.
Qed.

Lemma realizeAtoms_parameters (mm0 : DuMMRep) (anums : list Z)
    (st st' : DuMMRep * option BondTorsion) :
  sameParameters mm0 (fst st) ->
  realizeAtoms anums st = Ok st' ->
  sameParameters mm0 (fst st')
  /\ (forall j, j ∈ anums ->
        exists a', vec_at (atoms (fst st')) j = Some a'
                   /\ parameters_of_tables mm0 j a')
  /\ (forall j, j ∉ anums -> vec_at (atoms (fst st')) j = vec_at (atoms (fst st)) j).
Proof.
  revert st. induction anums as [| anum rest IH]; intros st Hsame Hok; simpl in Hok.
  - injection Hok as <-. split; [exact Hsame |]. split; [| reflexivity].
    intros j Hj. by apply elem_of_nil in Hj.
  - destruct (realizeAtom (fst st) (snd st) anum) as [[mm1 cell1] | |] eqn:Hstep;
      try discriminate.
    destruct (realizeAtom_parameters mm0 _ _ _ _ _ Hsame Hstep)
      as (Hsame1 & (a1 & Ha1 & Hreal1) & Hframe1).
    destruct (IH (mm1, cell1) Hsame1 Hok) as (Hsame' & Hdone & Hframe).
    split; [exact Hsame' |]. split.
    + intros j Hj. destruct (decide (j ∈ rest)) as [Hin | Hnotin].
      * by apply Hdone.
      * apply elem_of_cons in Hj as [-> | Hj]; [| contradiction].
        exists a1. split; [| exact Hreal1]. rewrite (Hframe anum Hnotin). exact Ha1.
    + intros j Hj. apply not_elem_of_cons in Hj as [Hne Hnotin].
      rewrite (Hframe j Hnotin). simpl. by apply Hframe1.
Qed.

Lemma realized_sameParameters (mm : DuMMRep) (cell : option BondTorsion)
    (mm' : DuMMRep) (cell' : option BondTorsion) :
  realizeSubsystemTopologyImpl mm cell = Ok (mm', cell') ->
  sameParameters mm mm'
  /\ forall k r, vec_at (atoms mm') k = Some r -> parameters_of_tables mm k r.
Proof.
  intros Hok.
  apply realizeSubsystemTopologyImpl_Ok in Hok as (mm1 & Hbodies & Hloop).
  assert (sameParameters mm mm1) as Hsame1.
  { eapply sameParameters_trans;
      [apply (sameParameters_fmap mm Atom_invalidateTopologicalCache); reflexivity |].
    by apply sameParameters_assignBodies. }
  destruct (realizeAtoms_parameters mm _ (mm1, cell) (mm', cell') Hsame1 Hloop)
    as (Hsame' & Hdone & _).
  split; [done |]. intros k r Hk.
  destruct (Hdone k) as (a' & Ha' & Hparams).
  - pose proof (vec_at_Some_range _ _ _ Hk) as Hrange.
    apply elem_of_seqZ.
    assert (vec_size (atoms mm1) = vec_size (atoms mm')) as ->; [| lia].
    apply sameBonds_realizeAtoms in Hloop as (_ & Hlen & _).
    unfold vec_size. cbn [fst] in Hlen. lia.
  - cbn [fst] in Ha'. congruence.
Qed.

(** X19: what realization stores with an atom.  When topology
    realization returns normally, the force field tables, the classes and
    the charged types are as before and every atom has its charged type
    as before; the vectors [stretch], [bend] and [torsion] of each atom
    run parallel to its cross-body 1-2, 1-3 and 1-4 lists, and their
    entries are the valid table entries for the classes of the atoms on
    the path, looked up in the tables as they were before the call. *)
Theorem realized_parameters_from_tables (mm : DuMMRep) (cell : option BondTorsion)
    (mm' : DuMMRep) (cell' : option BondTorsion) (k : Z) (r : Atom) :
  realizeSubsystemTopologyImpl mm cell = Ok (mm', cell') ->
  vec_at (atoms mm') k = Some r ->
  sameParameters mm mm'
  /\ parameters_of_tables mm k r
  /\ length (stretch r) = length (xbond12 r)
  /\ length (bend r) = length (xbond13 r)
  /\ length (torsion r) = length (xbond14 r).
Proof.
  intros Hok Hk. destruct (realized_sameParameters _ _ _ _ Hok) as [Hsame Hall].
  pose proof (Hall k r Hk) as Hparams.
  split; [done |]. split; [done |].
  destruct Hparams as (-> & -> & -> & _).
  by rewrite !length_fmap.
Qed.

Lemma realized_parameters_from_tables_witness :
  exists (mm' : DuMMRep) (cell' : option BondTorsion) (r : Atom),
    realizeSubsystemTopologyImpl (molecule (1, 2, 0, 3)) None = Ok (mm', cell')
    /\ vec_at (atoms mm') 0 = Some r
    /\ xbond12 r = [1; 2; 3]
    /\ parameters_of_tables (molecule (1, 2, 0, 3)) 0 r.
Proof.
  destruct molecule_realized_first as (v' & Hok & _ & _ & _ & _ & H12).
  cbv zeta in Hok, H12.
  destruct (vec_at (atoms (with_atoms (molecule (1, 2, 0, 3)) v')) 0)
    as [r |] eqn:Hr; [| discriminate].
  injection H12 as H12.
  eexists _, _, r. split; [exact Hok |]. split; [exact Hr |]. split; [exact H12 |].
  exact (proj1 (proj2 (realized_parameters_from_tables _ _ _ _ 0 r Hok Hr))).
Defined.

Lemma getBondStretch_valid_defined (mm : DuMMRep) (c1 c2 : Z) :
  BondStretch_isValid (getBondStretch mm c1 c2) = true ->
  exists bs, bondStretch mm !! pair_canonicalize (c1, c2) = Some bs
             /\ BondStretch_isValid bs = true.
Proof.
  unfold getBondStretch, mkIndexPair.
  destruct (bondStretch mm !! pair_canonicalize (c1, c2)) as [bs |]; [eauto |].
  unfold BondStretch_isValid, BondStretch_default. cbn [bs_k].
  rewrite Rgeb_false by lra. discriminate.
Qed.

Lemma getBondBend_valid_defined (mm : DuMMRep) (c1 c2 c3 : Z) :
  BondBend_isValid (getBondBend mm c1 c2 c3) = true ->
  exists bb, bondBend mm !! triple_canonicalize (c1, c2, c3) = Some bb
             /\ BondBend_isValid bb = true.
Proof.
  unfold getBondBend, mkIndexTriple.
  destruct (bondBend mm !! triple_canonicalize (c1, c2, c3)) as [bb |]; [eauto |].
  unfold BondBend_isValid, BondBend_default. cbn [bb_k].
  rewrite Rgeb_false by lra. discriminate.
Qed.

Lemma getBondTorsion_valid_defined (mm : DuMMRep) (c1 c2 c3 c4 : Z) :
  BondTorsion_isValid (getBondTorsion mm c1 c2 c3 c4) = true ->
  exists bt, bondTorsion mm !! quad_canonicalize (c1, c2, c3, c4) = Some bt
             /\ BondTorsion_isValid bt = true.
Proof.
  unfold getBondTorsion, mkIndexQuad.
  destruct (bondTorsion mm !! quad_canonicalize (c1, c2, c3, c4)) as [bt |];
    [eauto | discriminate].
Qed.

(** X20: realization needs every parameter.  When topology realization
    returns normally, the tables hold a valid stretch term for the
    classes of every bonded pair of atoms on different bodies, a valid
    bend term for every 1-2-3 path and a valid torsion term for every
    1-2-3-4 path that leaves the body of its first atom; with one of them
    missing the call does not return normally. *)
Theorem realization_needs_every_parameter (mm : DuMMRep)
    (cell : option BondTorsion) (mm' : DuMMRep) (cell' : option BondTorsion) :
  realizeSubsystemTopologyImpl mm cell = Ok (mm', cell') ->
  let adj := fun i j : Z => j ∈ bond12_of mm' i in
  let B := bodyIx_of mm' in
  let cls := getAtomClassIndex mm in
  (forall k j, adj k j -> B j <> B k ->
     exists bs, bondStretch mm !! pair_canonicalize (cls k, cls j) = Some bs
                /\ BondStretch_isValid bs = true)
  /\ (forall k j l, adj k j -> adj j l -> l <> k -> B j <> B k \/ B l <> B k ->
        exists bb, bondBend mm !! triple_canonicalize (cls k, cls j, cls l) = Some bb
                   /\ BondBend_isValid bb = true)
  /\ (forall k j l m, adj k j -> adj j l -> l <> k -> adj l m -> m <> k -> m <> j ->
        B j <> B k \/ B l <> B k \/ B m <> B k ->
        exists bt, bondTorsion mm !! quad_canonicalize (cls k, cls j, cls l, cls m)
                   = Some bt
                   /\ BondTorsion_isValid bt = true).
Proof.
  intros Hok adj B cls.
  destruct (realized_sameParameters _ _ _ _ Hok) as [_ Hall].
  assert (forall k j, adj k j -> exists r,
            vec_at (atoms mm') k = Some r /\ parameters_of_tables mm k r) as Hatom.
  { intros k j Hkj. destruct (bond12_of_Some _ _ _ Hkj) as [r Hr]. eauto. }
  split; [| split].
  - intros k j Hkj HB. destruct (Hatom k j Hkj) as (r & Hr & Hs & _ & _ & Hv & _).
    destruct (realized_xbonds _ _ _ _ k r Hok Hr) as (H12 & _).
    apply getBondStretch_valid_defined.
    rewrite Hs, Forall_fmap, Forall_forall in Hv. apply Hv, H12. done.
  - intros k j l Hkj Hjl Hlk HB.
    destruct (Hatom k j Hkj) as (r & Hr & _ & Hb & _ & _ & Hv & _).
    destruct (realized_xbonds _ _ _ _ k r Hok Hr) as (_ & H13 & _).
    apply getBondBend_valid_defined.
    rewrite Hb, Forall_fmap, Forall_forall in Hv.
    apply (Hv (j, l)), H13. done.
  - intros k j l m Hkj Hjl Hlk Hlm Hmk Hmj HB.
    destruct (Hatom k j Hkj) as (r & Hr & _ & _ & Ht & _ & _ & Hv).
    destruct (realized_xbonds _ _ _ _ k r Hok Hr) as (_ & _ & H14 & _).
    apply getBondTorsion_valid_defined.
    rewrite Ht, Forall_fmap, Forall_forall in Hv.
    apply (Hv (j, l, m)), H14. done.
Qed.

Lemma realization_needs_every_parameter_witness :
  exists (mm' : DuMMRep) (cell' : option BondTorsion),
    realizeSubsystemTopologyImpl (molecule (1, 2, 0, 3)) None = Ok (mm', cell')
    /\ forall k j, j ∈ bond12_of mm' k -> bodyIx_of mm' j <> bodyIx_of mm' k ->
         exists bs,
           bondStretch (molecule (1, 2, 0, 3))
             !! pair_canonicalize (getAtomClassIndex (molecule (1, 2, 0, 3)) k,
                                   getAtomClassIndex (molecule (1, 2, 0, 3)) j)
           = Some bs
           /\ BondStretch_isValid bs = true.
Proof.
  destruct molecule_realized_first as (v' & Hok & _).
  eexists _, _. split; [exact Hok |].
  exact (proj1 (realization_needs_every_parameter _ _ _ _ Hok)).
Defined.

(** ** Defining torsions *)

Lemma checkTerm_valid (n : Z) (ampInKJ phaseInDegrees : R) :
  checkTerm n ampInKJ phaseInDegrees = true ->
  TorsionTerm_isValid (newTorsionTerm n ampInKJ phaseInDegrees) = true
  /\ 1 <= n <= 6.
Proof.
  unfold checkTerm. rewrite !andb_true_iff.
  intros [[[Hlo Hhi] Hamp] [Hp0 Hp180]].
  apply Z.leb_le in Hlo, Hhi. apply Rgeb_true_inv in Hamp.
  apply Rleb_true_inv in Hp0, Hp180.
  destruct (Deg2Rad_range phaseInDegrees) as [H0 HPI]; [done |].
  pose proof PI_RGT_0.
  split; [| lia].
  unfold TorsionTerm_isValid, newTorsionTerm. cbn [periodicity amplitude theta0].
  rewrite Rgeb_true, Rltb_true, Rleb_true by (done || lra).
  rewrite !andb_true_r. apply Z.gtb_lt. lia.
Qed.

Lemma collectTerms_valid (mm : DuMMRep) (key : IndexQuad)
    (c1 c2 c3 c4 p1 : Z) (a1 ph1 : R) (p2 : Z) (a2 ph2 : R) (p3 : Z) (a3 ph3 : R) :
  checkTorsion mm c1 c2 c3 c4 p1 a1 ph1 p2 a2 ph2 p3 a3 ph3 = true ->
  let bt := collectTerms key p1 a1 ph1 p2 a2 ph2 p3 a3 ph3 in
  BondTorsion_isValid bt = true
  /\ (1 <= length (terms bt) <= 3)%nat
  /\ Forall (fun t => TorsionTerm_isValid t = true /\ 1 <= periodicity t <= 6)
            (terms bt).
Proof.
  unfold checkTorsion, collectTerms.
  rewrite !andb_true_iff. intros [[[[_ Hsome] H1] H2] H3].
  destruct (Z.eqb_spec p1 (-1)), (Z.eqb_spec p2 (-1)), (Z.eqb_spec p3 (-1));
    cbn [negb orb] in *; try discriminate;
    rewrite ?andb_true_iff in *;
    repeat match goal with
           | H : _ /\ _ |- _ => destruct H
           | H : checkTerm _ _ _ = true |- _ => apply checkTerm_valid in H
           end;
    cbn [addTerm newBondTorsion terms app length BondTorsion_isValid];
    (split; [done |]); (split; [lia |]);
    repeat (apply Forall_cons; split; [by split |]); apply Forall_nil_2.
Qed.

(** X21: defining a torsion.  When the arguments pass [checkTorsion] and
    the class quad has no torsion yet, [defineBondTorsion] succeeds;
    afterwards the lookup returns the new torsion for the quad read in
    either direction; it has one to three terms, each of them a valid
    term with a periodicity from 1 to 6, no two with the same
    periodicity; the torsion of every other quad is as before. *)
Theorem bond_torsion_round_trip (mm : DuMMRep)
    (c1 c2 c3 c4 p1 : Z) (a1 ph1 : R) (p2 : Z) (a2 ph2 : R) (p3 : Z) (a3 ph3 : R) :
  checkTorsion mm c1 c2 c3 c4 p1 a1 ph1 p2 a2 ph2 p3 a3 ph3 = true ->
  bondTorsion mm !! quad_canonicalize (c1, c2, c3, c4) = None ->
  exists mm' bt,
    defineBondTorsion mm c1 c2 c3 c4 p1 a1 ph1 p2 a2 ph2 p3 a3 ph3 = Ok mm'
    /\ bt = collectTerms (quad_canonicalize (c1, c2, c3, c4))
                         p1 a1 ph1 p2 a2 ph2 p3 a3 ph3
    /\ getBondTorsion mm' c1 c2 c3 c4 = bt
    /\ getBondTorsion mm' c4 c3 c2 c1 = bt
    /\ BondTorsion_isValid bt = true
    /\ (1 <= length (terms bt) <= 3)%nat
    /\ Forall (fun t => TorsionTerm_isValid t = true /\ 1 <= periodicity t <= 6)
              (terms bt)
    /\ distinct_periodicities bt
    /\ forall q, quad_canonicalize q <> quad_canonicalize (c1, c2, c3, c4) ->
                 bondTorsion mm' !! quad_canonicalize q
                 = bondTorsion mm !! quad_canonicalize q.
Proof.
  intros Hcheck Hnew.
  set (key := quad_canonicalize (c1, c2, c3, c4)) in *.
  set (bt := collectTerms key p1 a1 ph1 p2 a2 ph2 p3 a3 ph3).
  exists (set_bondTorsion (<[key := bt]> (bondTorsion mm))
            (invalidateSubsystemTopologyCache mm)), bt.
  split.
  { unfold defineBondTorsion.
    change (checkTorsion (invalidateSubsystemTopologyCache mm))
      with (checkTorsion mm).
    rewrite Hcheck. cbn [negb]. unfold mkIndexQuad. fold key. fold bt.
    cbn [bondTorsion invalidateSubsystemTopologyCache].
    rewrite Hnew, (std_map_insert_absent _ _ _ Hnew). reflexivity. }
  split; [done |].
  assert (getBondTorsion
            (set_bondTorsion (<[key := bt]> (bondTorsion mm))
               (invalidateSubsystemTopologyCache mm)) c1 c2 c3 c4 = bt) as Hget.
  { unfold getBondTorsion, mkIndexQuad. fold key.
    cbn [bondTorsion set_bondTorsion]. by rewrite lookup_insert_eq. }
  split; [done |]. split.
  { rewrite <- Hget at 2. unfold getBondTorsion, mkIndexQuad.
    change (c4, c3, c2, c1) with (quad_reverse (c1, c2, c3, c4)).
    by rewrite quad_canonicalize_reverse. }
  destruct (collectTerms_valid mm key _ _ _ _ _ _ _ _ _ _ _ _ _ Hcheck)
    as (Hv & Hlen & Hterms).
  split; [done |]. split; [done |]. split; [done |].
  split; [by eapply collectTerms_distinct |].
  intros q Hq. cbn [bondTorsion set_bondTorsion].
  by rewrite lookup_insert_ne.
Qed.

Lemma bond_torsion_round_trip_witness :
  exists mm' bt,
    defineBondTorsion rep_one_class 0 0 0 0 1 1 0 2 1 180 3 1 0 = Ok mm'
    /\ bt = collectTerms (quad_canonicalize (0, 0, 0, 0)) 1 1 0 2 1 180 3 1 0
    /\ getBondTorsion mm' 0 0 0 0 = bt
    /\ getBondTorsion mm' 0 0 0 0 = bt
    /\ BondTorsion_isValid bt = true
    /\ (1 <= length (terms bt) <= 3)%nat
    /\ Forall (fun t => TorsionTerm_isValid t = true /\ 1 <= periodicity t <= 6)
              (terms bt)
    /\ distinct_periodicities bt
    /\ forall q, quad_canonicalize q <> quad_canonicalize (0, 0, 0, 0) ->
                 bondTorsion mm' !! quad_canonicalize q
                 = bondTorsion rep_one_class !! quad_canonicalize q.
Proof.
  apply bond_torsion_round_trip; [| reflexivity].
  unfold checkTorsion, checkTerm. simpl.
  rewrite !Rgeb_true, !Rleb_true by lra. reflexivity.
Defined.

(** X22: improper torsions are keyed by the quad as written.  When the
    arguments pass [checkTorsion] and the quad has no improper torsion
    yet, [defineAmberImproperTorsion] succeeds and the lookup returns the
    new valid torsion under exactly this order of the four classes; under
    every other quad, the reversed one included, the lookup returns what
    it returned before. *)
Theorem improper_torsion_exact_order (mm : DuMMRep)
    (c1 c2 c3 c4 p1 : Z) (a1 ph1 : R) (p2 : Z) (a2 ph2 : R) (p3 : Z) (a3 ph3 : R) :
  checkTorsion mm c1 c2 c3 c4 p1 a1 ph1 p2 a2 ph2 p3 a3 ph3 = true ->
  amberImproperTorsion mm !! (c1, c2, c3, c4) = None ->
  exists mm' bt,
    defineAmberImproperTorsion mm c1 c2 c3 c4 p1 a1 ph1 p2 a2 ph2 p3 a3 ph3 = Ok mm'
    /\ bt = collectTerms (c1, c2, c3, c4) p1 a1 ph1 p2 a2 ph2 p3 a3 ph3
    /\ getAmberImproperTorsion mm' c1 c2 c3 c4 = bt
    /\ BondTorsion_isValid bt = true
    /\ Forall (fun t => TorsionTerm_isValid t = true /\ 1 <= periodicity t <= 6)
              (terms bt)
    /\ forall d1 d2 d3 d4, (d1, d2, d3, d4) <> (c1, c2, c3, c4) ->
         getAmberImproperTorsion mm' d1 d2 d3 d4
         = getAmberImproperTorsion mm d1 d2 d3 d4.
Proof.
  intros Hcheck Hnew.
  set (bt := collectTerms (c1, c2, c3, c4) p1 a1 ph1 p2 a2 ph2 p3 a3 ph3).
  exists (set_amberImproperTorsion
            (<[(c1, c2, c3, c4) := bt]> (amberImproperTorsion mm))
            (invalidateSubsystemTopologyCache mm)), bt.
  split.
  { unfold defineAmberImproperTorsion.
    change (checkTorsion (invalidateSubsystemTopologyCache mm))
      with (checkTorsion mm).
    rewrite Hcheck. cbn [negb]. unfold mkIndexQuad. fold bt.
    cbn [amberImproperTorsion invalidateSubsystemTopologyCache].
    rewrite (std_map_insert_absent _ _ _ Hnew). reflexivity. }
  split; [done |].
  unfold getAmberImproperTorsion, mkIndexQuad.
  cbn [amberImproperTorsion set_amberImproperTorsion].
  split; [by rewrite lookup_insert_eq |].
  destruct (collectTerms_valid mm (c1, c2, c3, c4) _ _ _ _ _ _ _ _ _ _ _ _ _ Hcheck)
    as (Hv & _ & Hterms).
  split; [done |]. split; [done |].
  intros d1 d2 d3 d4 Hd. by rewrite lookup_insert_ne.
Qed.

Lemma improper_torsion_exact_order_witness :
  exists mm' bt,
    defineAmberImproperTorsion rep_one_class 0 0 0 0 1 1 0 2 1 180 3 1 0 = Ok mm'
    /\ bt = collectTerms (0, 0, 0, 0) 1 1 0 2 1 180 3 1 0
    /\ getAmberImproperTorsion mm' 0 0 0 0 = bt
    /\ BondTorsion_isValid bt = true
    /\ Forall (fun t => TorsionTerm_isValid t = true /\ 1 <= periodicity t <= 6)
              (terms bt)
    /\ forall d1 d2 d3 d4, (d1, d2, d3, d4) <> (0, 0, 0, 0) ->
         getAmberImproperTorsion mm' d1 d2 d3 d4
         = getAmberImproperTorsion rep_one_class d1 d2 d3 d4.
Proof.
  apply improper_torsion_exact_order; [| reflexivity].
  unfold checkTorsion, checkTerm. simpl.
  rewrite !Rgeb_true, !Rleb_true by lra. reflexivity.
Defined.

(** ** Attaching atoms to bodies *)

Lemma set_in_order_empty {V : Type} : set_in_order (∅ : gmap Z V) = [].
Proof. unfold set_in_order. by rewrite map_to_list_empty. Qed.

Lemma Transform_apply_identity (v : Vec3) : Transform_apply Transform_identity v = v.
Proof.
  destruct v as [[x y] z].
  unfold Transform_apply, Transform_identity, Mat33_mul, Vec3_add, Vec3_dot, Vec3_zero.
  cbn [X_R X_T]. f_equal; [f_equal |]; ring.
Qed.

Lemma vec_at_snoc_last {A : Type} (v : list A) (x : A) :
  vec_at (v ++ [x]) (vec_size v) = Some x.
Proof. rewrite vec_at_snoc. by rewrite decide_True. Qed.

(** A body without an entry gets one: a new cluster attached to the body
    and a new [DuMMBody], whose index is returned. *)
Lemma ensureDuMMBodyEntryExists_new (st : DuMMClusters) (b : Z) :
  dummBodyIndicesByMobilizedBodyIndex st !! b = None ->
  ensureDuMMBodyEntryExists st b
  = Some (mkClusters
            (set_duMMSubsetOfBodies
               (fun v => v ++ [mkDuMMBody (vec_size (clusters st)) b []])
               (invalidateSubsystemTopologyCache (rep st)))
            (<[Z.to_nat (vec_size (clusters st)) :=
                 mkCluster (vec_size (clusters st)) ∅ ∅ ∅ ∅ ∅ b Transform_identity]>
               (clusters st ++ [mkCluster (vec_size (clusters st)) ∅ ∅ ∅ ∅ ∅
                                  InvalidMobilizedBodyIndex Transform_identity]))
            (<[b := vec_size (duMMSubsetOfBodies (rep st))]>
               (dummBodyIndicesByMobilizedBodyIndex st)),
          vec_size (duMMSubsetOfBodies (rep st))).
Proof.
  intros Hnew. unfold ensureDuMMBodyEntryExists. rewrite Hnew.
  unfold addCluster, newCluster.
  cbn [clusters set_clusters set_rep directAtomPlacements directClusterPlacements
       allAtomPlacements allClusterPlacements parentClusters cl_bodyIx placement_B].
  rewrite length_app. cbn [length]. rewrite Nat.add_1_r.
  cbn [Cluster_attachToBody clusters set_clusters set_rep rep
       dummBodyIndicesByMobilizedBodyIndex].
  rewrite vec_at_snoc_last.
  cbn [directAtomPlacements directClusterPlacements cl_clusterIndex
       allAtomPlacements allClusterPlacements parentClusters].
  rewrite !set_in_order_empty.
  cbn [forEachM mbind option_bind clusters set_clusters set_rep rep
       dummBodyIndicesByMobilizedBodyIndex].
  reflexivity.
Qed.

(** A body that has its entry: nothing changes, and the index returned
    is the invalid index the routine starts with. *)
Lemma ensureDuMMBodyEntryExists_old (st : DuMMClusters) (b ix : Z) :
  dummBodyIndicesByMobilizedBodyIndex st !! b = Some ix ->
  ensureDuMMBodyEntryExists st b = Some (st, InvalidDuMMBodyIndex).
Proof. intros Hold. unfold ensureDuMMBodyEntryExists. by rewrite Hold. Qed.

Lemma Atom_isAttachedToBody_false (mm : DuMMRep) (i : Z) (a : Atom) :
  vec_at (atoms mm) i = Some a -> bodyIx_of mm i < 0 ->
  Atom_isAttachedToBody a = false.
Proof.
  unfold bodyIx_of, Atom_isAttachedToBody. intros ->. intros Hneg.
  destruct (Z.geb_spec (bodyIx a) 0); [lia | done].
Qed.

(** X23: at most one call attaches to a body.  For a body that has no
    entry yet, [attachAtomToBody] of a valid atom that is on no body
    succeeds: the body gets a new cluster and a new entry of
    [duMMSubsetOfBodies], recorded in the map of body entries, and the
    atom is on the body at the given station.  From then on
    [ensureDuMMBodyEntryExists] answers the invalid index for this body,
    not the index of its entry, and [attachAtomToBody] of another atom to
    the same body indexes [duMMSubsetOfBodies] with it, outside the
    vector. *)
Theorem attachAtomToBody_once_per_body (st : DuMMClusters) (a1 a2 b : Z)
    (s1 s2 : Vec3) :
  isValidAtom (rep st) a1 = true -> isValidAtom (rep st) a2 = true -> a1 <> a2 ->
  bodyIx_of (rep st) a1 < 0 -> bodyIx_of (rep st) a2 < 0 ->
  0 <= b -> dummBodyIndicesByMobilizedBodyIndex st !! b = None ->
  exists st1,
    attachAtomToBody st a1 b s1 = Ok st1
    /\ bodyIx_of (rep st1) a1 = b
    /\ (station_B <$> vec_at (atoms (rep st1)) a1) = Some s1
    /\ duMMSubsetOfBodies (rep st1)
       = duMMSubsetOfBodies (rep st) ++ [mkDuMMBody (vec_size (clusters st)) b []]
    /\ dummBodyIndicesByMobilizedBodyIndex st1 !! b
       = Some (vec_size (duMMSubsetOfBodies (rep st)))
    /\ (allAtomPlacements <$> vec_at (clusters st1) (vec_size (clusters st)))
       = Some {[ a1 := s1 ]}
    /\ (snd <$> ensureDuMMBodyEntryExists st1 b) = Some InvalidDuMMBodyIndex
    /\ attachAtomToBody st1 a2 b s2 = OutOfRange.
Proof.
  intros H1 H2 Hne Hfree1 Hfree2 Hb Hnew.
  destruct (isValidAtom_Some _ _ H1) as (r1 & Hr1 & _).
  destruct (isValidAtom_Some _ _ H2) as (r2 & Hr2 & _).
  pose proof (Atom_isAttachedToBody_false _ _ _ Hr1 Hfree1) as Hun1.
  pose proof (Atom_isAttachedToBody_false _ _ _ Hr2 Hfree2) as Hun2.
  set (n := vec_size (clusters st)).
  set (c1 := mkCluster n {[ a1 := s1 ]} ∅ {[ a1 := s1 ]} ∅ ∅ b Transform_identity).
  set (st1 := mkClusters
                (store_atom
                   (set_duMMSubsetOfBodies
                      (fun v => v ++ [mkDuMMBody n b []])
                      (invalidateSubsystemTopologyCache (rep st)))
                   a1 (Atom_on_body r1 b s1))
                (<[Z.to_nat n := c1]>
                   (<[Z.to_nat n :=
                        mkCluster n ∅ ∅ ∅ ∅ ∅ b Transform_identity]>
                      (clusters st ++ [mkCluster n ∅ ∅ ∅ ∅ ∅
                                         InvalidMobilizedBodyIndex
                                         Transform_identity])))
                (<[b := vec_size (duMMSubsetOfBodies (rep st))]>
                   (dummBodyIndicesByMobilizedBodyIndex st))).
  assert (Z.to_nat n = length (clusters st)) as Hn
    by (unfold n, vec_size; lia).
  assert (forall x y : Cluster,
            vec_at (<[Z.to_nat n := y]> (clusters st ++ [x])) n = Some y) as Hslot.
  { intros x y. eapply vec_at_insert_eq. apply vec_at_snoc_last. }
  assert (attachAtomToBody st a1 b s1 = Ok st1) as Hrun.
  { unfold attachAtomToBody.
    cbn [rep set_rep].
    change (isValidAtom (invalidateSubsystemTopologyCache (rep st)))
      with (isValidAtom (rep st)).
    change (atoms (invalidateSubsystemTopologyCache (rep st))) with (atoms (rep st)).
    rewrite H1, Hr1, Hun1. destruct (Z.geb_spec b 0) as [_ |]; [| lia].
    cbn [negb].
    rewrite ensureDuMMBodyEntryExists_new by exact Hnew.
    cbn [rep clusters dummBodyIndicesByMobilizedBodyIndex set_rep
         duMMSubsetOfBodies set_duMMSubsetOfBodies invalidateSubsystemTopologyCache].
    rewrite vec_at_snoc_last. cbn [clusterIndex].
    unfold Cluster_placeAtom. cbn [clusters set_rep].
    fold n. rewrite Hslot.
    cbn [directAtomPlacements allAtomPlacements cl_clusterIndex
         directClusterPlacements allClusterPlacements parentClusters
         cl_bodyIx placement_B].
    unfold Cluster_isAttachedToBody. cbn [cl_bodyIx].
    destruct (Z.geb_spec b 0) as [_ |]; [| lia].
    unfold Atom_attachToBody, std_map_insert. rewrite !lookup_empty. cbn [fst].
    cbn [rep set_clusters set_rep atoms set_duMMSubsetOfBodies
         invalidateSubsystemTopologyCache].
    rewrite Hr1, Transform_apply_identity. reflexivity. }
  exists st1. split; [exact Hrun |].
  assert (vec_at (atoms (rep st1)) a1 = Some (Atom_on_body r1 b s1)) as Hat1.
  { unfold st1. cbn [rep].
    rewrite (vec_at_store_atom _ a1 a1 _ r1) by exact Hr1. by rewrite decide_True. }
  split; [unfold bodyIx_of; by rewrite Hat1 |].
  split; [by rewrite Hat1 |]. split; [reflexivity |].
  split; [unfold st1; cbn [dummBodyIndicesByMobilizedBodyIndex];
          apply lookup_insert_eq |].
  split.
  { unfold st1. cbn [clusters].
    rewrite (vec_at_insert_eq _ n (mkCluster n ∅ ∅ ∅ ∅ ∅ b Transform_identity) c1)
      by apply Hslot.
    reflexivity. }
  assert (dummBodyIndicesByMobilizedBodyIndex st1 !! b
          = Some (vec_size (duMMSubsetOfBodies (rep st)))) as Hold
    by (unfold st1; cbn [dummBodyIndicesByMobilizedBodyIndex]; apply lookup_insert_eq).
  split; [by rewrite (ensureDuMMBodyEntryExists_old _ _ _ Hold) |].
  unfold attachAtomToBody.
  assert (vec_at (atoms (rep st1)) a2 = Some r2) as Hat2.
  { unfold st1. cbn [rep].
    rewrite (vec_at_store_atom _ a1 a2 _ r1) by exact Hr1.
    by rewrite decide_False. }
  assert (isValidAtom (rep st1) a2 = true) as H2'.
  { unfold isValidAtom in *. rewrite Hat2. rewrite Hr2 in H2.
    pose proof (vec_at_Some_range _ _ _ Hat2).
    rewrite !andb_true_iff in *. destruct H2 as [_ Hv].
    repeat split; [apply Z.leb_le | apply Z.ltb_lt | done]; lia. }
  cbn [rep set_rep].
  change (isValidAtom (invalidateSubsystemTopologyCache (rep st1)))
    with (isValidAtom (rep st1)).
  change (atoms (invalidateSubsystemTopologyCache (rep st1))) with (atoms (rep st1)).
  rewrite H2', Hat2, Hun2. destruct (Z.geb_spec b 0) as [_ |]; [| lia].
  cbn [negb].
  rewrite (ensureDuMMBodyEntryExists_old _ _ (vec_size (duMMSubsetOfBodies (rep st))))
    by exact Hold.
  reflexivity.
Qed.

Lemma attachAtomToBody_once_per_body_witness :
  exists st1,
    attachAtomToBody two_free_atoms 0 1 (1, 2, 3)%R = Ok st1
    /\ bodyIx_of (rep st1) 0 = 1
    /\ (station_B <$> vec_at (atoms (rep st1)) 0) = Some (1, 2, 3)%R
    /\ duMMSubsetOfBodies (rep st1)
       = duMMSubsetOfBodies (rep two_free_atoms)
         ++ [mkDuMMBody (vec_size (clusters two_free_atoms)) 1 []]
    /\ dummBodyIndicesByMobilizedBodyIndex st1 !! 1
       = Some (vec_size (duMMSubsetOfBodies (rep two_free_atoms)))
    /\ (allAtomPlacements <$> vec_at (clusters st1) (vec_size (clusters two_free_atoms)))
       = Some {[ 0 := (1, 2, 3)%R ]}
    /\ (snd <$> ensureDuMMBodyEntryExists st1 1) = Some InvalidDuMMBodyIndex
    /\ attachAtomToBody st1 1 1 (4, 5, 6)%R = OutOfRange.
Proof.
  apply (attachAtomToBody_once_per_body two_free_atoms 0 1 1);
    first [reflexivity | lia].
Defined.

(** ** The atom list of a body *)

Lemma StronglySorted_strict {V : Type} (l : list (Z * V)) :
  NoDup (l.*1) ->
  StronglySorted (fun x y : Z * V => (fst y <? fst x) = false) l ->
  StronglySorted (fun x y : Z * V => fst x < fst y) l.
Proof.
  intros Hnd Hsorted. induction Hsorted as [| x l Hl IH Hall]; [constructor |].
  rewrite fmap_cons in Hnd. apply NoDup_cons in Hnd as [Hx Hnd].
  constructor; [by apply IH |].
  rewrite Forall_forall in *. intros y Hy.
  specialize (Hall y Hy). apply Z.ltb_ge in Hall.
  assert (fst x <> fst y); [| lia].
  intros Heq. apply Hx. rewrite Heq. by apply list_elem_of_fmap_2.
Qed.

Lemma set_in_order_spec {V : Type} (m : gmap Z V) :
  set_in_order m ≡ₚ map_to_list m
  /\ StronglySorted (fun x y : Z * V => fst x < fst y) (set_in_order m).
Proof.
  assert (set_in_order m ≡ₚ map_to_list m) as Hperm
    by apply std_sort_Permutation.
  split; [done |]. apply StronglySorted_strict.
  - rewrite Hperm. apply NoDup_fst_map_to_list.
  - unfold set_in_order, std_sort. apply StronglySorted_merge_sort.
    + intros x y z Hxy Hyz. apply Z.ltb_ge in Hxy, Hyz. apply Z.ltb_ge. lia.
    + intros x y. destruct (Z.ltb_spec (fst y) (fst x)); [right | by left].
      apply Z.ltb_ge. lia.
Qed.

(** X24: the atom list of a body.  [DuMMBody::realizeTopologicalCache]
    fills [allAtoms] with exactly the placements of the body's cluster,
    every atom once with the station held by the cluster, in strictly
    increasing order of atom index; the cluster and the body index of the
    entry stay as they are.  With the cluster index outside the vector
    there is no result. *)
Theorem body_atoms_listed_once_in_order (st : DuMMClusters) (b : DuMMBody) :
  match vec_at (clusters st) (clusterIndex b) with
  | Some c =>
      exists b',
        DuMMBody_realizeTopologicalCache st b = Some b'
        /\ clusterIndex b' = clusterIndex b
        /\ mobilizedBodyIndex b' = mobilizedBodyIndex b
        /\ (forall a s, mkAtomPlacement a s ∈ allAtoms b'
                        <-> allAtomPlacements c !! a = Some s)
        /\ StronglySorted Z.lt (atomsOf b')
        /\ NoDup (atomsOf b')
  | None => DuMMBody_realizeTopologicalCache st b = None
  end.
Proof.
  unfold DuMMBody_realizeTopologicalCache.
  destruct (vec_at (clusters st) (clusterIndex b)) as [c |]; [| done].
  eexists. split; [reflexivity |]. cbn [clusterIndex mobilizedBodyIndex allAtoms].
  destruct (set_in_order_spec (allAtomPlacements c)) as [Hperm Hsorted].
  split; [done |]. split; [done |].
  assert (atomsOf
            (mkDuMMBody (clusterIndex b) (mobilizedBodyIndex b)
               ((fun ap => mkAtomPlacement (fst ap) (snd ap))
                <$> set_in_order (allAtomPlacements c)))
          = (set_in_order (allAtomPlacements c)).*1) as Hatoms.
  { unfold atomsOf. cbn [allAtoms]. rewrite <- list_fmap_compose.
    by apply list_fmap_ext. }
  split; [| split].
  - intros a s. rewrite list_elem_of_fmap. split.
    + intros ([a' s'] & [= -> ->] & Hin). rewrite Hperm in Hin.
      by apply elem_of_map_to_list in Hin.
    + intros Hlk. exists (a, s). split; [done |].
      rewrite Hperm. by apply elem_of_map_to_list.
  - rewrite Hatoms. clear Hatoms Hperm.
    induction Hsorted as [| x l Hl IH Hall]; [constructor |].
    rewrite fmap_cons. constructor; [done |]. by apply Forall_fmap.
  - rewrite Hatoms, Hperm. apply NoDup_fst_map_to_list.
Qed.

(** ** The stretch term as a function of the bond length *)

(** X25: the stretch force is minus the slope of the stretch energy.
    With the partner moved along the unit direction [u] away from the
    focal atom, the energy [k*(x-d0)^2] at length [d > 0] has the
    derivative [-(f2 . u)], [f2] being the force on the partner; at the
    nominal length [d0 > 0] the energy and the force are zero. *)
Theorem stretch_force_is_minus_slope (mm : DuMMRep) (bs : BondStretch)
    (u : Vec3) (d : R) :
  Vec3_dot u u = 1%R -> (0 < d)%R -> (0 < bs_d0 bs)%R ->
  derivable_pt_lim
    (fun x => fst (stretchForce mm bs (Vec3_scale x u)))
    d
    (- Vec3_dot (snd (stretchForce mm bs (Vec3_scale d u))) u)%R
  /\ stretchForce mm bs (Vec3_scale (bs_d0 bs) u) = (0%R, Vec3_zero).
Proof.
  intros Hu Hd Hd0.
  set (k := (bondStretchGlobalScaleFactor mm * bs_k bs)%R).
  assert (forall x, (0 < x)%R ->
            stretchForce mm bs (Vec3_scale x u)
            = ((k * (x - bs_d0 bs) * (x - bs_d0 bs))%R,
               Vec3_scale (-2 * k * (x - bs_d0 bs))%R u)) as Hform.
  { intros x Hx. unfold stretchForce.
    rewrite (Vec3_norm_scale_unit x u Hu) by lra. fold k. f_equal.
    destruct u as [[u0 u1] u2]. unfold Vec3_scale.
    f_equal; [f_equal |]; field; lra. }
  split.
  - apply (derivable_pt_lim_locally_ext
             (fun x => k * (x - bs_d0 bs) * (x - bs_d0 bs))%R _ d (d / 2) (2 * d));
      [lra | |].
    { intros z Hz. rewrite Hform by lra. reflexivity. }
    rewrite Hform by done. cbn [snd]. rewrite Vec3_dot_scale_l, Hu.
    apply (derivable_pt_lim_ext
             (mult_real_fct k ((id - fct_cte (bs_d0 bs)) * (id - fct_cte (bs_d0 bs))))%F).
    { intros z. unfold mult_real_fct, mult_fct, minus_fct, id, fct_cte. ring. }
    replace (- (-2 * k * (d - bs_d0 bs) * 1))%R
      with (k * ((1 - 0) * (id - fct_cte (bs_d0 bs))%F d
                 + (id - fct_cte (bs_d0 bs))%F d * (1 - 0)))%R
      by (unfold minus_fct, id, fct_cte; ring).
    apply derivable_pt_lim_scal, derivable_pt_lim_mult;
      apply derivable_pt_lim_minus;
      first [apply derivable_pt_lim_id | apply derivable_pt_lim_const].
  - rewrite Hform by done.
    destruct u as [[u0 u1] u2]. unfold Vec3_scale, Vec3_zero.
    f_equal; [| f_equal; [f_equal |]]; ring.
Qed.

Lemma stretch_force_is_minus_slope_witness :
  derivable_pt_lim
    (fun x => fst (stretchForce newDuMMRep (mkBondStretch (0, 0) 3 1)
                     (Vec3_scale x (0%R, 1%R, 0%R))))
    2
    (- Vec3_dot (snd (stretchForce newDuMMRep (mkBondStretch (0%Z, 0%Z) 3 1)
                        (Vec3_scale 2 (0, 1, 0))))
                (0, 1, 0))%R
  /\ stretchForce newDuMMRep (mkBondStretch (0, 0) 3 1)
       (Vec3_scale (bs_d0 (mkBondStretch (0, 0) 3 1)) (0%R, 1%R, 0%R))
     = (0%R, Vec3_zero).
Proof.
  apply stretch_force_is_minus_slope; [| lra | cbn [bs_d0]; lra].
  unfold Vec3_dot. ring.
Defined.

(** ** Charged atom types and the atoms that use them *)

Lemma isValidChargedAtomType_iff (mm : DuMMRep) (t : Z) :
  isValidChargedAtomType mm t = true
  <-> exists x, vec_at (chargedAtomTypes mm) t = Some x
                /\ ChargedAtomType_isValid x = true.
Proof.
  unfold isValidChargedAtomType. split.
  - rewrite !andb_true_iff. intros [_ Hc].
    destruct (vec_at (chargedAtomTypes mm) t) as [x |]; [by exists x | discriminate].
  - intros (x & Hx & Hval). rewrite Hx, Hval.
    apply vec_at_Some_range in Hx.
    rewrite !andb_true_iff. repeat split; [apply Z.leb_le | apply Z.ltb_lt]; lia.
Qed.

Lemma defineIncompleteChargedAtomType_runs (mm : DuMMRep) (typeIx classIx : Z) :
  0 <= typeIx -> isValidAtomClass mm classIx = true ->
  isValidChargedAtomType mm typeIx = false ->
  exists mm',
    defineIncompleteChargedAtomType mm typeIx classIx = Ok mm'
    /\ atoms mm' = atoms mm /\ atomClasses mm' = atomClasses mm
    /\ forall i, vec_at (chargedAtomTypes mm') i
                 = if decide (i = typeIx)
                   then Some (mkChargedAtomType typeIx classIx None)
                   else if decide (i < vec_size (chargedAtomTypes mm))
                        then vec_at (chargedAtomTypes mm) i
                        else if decide (i <= typeIx)
                             then Some ChargedAtomType_default
                             else None.
Proof.
  intros Hix Hclass Hfresh. unfold defineIncompleteChargedAtomType.
  change (isValidAtomClass (invalidateSubsystemTopologyCache mm))
    with (isValidAtomClass mm).
  rewrite Hclass. destruct (Z.geb_spec typeIx 0); [| lia].
  destruct (Z.geb_spec classIx 0);
    [| apply isValidAtomClass_nonneg in Hclass; lia].
  cbn [negb].
  set (mm0 := invalidateSubsystemTopologyCache mm).
  set (mm1 := if typeIx >=? vec_size (chargedAtomTypes mm0) then _ else mm0).
  assert (atoms mm1 = atoms mm /\ atomClasses mm1 = atomClasses mm) as [Hat Hcl].
  { unfold mm1, mm0. by destruct (typeIx >=? _). }
  assert (forall i, vec_at (chargedAtomTypes mm1) i
                    = if decide (i < vec_size (chargedAtomTypes mm))
                      then vec_at (chargedAtomTypes mm) i
                      else if decide (i <= typeIx) then Some ChargedAtomType_default
                           else None) as Hslot.
  { intros i. rewrite <- (vec_at_ensure_slot ChargedAtomType_default _ typeIx i Hix).
    unfold mm1, mm0. cbn [chargedAtomTypes invalidateSubsystemTopologyCache].
    by destruct (typeIx >=? vec_size (chargedAtomTypes mm)). }
  assert (exists old, vec_at (chargedAtomTypes mm1) typeIx = Some old
                      /\ ChargedAtomType_isValid old = false) as (old & Hold & Hinv).
  { rewrite Hslot. destruct (decide (typeIx < vec_size (chargedAtomTypes mm))).
    - destruct (vec_at (chargedAtomTypes mm) typeIx) as [old |] eqn:Hold.
      + exists old. split; [done |].
        destruct (ChargedAtomType_isValid old) eqn:Hv; [| done].
        rewrite (proj2 (isValidChargedAtomType_iff mm typeIx)) in Hfresh; eauto.
      + unfold vec_at, vec_size in *. destruct (Z.ltb_spec typeIx 0); [lia |].
        apply lookup_ge_None_1 in Hold. lia.
    - destruct (decide (typeIx <= typeIx)); [| lia].
      by exists ChargedAtomType_default. }
  rewrite Hold, Hinv. cbn [negb]. eexists. split; [reflexivity |].
  split; [done |]. split; [done |].
  intros i. cbn [chargedAtomTypes set_chargedAtomTypes].
  destruct (decide (i = typeIx)) as [-> |].
  - by eapply vec_at_insert_eq.
  - rewrite <- Hslot. unfold vec_at. destruct (Z.ltb_spec i 0); [done |].
    apply list_lookup_insert_ne. lia.
Qed.

(** X26: from class to type to atom.  A charged atom type can only be
    defined for a defined atom class: with an undefined class the call
    throws and changes no type.  For a defined class and a nonnegative
    index that is not a defined type, [defineIncompleteChargedAtomType]
    succeeds and the index is a defined type; [addAtom] with this type
    then returns the old number of atoms as the index of a valid atom
    whose atom class is the class the type was defined with; the other
    types are defined exactly when they were before. *)
Theorem atom_gets_the_class_of_its_type (mm : DuMMRep) (typeIx classIx : Z) :
  0 <= typeIx -> isValidAtomClass mm classIx = true ->
  isValidChargedAtomType mm typeIx = false ->
  (forall c, isValidAtomClass mm c = false ->
     exists mm', defineIncompleteChargedAtomType mm typeIx c
                 = Thrown APIArgcheckFailed mm'
                 /\ chargedAtomTypes mm' = chargedAtomTypes mm)
  /\ exists mm1 mm2,
       defineIncompleteChargedAtomType mm typeIx classIx = Ok mm1
       /\ isValidChargedAtomType mm1 typeIx = true
       /\ (forall t, t <> typeIx ->
             isValidChargedAtomType mm1 t = isValidChargedAtomType mm t)
       /\ addAtom mm1 typeIx = Returns mm2 (vec_size (atoms mm))
       /\ isValidAtom mm2 (vec_size (atoms mm)) = true
       /\ getAtomClassIndex mm2 (vec_size (atoms mm)) = classIx
       /\ isValidAtomClass mm2 classIx = true.
Proof.
  intros Hix Hclass Hfresh. split.
  { intros c Hc. unfold defineIncompleteChargedAtomType.
    change (isValidAtomClass (invalidateSubsystemTopologyCache mm))
      with (isValidAtomClass mm).
    rewrite Hc. cbn [negb].
    destruct (negb (typeIx >=? 0)); [by eexists |].
    destruct (negb (c >=? 0)); by eexists. }
  destruct (defineIncompleteChargedAtomType_runs mm typeIx classIx)
    as (mm1 & Hrun & Hatoms & Hclasses & Hat); try done.
  assert (vec_at (chargedAtomTypes mm1) typeIx
          = Some (mkChargedAtomType typeIx classIx None)) as Hnew.
  { rewrite Hat. by rewrite decide_True. }
  assert (ChargedAtomType_isValid (mkChargedAtomType typeIx classIx None) = true)
    as Hv.
  { unfold ChargedAtomType_isValid. cbn [chargedAtomTypeIndex cat_atomClassIx].
    apply isValidAtomClass_nonneg in Hclass.
    apply andb_true_iff. split; apply Z.geb_le; lia. }
  assert (isValidChargedAtomType mm1 typeIx = true) as Htype
    by (apply isValidChargedAtomType_iff; eauto).
  pose proof (addAtom_spec mm1 typeIx) as Hadd.
  destruct (addAtom mm1 typeIx) as [mm2 ix | e mm2 |] eqn:Haddeq; [| | done].
  2:{ destruct Hadd as (_ & _ & Hno). congruence. }
  destruct Hadd as (_ & -> & _ & Hat2 & _).
  exists mm1, mm2. rewrite Hatoms in *.
  split; [done |]. split; [done |]. split.
  { intros t Ht. apply eq_true_iff_eq. rewrite !isValidChargedAtomType_iff.
    assert (forall x, vec_at (chargedAtomTypes mm1) t = Some x
                      /\ ChargedAtomType_isValid x = true
                      <-> vec_at (chargedAtomTypes mm) t = Some x
                          /\ ChargedAtomType_isValid x = true) as Hext.
    { intros x. rewrite Hat. rewrite decide_False by done.
      destruct (decide (t < vec_size (chargedAtomTypes mm))) as [| Hge]; [done |].
      assert (vec_at (chargedAtomTypes mm) t = None) as ->.
      { destruct (vec_at (chargedAtomTypes mm) t) eqn:Ht'; [| done].
        apply vec_at_Some_range in Ht'. lia. }
      destruct (decide (t <= typeIx)); split; intros [[=] Hx]; subst; done. }
    split; intros (x & Hx); exists x; by apply Hext. }
  split; [done |].
  assert (vec_at (atoms mm2) (vec_size (atoms mm))
          = Some (newAtom typeIx (vec_size (atoms mm)))) as Hatom.
  { rewrite Hat2. by rewrite decide_True. }
  assert (chargedAtomTypes mm2 = chargedAtomTypes mm1
          /\ atomClasses mm2 = atomClasses mm) as [Htypes2 Hclasses2].
  { unfold addAtom in Haddeq.
    destruct (negb (isValidChargedAtomType _ typeIx)); [discriminate |].
    injection Haddeq as <-. done. }
  split; [| split].
  - unfold isValidAtom. rewrite Hatom.
    pose proof (vec_at_Some_range _ _ _ Hatom).
    unfold Atom_isValid, newAtom. cbn [atomIndex a_chargedAtomTypeIndex].
    rewrite !andb_true_iff.
    repeat split; [apply Z.leb_le | apply Z.ltb_lt | apply Z.geb_le | apply Z.geb_le];
      lia.
  - unfold getAtomClassIndex. rewrite Hatom. cbn [a_chargedAtomTypeIndex newAtom].
    by rewrite Htypes2, Hnew.
  - rewrite <- Hclass. apply isValidAtomClass_ext. intros x. by rewrite Hclasses2.
Qed.

Lemma atom_gets_the_class_of_its_type_witness :
  (forall c, isValidAtomClass rep_one_class c = false ->
     exists mm', defineIncompleteChargedAtomType rep_one_class 2 c
                 = Thrown APIArgcheckFailed mm'
                 /\ chargedAtomTypes mm' = chargedAtomTypes rep_one_class)
  /\ exists mm1 mm2,
       defineIncompleteChargedAtomType rep_one_class 2 0 = Ok mm1
       /\ isValidChargedAtomType mm1 2 = true
       /\ (forall t, t <> 2 ->
             isValidChargedAtomType mm1 t = isValidChargedAtomType rep_one_class t)
       /\ addAtom mm1 2 = Returns mm2 (vec_size (atoms rep_one_class))
       /\ isValidAtom mm2 (vec_size (atoms rep_one_class)) = true
       /\ getAtomClassIndex mm2 (vec_size (atoms rep_one_class)) = 0
       /\ isValidAtomClass mm2 0 = true.
Proof.
  apply (atom_gets_the_class_of_its_type rep_one_class 2 0);
    first [reflexivity | lia].
Defined.

(** ** Completing an atom class *)

(** X27: completing an atom class.  For a defined atom class and a
    nonnegative radius and well depth, [setAtomClassVdwParameters]
    succeeds; the class keeps its index, element and valence, holds the
    two values and is complete, as the mixing of van der Waals parameters
    requires; every other class is untouched.  A negative radius or well
    depth is refused and nothing is written. *)
Theorem atom_class_completed (mm : DuMMRep) (classIx : Z) (r e : R) :
  isValidAtomClass mm classIx = true -> (0 <= r)%R -> (0 <= e)%R ->
  (exists mm' c0,
     setAtomClassVdwParameters mm classIx r e = Ok mm'
     /\ vec_at (atomClasses mm) classIx = Some c0
     /\ vec_at (atomClasses mm') classIx
        = Some (mkAtomClass (atomClassIx c0) (element c0) (valence c0)
                            (Some r) (Some e))
     /\ AtomClass_isComplete
          (mkAtomClass (atomClassIx c0) (element c0) (valence c0) (Some r) (Some e))
        = true
     /\ forall c, c <> classIx ->
          vec_at (atomClasses mm') c = vec_at (atomClasses mm) c)
  /\ forall r' e', (r' < 0 \/ e' < 0)%R ->
       exists mm', setAtomClassVdwParameters mm classIx r' e'
                   = Thrown APIArgcheckFailed mm'
                   /\ atomClasses mm' = atomClasses mm.
Proof.
  intros Hclass Hr He.
  pose proof (isValidAtomClass_nonneg _ _ Hclass) as Hix.
  destruct (proj1 (isValidAtomClass_iff mm classIx) Hclass) as (c0 & Hc0 & Hv0).
  split.
  - unfold setAtomClassVdwParameters.
    destruct (Z.geb_spec classIx 0); [| lia].
    rewrite !Rgeb_true by done. cbn [negb].
    change (atomClasses (invalidateSubsystemTopologyCache mm)) with (atomClasses mm).
    rewrite Hc0. eexists _, c0. split; [reflexivity |]. split; [done |].
    cbn [atomClasses set_atomClasses invalidateSubsystemTopologyCache].
    split; [by eapply vec_at_insert_eq |]. split.
    + unfold AtomClass_isComplete, AtomClass_isValid in *.
      cbn [atomClassIx element valence vdwRadius vdwWellDepth Real_nonneg].
      by rewrite Hv0, !Rgeb_true.
    + intros c Hc. unfold vec_at. destruct (Z.ltb_spec c 0); [done |].
      apply list_lookup_insert_ne. lia.
  - intros r' e' Hneg. unfold setAtomClassVdwParameters.
    destruct (Z.geb_spec classIx 0); [| lia]. cbn [negb].
    destruct (Rle_dec 0 r') as [Hr' |].
    + rewrite (Rgeb_true r') by done. cbn [negb].
      rewrite (Rgeb_false e') by lra. by eexists.
    + rewrite (Rgeb_false r') by lra. by eexists.
Qed.

Lemma atom_class_completed_witness :
  (exists mm' c0,
     setAtomClassVdwParameters rep_one_class 0 2 3 = Ok mm'
     /\ vec_at (atomClasses rep_one_class) 0 = Some c0
     /\ vec_at (atomClasses mm') 0
        = Some (mkAtomClass (atomClassIx c0) (element c0) (valence c0)
                            (Some 2%R) (Some 3%R))
     /\ AtomClass_isComplete
          (mkAtomClass (atomClassIx c0) (element c0) (valence c0)
                       (Some 2%R) (Some 3%R))
        = true
     /\ forall c, c <> 0 ->
          vec_at (atomClasses mm') c = vec_at (atomClasses rep_one_class) c)
  /\ forall r' e', (r' < 0 \/ e' < 0)%R ->
       exists mm', setAtomClassVdwParameters rep_one_class 0 r' e'
                   = Thrown APIArgcheckFailed mm'
                   /\ atomClasses mm' = atomClasses rep_one_class.
Proof.
  apply atom_class_completed; first [reflexivity | lra].
Defined.

(** ** Realization: the order of the neighbour lists *)

Lemma std_sort_sorted {A : Type} (lt : A -> A -> bool) (l : list A) :
  (forall x y z, lt y x = false -> lt z y = false -> lt z x = false) ->
  (forall x y, lt y x = false \/ lt x y = false) ->
  sorted_by lt (std_sort lt l).
Proof.
  intros Htrans Htotal. unfold sorted_by, std_sort.
  apply StronglySorted_merge_sort.
  - intros x y z. apply Htrans.
  - intros x y. apply Htotal.
Qed.

Lemma sorted_by_filter {A : Type} (lt : A -> A -> bool) (P : A -> Prop)
    `{!forall x, Decision (P x)} (l : list A) :
  sorted_by lt l -> sorted_by lt (filter P l).
Proof.
  unfold sorted_by. induction 1 as [| x l Hl IH Hall]; [constructor |].
  rewrite filter_cons. destruct (decide (P x)); [| done].
  constructor; [done |].
  rewrite Forall_forall in *. intros y [_ Hy]%list_elem_of_filter. by apply Hall.
Qed.

Lemma sorted_Z (l : list Z) : sorted_by Z.ltb (std_sort Z.ltb l).
Proof.
  apply std_sort_sorted.
  - intros x y z H1 H2. apply Z.ltb_ge in H1, H2. apply Z.ltb_ge. lia.
  - intros x y. destruct (Z.ltb_spec y x); [right; apply Z.ltb_ge; lia | by left].
Qed.

Lemma sorted_pairs (l : list IndexPair) : sorted_by pair_lt (std_sort pair_lt l).
Proof.
  apply std_sort_sorted.
  - intros [a b] [c d] [e f]. unfold pair_lt. intros H1 H2. order_cases.
  - intros [a b] [c d]. unfold pair_lt.
    destruct (Z.ltb_spec c a), (Z.gtb_spec c a), (Z.ltb_spec a c),
             (Z.gtb_spec a c), (Z.ltb_spec d b), (Z.ltb_spec b d);
      auto; lia.
Qed.

Lemma sorted_triples (l : list IndexTriple) :
  sorted_by triple_lt (std_sort triple_lt l).
Proof.
  apply std_sort_sorted.
  - intros [[a b] c] [[d e] f] [[g h] i]. unfold triple_lt. intros H1 H2.
    order_cases.
  - intros x y. destruct (triple_lt y x) eqn:Hyx; [right | by left].
    destruct x as [[a b] c], y as [[d e] f]. unfold triple_lt in *. order_cases.
Qed.

Lemma sorted_quads (l : list IndexQuad) : sorted_by quad_lt (std_sort quad_lt l).
Proof.
  apply std_sort_sorted.
  - intros [[[a b] c] d] [[[e f] g] h] [[[i j] k] m]. unfold quad_lt.
    intros H1 H2. order_cases.
  - intros x y. destruct (quad_lt y x) eqn:Hyx; [right | by left].
    destruct x as [[[a b] c] d], y as [[[e f] g] h]. unfold quad_lt in *.
    order_cases.
Qed.

(** What holds of every atom as its turn of the loop leaves it holds of
    every atom when the loop has ended. *)
Lemma realizeAtoms_each (P : Z -> Atom -> Prop) :
  (forall mm cell anum mm' cell' a',
     realizeAtom mm cell anum = Ok (mm', cell') ->
     vec_at (atoms mm') anum = Some a' -> P anum a') ->
  forall anums st st',
    realizeAtoms anums st = Ok st' ->
    forall j a', j ∈ anums -> vec_at (atoms (fst st')) j = Some a' -> P j a'.
Proof.
  intros Hstep anums. induction anums as [| anum rest IH];
    intros st st' Hok j a' Hj Ha'; simpl in Hok.
  - by apply elem_of_nil in Hj.
  - destruct (realizeAtom (fst st) (snd st) anum) as [[mm1 cell1] | |] eqn:Hone;
      try discriminate.
    destruct (decide (j ∈ rest)) as [Hin | Hnotin].
    + by apply (IH (mm1, cell1) st' Hok).
    + apply elem_of_cons in Hj as [-> | Hj]; [| contradiction].
      destruct (realizeAtoms_realized mm1 rest (mm1, cell1) st'
                  (sameTopology_refl _) Hok) as (_ & _ & Hframe).
      rewrite (Hframe anum Hnotin) in Ha'. cbn [fst] in Ha'.
      by eapply Hstep.
Qed.

(** X28: realization leaves the neighbour lists sorted.  When topology
    realization returns normally, every atom has its [bond12] list in
    increasing order of atom index and its 1-3, 1-4 and 1-5 lists, the
    shortest-path lists and the cross-body lists in the order of
    [operator<] on index tuples. *)
Theorem realized_lists_sorted (mm : DuMMRep) (cell : option BondTorsion)
    (mm' : DuMMRep) (cell' : option BondTorsion) (k : Z) (r : Atom) :
  realizeSubsystemTopologyImpl mm cell = Ok (mm', cell') ->
  vec_at (atoms mm') k = Some r ->
  sorted_by Z.ltb (bond12 r)
  /\ (sorted_by pair_lt (bond13 r) /\ sorted_by triple_lt (bond14 r)
      /\ sorted_by quad_lt (bond15 r))
  /\ (sorted_by pair_lt (shortPath13 r) /\ sorted_by triple_lt (shortPath14 r)
      /\ sorted_by quad_lt (shortPath15 r))
  /\ (sorted_by Z.ltb (xbond12 r) /\ sorted_by pair_lt (xbond13 r)
      /\ sorted_by triple_lt (xbond14 r) /\ sorted_by quad_lt (xbond15 r))
  /\ (sorted_by pair_lt (xshortPath13 r) /\ sorted_by triple_lt (xshortPath14 r)
      /\ sorted_by quad_lt (xshortPath15 r)).
Proof.
  intros Hok Hk.
  pose proof Hok as Hok0.
  apply realizeSubsystemTopologyImpl_Ok in Hok as (mm1 & Hbodies & Hloop).
  revert k r Hk.
  assert (forall j a', j ∈ seqZ 0 (vec_size (atoms mm1)) ->
            vec_at (atoms mm') j = Some a' ->
            (fun (_ : Z) (r : Atom) =>
               sorted_by Z.ltb (bond12 r)
               /\ (sorted_by pair_lt (bond13 r) /\ sorted_by triple_lt (bond14 r)
                   /\ sorted_by quad_lt (bond15 r))
               /\ (sorted_by pair_lt (shortPath13 r)
                   /\ sorted_by triple_lt (shortPath14 r)
                   /\ sorted_by quad_lt (shortPath15 r))
               /\ (sorted_by Z.ltb (xbond12 r) /\ sorted_by pair_lt (xbond13 r)
                   /\ sorted_by triple_lt (xbond14 r)
                   /\ sorted_by quad_lt (xbond15 r))
               /\ (sorted_by pair_lt (xshortPath13 r)
                   /\ sorted_by triple_lt (xshortPath14 r)
                   /\ sorted_by quad_lt (xshortPath15 r))) j a') as Hall.
  { apply (realizeAtoms_each _) with (st := (mm1, cell)) (st' := (mm', cell'));
      [| exact Hloop].
    clear. intros mm cell anum mm' cell' a' Hstep Ha'.
    apply realizeAtom_Ok in Hstep
      as (a & i14 & its & st & bd & tr & Ha & Hmm' & _).
    cbv zeta in Hmm'. subst mm'.
    rewrite (vec_at_store_atom _ anum anum _
               (Atom_with_bond12 a (std_sort Z.ltb (bond12 a)))) in Ha'.
    2:{ rewrite (vec_at_store_atom _ _ _ _ _ Ha). by rewrite decide_True. }
    rewrite decide_True in Ha' by done. injection Ha' as <-.
    unfold Atom_realized, realizeNeighborhoods.
    destruct (build13 _ _ _ _) as [[b13 sp13] seen13].
    destruct (buildShort14 _ _ _) as [sp14 seen14].
    destruct (buildShort15 _ _ _) as [sp15 seen15].
    cbn [bond12 bond13 bond14 bond15 shortPath13 shortPath14 shortPath15
         xbond12 xbond13 xbond14 xbond15 xshortPath13 xshortPath14 xshortPath15
         n_bond13 n_bond14 n_bond15 n_shortPath13 n_shortPath14 n_shortPath15
         n_xbond12 n_xbond13 n_xbond14 n_xbond15
         n_xshortPath13 n_xshortPath14 n_xshortPath15].
    repeat split;
      try apply sorted_by_filter;
      first [apply sorted_Z | apply sorted_pairs | apply sorted_triples
            | apply sorted_quads]. }
  intros k r Hk. apply (Hall k r); [| done].
  pose proof (vec_at_Some_range _ _ _ Hk) as Hrange.
  apply elem_of_seqZ.
  assert (vec_size (atoms mm1) = vec_size (atoms mm')) as ->; [| lia].
  apply sameBonds_realizeAtoms in Hloop as (_ & Hlen & _).
  unfold vec_size. cbn [fst] in Hlen. lia.
Qed.

Lemma realized_lists_sorted_witness :
  exists (mm' : DuMMRep) (cell' : option BondTorsion) (r : Atom),
    realizeSubsystemTopologyImpl (molecule (1, 2, 0, 3)) None = Ok (mm', cell')
    /\ vec_at (atoms mm') 0 = Some r
    /\ xbond12 r = [1; 2; 3]
    /\ sorted_by Z.ltb (bond12 r).
Proof.
  destruct molecule_realized_first as (v' & Hok & _ & _ & _ & _ & H12).
  cbv zeta in Hok, H12.
  destruct (vec_at (atoms (with_atoms (molecule (1, 2, 0, 3)) v')) 0)
    as [r |] eqn:Hr; [| discriminate].
  injection H12 as H12.
  eexists _, _, r. split; [exact Hok |]. split; [exact Hr |]. split; [exact H12 |].
  exact (proj1 (realized_lists_sorted _ _ _ _ 0 r Hok Hr)).
Defined.

(** ** Classes without van der Waals parameters in the mixed table *)

Lemma AtomClass_isComplete_parameters (c : AtomClass) :
  AtomClass_isComplete c = true ->
  exists r e, vdwRadius c = Some r /\ vdwWellDepth c = Some e.
Proof.
  unfold AtomClass_isComplete, Real_nonneg. rewrite !andb_true_iff.
  intros [[_ Hr] He].
  destruct (vdwRadius c) as [r |], (vdwWellDepth c) as [e |]; try discriminate.
  eauto.
Qed.

Section VdwTableGaps.

Variable std_pow : R -> R -> R.

Lemma vdw_read_of_lower_class (mm : DuMMRep) (i j : nat) (cls1 cls2 : AtomClass) :
  atomClasses mm !! i = Some cls1 -> atomClasses mm !! j = Some cls2 ->
  (i <= j)%nat ->
  let tables := realizeVdwTables std_pow mm in
  let read := fun (part : VdwRow -> list (option R)) =>
                row ← tables !! i; part row !! (j - i)%nat in
  match AtomClass_isComplete cls1, AtomClass_isComplete cls2 with
  | false, _ => read fst = None /\ read snd = None
  | true, false => read fst = Some None /\ read snd = Some None
  | true, true => exists d e, read fst = Some (Some d) /\ read snd = Some (Some e)
  end.
Proof.
  intros Hi Hj Hij tables read. unfold read, tables, realizeVdwTables.
  rewrite list_lookup_imap, Hi. cbn [fmap option_fmap option_map mbind option_bind].
  destruct (AtomClass_isComplete cls1) eqn:Hc1.
  - rewrite (AtomClass_isComplete_valid _ Hc1). cbn [negb].
    apply lookup_lt_Some in Hj as Hlt.
    destruct (vdwRow_lookup std_pow mm i (j - i) cls1) as [Hd He]; [lia |].
    replace (i + (j - i))%nat with j in Hd, He by lia.
    rewrite Hj in Hd, He. rewrite Hd, He.
    destruct (AtomClass_isComplete cls2) eqn:Hc2.
    + rewrite (AtomClass_isComplete_valid _ Hc2). cbn [andb].
      destruct (AtomClass_isComplete_parameters _ Hc1) as (r1 & e1 & -> & ->).
      destruct (AtomClass_isComplete_parameters _ Hc2) as (r2 & e2 & -> & ->).
      cbn [fst snd]. eauto.
    + rewrite andb_false_r. done.
  - destruct (negb (AtomClass_isValid cls1)); cbn [negb fst snd]; by rewrite ?lookup_nil.
Qed.

(** X29: classes without van der Waals parameters.  Realization builds
    the table of mixed parameters without asking that the classes be
    complete.  For two classes of the vector, the nonbonded loop's read
    of [vdwDij] and [vdwEij], the two classes named in either order, is
    outside the vector when the class of lower index is not complete, as
    its vectors stay empty; it yields NaN when the lower class is
    complete and the higher is not; and it yields numbers when both are
    complete. *)
Theorem mixed_table_without_parameters (mm : DuMMRep) (c1 c2 : Z)
    (cls1 cls2 : AtomClass) :
  vec_at (atomClasses mm) c1 = Some cls1 ->
  vec_at (atomClasses mm) c2 = Some cls2 ->
  c1 <= c2 ->
  let tables := realizeVdwTables std_pow mm in
  let reads := [vdwDij tables c1 c2; vdwEij tables c1 c2;
                vdwDij tables c2 c1; vdwEij tables c2 c1] in
  match AtomClass_isComplete cls1, AtomClass_isComplete cls2 with
  | false, _ => Forall (fun x => x = None) reads
  | true, false => Forall (fun x => x = Some None) reads
  | true, true => Forall (fun x => exists v : R, x = Some (Some v)) reads
  end.
Proof.
  intros H1 H2 Hle tables reads.
  apply vec_at_Some_lookup in H1 as [Hn1 H1], H2 as [Hn2 H2].
  pose proof (vdw_read_of_lower_class mm (Z.to_nat c1) (Z.to_nat c2) cls1 cls2
                H1 H2 ltac:(lia)) as Hread.
  cbv zeta in Hread. fold tables in Hread.
  assert (forall part : VdwRow -> list (option R),
            (row ← vec_at tables c1; vec_at (part row) (c2 - c1))
            = (row ← tables !! Z.to_nat c1;
               part row !! (Z.to_nat c2 - Z.to_nat c1)%nat)) as Hlow.
  { intros part. unfold vec_at.
    destruct (Z.ltb_spec c1 0); [lia |].
    destruct (tables !! Z.to_nat c1) as [row |]; [| done]. cbn.
    destruct (Z.ltb_spec (c2 - c1) 0); [lia |].
    by rewrite Z2Nat.inj_sub by lia. }
  assert (vdwDij tables c1 c2
          = (row ← tables !! Z.to_nat c1;
             fst row !! (Z.to_nat c2 - Z.to_nat c1)%nat)
          /\ vdwEij tables c1 c2
             = (row ← tables !! Z.to_nat c1;
                snd row !! (Z.to_nat c2 - Z.to_nat c1)%nat)
          /\ vdwDij tables c2 c1 = vdwDij tables c1 c2
          /\ vdwEij tables c2 c1 = vdwEij tables c1 c2) as (Hd & He & Hd' & He').
  { unfold vdwDij, vdwEij.
    destruct (Z.leb_spec c1 c2); [| lia]. rewrite <- !Hlow.
    split; [done |]. split; [done |].
    destruct (Z.leb_spec c2 c1); [| done].
    by assert (c1 = c2) as -> by lia. }
  unfold reads. rewrite Hd', He', Hd, He.
  destruct (AtomClass_isComplete cls1), (AtomClass_isComplete cls2).
  - destruct Hread as (d & e & -> & ->). repeat constructor; eauto.
  - destruct Hread as [-> ->]. by repeat constructor.
  - destruct Hread as [-> ->]. by repeat constructor.
  - destruct Hread as [-> ->]. by repeat constructor.
Qed.

End VdwTableGaps.

Lemma mixed_table_without_parameters_witness :
  Forall (fun x => x = None)
    [vdwDij (realizeVdwTables Rpower rep_one_class) 0 0;
     vdwEij (realizeVdwTables Rpower rep_one_class) 0 0;
     vdwDij (realizeVdwTables Rpower rep_one_class) 0 0;
     vdwEij (realizeVdwTables Rpower rep_one_class) 0 0].
Proof.
  apply (mixed_table_without_parameters Rpower rep_one_class 0 0
           (mkAtomClass 0 6 4 None None) (mkAtomClass 0 6 4 None None));
    first [reflexivity | lia].
Defined.
